(* ===== verification/_CoqProject ===== *)
-Q . S2P
Prelude.v
RStr.v
Collections.v
Payload.v
Error.v
Types.v
Validations.v
Markers.v
ReviewLoop.v
Identity.v
Record.v
Handoff.v
Correction.v
Supersession.v
Acceptance.v
Chain.v
Provider.v
Hosts.v
Paths.v
Config.v
PrView.v
PrReviews.v
Threads.v
Append.v
Report.v
Detect.v
Tracker.v
IssueTracker.v
TestDiff.v
MergePolicy.v
Convergence.v
Checks.v
Tasks.v
Branches.v
Provenance.v
WaitChecks.v
RepoView.v
Publish.v
TestChanges.v
Retire.v
HandoffRun.v
LoopInput.v
LoopCommand.v
MergeGate.v
PrMerge.v
World.v
ValidationsFacts.v
ErrorFacts.v
TestDiffFacts.v
TrackerFacts.v
TrackerEditFacts.v
TrackerGraphFacts.v
ConfigFacts.v
TasksFacts.v
DetectFacts.v
ReviewLoopFacts.v
IdentityFacts.v
ReceiptFacts.v
ChainFacts.v
LedgerFacts.v
RecordFacts.v
HandoffFacts.v
RetireFacts.v
IoFacts.v
IssueTrackerFacts.v
LoopInputFacts.v
AppendFacts.v
ThreadsFacts.v
MergePolicyFacts.v
ConvergenceFacts.v
ChecksFacts.v
BranchesFacts.v
PublishFacts.v
TestChangesFacts.v
MergeGateFacts.v
HandoffRunFacts.v
PrMergeFacts.v
LoopFacts.v
SweepFacts.v
Lifecycle.v
