(* ===== verification/Prelude.v ===== *)
(** * forge-cli: the review ledger, the gates of a merge, and the program trackers

    This development models the part of nils-cli that decides whether a pull request may be
    merged, and merges it: the append-only review ledger that [forge-cli] keeps in the comments
    of a pull request, the bounded review loop that grows it, the designated reviewer who owns
    it, and the chain of gates of [forge-cli pr merge] that reads it together with the checks,
    the native reviews, the review threads, the holds and freezes and the configuration.  Beside
    it are the rules that every posted text and every new pull request pass, and the program
    trackers: issues whose body is a table of work items with the graph that the table derives.
    The code is in [src/crates/forge-cli/src/] (mostly [ops/]) and [src/crates/nils-common/src/].

    ** How the program works

    A ledger record is JSON in a hex-coded HTML comment inside a provider comment, with a
    digest of its own contents and the digest of the record before it.  Every command reads
    all comments, keeps those of trusted authors, parses them into one chain ([parse_chain]),
    decides on the chain, and appends at most one record under the tip it read.  An
    [observe] feeds findings into the loop, which counts repair rounds, rounds without
    progress and reopened findings against budgets and records a durable stop when one is
    exhausted; [extend] raises one budget by an approved proposal; corrections,
    supersessions and acceptances are receipts that amend a stopped or wrongly closed loop.
    A handoff record assigns the review to another session; from then on only the session it
    names may write, and the merge gate also needs that reviewer's published passing report.

    [pr merge] detects the provider from the remote, layers the user's and the repository's
    configuration, and runs the gates in a fixed order ([PrMerge.lockdown_gates]): a clean
    worktree, the view of the pull request with the attested head and base, hold labels, the
    repository's default branch, freezes and the merge queue, the merge method, the required
    checks, the review ledger, the convergence of native reviews, unresolved threads, the task
    list, then the convergence, the policy and the holds again, the branches stacked on the
    head, and last the review ledger again, compared with what the first reading saw.  Then it
    makes one write: the merge with the gated head, or the enqueue of it, and in the second
    case waits for the queue.

    What a command posts passes the payload rules first: no home path, no agent attribution and
    no escaped control characters outside code; [pr create] adds the rules on branch, title,
    sections, checkout and push, and a preflight evaluates all of them at once.  A tracker command
    reads the issue once, parses its phase table by a strict row grammar, and answers, or edits
    the body that it has read: [tick] changes one row, [graph --write] one block; [lint] reports
    the defects of the table and, on request, the rows that disagree with the issues they name.

    ** The files

    Foundations
    - [Prelude]: results, monadic folds, bounded integers, tactics and hints.
    - [RStr]: Rust strings as their UTF-8 bytes, the [str] functions the code calls, and the
      lemmas on texts and lines.
    - [Collections]: [BTreeMap] and [BTreeSet] as [gmap] and [gset] with their ordered
      iteration, and sorted, deduplicated vectors.

    The model, one file per component, in the order the code calls them
    - [Payload]: [nils-common/src/provider_payload.rs], [markdown.rs] and
      [agent_attribution.rs]: what a posted text may not hold.
    - [Error]: [error.rs] and the envelope of [nils-common/src/cli_contract.rs].
    - [Types]: the records and enums of [ops/review_state.rs] and its submodules.
    - [Validations]: [validations.rs]: the lock-down rules, the preflight and the chain of
      [pr create].
    - [Markers]: owned comment markers, hex and digests.
    - [ReviewLoop]: [observe_review_loop], hard stops, extensions, [ceiling_proposal].
    - [Identity]: [nils-common/src/forge_identity/] (policy and session) and
      [canonical_git_host].
    - [Record]: digest, marker, rendering and parsing of one record.
    - [Handoff]: [ops/pr_review_handoff.rs] with [surrender.rs], [approval.rs], [policy.rs] and
      [policy/attestation.rs]: the ownership rules and the proposals of the commands.
    - [Retire]: the retirement proof of a coordinator over a session board, its [diagnostics.rs]
      and the supervisor policy of the base branch.
    - [Correction], [Supersession], [Acceptance]: [ops/review_state/*.rs].
    - [Chain]: [parse_chain].
    - [Provider]: the backend, pagination and the snapshot ([ops/pr_review.rs]).
    - [Append]: [ops/pr_review/pr_review_append.rs].
    - [Report]: validation of reports, read-backs, base-sync merges.
    - [Publish]: [admit_published] and the delivery gate; [HandoffRun]: the commands of
      [pr review-handoff].
    - [TestDiff], [Provenance], [TestChanges]: [ops/pr_review_handoff/test_integrity.rs] and
      [test_integrity/*.rs]: the findings of a diff, the changed files with the patches or the
      upstream blobs they rest on, and the gate a designated pass goes through.
    - [LoopInput], [LoopCommand]: [ops/pr_review_loop.rs] and
      [ops/pr_review_loop/*.rs]: the input, the sweep and the runs of [inspect], [observe] and
      [extend].
    - [MergeGate]: [ensure_merge_ready] and [recheck_merge_ready].
    - [Hosts], [Detect]: authorities and remotes, and [detect_with_scope] of [provider.rs].
    - [Paths], [Config]: time and durations, paths and the file system, [config.rs] and
      [config/test_first.rs].
    - [PrView], [PrReviews], [Threads]: what the provider shows of a pull request:
      [ops/pr_view.rs] with [pr_state.rs], [merge_queue.rs] and [pr_lifecycle.rs],
      [ops/pr_reviews.rs], [ops/pr_review_threads.rs].
    - [WaitChecks]: [ops/pr_wait_checks.rs] with [pr_wait_checks/poll.rs].
    - [MergePolicy], [Convergence], [Checks], [Tasks], [Branches], [RepoView]: the
      gates: [ops/merge_policy.rs], [ops/review_convergence.rs], [ops/pr_checks.rs] with
      [pr_checks/github_gate.rs] and [required_check_gate.rs], [ops/pr_tasks.rs],
      [ops/stacked_branch.rs], [ops/repo_view.rs], [ops/pr_hold.rs].
    - [PrMerge]: [ops/pr_merge_review.rs] and [ops/pr_merge.rs]: the chain.
    - [Tracker]: [tracker/mod.rs] and [tracker/edit.rs]: rows, findings, graph and
      edits of a tracker's body.
    - [IssueTracker]: [ops/issue_view.rs], [issue_comment.rs] and [issue_edit.rs], and
      [ops/issue_tracker.rs] and its [tick], [graph], [lint] and [show].

    Stand-ins
    - [World]: executable instances of the parameters below, and a provider that is the list of
      comments of one pull request.

    Theorems, beside the component they are about
    - [ErrorFacts], [IdentityFacts], [ReviewLoopFacts], [ReceiptFacts] (the three receipts),
      [RecordFacts], [HandoffFacts]: each component on its own: what an operation changes,
      what it refuses, what the reader accepts of what the writer makes.
    - [ChainFacts], [LedgerFacts]: the walk of [parse_chain]: well-formedness, no panic and
      termination, independence of comment order, one owner per generation, and exactly which
      records may be ignored, and what appending to a parsed chain does.
    - [IoFacts], [LoopInputFacts], [AppendFacts], [PublishFacts], [MergeGateFacts],
      [LoopFacts]: computations over a world: what is read, what is written and by which right.
    - [SweepFacts]: the preflight sweep against the run it predicts; [Lifecycle]: what a command
      writes is what the ledger says next, and the invariant of every ledger the
      commands can grow, that review is bounded by approvals.
    - [ConfigFacts], [TasksFacts], [DetectFacts], [ThreadsFacts] (with the native reviews),
      [MergePolicyFacts], [ConvergenceFacts], [ChecksFacts] (with the waiting), [BranchesFacts]: each gate on its own: what it lets through, on which evidence, and that
      its loops end.
    - [HandoffRunFacts]: what a handoff command may append, and what it calls reviewed.
    - [TestDiffFacts], [TestChangesFacts]: the scan reads a diff as git writes it, its depth
      counter fits its 32 bits, the gate admits only complete, declared and confirmed test
      changes, and a confirmation covers one comparison only.
    - [PrMergeFacts]: the chain of a merge: one write at most, after every gate, naming the
      attested head; what a failed call means; where a waiver may come from.
    - [RetireFacts]: with [Retire.local_authority] behind the interface that [HandoffFacts] uses, a
      takeover rests on a session of the board that ended long enough ago.
    - [ValidationsFacts]: the rules of posted text see
      exactly the prose of a text, a home path is refused wherever it stands, and the preflight
      predicts [pr create].
    - [TrackerFacts]: the findings of a table are its defects, cycles included;
      [TrackerEditFacts]: a ticked row is read back as the same row, done, and
      nothing else changes; [TrackerGraphFacts]: a written graph is the one that lint expects;
      [IssueTrackerFacts]: the commands over a world: what they write, that a second run writes
      nothing, and what the check of states says.

    ** How state and effects correspond

    Pure code is a function into [result ForgeError] extended by the ways Rust can stop:
    [exec A] is [result stop A], and [stop] is a typed failure ([Fail]), a panic ([Panicked]:
    [expect], [unwrap], indexing, checked arithmetic) or an exhausted fuel ([OutOfFuel]).  Code
    that calls the provider is [io W A := W -> exec A * W] over a type [W] of worlds with a
    [Backend] instance: [run_call] answers one call and gives the world after it, so reads may
    see other sessions' writes in between.  Nothing is assumed of a backend except where a
    theorem names it: [observes_reads] and [observes_posts] say that reading leaves the list of
    posted comments alone and that posting extends it by the comment.

    [u32] and [u64] are [N] with their bounds written out where the code checks, saturates or
    could overflow; lengths and counts are [nat] or [N].  Maps are [gmap string], which has the
    extensional equality of [BTreeMap]; iteration is in key order where the order can be seen.

    ** Parameters

    Code outside the modelled sources is a class or an argument: [Hasher] (SHA-256, of which
    only the length is ever assumed), [Serialize], [Deserialize] and [LedgerSerde] (the serde
    derives), [JsonText], [EnvelopeSerde], [UrlParse], [TimestampParse], [UuidParse],
    [SecretPattern], [PayloadEnv] (the two environment variables that bypass a payload rule),
    [Authority] (supervisors, session board and broker as the ledger sees them, which
    [Retire.local_authority] implements), [SessionBoard] and [TimestampText] (the board process and
    the format of a date), [TextFiles] (a file or the standard input), [Objects] (the isolated
    git repository), [ReviewReads] (the test-change gate as its client sees it, which
    [TestChanges.test_gate] implements), [Clock] and [WallClock] (instants and the date),
    [WideAlphanumeric] (letters beyond ASCII), [Base64Decode], [Sha1Hex], [TextDiff] (a
    [git diff --no-index] process), [ChangeSerde] (the serde derives of the gate), [UrlEncode], [TomlText] (the TOML parser), [LocalFiles] (the files and the git
    processes of the checkout), and [canonicalize] of the file system.  JSON values are trees
    with natural numbers, strings, booleans and null, which is what the modelled code reads out
    of them.

    ** Fuel

    The walk of [parse_chain] visits a record per step and never one twice, so one more than
    the number of digests is enough; the work list of [ignore_subtrees] pops each digest at
    most once per edge, so the number of records plus edges plus one is enough;
    [LedgerFacts.parse_chain_never_panics] proves that neither runs out.  Pages of
    comments and reviews are a list of at most 100, as in the code.  The threads have no page
    limit and the three waiting loops no bound but time: [ThreadsFacts.reading_threads_ends],
    [ConvergenceFacts.convergence_ends], [MergePolicyFacts.waiting_for_the_queue_ends] and
    [ChecksFacts.waiting_for_checks_ends] prove that some fuel is enough, the last three
    where time passes.  The search for cycles of a table has twice the edges plus one steps:
    [TrackerFacts] proves that it always ends.

    ** Not modelled

    Argument parsing and printing; building the argv of [gh]; everything GitLab in the merge
    (its API call, discussions, pipelines, holds and stacked branches) and the dry run of
    [pr merge]; the commands that edit checklists and resolve threads; creating, closing and
    listing issues, the local issue store, releases and inboxes; and every other crate of the
    workspace, which are wrappers over processes, files and sockets. *)
From stdpp Require Export base tactics option list gmap strings sorting pretty.
From Stdlib Require Export NArith Lia Ascii.
From stdpp Require Import options.

(** ** Computations that may fail

    [result E A] is Rust's [Result<A, E>]. *)
Inductive result (E A : Type) : Type :=
  | Ok (a : A)
  | Err (e : E).
Arguments Ok {E A} _.
Arguments Err {E A} _.

#[global] Instance result_ret {E} : MRet (result E) := λ A a, Ok a.
#[global] Instance result_bind {E} : MBind (result E) := λ A B f m,
  match m with Ok a => f a | Err e => Err e end.
#[global] Instance result_fmap {E} : FMap (result E) := λ A B f m,
  match m with Ok a => Ok (f a) | Err e => Err e end.

(** [map_err], [ok_or] and [ok] of the standard library. *)
Definition map_err {E F A} (f : E → F) (m : result E A) : result F A :=
  match m with Ok a => Ok a | Err e => Err (f e) end.

Definition ok_or {E A} (e : E) (o : option A) : result E A :=
  match o with Some a => Ok a | None => Err e end.

Definition ok {E A} (m : result E A) : option A :=
  match m with Ok a => Some a | Err _ => None end.

Definition is_ok {E A} (m : result E A) : bool :=
  match m with Ok _ => true | Err _ => false end.

(** A loop [for x in l { acc = f(acc, x)? }]. *)
Fixpoint foldM {E A B} (f : B → A → result E B) (acc : B) (l : list A) : result E B :=
  match l with
  | [] => Ok acc
  | x :: l => f acc x ≫= λ acc', foldM f acc' l
  end.

(** A loop [for x in l { f(x)?; }]. *)
Fixpoint iterM {E A} (f : A → result E unit) (l : list A) : result E unit :=
  match l with
  | [] => Ok tt
  | x :: l => f x ≫= λ _, iterM f l
  end.

(** [iter().map(f).collect::<Result<Vec<_>, _>>()]. *)
Fixpoint mapR {E A B} (f : A → result E B) (l : list A) : result E (list B) :=
  match l with
  | [] => Ok []
  | x :: l => f x ≫= λ y, mapR f l ≫= λ ys, Ok (y :: ys)
  end.

(** [iter().find_map(f)], [iter().position(p)] and [iter().find(p)]. *)
Fixpoint find_map {A B} (f : A → option B) (l : list A) : option B :=
  match l with
  | [] => None
  | x :: l => match f x with Some y => Some y | None => find_map f l end
  end.

Fixpoint position {A} (p : A → bool) (l : list A) : option nat :=
  match l with
  | [] => None
  | x :: l => if p x then Some 0 else S <$> position p l
  end.

Fixpoint find_first {A} (p : A → bool) (l : list A) : option A :=
  match l with
  | [] => None
  | x :: l => if p x then Some x else find_first p l
  end.

(** [iter().take_while(p)]. *)
Fixpoint take_while {A} (p : A → bool) (l : list A) : list A :=
  match l with
  | [] => []
  | x :: l => if p x then x :: take_while p l else []
  end.

(** [Option::is_some_and] and [Option::is_none_or]. *)
Definition is_some_and {A} (o : option A) (p : A → bool) : bool :=
  match o with Some a => p a | None => false end.

Definition is_none_or {A} (o : option A) (p : A → bool) : bool :=
  match o with Some a => p a | None => true end.

Definition is_some {A} (o : option A) : bool :=
  match o with Some _ => true | None => false end.

Definition is_none {A} (o : option A) : bool :=
  match o with Some _ => false | None => true end.

(** [iter().filter(p).count()] as a [usize]. *)
Definition count_if {A} (p : A → bool) (l : list A) : N :=
  N.of_nat (length (List.filter p l)).

(** Rust's [==] on a type whose [PartialEq] is derived. *)
Notation "x ==? y" := (bool_decide (x = y)) (at level 70, no associativity) : stdpp_scope.
Notation "x !=? y" := (negb (bool_decide (x = y))) (at level 70, no associativity) : stdpp_scope.

(** ** Machine integers

    [u32] and [u64] values are [N]; the operations the source uses are written
    out at their width.  [wrapping_add] is the [+] of a release build (the
    workspace sets no [overflow-checks]). *)
Definition u32_max : N := 4294967295.
Definition u64_max : N := 18446744073709551615.

Definition checked_add (max a b : N) : option N :=
  if (a + b <=? max)%N then Some (a + b)%N else None.
Definition saturating_add (max a b : N) : N := N.min (a + b) max.
Definition wrapping_add (max a b : N) : N := ((a + b) mod (max + 1))%N.

(** ** Lemmas on results *)

Lemma bind_ok {E A B} (m : result E A) (f : A → result E B) b :
  m ≫= f = Ok b ↔ ∃ a, m = Ok a ∧ f a = Ok b.
Proof. destruct m as [a|e]; cbn; [naive_solver|]. split; [done|]. by intros (? & ? & ?). Qed.

Lemma bind_err {E A B} (m : result E A) (f : A → result E B) e :
  m ≫= f = Err e ↔ m = Err e ∨ ∃ a, m = Ok a ∧ f a = Err e.
Proof. destruct m as [a|e']; cbn; naive_solver. Qed.

Lemma map_err_ok {E F A} (f : E → F) (m : result E A) a :
  map_err f m = Ok a ↔ m = Ok a.
Proof. destruct m; cbn; naive_solver. Qed.

Lemma ok_or_ok {E A} (e : E) (o : option A) a : ok_or e o = Ok a ↔ o = Some a.
Proof. destruct o; cbn; naive_solver. Qed.

(** [inv_bind H]: break a hypothesis [m ≫= f = Ok b] into its parts, recursively
    through binds, [map_err] and [ok_or]. *)
Ltac inv_ok :=
  repeat match goal with
  | H : mbind _ ?m = Ok _ |- _ => apply bind_ok in H; destruct H as (? & ? & ?)
  | H : map_err _ _ = Ok _ |- _ => apply map_err_ok in H
  | H : ok_or _ _ = Ok _ |- _ => apply ok_or_ok in H
  | H : Ok _ = Ok _ |- _ => injection H as H; try subst
  | H : Err _ = Ok _ |- _ => discriminate H
  | H : Ok _ = Err _ |- _ => discriminate H
  | H : mret _ = Ok _ |- _ => injection H as H; try subst
  end.

(** [split_if]: case analysis on a boolean test in a hypothesis, keeping the
    branches in which the computation can still succeed. *)
Ltac split_if H :=
  match type of H with
  | (if ?b then _ else _) = _ =>
      let E := fresh "Hif" in destruct b eqn:E; try discriminate H
  end.

(** [bool_facts]: turn boolean hypotheses into propositions. *)
Ltac bool_facts :=
  repeat match goal with
  | H : (_ && _) = true |- _ => apply andb_true_iff in H; destruct H
  | H : (_ || _) = false |- _ => apply orb_false_iff in H; destruct H
  | H : negb _ = true |- _ => apply negb_true_iff in H
  | H : negb _ = false |- _ => apply negb_false_iff in H
  | H : bool_decide _ = true |- _ => apply bool_decide_eq_true in H
  | H : bool_decide _ = false |- _ => apply bool_decide_eq_false in H
  | H : (_ =? _)%N = true |- _ => apply N.eqb_eq in H
  | H : (_ =? _)%N = false |- _ => apply N.eqb_neq in H
  | H : (_ <=? _)%N = true |- _ => apply N.leb_le in H
  | H : (_ <=? _)%N = false |- _ => apply N.leb_gt in H
  | H : (_ <? _)%N = true |- _ => apply N.ltb_lt in H
  | H : (_ <? _)%N = false |- _ => apply N.ltb_ge in H
  end.

(** Evaluating a computation without writing its value down. *)
Definition unwrap_or {E A} (d : A) (r : result E A) : A :=
  match r with Ok a => a | Err _ => d end.

Lemma ok_unwrap {E A} (d : A) (r : result E A) : is_ok r = true → r = Ok (unwrap_or d r).
Proof. by destruct r. Qed.

Lemma some_unwrap {A} (d : A) (o : option A) : is_some o = true → o = Some (default d o).
Proof. by destruct o. Qed.

(** A computation whose value has decidable equality. *)
Lemma ok_equals {E A} `{!EqDecision A} (r : result E A) a :
  match r with Ok a' => bool_decide (a' = a) | Err _ => false end = true → r = Ok a.
Proof. destruct r; [|done]. by intros ->%bool_decide_eq_true. Qed.

(** [evaluates]: the goal is [r = Ok (unwrap_or _ r)], [o = Some (default _ o)], [r = Ok a]
    or a decidable proposition. *)
Ltac evaluates :=
  first [ apply ok_unwrap; vm_compute; reflexivity
        | apply some_unwrap; vm_compute; reflexivity
        | refine (ok_equals _ _ _); vm_compute; reflexivity
        | refine (proj1 (bool_decide_eq_true _) _); vm_compute; reflexivity ].

(** [by_decide]: evaluate a decidable proposition. *)
Ltac by_decide := refine (proj1 (bool_decide_eq_true _) _); vm_compute; reflexivity.

Lemma foldM_app {E A B} (f : B → A → result E B) l1 l2 acc :
  foldM f acc (l1 ++ l2) = foldM f acc l1 ≫= λ acc', foldM f acc' l2.
Proof.
  revert acc. induction l1 as [|x l1 IH]; intros acc; cbn; [done|].
  destruct (f acc x); cbn; [apply IH|done].
Qed.

(** Invariant rule for [foldM]: [P] relates the elements consumed so far to the
    accumulator. *)
Lemma foldM_inv {E A B} (f : B → A → result E B) (P : list A → B → Prop) :
  (∀ seen acc x acc', P seen acc → f acc x = Ok acc' → P (seen ++ [x]) acc') →
  ∀ l seen acc acc', P seen acc → foldM f acc l = Ok acc' → P (seen ++ l) acc'.
Proof.
  intros Hstep l. induction l as [|x l IH]; intros seen acc acc' HP; cbn; intros H.
  - inv_ok. by rewrite app_nil_r.
  - inv_ok. rewrite cons_middle, app_assoc. eauto.
Qed.

Lemma iterM_ok {E A} (f : A → result E unit) l :
  iterM f l = Ok tt ↔ ∀ x, x ∈ l → f x = Ok tt.
Proof.
  induction l as [|y l IH]; cbn.
  - split; [|done]. intros _ x Hx. by apply not_elem_of_nil in Hx.
  - destruct (f y) as [[]|e] eqn:E1; cbn.
    + rewrite IH. split; intros H x Hx; [|apply H; by right].
      apply elem_of_cons in Hx as [->|Hx]; auto.
    + split; [done|]. intros H. specialize (H y (list_elem_of_here _ _)). congruence.
Qed.

Lemma mapR_ok_Forall2 {E A B} (f : A → result E B) l l' :
  mapR f l = Ok l' ↔ Forall2 (λ x y, f x = Ok y) l l'.
Proof.
  revert l'. induction l as [|x l IH]; intros l'; cbn.
  - split; [intros [= <-]; constructor|]. by inversion 1.
  - split.
    + intros H. inv_ok. constructor; [done|]. by apply IH.
    + inversion 1 as [|? ? ? ? Hx Hl]; subst. rewrite Hx. cbn.
      apply IH in Hl. by rewrite Hl.
Qed.

(** ** Lemmas on searches *)

Lemma find_map_some {A B} (f : A → option B) l y :
  find_map f l = Some y ↔
  ∃ l1 x l2, l = l1 ++ x :: l2 ∧ f x = Some y ∧ ∀ z, z ∈ l1 → f z = None.
Proof.
  split.
  - induction l as [|x l IH]; cbn; [done|]. destruct (f x) as [y'|] eqn:E1.
    + intros [= <-]. exists [], x, l. split; [done|]. split; [done|].
      intros z Hz. by apply not_elem_of_nil in Hz.
    + intros H. destruct (IH H) as (l1 & x' & l2 & -> & Hx' & Hl1).
      exists (x :: l1), x', l2. split; [done|]. split; [done|].
      intros z [->|Hz]%elem_of_cons; auto.
  - intros (l1 & x & l2 & -> & Hx & Hl1). induction l1 as [|z l1 IH]; cbn.
    + by rewrite Hx.
    + rewrite (Hl1 z (list_elem_of_here _ _)). apply IH. intros w Hw.
      apply Hl1. by right.
Qed.

Lemma find_map_none {A B} (f : A → option B) l :
  find_map f l = None ↔ ∀ x, x ∈ l → f x = None.
Proof.
  induction l as [|x l IH]; cbn.
  - split; [|done]. intros _ x Hx. by apply not_elem_of_nil in Hx.
  - destruct (f x) eqn:E1.
    + split; [done|]. intros H. specialize (H x (list_elem_of_here _ _)). congruence.
    + rewrite IH. split; intros H z; [|intros; apply H; by right].
      intros [->|Hz]%elem_of_cons; auto.
Qed.

Lemma find_map_app {A B} (f : A → option B) l1 l2 :
  find_map f (l1 ++ l2) =
  match find_map f l1 with Some y => Some y | None => find_map f l2 end.
Proof. induction l1 as [|x l1 IH]; cbn; [done|]. by destruct (f x). Qed.

Lemma find_map_in {A B} (f : A → option B) l y :
  find_map f l = Some y → ∃ x, x ∈ l ∧ f x = Some y.
Proof.
  intros (l1 & x & l2 & -> & Hx & _)%find_map_some. exists x. split; [|done].
  apply elem_of_app. right. by left.
Qed.

Lemma find_first_some {A} (p : A → bool) l x :
  find_first p l = Some x → x ∈ l ∧ p x = true.
Proof.
  induction l as [|y l IH]; cbn; [done|]. destruct (p y) eqn:E1.
  - intros [= <-]. split; [by left|done].
  - intros H. destruct (IH H). split; [by right|done].
Qed.

Lemma find_first_none {A} (p : A → bool) l :
  find_first p l = None ↔ ∀ x, x ∈ l → p x = false.
Proof.
  induction l as [|y l IH]; cbn.
  - split; [|done]. intros _ x Hx. by apply not_elem_of_nil in Hx.
  - destruct (p y) eqn:E1.
    + split; [done|]. intros H. specialize (H y (list_elem_of_here _ _)). congruence.
    + rewrite IH. split; intros H z; [|intros; apply H; by right].
      intros [->|Hz]%elem_of_cons; auto.
Qed.

Lemma negb_decide_false P `{!Decision P} : negb (bool_decide P) = false → P.
Proof. by intros ?%negb_false_iff%bool_decide_eq_true. Qed.

Lemma existsb_true {A} (p : A → bool) l : existsb p l = true ↔ ∃ x, x ∈ l ∧ p x = true.
Proof. rewrite existsb_exists. by setoid_rewrite list_elem_of_In. Qed.

Lemma existsb_false {A} (p : A → bool) l : existsb p l = false ↔ ∀ x, x ∈ l → p x = false.
Proof.
  rewrite <- not_true_iff_false, existsb_true. split.
  - intros H x Hx. apply not_true_iff_false. intros Hp. apply H. by exists x.
  - intros H (x & Hx & Hp). by rewrite H in Hp.
Qed.

Lemma forallb_true {A} (p : A → bool) l : forallb p l = true ↔ ∀ x, x ∈ l → p x = true.
Proof. rewrite forallb_forall. by setoid_rewrite list_elem_of_In. Qed.

Lemma elem_of_rev {A} (l : list A) x : x ∈ rev l ↔ x ∈ l.
Proof. by rewrite !list_elem_of_In, <- in_rev. Qed.

Lemma elem_of_list_filter {A} (f : A → bool) l x :
  x ∈ List.filter f l ↔ x ∈ l ∧ f x = true.
Proof. by rewrite !list_elem_of_In, filter_In. Qed.

Lemma position_some {A} (p : A → bool) l i :
  position p l = Some i →
  ∃ x, l !! i = Some x ∧ p x = true ∧ ∀ j y, j < i → l !! j = Some y → p y = false.
Proof.
  revert i. induction l as [|y l IH]; cbn; [done|]. destruct (p y) eqn:E1.
  - intros i [= <-]. exists y. split; [done|]. split; [done|]. intros j ? ?. lia.
  - intros i Hi. destruct (position p l) as [k|] eqn:Ek; cbn in Hi; [|done].
    injection Hi as <-. destruct (IH k eq_refl) as (x & Hx & Hp & Hlt).
    exists x. split; [done|]. split; [done|]. intros [|j] z Hj; cbn.
    + by intros [= <-].
    + intros Hz. eapply Hlt; [|exact Hz]. lia.
Qed.

Lemma take_while_elem {A} (p : A → bool) l x :
  x ∈ take_while p l → x ∈ l ∧ p x = true.
Proof.
  induction l as [|y l IH]; cbn; [intros Hx; by apply not_elem_of_nil in Hx|].
  destruct (p y) eqn:E1; [|intros Hx; by apply not_elem_of_nil in Hx].
  intros [->|Hx]%elem_of_cons; [split; [by left|done]|].
  destruct (IH Hx). split; [by right|done].
Qed.

(** ** Hints *)

Create HintDb ledger discriminated.
Create Rewrite HintDb result.

#[export] Hint Rewrite @bind_ok @map_err_ok @ok_or_ok : result.
#[export] Hint Resolve find_map_in take_while_elem find_first_some : ledger.
