(* ===== verification/RStr.v ===== *)
(** * Rust strings

    The [str] functions that the code uses, byte for byte, and the lemmas on slices, trims,
    occurrences and lines that the theorems share. *)
From S2P Require Import Prelude.
From Stdlib Require Import DecimalString DecimalPos DecimalN.
From stdpp Require Import options.

(** ** Rust strings

    A Rust [str] is its UTF-8 bytes: a [string], one [ascii] per byte.  The
    functions here are the parts of the Rust standard library the review ledger
    uses on strings ([str::strip_prefix], [str::split], [str::lines],
    [str::trim], ...), byte for byte.  UTF-8 is self-synchronising, so searching
    for a pattern that is itself valid UTF-8 byte by byte finds exactly what the
    [char]-wise search of the library finds. *)

(** ** Bytes *)

Definition byte_in (lo hi : N) (c : ascii) : bool :=
  ((lo <=? N_of_ascii c) && (N_of_ascii c <=? hi))%N.

Definition is_ascii_digit (c : ascii) : bool := byte_in 48 57 c.
Definition is_ascii_lowercase (c : ascii) : bool := byte_in 97 122 c.
Definition is_ascii_uppercase (c : ascii) : bool := byte_in 65 90 c.
Definition is_ascii_alphanumeric (c : ascii) : bool :=
  is_ascii_digit c || is_ascii_lowercase c || is_ascii_uppercase c.
Definition is_ascii_hexdigit (c : ascii) : bool :=
  is_ascii_digit c || byte_in 97 102 c || byte_in 65 70 c.
(** [b.is_ascii_digit() || (b'a'..=b'f').contains(&b)]. *)
Definition is_lower_hex (c : ascii) : bool := is_ascii_digit c || byte_in 97 102 c.

Definition to_ascii_lowercase_byte (c : ascii) : ascii :=
  if is_ascii_uppercase c then ascii_of_N (N_of_ascii c + 32) else c.

Definition to_ascii_uppercase_byte (c : ascii) : ascii :=
  if is_ascii_lowercase c then ascii_of_N (N_of_ascii c - 32) else c.

(** ** Whole strings *)

Definition len (s : string) : N := N.of_nat (String.length s).
Definition is_empty (s : string) : bool := match s with EmptyString => true | _ => false end.

(** [s.bytes().all(p)]. *)
Fixpoint all_bytes (p : ascii → bool) (s : string) : bool :=
  match s with EmptyString => true | String c s => p c && all_bytes p s end.

Fixpoint map_bytes (f : ascii → ascii) (s : string) : string :=
  match s with EmptyString => EmptyString | String c s => String (f c) (map_bytes f s) end.

Definition to_ascii_lowercase (s : string) : string := map_bytes to_ascii_lowercase_byte s.
Definition to_ascii_uppercase (s : string) : string := map_bytes to_ascii_uppercase_byte s.

(** [str::strip_prefix] and [str::starts_with]. *)
Fixpoint strip_prefix (p s : string) : option string :=
  match p, s with
  | EmptyString, _ => Some s
  | String a p, String b s => if Ascii.eqb a b then strip_prefix p s else None
  | String _ _, EmptyString => None
  end.

Definition starts_with (p s : string) : bool := is_some (strip_prefix p s).

(** [str::strip_suffix] and [str::ends_with]. *)
Fixpoint strip_suffix (p s : string) : option string :=
  if String.eqb s p then Some EmptyString
  else match s with
       | EmptyString => None
       | String c s => String c <$> strip_suffix p s
       end.

Definition ends_with (p s : string) : bool := is_some (strip_suffix p s).

(** [str::split_once]: the text before and after the first occurrence.  [str::find]
    followed by slicing at the match is this function. *)
Fixpoint split_once (p s : string) : option (string * string) :=
  match strip_prefix p s with
  | Some rest => Some (EmptyString, rest)
  | None => match s with
            | EmptyString => None
            | String c s => prod_map (String c) id <$> split_once p s
            end
  end.

Definition contains (p s : string) : bool := is_some (split_once p s).

(** [s.split(p)] for a text that is not empty: [skip] bytes of a match are still to be passed. *)
Fixpoint split_str_from (p : string) (skip : nat) (s : string) : list string :=
  match s with
  | EmptyString => [EmptyString]
  | String c rest =>
      match skip with
      | S skip => split_str_from p skip rest
      | 0 =>
          if starts_with p s then EmptyString :: split_str_from p (String.length p - 1) rest
          else match split_str_from p 0 rest with
               | w :: ws => String c w :: ws
               | [] => []
               end
      end
  end.
Definition split_str (p s : string) : list string := split_str_from p 0 s.

(** [s.split(c)] for a one-byte separator: never empty. *)
Fixpoint split_char (c : ascii) (s : string) : list string :=
  match s with
  | EmptyString => [EmptyString]
  | String d s =>
      if Ascii.eqb d c then EmptyString :: split_char c s
      else match split_char c s with
           | [] => [String d EmptyString]
           | w :: ws => String d w :: ws
           end
  end.

(** *** Slices and trims by bytes *)
Fixpoint take_bytes (n : nat) (s : string) : string :=
  match n, s with S n, String c s => String c (take_bytes n s) | _, _ => EmptyString end.
Fixpoint drop_bytes (n : nat) (s : string) : string :=
  match n, s with S n, String _ s => drop_bytes n s | _, _ => s end.

Fixpoint trim_start_bytes (p : ascii → bool) (s : string) : string :=
  match s with
  | String c s' => if p c then trim_start_bytes p s' else s
  | EmptyString => EmptyString
  end.
Fixpoint trim_end_bytes (p : ascii → bool) (s : string) : string :=
  match s with
  | String c s => let t := trim_end_bytes p s in if is_empty t && p c then EmptyString else String c t
  | EmptyString => EmptyString
  end.

(** [rsplit_once] at a byte. *)
Fixpoint rsplit_once (c : ascii) (s : string) : option (string * string) :=
  match s with
  | EmptyString => None
  | String b s =>
      match rsplit_once c s with
      | Some (l, r) => Some (String b l, r)
      | None => if Ascii.eqb b c then Some (EmptyString, s) else None
      end
  end.

(** [match_indices(p)] for a non-empty pattern: the offsets of the matches from the left, which do
    not overlap; [skip] bytes of a match are still to be passed. *)
Fixpoint match_indices_from (p : string) (skip at_ : nat) (s : string) : list nat :=
  match s with
  | EmptyString => []
  | String _ s' =>
      match skip with
      | S skip => match_indices_from p skip (S at_) s'
      | 0 => if starts_with p s then at_ :: match_indices_from p (String.length p - 1) (S at_) s'
             else match_indices_from p 0 (S at_) s'
      end
  end.
Definition match_indices (p s : string) : list nat := match_indices_from p 0 0 s.

(** [split_inclusive(c)]: the pieces keep the byte that ends them, and none is empty. *)
Fixpoint split_inclusive (c : ascii) (s : string) : list string :=
  match s with
  | EmptyString => []
  | String d s =>
      if Ascii.eqb d c then String d EmptyString :: split_inclusive c s
      else match split_inclusive c s with
           | [] => [String d EmptyString]
           | w :: ws => String d w :: ws
           end
  end.

(** The bytes from the start that satisfy a test. *)
Fixpoint take_bytes_while (p : ascii → bool) (s : string) : string :=
  match s with
  | String c s => if p c then String c (take_bytes_while p s) else EmptyString
  | EmptyString => EmptyString
  end.

Definition newline : ascii := "010".
Definition carriage_return : ascii := "013".

(** [str::lines]: each line ends at a line feed; a carriage return just before
    that line feed is dropped, one at the end of an unterminated line is kept; an
    empty last line is not a line. *)
Fixpoint lines_of (segments : list string) : list string :=
  match segments with
  | [] => []
  | [w] => if is_empty w then [] else [w]
  | w :: ws =>
      default w (strip_suffix (String carriage_return EmptyString) w) :: lines_of ws
  end.

Definition lines (s : string) : list string := lines_of (split_char newline s).

(** [[T]::join]. *)
Definition join (sep : string) (l : list string) : string := String.concat sep l.

(** ** Whitespace: the code points with the property [White_Space], by the number
    of bytes of their UTF-8 encoding *)
Definition ws1 (a : ascii) : bool := byte_in 9 13 a || byte_in 32 32 a.
Definition ws2 (a b : ascii) : bool :=
  byte_in 194 194 a && (byte_in 133 133 b || byte_in 160 160 b).
Definition ws3 (a b c : ascii) : bool :=
  (byte_in 225 225 a && byte_in 154 154 b && byte_in 128 128 c)
  || (byte_in 226 226 a && byte_in 128 128 b
      && (byte_in 128 138 c || byte_in 168 169 c || byte_in 175 175 c))
  || (byte_in 226 226 a && byte_in 129 129 b && byte_in 159 159 c)
  || (byte_in 227 227 a && byte_in 128 128 b && byte_in 128 128 c).

Fixpoint strip_ws (w2 : ascii → ascii → bool) (w3 : ascii → ascii → ascii → bool)
    (s : string) : string :=
  match s with
  | String a s1 =>
      if ws1 a then strip_ws w2 w3 s1
      else match s1 with
           | String b s2 =>
               if w2 a b then strip_ws w2 w3 s2
               else match s2 with
                    | String c s3 => if w3 a b c then strip_ws w2 w3 s3 else s
                    | EmptyString => s
                    end
           | EmptyString => s
           end
  | EmptyString => EmptyString
  end.

Definition trim_start (s : string) : string := strip_ws ws2 ws3 s.
Definition trim_end (s : string) : string :=
  String.rev (strip_ws (λ a b, ws2 b a) (λ a b c, ws3 c b a) (String.rev s)).
Definition trim (s : string) : string := trim_end (trim_start s).

(** [s.contains(char::is_whitespace)]. *)
Fixpoint has_whitespace (s : string) : bool :=
  match s with
  | EmptyString => false
  | String a s1 =>
      ws1 a || match s1 with
               | String b s2 => ws2 a b || match s2 with String c _ => ws3 a b c | _ => false end
               | _ => false
               end || has_whitespace s1
  end.

(** [s.chars().any(char::is_control)]: U+0000..U+001F and U+007F..U+009F. *)
Fixpoint has_control (s : string) : bool :=
  match s with
  | EmptyString => false
  | String a s1 =>
      byte_in 0 31 a || byte_in 127 127 a
      || match s1 with String b _ => byte_in 194 194 a && byte_in 128 159 b | _ => false end
      || has_control s1
  end.

(** ** The [Debug] of a [str] *)

(** The lower-case hexadecimal digits of a byte, without leading zeros. *)
Definition hex_char (n : N) : ascii := ascii_of_N (if (n <? 10)%N then 48 + n else 87 + n).
Definition hex_of (n : N) : string :=
  if (n <? 16)%N then String (hex_char n) EmptyString
  else String (hex_char (n / 16)) (String (hex_char (n mod 16)) EmptyString).

Definition dquote : ascii := "034".

(** [char::escape_debug] of one byte.  A byte of a longer code point stands for itself: the
    texts printed this way are printable beyond ASCII. *)
Definition escape_debug (c : ascii) : string :=
  if bool_decide (c = "000"%char) then "\0"
  else if bool_decide (c = "009"%char) then "\t"
  else if bool_decide (c = "010"%char) then "\n"
  else if bool_decide (c = "013"%char) then "\r"
  else if bool_decide (c = dquote) then String "\" (String dquote EmptyString)
  else if bool_decide (c = "\"%char) then "\\"
  else if byte_in 0 31 c || byte_in 127 127 c then "\u{" +:+ hex_of (N_of_ascii c) +:+ "}"
  else String c EmptyString.

Fixpoint escape_str (s : string) : string :=
  match s with
  | EmptyString => EmptyString
  | String c s => escape_debug c +:+ escape_str s
  end.

(** [format!] of a text with [{:?}]. *)
Definition debug_str (s : string) : string :=
  String dquote (escape_str s +:+ String dquote EmptyString).

(** [{:?}] of an optional value. *)
Definition debug_option {A} (show : A → string) (o : option A) : string :=
  match o with Some a => "Some(" +:+ show a +:+ ")" | None => "None" end.

(** ** UTF-8 validity, the test of [String::from_utf8] *)
Definition continuation (c : ascii) : bool := byte_in 128 191 c.

(** The first violation: the bytes before it, and the length of the bad sequence
    ([None] when the text ends inside a character). *)
Fixpoint utf8_error (index : N) (s : string) : option (N * option N) :=
  match s with
  | EmptyString => None
  | String a s1 =>
      if byte_in 0 127 a then utf8_error (index + 1) s1
      else if byte_in 194 223 a then
        match s1 with
        | EmptyString => Some (index, None)
        | String b s2 =>
            if continuation b then utf8_error (index + 2) s2 else Some (index, Some 1%N)
        end
      else if byte_in 224 239 a then
        match s1 with
        | EmptyString => Some (index, None)
        | String b s2 =>
            if (byte_in 224 224 a && byte_in 160 191 b)
               || ((byte_in 225 236 a || byte_in 238 239 a) && continuation b)
               || (byte_in 237 237 a && byte_in 128 159 b)
            then match s2 with
                 | EmptyString => Some (index, None)
                 | String c s3 =>
                     if continuation c then utf8_error (index + 3) s3 else Some (index, Some 2%N)
                 end
            else Some (index, Some 1%N)
        end
      else if byte_in 240 244 a then
        match s1 with
        | EmptyString => Some (index, None)
        | String b s2 =>
            if (byte_in 240 240 a && byte_in 144 191 b)
               || (byte_in 241 243 a && continuation b)
               || (byte_in 244 244 a && byte_in 128 143 b)
            then match s2 with
                 | EmptyString => Some (index, None)
                 | String c s3 =>
                     if continuation c
                     then match s3 with
                          | EmptyString => Some (index, None)
                          | String d s4 =>
                              if continuation d then utf8_error (index + 4) s4
                              else Some (index, Some 3%N)
                          end
                     else Some (index, Some 2%N)
                 end
            else Some (index, Some 1%N)
        end
      else Some (index, Some 1%N)
  end.

(** ** Code points *)

(** [str::chars]: each code point as its bytes. *)
Fixpoint chars (s : string) : list string :=
  match s with
  | EmptyString => []
  | String a s =>
      match chars s with
      | String b rest :: cs =>
          if continuation b then String a (String b rest) :: cs
          else String a EmptyString :: String b rest :: cs
      | cs => String a EmptyString :: cs
      end
  end.

(** [char::is_whitespace]. *)
Definition is_whitespace (ch : string) : bool :=
  match ch with
  | String a EmptyString => ws1 a
  | String a (String b EmptyString) => ws2 a b
  | String a (String b (String c EmptyString)) => ws3 a b c
  | _ => false
  end.

(** [s.chars().filter(|c| !c.is_whitespace()).collect()]. *)
Definition without_whitespace (s : string) : string :=
  join EmptyString (List.filter (λ ch, negb (is_whitespace ch)) (chars s)).

(** [str::split_whitespace]: the runs between whitespace, none of them empty. *)
Fixpoint words (current : string) (l : list string) : list string :=
  match l with
  | [] => if is_empty current then [] else [current]
  | ch :: l =>
      if is_whitespace ch then
        if is_empty current then words EmptyString l else current :: words EmptyString l
      else words (current +:+ ch) l
  end.
Definition split_whitespace (s : string) : list string := words EmptyString (chars s).

(** The text up to the first of these bytes. *)
Fixpoint until_byte (stops : list ascii) (s : string) : string :=
  match s with
  | String c s => if bool_decide (c ∈ stops) then EmptyString else String c (until_byte stops s)
  | EmptyString => EmptyString
  end.

(** ** Numbers: the [Display] of an unsigned integer, and [str::parse::<u64>] *)
Definition dec (n : N) : string := NilZero.string_of_uint (N.to_uint n).

(** [Display for Utf8Error]. *)
Definition utf8_error_text (e : N * option N) : string :=
  match e.2 with
  | Some n => "invalid utf-8 sequence of " +:+ dec n +:+ " bytes from index " +:+ dec e.1
  | None => "incomplete utf-8 byte sequence from index " +:+ dec e.1
  end.

Definition digit_value (c : ascii) : option N :=
  if is_ascii_digit c then Some (N_of_ascii c - 48)%N else None.

Fixpoint parse_digits (max acc : N) (s : string) : option N :=
  match s with
  | EmptyString => Some acc
  | String c s =>
      digit_value c ≫= λ d,
      if (acc * 10 + d <=? max)%N then parse_digits max (acc * 10 + d)%N s else None
  end.

(** An optional leading plus sign is accepted; the empty string is not. *)
Definition parse_unsigned (max : N) (s : string) : option N :=
  match s with
  | EmptyString => None
  | String "+"%char EmptyString => None
  | String "+"%char s => parse_digits max 0 s
  | _ => parse_digits max 0 s
  end.
Definition parse_u64 (s : string) : option N := parse_unsigned u64_max s.
Definition parse_u16 (s : string) : option N := parse_unsigned 65535 s.

(** ** Lemmas *)

#[export] Instance app_left_id : LeftId (=) EmptyString String.append.
Proof. by intros s. Qed.

Lemma app_cons c s1 s2 : String c s1 +:+ s2 = String c (s1 +:+ s2).
Proof. done. Qed.

Lemma app_empty s : EmptyString +:+ s = s.
Proof. done. Qed.

Lemma app_nil_r s : s +:+ EmptyString = s.
Proof. induction s as [|c s IH]; [done|]. rewrite app_cons. by f_equal. Qed.

Lemma app_assoc s1 s2 s3 : (s1 +:+ s2) +:+ s3 = s1 +:+ (s2 +:+ s3).
Proof. induction s1 as [|c s1 IH]; [done|]. rewrite !app_cons. by f_equal. Qed.

Lemma length_app s1 s2 :
  String.length (s1 +:+ s2) = String.length s1 + String.length s2.
Proof. induction s1 as [|c s1 IH]; [done|]. rewrite app_cons. cbn. by rewrite IH. Qed.

Lemma all_bytes_app p s1 s2 :
  all_bytes p (s1 +:+ s2) = all_bytes p s1 && all_bytes p s2.
Proof. induction s1 as [|c s1 IH]; [done|]. rewrite app_cons. cbn. by rewrite IH, andb_assoc. Qed.

Lemma all_bytes_impl (p q : ascii → bool) s :
  (∀ c, p c = true → q c = true) → all_bytes p s = true → all_bytes q s = true.
Proof.
  intros Hpq. induction s as [|c s IH]; [done|]. cbn. intros [Hc Hs]%andb_true_iff.
  by rewrite (Hpq c Hc), IH.
Qed.

Lemma strip_prefix_app p s : strip_prefix p (p +:+ s) = Some s.
Proof. induction p as [|c p IH]; [done|]. rewrite app_cons. cbn. by rewrite Ascii.eqb_refl. Qed.

Lemma strip_prefix_some p s r : strip_prefix p s = Some r ↔ s = p +:+ r.
Proof.
  split; [|intros ->; apply strip_prefix_app].
  revert s. induction p as [|c p IH]; intros s; cbn; [by intros [= ->]|].
  destruct s as [|d s]; [done|]. destruct (Ascii.eqb_spec c d) as [->|]; [|done].
  intros H. by rewrite (IH _ H), app_cons.
Qed.

Lemma starts_with_true p s : starts_with p s = true ↔ ∃ r, s = p +:+ r.
Proof.
  unfold starts_with. destruct (strip_prefix p s) as [r|] eqn:E1; cbn.
  - apply strip_prefix_some in E1. naive_solver.
  - split; [done|]. intros [r ->]. by rewrite strip_prefix_app in E1.
Qed.

Lemma starts_with_false p s : starts_with p s = false → strip_prefix p s = None.
Proof. unfold starts_with. by destruct (strip_prefix p s). Qed.

Lemma append_eq_nil (s1 s2 : string) : s1 +:+ s2 = s2 → s1 = EmptyString.
Proof.
  intros H. apply (f_equal String.length) in H. rewrite length_app in H.
  destruct s1; [done|]. cbn in H. lia.
Qed.

Lemma strip_suffix_app p s : strip_suffix p (s +:+ p) = Some s.
Proof.
  induction s as [|c s IH].
  - rewrite app_empty. destruct p; cbn [strip_suffix]; by rewrite String.eqb_refl.
  - rewrite app_cons. cbn [strip_suffix].
    destruct (String.eqb_spec (String c (s +:+ p)) p) as [Heq|_].
    + change (String c s +:+ p = p) in Heq. by apply append_eq_nil in Heq.
    + by rewrite IH.
Qed.

Lemma strip_suffix_some p s r : strip_suffix p s = Some r ↔ s = r +:+ p.
Proof.
  split; [|intros ->; apply strip_suffix_app].
  revert r. induction s as [|c s IH]; intros r; cbn [strip_suffix].
  - destruct (String.eqb_spec EmptyString p) as [<-|]; [|done]. by intros [= <-].
  - destruct (String.eqb_spec (String c s) p) as [<-|]; [by intros [= <-]|].
    destruct (strip_suffix p s) as [r'|] eqn:E1; [|done].
    intros [= <-]. rewrite app_cons. f_equal. by apply IH.
Qed.

Lemma split_once_eq p s a b : split_once p s = Some (a, b) → s = a +:+ p +:+ b.
Proof.
  revert a b. induction s as [|c s IH]; intros a b; cbn.
  - destruct (strip_prefix p EmptyString) as [r|] eqn:E1; [|done].
    intros [= <- <-]. rewrite app_empty. by apply strip_prefix_some in E1.
  - destruct (strip_prefix p (String c s)) as [r|] eqn:E1.
    + intros [= <- <-]. rewrite app_empty. by apply strip_prefix_some in E1.
    + destruct (split_once p s) as [[a' b']|] eqn:E2; [|done].
      intros [= <- <-]. rewrite app_cons. by rewrite (IH a' b' eq_refl).
Qed.

Lemma contains_true p s : contains p s = true ↔ ∃ a b, s = a +:+ p +:+ b.
Proof.
  unfold contains. split.
  - destruct (split_once p s) as [[a b]|] eqn:E1; [|done].
    intros _. exists a, b. by apply split_once_eq.
  - intros (a & b & ->). induction a as [|c a IH].
    + change (EmptyString +:+ p +:+ b) with (p +:+ b).
      destruct (p +:+ b) eqn:E1; cbn [split_once]; rewrite <- E1, strip_prefix_app; done.
    + rewrite app_cons. cbn [split_once].
      destruct (strip_prefix p _); [done|].
      by destruct (split_once p _).
Qed.

Lemma contains_false_app p s1 s2 :
  contains p (s1 +:+ s2) = false → contains p s1 = false ∧ contains p s2 = false.
Proof.
  intros H. split; apply not_true_iff_false; intros (a & b & ->)%contains_true;
    apply not_true_iff_false in H; apply H, contains_true.
  - exists a, (b +:+ s2). by rewrite !app_assoc.
  - exists (s1 +:+ a), b. by rewrite !app_assoc.
Qed.

(** A pattern whose first byte does not occur in [s1] is first found after [s1]. *)
Lemma split_once_skip c p s1 s2 :
  all_bytes (λ d, negb (Ascii.eqb d c)) s1 = true →
  split_once (String c p) (s1 +:+ s2) = prod_map (String.append s1) id <$> split_once (String c p) s2.
Proof.
  induction s1 as [|d s1 IH].
  - intros _. change (EmptyString +:+ s2) with s2.
    destruct (split_once _ s2) as [[??]|]; done.
  - cbn [all_bytes]. intros [Hd Hs]%andb_true_iff. rewrite app_cons. cbn [split_once strip_prefix].
    rewrite Ascii.eqb_sym. apply negb_true_iff in Hd. rewrite Hd.
    rewrite IH by done. by destruct (split_once _ s2) as [[??]|].
Qed.

Lemma split_once_here p s : split_once p (p +:+ s) = Some (EmptyString, s).
Proof.
  destruct (p +:+ s) eqn:E1; cbn [split_once]; rewrite <- E1, strip_prefix_app; done.
Qed.

(** *** Reversal *)
Lemma rev_app_eq s1 s2 : String.rev_app s1 s2 = String.rev s1 +:+ s2.
Proof.
  revert s2. induction s1 as [|c s1 IH]; intros s2; [done|].
  unfold String.rev. cbn. rewrite (IH (String c s2)), (IH (String c EmptyString)).
  by rewrite app_assoc.
Qed.

Lemma rev_cons c s : String.rev (String c s) = String.rev s +:+ String c EmptyString.
Proof. unfold String.rev at 1. cbn. apply rev_app_eq. Qed.

Lemma rev_append s1 s2 : String.rev (s1 +:+ s2) = String.rev s2 +:+ String.rev s1.
Proof.
  induction s1 as [|c s1 IH]; [by rewrite app_empty, app_nil_r|].
  by rewrite app_cons, !rev_cons, IH, app_assoc.
Qed.

Lemma rev_rev s : String.rev (String.rev s) = s.
Proof. induction s as [|c s IH]; [done|]. by rewrite rev_cons, rev_append, IH. Qed.

(** *** Trimming: a printable ASCII byte at either end stops it *)
Definition solid (c : ascii) : bool := byte_in 33 126 c.

Lemma byte_in_true lo hi c : byte_in lo hi c = true ↔ (lo ≤ N_of_ascii c ≤ hi)%N.
Proof. unfold byte_in. rewrite andb_true_iff, !N.leb_le. done. Qed.

Lemma byte_in_false lo hi c : byte_in lo hi c = false ↔ ¬ (lo ≤ N_of_ascii c ≤ hi)%N.
Proof. rewrite <- not_true_iff_false, byte_in_true. done. Qed.

Ltac byte_facts :=
  repeat match goal with
  | H : byte_in _ _ _ = true |- _ => apply byte_in_true in H
  | H : byte_in _ _ _ = false |- _ => apply byte_in_false in H
  end.

Lemma solid_ws1 c : solid c = true → ws1 c = false.
Proof.
  unfold solid, ws1. intros H. byte_facts. apply orb_false_iff; rewrite !byte_in_false. lia.
Qed.

Lemma solid_not_high lo hi c : solid c = true → (127 < lo)%N → byte_in lo hi c = false.
Proof. unfold solid. intros H Hlo. byte_facts. apply byte_in_false. lia. Qed.

Lemma strip_ws_solid w2 w3 c s :
  solid c = true → (∀ b, w2 c b = false) → (∀ a b, w3 c a b = false) →
  strip_ws w2 w3 (String c s) = String c s.
Proof.
  intros Hc H2 H3. cbn. rewrite (solid_ws1 _ Hc).
  destruct s as [|b s]; [done|]. rewrite H2. destruct s as [|d s]; [done|]. by rewrite H3.
Qed.

Lemma trim_start_solid c s : solid c = true → trim_start (String c s) = String c s.
Proof.
  intros Hc. apply strip_ws_solid; [done|..]; intros; unfold ws2, ws3;
    rewrite !(solid_not_high _ _ c) by (done || lia); done.
Qed.

Lemma trim_end_solid s c : solid c = true →
  trim_end (s +:+ String c EmptyString) = s +:+ String c EmptyString.
Proof.
  intros Hc. unfold trim_end. rewrite rev_append.
  change (String.rev (String c EmptyString)) with (String c EmptyString).
  rewrite app_cons, app_empty.
  rewrite strip_ws_solid; [|done|..]; [by rewrite rev_cons, rev_rev|..];
    intros; unfold ws2, ws3; rewrite !(solid_not_high _ _ c) by (done || lia);
    rewrite ?andb_false_r; done.
Qed.

Lemma trim_solid a s c : solid a = true → solid c = true →
  trim (String a (s +:+ String c EmptyString)) = String a (s +:+ String c EmptyString).
Proof.
  intros Ha Hc. unfold trim. rewrite trim_start_solid by done.
  rewrite <- app_cons. by apply trim_end_solid.
Qed.

(** *** Lines *)

(** A line: no line feed inside, no carriage return at its end. *)
Definition line_ok (w : string) : bool :=
  all_bytes (λ c, negb (Ascii.eqb c newline)) w
  && negb (ends_with (String carriage_return EmptyString) w).

Lemma split_char_nil c s : split_char c s ≠ [].
Proof.
  induction s as [|d s IH]; cbn; [done|]. destruct (Ascii.eqb d c); [done|].
  by destruct (split_char c s).
Qed.

Lemma split_char_none c w :
  all_bytes (λ d, negb (Ascii.eqb d c)) w = true → split_char c w = [w].
Proof.
  induction w as [|d w IH]; cbn; [done|]. intros [Hd Hw]%andb_true_iff.
  apply negb_true_iff in Hd. by rewrite Hd, IH.
Qed.

Lemma split_char_app c w s :
  all_bytes (λ d, negb (Ascii.eqb d c)) w = true →
  split_char c (w +:+ String c s) = w :: split_char c s.
Proof.
  induction w as [|d w IH].
  - intros _. rewrite app_empty. cbn. by rewrite Ascii.eqb_refl.
  - cbn [all_bytes]. intros [Hd Hw]%andb_true_iff. rewrite app_cons. cbn.
    apply negb_true_iff in Hd. by rewrite Hd, IH.
Qed.

Definition nl : string := String newline EmptyString.

Lemma join_cons sep w w' ws : join sep (w :: w' :: ws) = w +:+ sep +:+ join sep (w' :: ws).
Proof. done. Qed.

Lemma split_char_join_free ws :
  ws ≠ [] → (∀ w, w ∈ ws → all_bytes (λ c, negb (Ascii.eqb c newline)) w = true) →
  split_char newline (join nl ws) = ws.
Proof.
  intros Hne Hok. induction ws as [|w ws IH]; [done|].
  assert (Hw := Hok w (list_elem_of_here _ _)).
  destruct ws as [|w' ws]; [by apply split_char_none|].
  rewrite join_cons. unfold nl at 1. rewrite app_cons, app_empty.
  rewrite split_char_app by done. f_equal. apply IH; [done|].
  intros v Hv. apply Hok. by right.
Qed.

Lemma split_char_join ws :
  ws ≠ [] → (∀ w, w ∈ ws → line_ok w = true) → split_char newline (join nl ws) = ws.
Proof.
  intros Hne Hok. apply split_char_join_free; [done|].
  intros w Hw. apply Hok in Hw. by apply andb_true_iff in Hw as [? _].
Qed.

Lemma split_char_free c s w :
  w ∈ split_char c s → all_bytes (λ d, negb (Ascii.eqb d c)) w = true.
Proof.
  revert w. induction s as [|d s IH]; intros w; cbn.
  - by intros ->%list_elem_of_singleton.
  - destruct (Ascii.eqb d c) eqn:E.
    + intros [->|H]%elem_of_cons; [done|by apply IH].
    + pose proof (split_char_nil c s) as Hn. destruct (split_char c s) as [|v vs]; [done|].
      intros [->|H]%elem_of_cons; [|by apply IH; right].
      cbn. rewrite E. apply IH. by left.
Qed.

Lemma lines_of_ok ws :
  (∀ w, w ∈ ws → line_ok w = true) → last ws ≠ Some EmptyString → lines_of ws = ws.
Proof.
  induction ws as [|w ws IH]; [done|]. intros Hok Hlast. cbn [lines_of].
  assert (Hw : line_ok w = true) by (apply Hok; by left).
  destruct ws as [|w' ws].
  - destruct w; done.
  - apply andb_true_iff in Hw as [_ Hw]. apply negb_true_iff in Hw.
    unfold ends_with in Hw. destruct (strip_suffix _ w); [done|]. cbn [default from_option].
    f_equal. apply IH; [|done]. intros v Hv. apply Hok. by right.
Qed.

(** Joining lines by line feeds and splitting again is the identity. *)
Lemma lines_join ws :
  (∀ w, w ∈ ws → line_ok w = true) → last ws ≠ Some EmptyString → lines (join nl ws) = ws.
Proof.
  intros Hok Hlast. destruct ws as [|w ws]; [done|].
  unfold lines. rewrite split_char_join by done. by apply lines_of_ok.
Qed.

(** *** Text without whitespace *)
Lemma has_whitespace_ws1 s :
  has_whitespace s = false → all_bytes (λ c, negb (ws1 c)) s = true.
Proof.
  induction s as [|c s IH]; [done|]. cbn. intros [[H1 H2]%orb_false_iff H3]%orb_false_iff.
  by rewrite H1, IH.
Qed.

Lemma no_ws1_no_byte c s :
  ws1 c = true → all_bytes (λ d, negb (ws1 d)) s = true →
  all_bytes (λ d, negb (Ascii.eqb d c)) s = true.
Proof.
  intros Hc. apply all_bytes_impl. intros d Hd. apply negb_true_iff in Hd.
  apply negb_true_iff, Ascii.eqb_neq. intros ->. congruence.
Qed.

Lemma ends_with_last c d s :
  c ≠ d → ends_with (String c EmptyString) (s +:+ String d EmptyString) = false.
Proof.
  intros Hcd. unfold ends_with. destruct (strip_suffix _ _) as [r|] eqn:E1; [|done].
  apply strip_suffix_some in E1. exfalso. apply Hcd.
  apply (f_equal String.rev) in E1. rewrite !rev_append in E1. cbn in E1. by injection E1.
Qed.

#[global] Arguments trim : simpl never.
#[global] Arguments trim_end : simpl never.
#[global] Arguments lines : simpl never.
#[global] Arguments dec : simpl never.
#[global] Arguments contains : simpl never.
#[global] Arguments starts_with : simpl never.
#[global] Arguments ends_with : simpl never.

Lemma is_empty_false s : is_empty s = false ↔ s ≠ EmptyString.
Proof. by destruct s. Qed.

Lemma is_empty_true s : is_empty s = true ↔ s = EmptyString.
Proof. by destruct s. Qed.

(** ** Decimal numbers are read back *)
Fixpoint uint_value (acc : N) (d : Decimal.uint) : N :=
  match d with
  | Decimal.Nil => acc
  | Decimal.D0 d => uint_value (acc * 10 + 0) d
  | Decimal.D1 d => uint_value (acc * 10 + 1) d
  | Decimal.D2 d => uint_value (acc * 10 + 2) d
  | Decimal.D3 d => uint_value (acc * 10 + 3) d
  | Decimal.D4 d => uint_value (acc * 10 + 4) d
  | Decimal.D5 d => uint_value (acc * 10 + 5) d
  | Decimal.D6 d => uint_value (acc * 10 + 6) d
  | Decimal.D7 d => uint_value (acc * 10 + 7) d
  | Decimal.D8 d => uint_value (acc * 10 + 8) d
  | Decimal.D9 d => uint_value (acc * 10 + 9) d
  end.

Lemma of_uint_acc_value d p : N.pos (Pos.of_uint_acc d p) = uint_value (N.pos p) d.
Proof. revert p. induction d; intros p; cbn -[N.mul N.add]; [done|..]; rewrite IHd; f_equal; lia. Qed.

Lemma of_uint_value d : N.of_uint d = uint_value 0 d.
Proof.
  unfold N.of_uint. induction d; cbn -[N.mul N.add]; [done| |..]; [exact IHd|..];
    by rewrite of_uint_acc_value.
Qed.

Lemma uint_value_le acc d : (acc ≤ uint_value acc d)%N.
Proof.
  revert acc. induction d; intros acc; cbn -[N.mul N.add]; [lia|..];
    (etrans; [|apply IHd]); lia.
Qed.

(** One digit is read. *)
Lemma parse_digits_step max acc v c s : digit_value c = Some v → (acc * 10 + v ≤ max)%N →
  parse_digits max acc (String c s) = parse_digits max (acc * 10 + v) s.
Proof. intros Hv H. cbn -[N.mul N.add]. rewrite Hv. cbn -[N.mul N.add]. by apply N.leb_le in H as ->. Qed.

Lemma parse_digits_uint max acc d : (uint_value acc d ≤ max)%N →
  parse_digits max acc (NilEmpty.string_of_uint d) = Some (uint_value acc d).
Proof.
  revert acc. induction d; intros acc H; [done|..];
    cbn -[N.mul N.add parse_digits] in *;
    (erewrite parse_digits_step; [by apply IHd|reflexivity|]);
    (etrans; [apply uint_value_le|exact H]).
Qed.

Lemma string_of_to_uint n : dec n = NilEmpty.string_of_uint (N.to_uint n).
Proof.
  unfold dec, NilZero.string_of_uint. destruct (N.to_uint n) eqn:E; try done.
  exfalso. destruct n; [done|]. by apply (DecimalPos.Unsigned.to_uint_nonnil p).
Qed.

Lemma string_of_uint_digits d : all_bytes is_ascii_digit (NilEmpty.string_of_uint d) = true.
Proof. by induction d. Qed.

Lemma dec_digits n : all_bytes is_ascii_digit (dec n) = true.
Proof. rewrite string_of_to_uint. apply string_of_uint_digits. Qed.

Lemma dec_nonempty n : dec n ≠ EmptyString.
Proof.
  unfold dec, NilZero.string_of_uint. by destruct (N.to_uint n).
Qed.

Lemma parse_unsigned_dec max n : (n ≤ max)%N → parse_unsigned max (dec n) = Some n.
Proof.
  intros H. assert (Hp : parse_digits max 0 (dec n) = Some n).
  { rewrite string_of_to_uint, parse_digits_uint; rewrite <- of_uint_value, DecimalN.Unsigned.of_to; done. }
  pose proof (dec_digits n) as Hd. pose proof (dec_nonempty n) as Hne.
  destruct (dec n) as [|c s]; [done|]. cbn in Hd. apply andb_true_iff in Hd as [Hc _].
  unfold parse_unsigned. by destruct c as [[] [] [] [] [] [] [] []].
Qed.

Lemma trim_all_solid s : all_bytes solid s = true → trim s = s.
Proof.
  intros H. assert (Hs : trim_start s = s).
  { destruct s; [done|]. apply trim_start_solid. cbn in H. by apply andb_true_iff in H as [? _]. }
  unfold trim. rewrite Hs. assert (Hl : s = EmptyString ∨ ∃ r c, s = r +:+ String c EmptyString).
  { clear H Hs. induction s as [|c s IH]; [by left|]. right.
    destruct IH as [->|(r & d & ->)]; [by exists EmptyString, c|]. by exists (String c r), d. }
  destruct Hl as [->|(r & c & ->)]; [done|]. apply trim_end_solid.
  rewrite all_bytes_app in H. apply andb_true_iff in H as [_ H]. cbn in H. by rewrite andb_true_r in H.
Qed.

Lemma digit_solid c : is_ascii_digit c = true → solid c = true.
Proof. unfold is_ascii_digit, solid. rewrite !byte_in_true. lia. Qed.

(** ** Lemmas on strings

    Slices, trims, occurrences and the lines of a text, shared by the theorems on trackers and on
    the rules of posted text. *)
(** ** Slices and trims *)
Lemma take_bytes_app a b : take_bytes (String.length a) (a +:+ b) = a.
Proof. induction a as [|c a IH]; [by destruct b|]. rewrite app_cons. cbn. by rewrite IH. Qed.
Lemma drop_bytes_app a b : drop_bytes (String.length a) (a +:+ b) = b.
Proof. induction a as [|c a IH]; [by destruct b|]. rewrite app_cons. cbn. by rewrite IH. Qed.
Lemma drop_bytes_plus n m s : drop_bytes (n + m) s = drop_bytes m (drop_bytes n s).
Proof.
  revert s. induction n as [|n IH]; intros [|c s]; cbn; [done|done| |apply IH]. by destruct m.
Qed.
Lemma take_drop_bytes n s : take_bytes n s +:+ drop_bytes n s = s.
Proof. revert s. induction n as [|n IH]; intros [|c s]; cbn; try done. rewrite app_cons. by rewrite IH. Qed.

Section trims.
Context (p : ascii → bool).

Lemma trim_start_all s : all_bytes p s = true → trim_start_bytes p s = EmptyString.
Proof. induction s as [|c s IH]; [done|]. cbn. intros [-> H]%andb_true_iff. auto. Qed.
Lemma trim_end_all s : all_bytes p s = true → trim_end_bytes p s = EmptyString.
Proof. induction s as [|c s IH]; [done|]. cbn. intros [Hc H]%andb_true_iff. by rewrite IH, Hc. Qed.

Lemma trim_start_app a b : all_bytes p a = true → trim_start_bytes p (a +:+ b) = trim_start_bytes p b.
Proof. induction a as [|c a IH]; [done|]. cbn. intros [Hc Ha]%andb_true_iff. rewrite app_cons. cbn. rewrite Hc. auto. Qed.
Lemma trim_start_keep a b :
  trim_start_bytes p a ≠ EmptyString → trim_start_bytes p (a +:+ b) = trim_start_bytes p a +:+ b.
Proof. induction a as [|c a IH]; [done|]. rewrite app_cons. cbn. destruct (p c); [auto|done]. Qed.
Lemma trim_end_app a b : all_bytes p b = true → trim_end_bytes p (a +:+ b) = trim_end_bytes p a.
Proof.
  intros Hb. induction a as [|c a IH]; [by apply trim_end_all|]. rewrite app_cons. cbn. by rewrite IH.
Qed.
Lemma trim_end_keep a b :
  trim_end_bytes p b ≠ EmptyString → trim_end_bytes p (a +:+ b) = a +:+ trim_end_bytes p b.
Proof.
  intros Hb. induction a as [|c a IH]; [done|]. rewrite !app_cons. cbn. rewrite IH.
  by destruct (a +:+ trim_end_bytes p b) eqn:E; [destruct a|].
Qed.

(** A string is its blank start and the rest, and its trimmed part and the blank end. *)
Lemma trim_start_split s : ∃ a, all_bytes p a = true ∧ s = a +:+ trim_start_bytes p s.
Proof.
  induction s as [|c s (a & Ha & IH)]; [by exists EmptyString|]. cbn. destruct (p c) eqn:E.
  - exists (String c a). rewrite app_cons, <- IH. cbn. by rewrite E.
  - by exists EmptyString.
Qed.
Lemma trim_end_split s : ∃ b, all_bytes p b = true ∧ s = trim_end_bytes p s +:+ b.
Proof.
  induction s as [|c s (b & Hb & IH)]; [by exists EmptyString|]. cbn.
  destruct (is_empty (trim_end_bytes p s) && p c) eqn:E.
  - apply andb_true_iff in E as [E%is_empty_true Hc]. rewrite E in IH. exists (String c b).
    rewrite app_empty in *. cbn. by rewrite Hc, Hb, <- IH.
  - exists b. by rewrite app_cons, <- IH.
Qed.

Lemma trim_start_idem s : trim_start_bytes p (trim_start_bytes p s) = trim_start_bytes p s.
Proof. induction s as [|c s IH]; [done|]. cbn. destruct (p c) eqn:E; [done|]. cbn. by rewrite E. Qed.
Lemma trim_end_idem s : trim_end_bytes p (trim_end_bytes p s) = trim_end_bytes p s.
Proof.
  induction s as [|c s IH]; [done|]. cbn. destruct (is_empty (trim_end_bytes p s) && p c) eqn:E; [done|].
  cbn. by rewrite IH, E.
Qed.
Lemma trim_end_fixed_app a b : b ≠ EmptyString →
  trim_end_bytes p (a +:+ b) = a +:+ b ↔ trim_end_bytes p b = b.
Proof.
  intros Hb. split; [|by intros H; rewrite trim_end_keep; rewrite H].
  induction a as [|c a IH]; [done|]. rewrite app_cons. cbn. destruct (_ && _); [done|].
  intros [= H]. auto.
Qed.
Lemma trim_start_end s : trim_start_bytes p (trim_end_bytes p s) = trim_end_bytes p (trim_start_bytes p s).
Proof.
  induction s as [|c s IH]; [done|]. cbn. destruct (p c) eqn:E; cbn.
  - rewrite andb_true_r. destruct (is_empty (trim_end_bytes p s)) eqn:Et; cbn.
    + apply is_empty_true in Et. by rewrite <- IH, Et.
    + rewrite E. exact IH.
  - rewrite ?E, ?andb_false_r. cbn. by rewrite E.
Qed.
End trims.

(** ** Occurrences *)
Lemma split_cases (a b x y : string) :
  a +:+ b = x +:+ y → (∃ m, a = x +:+ m ∧ y = m +:+ b) ∨ (∃ m, x = a +:+ m ∧ b = m +:+ y).
Proof.
  revert x. induction a as [|c a IH]; intros x H; rewrite ?app_empty, ?app_cons in H.
  - right. exists x. by rewrite app_empty.
  - destruct x as [|d x]; rewrite ?app_empty, ?app_cons in H.
    + left. exists (String c a). by rewrite app_empty, app_cons.
    + injection H as <- H. destruct (IH x H) as [(m & -> & ?)|(m & -> & ?)]; [left|right];
        exists m; by rewrite app_cons.
Qed.

Lemma contains_byte_false c s :
  contains (String c EmptyString) s = false → all_bytes (λ b, negb (Ascii.eqb b c)) s = true.
Proof.
  intros H. apply not_true_iff_false in H. rewrite contains_true in H. induction s as [|b s IH]; [done|].
  cbn. apply andb_true_iff. split.
  - apply negb_true_iff, Ascii.eqb_neq. intros ->. apply H. by exists EmptyString, s.
  - apply IH. intros (x & y & ->). apply H. by exists (String b x), y.
Qed.

(** ** Texts of one line *)
Definition one_line : string → bool := all_bytes (λ c, negb (Ascii.eqb c newline)).

Lemma take_one_line n s : one_line s = true → one_line (take_bytes n s) = true.
Proof.
  unfold one_line. intros H. rewrite <- (take_drop_bytes n s), all_bytes_app in H. by apply andb_true_iff in H as [? _].
Qed.
Lemma drop_one_line n s : one_line s = true → one_line (drop_bytes n s) = true.
Proof.
  unfold one_line. intros H. rewrite <- (take_drop_bytes n s), all_bytes_app in H. by apply andb_true_iff in H as [_ ?].
Qed.
Lemma app_one_line a b : one_line a = true → one_line b = true → one_line (a +:+ b) = true.
Proof. unfold one_line. rewrite all_bytes_app. by intros -> ->. Qed.

(** ** Matches from the left *)
Lemma starts_with_split p s : starts_with p s = true → ∃ b, s = p +:+ b.
Proof. by intros H%starts_with_true. Qed.

Lemma match_from_sound p skip at_ s i :
  i ∈ match_indices_from p skip at_ s → ∃ a b, s = a +:+ p +:+ b ∧ i = at_ + String.length a.
Proof.
  revert skip at_. induction s as [|c s IH]; intros skip at_; cbn; [by intros H%elem_of_nil|].
  assert (Hnext : ∀ k, i ∈ match_indices_from p k (S at_) s →
    ∃ a b, String c s = a +:+ p +:+ b ∧ i = at_ + String.length a).
  { intros k (a & b & -> & ->)%IH. exists (String c a), b. rewrite app_cons. cbn. split; [done|lia]. }
  destruct skip as [|skip]; [|apply Hnext]. destruct (starts_with p (String c s)) eqn:E; [|apply Hnext].
  intros [->|H]%elem_of_cons; [|by eapply Hnext]. apply starts_with_split in E as [b ->].
  exists EmptyString, b. rewrite app_empty. cbn. split; [done|lia].
Qed.

(** An occurrence is a match, is passed, or begins inside a match. *)
Lemma match_from_complete p skip at_ a b :
  p ≠ EmptyString →
  let found := match_indices_from p skip at_ (a +:+ p +:+ b) in
  String.length a < skip ∨ at_ + String.length a ∈ found
  ∨ ∃ i, i ∈ found ∧ i < at_ + String.length a < i + String.length p.
Proof.
  intros Hp. cbn zeta. revert skip at_. induction a as [|c a IH]; intros skip at_.
  - rewrite app_empty. destruct p as [|d p]; [done|]. rewrite app_cons. cbn [match_indices_from String.length].
    destruct skip as [|skip]; [|left; lia]. right. left.
    rewrite <- app_cons. replace (starts_with _ _) with true by (symmetry; apply starts_with_true; by eexists).
    rewrite Nat.add_0_r. left.
  - rewrite app_cons. cbn [match_indices_from String.length]. destruct skip as [|skip].
    + destruct (starts_with p _).
      * destruct (IH (String.length p - 1) (S at_)) as [H|[H|(i & Hi & H)]].
        -- right. right. exists at_. split; [by left|lia].
        -- right. left. right. by replace (at_ + S (String.length a)) with (S at_ + String.length a) by lia.
        -- right. right. exists i. split; [by right|lia].
      * destruct (IH 0 (S at_)) as [H|[H|(i & Hi & H)]]; [lia| |].
        -- right. left. by replace (at_ + S (String.length a)) with (S at_ + String.length a) by lia.
        -- right. right. exists i. split; [done|lia].
    + destruct (IH skip (S at_)) as [H|[H|(i & Hi & H)]].
      * left. lia.
      * right. left. by replace (at_ + S (String.length a)) with (S at_ + String.length a) by lia.
      * right. right. exists i. split; [done|lia].
Qed.

Lemma match_indices_none p s : p ≠ EmptyString → match_indices p s = [] ↔ contains p s = false.
Proof.
  intros Hp. split.
  - intros H. apply not_true_iff_false. intros (a & b & ->)%contains_true.
    destruct (match_from_complete p 0 0 a b Hp) as [Hl|[Hl|(i & Hl & _)]]; [lia| |];
      unfold match_indices in H; rewrite H in Hl; by apply elem_of_nil in Hl.
  - intros H. apply not_true_iff_false in H. destruct (match_indices p s) as [|i l] eqn:E; [done|]. exfalso.
    apply H, contains_true. destruct (match_from_sound p 0 0 s i) as (a & b & -> & _); [|by exists a, b].
    fold (match_indices p s). rewrite E. left.
Qed.

(** An occurrence does not reach over a byte that the pattern lacks. *)
Lemma contains_across p u c v :
  p ≠ EmptyString → all_bytes (λ d, negb (Ascii.eqb d c)) p = true →
  contains p (u +:+ String c v) = contains p u || contains p v.
Proof.
  intros Hne Hp. apply eq_true_iff_eq. rewrite orb_true_iff, !contains_true. split.
  - intros (a & b & H). apply split_cases in H as [(m & -> & H)|(m & -> & H)].
    + apply split_cases in H as [(n & -> & H)|(n & -> & H)].
      * destruct n as [|d n].
        -- left. exists a, EmptyString. by rewrite !app_nil_r.
        -- rewrite all_bytes_app in Hp. apply andb_true_iff in Hp as [_ Hp]. rewrite app_cons in H.
           injection H as <- H. cbn in Hp. by rewrite Ascii.eqb_refl in Hp.
      * left. by exists a, n.
    + destruct m as [|d m].
      * rewrite app_empty in H. destruct p as [|e p]; [done|]. rewrite app_cons in H. injection H as -> _.
        cbn in Hp. by rewrite Ascii.eqb_refl in Hp.
      * rewrite app_cons in H. injection H as -> ->. right. by exists m, b.
  - intros [(a & b & ->)|(a & b & ->)].
    + exists a, (b +:+ String c v). by rewrite !app_assoc.
    + exists (u +:+ String c a), b. by rewrite !app_assoc, app_cons.
Qed.

Lemma join_split c s : join (String c EmptyString) (split_char c s) = s.
Proof.
  induction s as [|d s IH]; [done|]. cbn [split_char]. pose proof (split_char_nil c s) as Hn.
  destruct (Ascii.eqb_spec d c) as [->|].
  - destruct (split_char c s) as [|w ws]; [done|]. rewrite join_cons, app_empty, app_cons, app_empty. by rewrite IH.
  - destruct (split_char c s) as [|w ws]; [done|]. destruct ws as [|w' ws].
    + cbn in IH |- *. by rewrite IH.
    + rewrite join_cons in *. rewrite app_cons. by rewrite IH.
Qed.
