(* ===== verification/Collections.v ===== *)
(** * Ordered collections of the Rust standard library

    [BTreeMap<String, V>] is a [gmap string V]: equality of maps is equality of
    contents.  Where the source iterates, it does so in ascending key order;
    [entries] and [values] are that iteration.  [BTreeSet<String>] is a [gset
    string] with [sorted_elements] for its iteration.  [sort_dedup] is the idiom
    [v.sort(); v.dedup();] on a [Vec<String>]. *)
From S2P Require Import Prelude.
From stdpp Require Import options.

(** ** Vectors of strings *)

(** [[T]::sort]. *)
Definition sort (l : list string) : list string := merge_sort String.le l.

(** [Vec::dedup]: drop an element equal to the one before it. *)
Fixpoint dedup (l : list string) : list string :=
  match l with
  | [] => []
  | x :: l => match dedup l with
              | [] => [x]
              | y :: l' => if x ==? y then y :: l' else x :: y :: l'
              end
  end.

Definition sort_dedup (l : list string) : list string := dedup (sort l).

(** ** Maps and sets *)

Definition key_le {V} (p q : string * V) : Prop := String.le p.1 q.1.
#[export] Instance key_le_dec {V} (p q : string * V) : Decision (key_le p q) :=
  decide (String.le p.1 q.1).

Definition entries {V} (m : gmap string V) : list (string * V) :=
  merge_sort key_le (map_to_list m).
Definition keys {V} (m : gmap string V) : list string := (entries m).*1.
Definition values {V} (m : gmap string V) : list V := (entries m).*2.
Definition contains_key {V} (k : string) (m : gmap string V) : bool := is_some (m !! k).

Definition sorted_elements (s : gset string) : list string := sort (elements s).

(** ** Lemmas: sorted vectors *)

Definition slt (x y : string) : Prop := String.le x y ∧ x ≠ y.

#[export] Instance slt_trans : Transitive slt.
Proof.
  intros x y z [H1 N1] [H2 N2]. split; [by trans y|].
  intros ->. apply N1. by apply (anti_symm String.le).
Qed.

#[export] Instance slt_antisym : AntiSymm (=) slt.
Proof. intros x y [H1 _] [H2 _]. by apply (anti_symm String.le). Qed.

Lemma elem_of_sort x l : x ∈ sort l ↔ x ∈ l.
Proof. unfold sort. by rewrite merge_sort_Permutation. Qed.

Lemma elem_of_dedup x l : x ∈ dedup l ↔ x ∈ l.
Proof.
  induction l as [|y l IH]; cbn; [done|].
  destruct (dedup l) as [|z l'] eqn:E1.
  - by rewrite !elem_of_cons, <- IH.
  - case_bool_decide; subst; rewrite !elem_of_cons in *; naive_solver.
Qed.

Lemma elem_of_sort_dedup x l : x ∈ sort_dedup l ↔ x ∈ l.
Proof. unfold sort_dedup. by rewrite elem_of_dedup, elem_of_sort. Qed.

Lemma dedup_sorted l : StronglySorted String.le l → StronglySorted slt (dedup l).
Proof.
  induction 1 as [|x l Hl IH Hx]; cbn; [constructor|].
  destruct (dedup l) as [|y l'] eqn:E1; [by repeat constructor|].
  case_bool_decide; [done|]. constructor; [done|].
  assert (Hxy : slt x y).
  { split; [|done]. rewrite Forall_forall in Hx. apply Hx.
    apply elem_of_dedup. rewrite E1. by left. }
  inversion IH as [|? ? _ Hy]; subst. constructor; [done|].
  eapply Forall_impl; [exact Hy|]. intros z Hz. by trans y.
Qed.

Lemma sort_dedup_sorted l : StronglySorted slt (sort_dedup l).
Proof. apply dedup_sorted, StronglySorted_merge_sort; apply _. Qed.

Lemma slt_sorted_NoDup l : StronglySorted slt l → NoDup l.
Proof.
  induction 1 as [|x l Hl IH Hx]; constructor; [|done].
  intros Hin. rewrite Forall_forall in Hx. by destruct (Hx x Hin).
Qed.

(** A strictly sorted vector is determined by its elements. *)
Lemma slt_sorted_unique l1 l2 :
  StronglySorted slt l1 → StronglySorted slt l2 → (∀ x, x ∈ l1 ↔ x ∈ l2) → l1 = l2.
Proof.
  intros H1 H2 Heq. apply (StronglySorted_unique slt); [done..|].
  apply NoDup_Permutation; auto using slt_sorted_NoDup.
Qed.

Lemma sort_dedup_id l : StronglySorted slt l → sort_dedup l = l.
Proof.
  intros Hl. apply slt_sorted_unique; [apply sort_dedup_sorted|done|].
  intros x. apply elem_of_sort_dedup.
Qed.

Lemma sort_dedup_idemp l : sort_dedup (sort_dedup l) = sort_dedup l.
Proof. apply sort_dedup_id, sort_dedup_sorted. Qed.

Lemma sort_dedup_ext l1 l2 : (∀ x, x ∈ l1 ↔ x ∈ l2) → sort_dedup l1 = sort_dedup l2.
Proof.
  intros Heq. apply slt_sorted_unique; [apply sort_dedup_sorted..|].
  intros x. by rewrite !elem_of_sort_dedup.
Qed.

(** A vector that keeps its length has no duplicates. *)
Lemma dedup_length l : length (dedup l) ≤ length l.
Proof.
  induction l as [|x l IH]; cbn; [done|]. destruct (dedup l) as [|y l']; cbn in *; [lia|].
  case_bool_decide; cbn; lia.
Qed.

Lemma dedup_length_id l : length (dedup l) = length l → dedup l = l.
Proof.
  induction l as [|x l IH]; cbn; [done|]. pose proof (dedup_length l) as Hl.
  destruct (dedup l) as [|y l'] eqn:E1; cbn in *.
  - intros H. destruct l; [done|cbn in *; lia].
  - case_bool_decide; cbn; intros Hlen; [lia|]. f_equal. apply IH. lia.
Qed.

Lemma sort_dedup_length_NoDup l : length (sort_dedup l) = length l → NoDup l.
Proof.
  intros H. assert (Hp : sort l ≡ₚ l) by apply merge_sort_Permutation.
  unfold sort_dedup in H. rewrite <- (Permutation_length Hp) in H at 1.
  apply dedup_length_id in H. rewrite <- Hp, <- H. apply slt_sorted_NoDup, sort_dedup_sorted.
Qed.

#[export] Instance sort_dedup_proper : Proper ((≡ₚ) ==> (=)) sort_dedup.
Proof. intros l1 l2 Hl. apply sort_dedup_ext. intros x. by rewrite Hl. Qed.

(** Merging a vector already present is no change. *)
Lemma sort_dedup_absorb l1 l2 :
  StronglySorted slt l1 → (∀ x, x ∈ l2 → x ∈ l1) → sort_dedup (l1 ++ l2) = l1.
Proof.
  intros H1 H2. apply slt_sorted_unique; [apply sort_dedup_sorted|done|].
  intros x. rewrite elem_of_sort_dedup, elem_of_app. naive_solver.
Qed.

(** ** Lemmas: iteration over maps and sets *)

#[export] Instance key_le_trans {V} : Transitive (@key_le V).
Proof. intros p q r H1 H2. unfold key_le in *. by trans q.1. Qed.
#[export] Instance key_le_total {V} : Total (@key_le V).
Proof. intros p q. apply (total String.le). Qed.

Lemma entries_permutation {V} (m : gmap string V) : entries m ≡ₚ map_to_list m.
Proof. apply merge_sort_Permutation. Qed.

Lemma elem_of_entries {V} (m : gmap string V) k v : (k, v) ∈ entries m ↔ m !! k = Some v.
Proof. rewrite entries_permutation. apply elem_of_map_to_list. Qed.

Lemma NoDup_keys {V} (m : gmap string V) : NoDup (entries m).*1.
Proof. rewrite entries_permutation. apply NoDup_fst_map_to_list. Qed.

Lemma elem_of_keys {V} (m : gmap string V) k : k ∈ keys m ↔ is_Some (m !! k).
Proof.
  unfold keys. rewrite list_elem_of_fmap. split.
  - intros ([k' v] & -> & Hin%elem_of_entries). cbn. eauto.
  - intros [v Hv]. exists (k, v). split; [done|]. by apply elem_of_entries.
Qed.

Lemma elem_of_values {V} (m : gmap string V) v : v ∈ values m ↔ ∃ k, m !! k = Some v.
Proof.
  unfold values. rewrite list_elem_of_fmap. split.
  - intros ([k v'] & -> & Hin%elem_of_entries). cbn. eauto.
  - intros [k Hv]. exists (k, v). split; [done|]. by apply elem_of_entries.
Qed.

Lemma length_entries {V} (m : gmap string V) : length (entries m) = size m.
Proof. rewrite entries_permutation. apply length_map_to_list. Qed.

Lemma list_to_map_entries {V} (m : gmap string V) : list_to_map (entries m) = m.
Proof.
  rewrite <- (list_to_map_to_list m) at 2. apply list_to_map_proper.
  - apply NoDup_keys.
  - apply entries_permutation.
Qed.

Lemma entries_sorted {V} (m : gmap string V) : StronglySorted slt (keys m).
Proof.
  unfold keys. assert (Hs : StronglySorted key_le (entries m))
    by (apply StronglySorted_merge_sort; apply _).
  pose proof (NoDup_keys m) as Hnd. induction Hs as [|[k v] l Hl IH Hx]; cbn; [constructor|].
  cbn in Hnd. apply NoDup_cons in Hnd as [Hk Hnd]. constructor; [auto|].
  rewrite Forall_fmap, Forall_forall in *. intros [k' v'] Hin. split.
  - apply (Hx _ Hin).
  - cbn. intros <-. apply Hk. apply list_elem_of_fmap. by exists (k, v').
Qed.

Lemma contains_key_true {V} (m : gmap string V) k :
  contains_key k m = true ↔ is_Some (m !! k).
Proof. unfold contains_key, is_Some. destruct (m !! k); cbn; naive_solver. Qed.

Lemma contains_key_false {V} (m : gmap string V) k :
  contains_key k m = false ↔ m !! k = None.
Proof. unfold contains_key. destruct (m !! k); cbn; naive_solver. Qed.

Lemma elem_of_sorted_elements x s : x ∈ sorted_elements s ↔ x ∈ s.
Proof. unfold sorted_elements. rewrite elem_of_sort. apply elem_of_elements. Qed.

Lemma sorted_elements_permutation s : sorted_elements s ≡ₚ elements s.
Proof. apply merge_sort_Permutation. Qed.

Lemma length_sorted_elements s : length (sorted_elements s) = size s.
Proof. by rewrite sorted_elements_permutation. Qed.

Lemma NoDup_sorted_elements s : NoDup (sorted_elements s).
Proof. rewrite sorted_elements_permutation. apply NoDup_elements. Qed.

(** Per-key invariant of a loop over the entries of a map that updates another map
    at the visited key only. *)
Lemma foldM_entries_lookup {E V W} (f : string → option W → V → result E W)
    (cur : gmap string V) (m m' : gmap string W) :
  foldM (λ acc '(k, v), f k (acc !! k) v ≫= λ w, Ok (<[k := w]> acc)) m (entries cur) = Ok m' →
  ∀ k, match cur !! k with
       | Some v => ∃ w, f k (m !! k) v = Ok w ∧ m' !! k = Some w
       | None => m' !! k = m !! k
       end.
Proof.
  intros H k.
  assert (Hgen : ∀ l (acc : gmap string W), NoDup l.*1 →
    foldM (λ acc '(k, v), f k (acc !! k) v ≫= λ w, Ok (<[k := w]> acc)) acc l = Ok m' →
    (∀ v, (k, v) ∈ l → ∃ w, f k (acc !! k) v = Ok w ∧ m' !! k = Some w) ∧
    (k ∉ l.*1 → m' !! k = acc !! k)).
  { clear H. induction l as [|[k' v'] l IH]; intros acc Hnd Hl; cbn in Hl.
    - inv_ok. split; [|done]. intros v Hv. by apply not_elem_of_nil in Hv.
    - cbn in Hnd. apply NoDup_cons in Hnd as [Hk' Hnd].
      apply bind_ok in Hl as (acc1 & Hw & Hl). apply bind_ok in Hw as (w & Hw & [= <-]).
      destruct (IH _ Hnd Hl) as [IH1 IH2]. split.
      + intros v [[= -> ->]|Hv]%elem_of_cons.
        * exists w. split; [done|]. rewrite IH2 by done. by rewrite lookup_insert_eq.
        * destruct (IH1 v Hv) as (w' & Hw' & Hm'). exists w'. split; [|done].
          rewrite lookup_insert_ne in Hw'; [done|]. intros ->. apply Hk'.
          apply list_elem_of_fmap. by exists (k, v).
      + cbn. intros Hk. rewrite not_elem_of_cons in Hk. destruct Hk as [Hne Hk].
        rewrite IH2 by done. by rewrite lookup_insert_ne by congruence. }
  destruct (Hgen (entries cur) m (NoDup_keys cur) H) as [H1 H2].
  destruct (cur !! k) as [v|] eqn:Ev.
  - apply H1. by apply elem_of_entries.
  - apply H2. change ((entries cur).*1) with (keys cur). rewrite elem_of_keys, Ev.
    by intros [? ?].
Qed.

(** The error of such a loop is the error of one visited key. *)
Lemma foldM_entries_error {E V W} (f : string → option W → V → result E W)
    (cur : gmap string V) (m : gmap string W) e :
  foldM (λ acc '(k, v), f k (acc !! k) v ≫= λ w, Ok (<[k := w]> acc)) m (entries cur) = Err e →
  ∃ k v, cur !! k = Some v ∧ f k (m !! k) v = Err e.
Proof.
  intros H. assert (Hgen : ∀ l (acc : gmap string W), NoDup l.*1 →
    foldM (λ acc '(k, v), f k (acc !! k) v ≫= λ w, Ok (<[k := w]> acc)) acc l = Err e →
    ∃ k v, (k, v) ∈ l ∧ f k (acc !! k) v = Err e).
  { clear H. induction l as [|[k v] l IH]; intros acc Hnd Hl; cbn in Hl; [done|].
    cbn in Hnd. apply NoDup_cons in Hnd as [Hk Hnd].
    apply bind_err in Hl as [Hw|(acc1 & Hw & Hl)].
    - apply bind_err in Hw as [Hw|(w & _ & [=])]. exists k, v. split; [by left|done].
    - apply bind_ok in Hw as (w & Hw & [= <-]).
      destruct (IH _ Hnd Hl) as (k' & v' & Hin & Hf). exists k', v'. split; [by right|].
      rewrite lookup_insert_ne in Hf; [done|]. intros ->. apply Hk.
      apply list_elem_of_fmap. by exists (k', v'). }
  destruct (Hgen (entries cur) m (NoDup_keys cur) H) as (k & v & Hin & Hf).
  exists k, v. split; [by apply elem_of_entries|done].
Qed.

#[export] Hint Rewrite @elem_of_entries @elem_of_keys @elem_of_values
  @elem_of_sorted_elements elem_of_sort_dedup @length_entries : result.
#[export] Hint Resolve sort_dedup_sorted NoDup_keys : ledger.

#[global] Arguments sort : simpl never.
#[global] Arguments sort_dedup : simpl never.
#[global] Arguments entries : simpl never.
#[global] Arguments values : simpl never.
#[global] Arguments keys : simpl never.
#[global] Arguments sorted_elements : simpl never.
