(* ===== verification/Payload.v ===== *)
(** * Rules on provider-bound text

    The scans of nils-common that a text passes before it is posted: machine-local home paths
    [crates/nils-common/src/provider_payload.rs], literal escaped controls
    [crates/nils-common/src/markdown.rs] and agent self-attribution
    [crates/nils-common/src/agent_attribution.rs]. *)
From S2P Require Import Prelude RStr Collections.
From stdpp Require Import options.

(** The environment variables that disable a scan. *)
Class PayloadEnv := {
  env_allow_local_path : option string;
  env_allow_agent_attribution : option string;
}.

(** ** provider_payload.rs *)
Definition LOCAL_PATH_ALLOWLIST : list string := ["/home/agent"; "/home/linuxbrew"; "/home/runner"].
Definition LOCAL_PATH_ROOTS : list string := ["/Users/"; "/home/"].
Definition LOCAL_PATH_MAX_HITS : nat := 20.
Definition ALLOW_LOCAL_PATH_ENV : string := "FORGE_CLI_ALLOW_LOCAL_PATH".
Definition LOCAL_PATH_ERROR_KIND : string := "local_path_present".

Definition path_delimiter (c : ascii) : bool :=
  bool_decide (c ∈ ["`"%char; "'"%char; dquote; "<"%char; ">"%char; ")"%char; "]"%char; "}"%char]).
Definition trailing_punct (c : ascii) : bool :=
  bool_decide (c ∈ ["."%char; ","%char; ";"%char; ":"%char; ")"%char; "]"%char; "}"%char; "'"%char;
                    dquote; "`"%char]).

Record LocalPathHit := mk_LocalPathHit {
  lh_line : nat; lh_sample : string; lh_suggestion : string }.

Record LocalPathError := mk_LocalPathError { le_source : string; le_hits : list LocalPathHit }.

Definition local_path_message (e : LocalPathError) : string :=
  le_source e +:+ " contains " +:+ dec (N.of_nat (length (le_hits e)))
  +:+ " machine-local home path(s); use $HOME-relative paths".

Definition render_local_path_detail (hits : list LocalPathHit) : string :=
  let lines := (λ hit, "line " +:+ dec (N.of_nat (lh_line hit)) +:+ ": use " +:+ lh_suggestion hit)
                 <$> take LOCAL_PATH_MAX_HITS hits in
  let extra := length hits - LOCAL_PATH_MAX_HITS in
  join nl (lines
    ++ (if 0 <? extra then ["... " +:+ dec (N.of_nat extra) +:+ " more local path(s) omitted"] else [])
    ++ ["set " +:+ ALLOW_LOCAL_PATH_ENV +:+ "=1 to bypass after verifying a false positive"]).

Definition is_allowed_local_path (sample : string) : bool :=
  existsb (λ prefix, (sample ==? prefix) || starts_with (prefix +:+ "/") sample) LOCAL_PATH_ALLOWLIST.

Definition owner_byte (c : ascii) : bool :=
  is_ascii_alphanumeric c || Ascii.eqb c "." || Ascii.eqb c "_" || Ascii.eqb c "-".

(** The characters of a path's tail: up to whitespace or a closing delimiter. *)
Definition in_tail (ch : string) : bool :=
  negb (is_whitespace ch)
  && negb (match ch with String c EmptyString => path_delimiter c | _ => false end).
Definition path_tail (s : string) : string := join EmptyString (take_while in_tail (chars s)).

(** The path at a root, without its trailing punctuation, and its owner's end; [None] where there
    is no owner or the path is allowed. *)
Definition path_at (root line : string) (start : nat) : option (string * nat) :=
  let rest := drop_bytes (start + String.length root) line in
  let owner := take_bytes_while owner_byte rest in
  if is_empty owner then None
  else
  let after_owner := drop_bytes (String.length owner) rest in
  let tail := if starts_with "/" after_owner then path_tail after_owner else EmptyString in
  let sample := trim_end_bytes trailing_punct (root +:+ owner +:+ tail) in
  if is_empty sample || is_allowed_local_path sample then None
  else Some (sample, String.length root + String.length owner).

Definition path_hit (line_no : nat) (line root : string) (start : nat) : option (nat * nat * LocalPathHit) :=
  '(sample, prefix_len) ← path_at root line start;
  Some (line_no, start, mk_LocalPathHit line_no sample ("$HOME" +:+ drop_bytes prefix_len sample)).

Definition line_hits (line_no : nat) (line : string) : list (nat * nat * LocalPathHit) :=
  concat ((λ root, omap (path_hit line_no line root) (match_indices root line)) <$> LOCAL_PATH_ROOTS).

Definition hit_le (a b : nat * nat * LocalPathHit) : Prop :=
  a.1.1 < b.1.1 ∨ a.1.1 = b.1.1 ∧ a.1.2 ≤ b.1.2.
#[export] Instance hit_le_dec a b : Decision (hit_le a b).
Proof. unfold hit_le. apply _. Defined.

(** The first hit of each sample of a line. *)
Fixpoint dedupe (hits : list (nat * nat * LocalPathHit)) (seen : list (nat * string)) : list LocalPathHit :=
  match hits with
  | [] => []
  | (_, _, hit) :: hits =>
      let key := (lh_line hit, lh_sample hit) in
      if bool_decide (key ∈ seen) then dedupe hits seen
      else hit :: dedupe hits (seen ++ [key])
  end.

Definition scan_local_paths (text : string) : list LocalPathHit :=
  let found := concat (imap (λ idx line, line_hits (S idx) line) (lines text)) in
  dedupe (merge_sort hit_le found) [].

Definition local_path_scan_disabled `{!PayloadEnv} : bool := env_allow_local_path ==? Some "1".

Definition validate_no_local_paths `{!PayloadEnv} (text source : string) : result LocalPathError unit :=
  if local_path_scan_disabled then Ok tt
  else
  match scan_local_paths text with
  | [] => Ok tt
  | hits => Err (mk_LocalPathError source hits)
  end.

(** ** markdown.rs *)
Definition LITERAL_ESCAPED_CONTROLS : list string := ["\n"; "\r"; "\t"].

Record MarkdownPayloadViolation := mk_Violation { mv_sequence : string; mv_count : nat }.

Definition markdown_error_text (violations : list MarkdownPayloadViolation) : string :=
  "markdown payload contains literal escaped-control artifacts: "
  +:+ join ", " ((λ v, mv_sequence v +:+ " (" +:+ dec (N.of_nat (mv_count v)) +:+ ")") <$> violations).

Definition backtick : ascii := "`".

(** A delimiter of a code block: its character and the length of its run. *)
Definition fence_marker (line : string) : option (ascii * nat) :=
  match trim_start line with
  | String c _ as trimmed =>
      if Ascii.eqb c backtick || Ascii.eqb c "~" then
        let run := String.length (take_bytes_while (Ascii.eqb c) trimmed) in
        if 3 <=? run then Some (c, run) else None
      else None
  | EmptyString => None
  end.

(** What follows the first run of exactly [run] backticks; [seen] of the run at hand are
    passed. *)
Fixpoint close_span (run seen : nat) (s : string) : option string :=
  match s with
  | EmptyString => if seen =? run then Some EmptyString else None
  | String c s' =>
      if Ascii.eqb c backtick then close_span run (S seen) s'
      else if seen =? run then Some s
      else close_span run 0 s'
  end.

(** The line without its code spans; [skip] bytes are still to be passed. *)
Fixpoint strip_spans (skip : nat) (s : string) : string :=
  match s with
  | EmptyString => EmptyString
  | String c s' =>
      match skip with
      | S skip => strip_spans skip s'
      | 0 =>
          if Ascii.eqb c backtick then
            let ticks := take_bytes_while (Ascii.eqb backtick) s in
            let run := String.length ticks in
            match close_span run 0 (drop_bytes run s) with
            | Some rest => String " " (strip_spans (String.length s' - String.length rest) s')
            | None => ticks +:+ strip_spans (run - 1) s'
            end
          else String c (strip_spans 0 s')
      end
  end.
Definition strip_inline_code (line : string) : string := strip_spans 0 line.

(** One line, with the fence that is open before and after it. *)
Definition strip_line (open_fence : option (ascii * nat)) (line : string) : option (ascii * nat) * string :=
  match fence_marker line with
  | Some (fence_char, fence_len) =>
      match open_fence with
      | None => (Some (fence_char, fence_len), nl)
      | Some (open_char, open_len) =>
          if Ascii.eqb fence_char open_char && (open_len <=? fence_len) then (None, nl)
          else (open_fence, nl)
      end
  | None =>
      if is_some open_fence then (open_fence, nl) else (open_fence, strip_inline_code line)
  end.

Fixpoint strip_lines (open_fence : option (ascii * nat)) (ls : list string) : string :=
  match ls with
  | [] => EmptyString
  | line :: ls =>
      let '(open_fence, out) := strip_line open_fence line in
      out +:+ strip_lines open_fence ls
  end.

Definition strip_code_segments (markdown : string) : string :=
  strip_lines None (split_inclusive newline markdown).

Definition markdown_payload_violations (markdown : string) : list MarkdownPayloadViolation :=
  let scannable := strip_code_segments markdown in
  omap (λ sequence,
      let count := length (match_indices sequence scannable) in
      if 0 <? count then Some (mk_Violation sequence count) else None)
    LITERAL_ESCAPED_CONTROLS.

Definition validate_markdown_payload (markdown : string) : result (list MarkdownPayloadViolation) unit :=
  match markdown_payload_violations markdown with [] => Ok tt | violations => Err violations end.

(** ** agent_attribution.rs *)
Definition GENERATOR_MARKER_NEEDLES : list string :=
  ["generated with claude code"; "claude.com/claude-code"; "claude.ai/code"].
Definition COAUTHOR_TRAILER_TOKEN : string := "Co-Authored-By".
Definition COAUTHOR_BLOCKED_VALUE_WORD : string := "Claude".
Definition COAUTHOR_BLOCKED_VALUE_NEEDLE : string := "noreply@anthropic.com".
Definition AGENT_ATTRIBUTION_MAX_HITS : nat := 20.
Definition ALLOW_AGENT_ATTRIBUTION_ENV : string := "FORGE_CLI_ALLOW_AGENT_ATTRIBUTION".
Definition AGENT_ATTRIBUTION_ERROR_KIND : string := "agent_attribution_present".

Inductive AgentAttributionMarker : Type := Generator | Coauthor.

Definition label (m : AgentAttributionMarker) : string :=
  match m with Generator => "agent generator marker" | Coauthor => "agent co-author trailer" end.
Definition fix_text (m : AgentAttributionMarker) : string :=
  match m with
  | Generator => "delete the generator marker line"
  | Coauthor => "delete the co-author trailer line"
  end.

Record AgentAttributionHit := mk_AttributionHit { ah_line : nat; ah_marker : AgentAttributionMarker }.
Record AgentAttributionError := mk_AttributionError {
  ae_source : string; ae_hits : list AgentAttributionHit }.

Definition attribution_message (e : AgentAttributionError) : string :=
  ae_source e +:+ " contains " +:+ dec (N.of_nat (length (ae_hits e)))
  +:+ " agent self-attribution marker(s); deliver the work without agent attribution".

(** U+2014 EM DASH. *)
Definition em_dash : string := String "226" (String "128" (String "148" EmptyString)).

Definition render_agent_attribution_detail (hits : list AgentAttributionHit) : string :=
  let lines := (λ hit, "line " +:+ dec (N.of_nat (ah_line hit)) +:+ ": " +:+ label (ah_marker hit)
                   +:+ " " +:+ em_dash +:+ " " +:+ fix_text (ah_marker hit))
                 <$> take AGENT_ATTRIBUTION_MAX_HITS hits in
  let extra := length hits - AGENT_ATTRIBUTION_MAX_HITS in
  join nl (lines
    ++ (if 0 <? extra then ["... " +:+ dec (N.of_nat extra) +:+ " more marker(s) omitted"] else [])
    ++ ["set " +:+ ALLOW_AGENT_ATTRIBUTION_ENV +:+ "=1 to bypass after verifying a false positive"]).

Definition line_has_generator_marker (line : string) : bool :=
  existsb (λ needle, contains needle (to_ascii_lowercase line)) GENERATOR_MARKER_NEEDLES.

(** [Token: value] or [Token=value], at whichever separator comes first. *)
Definition split_trailer (line : string) : option (string * string) :=
  let token := until_byte [":"%char; "="%char] line in
  match drop_bytes (String.length token) line with
  | String _ value => Some (trim token, trim value)
  | EmptyString => None
  end.

Definition starts_with_ascii_word_ignore_case (value expected_word : string) : bool :=
  if is_empty expected_word then false
  else
  let value := trim_start value in
  let n := String.length expected_word in
  (n <=? String.length value)
  && (to_ascii_lowercase (take_bytes n value) ==? to_ascii_lowercase expected_word)
  && match drop_bytes n value with
     | String c _ => negb (is_ascii_alphanumeric c || Ascii.eqb c "_")
     | EmptyString => true
     end.

Definition line_is_blocked_coauthor_trailer (line : string) : bool :=
  match split_trailer (trim line) with
  | None => false
  | Some (token, value) =>
      (to_ascii_lowercase token ==? to_ascii_lowercase COAUTHOR_TRAILER_TOKEN)
      && (starts_with_ascii_word_ignore_case value COAUTHOR_BLOCKED_VALUE_WORD
          || contains COAUTHOR_BLOCKED_VALUE_NEEDLE (to_ascii_lowercase value))
  end.

Definition classify_line (line : string) : option AgentAttributionMarker :=
  if line_is_blocked_coauthor_trailer line then Some Coauthor
  else if line_has_generator_marker line then Some Generator
  else None.

Definition scan_lines (text : string) : list AgentAttributionHit :=
  omap (λ l, mk_AttributionHit (S l.1) <$> classify_line l.2) (imap pair (lines text)).

Definition scan_agent_attribution (text : string) : list AgentAttributionHit :=
  scan_lines (strip_code_segments text).
Definition scan_agent_attribution_verbatim (text : string) : list AgentAttributionHit :=
  scan_lines text.

Definition agent_attribution_scan_disabled `{!PayloadEnv} : bool := env_allow_agent_attribution ==? Some "1".

Definition validate_no_agent_attribution `{!PayloadEnv} (text source : string)
    : result AgentAttributionError unit :=
  if agent_attribution_scan_disabled then Ok tt
  else
  match scan_agent_attribution text with
  | [] => Ok tt
  | hits => Err (mk_AttributionError source hits)
  end.
