(* ===== verification/Error.v ===== *)
(** * Typed errors of the forge CLI

    [ForgeError] of [crates/forge-cli/src/error.rs] with its constructors and
    accessors, the failure envelope it renders to
    ([crates/nils-common/src/cli_contract.rs]), and [exec], the outcome of every
    fallible operation of the development: a value, a [ForgeError], a panic of the
    Rust program, or fuel that ran out in a loop of the model. *)
From S2P Require Import Prelude RStr.
From stdpp Require Import options.

(** ** JSON values and their text (serde_json, a third-party crate)

    [JNumber] is a number that fits [u64]; any other number is a [JReal]. *)
Inductive JsonValue : Type :=
  | JNull
  | JBool (b : bool)
  | JNumber (n : N)
  | JReal (text : string)
  | JString (s : string)
  | JArray (l : list JsonValue)
  | JObject (l : list (string * JsonValue)).

(** [Display for serde_json::Value] and [serde_json::from_str::<Value>]. *)
Class JsonText := {
  value_display : JsonValue → string;
  value_from_str : string → result string JsonValue;
}.

(** ** cli_contract.rs *)
Module exit.
Definition SUCCESS : N := 0.
Definition RUNTIME : N := 1.
Definition USAGE : N := 64.
Definition DATA : N := 65.
Definition UNAVAILABLE : N := 69.
Definition SOFTWARE : N := 70.
End exit.

Record EnvelopeError := mk_EnvelopeError {
  ee_code : string;
  ee_message : string;
  ee_hint : option string;
  ee_details : option JsonValue;
}.

Definition EnvelopeError_new (code message : string) : EnvelopeError :=
  {| ee_code := code; ee_message := message; ee_hint := None; ee_details := None |}.

Definition with_details (e : EnvelopeError) (details : JsonValue) : EnvelopeError :=
  {| ee_code := ee_code e; ee_message := ee_message e; ee_hint := ee_hint e;
     ee_details := Some details |}.

(** The envelope of a failure carries no payload. *)
Record Envelope (T : Type) := mk_Envelope {
  env_schema_version : string;
  env_ok : bool;
  env_data : option T;
  env_warnings : list string;
  env_error : option EnvelopeError;
}.
Arguments mk_Envelope {T} _ _ _ _ _.
Arguments env_schema_version {T} _.
Arguments env_ok {T} _.
Arguments env_data {T} _.
Arguments env_warnings {T} _.
Arguments env_error {T} _.

Definition Envelope_success {T} (schema_version : string) (data : T) : Envelope T :=
  mk_Envelope schema_version true (Some data) [] None.

Definition Envelope_failure {T} (schema_version : string) (error : EnvelopeError) : Envelope T :=
  mk_Envelope schema_version false None [] (Some error).

Definition schema_version_for (binary command : string) (version : N) : string :=
  "cli." +:+ binary +:+ "." +:+ command +:+ ".v" +:+ dec version.

(** ** error.rs *)
Definition STRUCTURED_DETAILS_PREFIX : string :=
  String "030" "forge-cli-json-details-v1:".

Inductive ForgeError : Type :=
  | NotImplemented (schema_version message : string)
  | BackendUnavailable (schema_version kind message : string)
      (detail : option string) (details : option JsonValue)
  | BackendError (schema_version message : string) (detail : option string)
  | ProviderUnsupported (schema_version message : string) (detail : option string)
  | SoftwareError (schema_version message : string) (detail : option string)
  | Validation (schema_version kind message : string) (detail : option string)
  | RuntimeFailure (schema_version kind message : string) (detail : option string).

Definition not_implemented (schema_version message : string) : ForgeError :=
  NotImplemented schema_version message.

Definition backend_missing (schema_version message : string) (detail : option string) : ForgeError :=
  BackendUnavailable schema_version "backend_missing" message detail None.

Definition backend_unauthenticated (schema_version message : string) (detail : option string)
    : ForgeError :=
  BackendUnavailable schema_version "backend_unauthenticated" message detail None.

Definition unavailable (schema_version kind message : string) (detail : option string) : ForgeError :=
  BackendUnavailable schema_version kind message detail None.

Definition unavailable_with_details (schema_version kind message : string) (details : JsonValue)
    : ForgeError :=
  BackendUnavailable schema_version kind message None (Some details).

Definition runtime_failure (schema_version kind message : string) (detail : option string)
    : ForgeError :=
  RuntimeFailure schema_version kind message detail.

Definition backend_error (schema_version message : string) (detail : option string) : ForgeError :=
  BackendError schema_version message detail.

Definition provider_unsupported (schema_version message : string) (detail : option string)
    : ForgeError :=
  ProviderUnsupported schema_version message detail.

Definition software (schema_version message : string) (detail : option string) : ForgeError :=
  SoftwareError schema_version message detail.

Definition validation (schema_version kind message : string) (detail : option string) : ForgeError :=
  Validation schema_version kind message detail.

Definition validation_with_details `{!JsonText} (schema_version kind message : string)
    (details : JsonValue) : ForgeError :=
  Validation schema_version kind message
    (Some (STRUCTURED_DETAILS_PREFIX +:+ value_display details)).

Definition exit_code (self : ForgeError) : N :=
  match self with
  | NotImplemented _ _ => exit.SOFTWARE
  | BackendUnavailable _ _ _ _ _ => exit.UNAVAILABLE
  | BackendError _ _ _ => exit.RUNTIME
  | ProviderUnsupported _ _ _ => exit.USAGE
  | SoftwareError _ _ _ => exit.SOFTWARE
  | Validation _ _ _ _ => exit.DATA
  | RuntimeFailure _ _ _ _ => exit.RUNTIME
  end.

Definition kind (self : ForgeError) : string :=
  match self with
  | NotImplemented _ _ => "not_implemented"
  | BackendUnavailable _ kind _ _ _ => kind
  | BackendError _ _ _ => "backend_error"
  | ProviderUnsupported _ _ _ => "provider_unsupported"
  | SoftwareError _ _ _ => "software_error"
  | Validation _ kind _ _ => kind
  | RuntimeFailure _ kind _ _ => kind
  end.

Definition schema_version (self : ForgeError) : string :=
  match self with
  | NotImplemented s _ | BackendUnavailable s _ _ _ _ | BackendError s _ _
  | ProviderUnsupported s _ _ | SoftwareError s _ _ | Validation s _ _ _
  | RuntimeFailure s _ _ _ => s
  end.

Definition message (self : ForgeError) : string :=
  match self with
  | NotImplemented _ m | BackendUnavailable _ _ m _ _ | BackendError _ m _
  | ProviderUnsupported _ m _ | SoftwareError _ m _ | Validation _ _ m _
  | RuntimeFailure _ _ m _ => m
  end.

Definition detail (self : ForgeError) : option string :=
  match self with
  | NotImplemented _ _ => None
  | BackendUnavailable _ _ _ detail _ | BackendError _ _ detail
  | ProviderUnsupported _ _ detail | SoftwareError _ _ detail
  | RuntimeFailure _ _ _ detail => detail
  | Validation _ _ _ detail =>
      detail ≫= λ d, if starts_with STRUCTURED_DETAILS_PREFIX d then None else Some d
  end.

Definition structured_details `{!JsonText} (self : ForgeError) : option JsonValue :=
  match self with
  | BackendUnavailable _ _ _ _ details => details
  | Validation _ _ _ detail =>
      detail ≫= λ d, strip_prefix STRUCTURED_DETAILS_PREFIX d ≫= λ d, ok (value_from_str d)
  | _ => None
  end.

(** The failure envelope of [render_json], before [serde_json::to_string]. *)
Definition render_json `{!JsonText} (self : ForgeError) : Envelope unit :=
  let envelope_error := EnvelopeError_new (kind self) (message self) in
  let envelope_error :=
    if ((kind self ==? "review_coordinator_live") || (kind self ==? "review_coordinator_unproven"))
       && is_none (structured_details self) then
      with_details envelope_error (JObject [
        ("retryable", JBool (kind self ==? "review_coordinator_unproven"));
        ("next_action", JString (if kind self ==? "review_coordinator_live"
                                 then "return_to_coordinator" else "refresh_session_evidence"));
        ("recovery", JObject [
          ("reason", JString "coordinator-retired");
          ("route", JString "forge-cli pr review-handoff recover");
          ("requires_repository_supervisor", JBool true);
          ("requires_stale_terminal_activity", JBool true);
          ("requires_exact_head_base_tip", JBool true)])])
    else if kind self ==? "pr_hold_active" then
      with_details envelope_error (JObject [
        ("retryable", JBool false);
        ("next_action", JString "request_hold_release");
        ("recovery", JObject [
          ("label", from_option JString JNull (detail self));
          ("requires_authorized_removal", JBool true)])])
    else if kind self ==? "pr_hold_labels_unavailable" then
      with_details envelope_error (JObject [
        ("retryable", JBool true);
        ("next_action", JString "refresh_hold_labels");
        ("recovery", JObject [("requires_complete_fresh_read", JBool true)])])
    else if kind self ==? "invalid_hold_labels_config" then
      with_details envelope_error (JObject [
        ("retryable", JBool false);
        ("next_action", JString "fix_hold_labels_config");
        ("recovery", JObject [("config_key", JString "merge.hold_labels")])])
    else match structured_details self with
         | Some details => with_details envelope_error details
         | None => match detail self with
                   | Some detail => with_details envelope_error (JObject [("detail", JString detail)])
                   | None => envelope_error
                   end
         end in
  Envelope_failure (schema_version self) envelope_error.

Definition render_text (self : ForgeError) : string :=
  let detail_suffix := from_option (λ d, String newline ("  detail: " +:+ d)) EmptyString (detail self) in
  "error: " +:+ kind self +:+ ": " +:+ message self +:+ detail_suffix.

(** ** Outcomes of an operation

    [Fail e] is the [Err] of a [Result<_, ForgeError>], [Panicked] a panic
    ([unwrap], [expect] or an index out of range), [OutOfFuel] a loop of the model
    that was stopped. *)
Inductive stop : Type :=
  | Fail (e : ForgeError)
  | Panicked (reason : string)
  | OutOfFuel.

Notation exec := (result stop).

Definition throw {A} (e : ForgeError) : exec A := Err (Fail e).
Definition panic {A} (reason : string) : exec A := Err (Panicked reason).

(** [Option::expect] and [Option::unwrap]. *)
Definition expect {A} (reason : string) (o : option A) : exec A :=
  match o with Some a => Ok a | None => panic reason end.

(** The outcome is one the Rust program can report: a value or an error. *)
Definition regular {A} (m : exec A) : bool :=
  match m with Ok _ | Err (Fail _) => true | Err _ => false end.

(** ** Lemmas *)

Lemma expect_ok {A} r (o : option A) a : expect r o = Ok a ↔ o = Some a.
Proof. destruct o; cbn; naive_solver. Qed.

Lemma regular_bind {A B} (m : exec A) (f : A → exec B) :
  regular m = true → (∀ a, m = Ok a → regular (f a) = true) → regular (m ≫= f) = true.
Proof. destruct m; cbn; auto. Qed.

Lemma regular_throw {A} e : regular (@throw A e) = true.
Proof. done. Qed.

Lemma regular_ok_or {A} e (o : option A) : regular (ok_or (Fail e) o) = true.
Proof. by destruct o. Qed.

Lemma regular_iterM {A} (f : A → exec unit) l :
  (∀ x, x ∈ l → regular (f x) = true) → regular (iterM f l) = true.
Proof.
  induction l as [|x l IH]; cbn; [done|]. intros H. apply regular_bind.
  - apply H. by left.
  - intros _ _. apply IH. intros y Hy. apply H. by right.
Qed.

Lemma regular_foldM {A B} (f : B → A → exec B) l acc :
  (∀ acc x, x ∈ l → regular (f acc x) = true) → regular (foldM f acc l) = true.
Proof.
  revert acc. induction l as [|x l IH]; intros acc H; cbn; [done|].
  apply regular_bind.
  - apply H. by left.
  - intros a _. apply IH. intros b y Hy. apply H. by right.
Qed.

Lemma regular_mapR {A B} (f : A → exec B) l :
  (∀ x, x ∈ l → regular (f x) = true) → regular (mapR f l) = true.
Proof.
  induction l as [|x l IH]; intros H; cbn; [done|]. apply regular_bind; [apply H; by left|].
  intros y _. apply regular_bind; [apply IH; intros; apply H; by right|done].
Qed.

Lemma regular_map_err {E A} (f : E → ForgeError) (m : result E A) :
  regular (map_err (λ e, Fail (f e)) m) = true.
Proof. by destruct m. Qed.

#[export] Hint Resolve regular_throw regular_ok_or regular_bind regular_iterM regular_mapR
  regular_map_err : ledger.
#[export] Hint Rewrite @expect_ok : result.

(** [regular_tac]: walk a computation built from binds, tests and throws. *)
Ltac regular_tac :=
  repeat first
    [ done
    | apply regular_bind; [|intros ? ?]
    | apply regular_ok_or
    | match goal with |- context [if ?b then _ else _] => destruct b eqn:? end
    | match goal with |- context [match ?x with _ => _ end] => destruct x eqn:? end ].
