(* ===== verification/Types.v ===== *)
(** * Data of the review ledger

    The records of [crates/forge-cli/src/ops/review_state.rs] and of the modules it
    is composed with ([review_state/correction.rs], [acceptance.rs],
    [supersession.rs], [pr_review_handoff.rs], [review_sync_carry_over.rs]).  A
    [u32] or [u64] is an [N], a [BTreeMap<String, _>] a [gmap string _], an
    [Option] an [option].  Field names carry a prefix for their record where two
    records share a name. *)
From S2P Require Import Prelude RStr Collections Error.
From stdpp Require Import options.

(** ** serde and SHA-256 as interfaces

    [Serialize]/[Deserialize] are serde's traits through serde_json; the derives
    are generated code and the JSON text is third-party, so both are parameters,
    like [sha2::Sha256::digest].  The error of a failed conversion is its text. *)
Class Serialize (A : Type) := to_vec : A → result string string.
Class Deserialize (A : Type) := from_str : string → result string A.
Class Hasher := sha256 : string → string.

(** SHA-256 yields 32 bytes. *)
Class HasherLaws `{!Hasher} : Prop := { sha256_length : ∀ b, String.length (sha256 b) = 32 }.

(** [url::Url::parse], reduced to the accessors the code reads, [scheme], [host_str], [port]
    ([None] for the default one), [path] and [fragment]; and [str::parse::<jiff::Timestamp>], the instant in nanoseconds or the text
    of the error. *)
Record Url := mk_Url {
  url_scheme : string; url_host : option string; url_port : option N;
  url_path : string; url_fragment : option string;
}.
Class UrlParse := url_parse : string → option Url.
Class TimestampParse := timestamp_parse : string → result string Z.
Definition timestamp_ok `{!TimestampParse} (s : string) : bool := is_ok (timestamp_parse s).
(** [nils_common::redact::token_secret_regex().is_match]: the regex engine is a
    third-party crate. *)
Class SecretPattern := token_secret_is_match : string → bool.

(** ** review_state.rs *)
Record ReviewCommentManifestItem := mk_ManifestItem {
  mi_index : N;
  mi_path : string;
  mi_line : option N;
  mi_side : string;
  mi_start_line : option N;
  mi_start_side : option string;
  mi_subject_type : string;
  mi_body_digest : string;
}.

Record ReviewRunReceipt := mk_ReviewRunReceipt {
  review_run_id : string;
  route_lenses : list string;
  decision : string;
  rr_expected_head : string;
  rr_round : N;
  summary_digest : string;
  inline_manifest : list ReviewCommentManifestItem;
}.

Record ReviewLoopBudget := mk_ReviewLoopBudget {
  max_repair_rounds : N;
  max_no_progress_rounds : N;
  max_auto_reopens_per_fingerprint : N;
}.

Definition ReviewLoopBudget_default : ReviewLoopBudget :=
  {| max_repair_rounds := 5; max_no_progress_rounds := 2; max_auto_reopens_per_fingerprint := 0 |}.

Inductive ReviewFindingStatus : Type := Open | Fixed | Accepted | Preference | FollowUp.

Definition ReviewFindingStatus_ALL : list ReviewFindingStatus :=
  [Open; Fixed; Accepted; Preference; FollowUp].

Definition status_as_str (self : ReviewFindingStatus) : string :=
  match self with
  | Open => "open"
  | Fixed => "fixed"
  | Accepted => "accepted"
  | Preference => "preference"
  | FollowUp => "follow-up"
  end.

Record ReviewLoopFinding := mk_ReviewLoopFinding {
  f_root_cause_fingerprint : option string;
  f_status : ReviewFindingStatus;
  f_blocking : bool;
  f_first_seen_head : string;
  f_last_seen_head : string;
  f_seen_count : N;
  f_reopen_count : N;
  f_threads : list string;
}.

Record ReviewLoopExtension := mk_ReviewLoopExtension {
  x_proposal_digest : string;
  x_approval_reference : string;
  x_budget_field : string;
  x_increment : N;
}.

Record ReviewLoopHardStop := mk_ReviewLoopHardStop {
  hs_code : string;
  hs_budget_field : string;
  hs_increment : N;
  hs_proposal_digest : string;
  hs_attempted_head_sha : string;
  hs_observation_digest : string;
  hs_extension_applied : bool;
}.

Record ReviewLoopState := mk_ReviewLoopState {
  s_head_sha : string;
  s_round : N;
  s_no_progress_rounds : N;
  s_budget : ReviewLoopBudget;
  s_findings : gmap string ReviewLoopFinding;
  s_extensions : list ReviewLoopExtension;
  s_hard_stop : option ReviewLoopHardStop;
}.

Record ReviewFindingObservation := mk_ReviewFindingObservation {
  o_fingerprint : string;
  o_root_cause_fingerprint : option string;
  o_blocking : bool;
  o_status : ReviewFindingStatus;
  o_threads : list string;
}.

(** ** review_state/correction.rs *)
Inductive CorrectionReason : Type := OmittedFindings.

Record CorrectionRequest := mk_CorrectionRequest {
  cq_corrected_record : string;
  cq_reason : CorrectionReason;
  cq_attempted_findings : option (list ReviewFindingObservation);
}.

Record CorrectionReceipt := mk_CorrectionReceipt {
  cr_corrected_record : string;
  cr_reason : CorrectionReason;
  cr_restored_findings : list string;
  cr_attempted_findings : option (list ReviewFindingObservation);
}.

(** ** review_state/acceptance.rs *)
Record AcceptanceRequest := mk_AcceptanceRequest {
  aq_stopped_record : string;
  aq_attempted_findings : list ReviewFindingObservation;
  aq_approval_comment : option N;
}.

Record AcceptanceReceipt := mk_AcceptanceReceipt {
  ar_request : AcceptanceRequest;
  ar_proposal_digest : string;
  ar_original_stop : ReviewLoopHardStop;
  ar_approval_reference : string;
  ar_accepted_fingerprints : list string;
  ar_findings : list ReviewFindingObservation;
}.

(** ** review_state/supersession.rs *)
Inductive SupersessionReason : Type := SignedFastForward.

Record SupersessionRequest := mk_SupersessionRequest {
  sq_superseded_record : string;
  sq_reason : SupersessionReason;
}.

Record SupersessionReceipt := mk_SupersessionReceipt {
  sr_request : SupersessionRequest;
  sr_from_head : string;
  sr_verified_commits : list string;
  sr_findings : list ReviewFindingObservation;
}.

(** ** pr_review_handoff.rs, its policy/attestation.rs, and cli/review_handoff.rs *)
Inductive ApprovalPolicy : Type := SourcePass | FinalApproval.

Definition is_source_pass (self : ApprovalPolicy) : bool :=
  match self with SourcePass => true | FinalApproval => false end.

Record SupervisorAttestation := mk_SupervisorAttestation {
  sa_role : string;
  sa_binding_digest : string;
}.

Record CoordinatorRetirementEvidence := mk_CoordinatorRetirementEvidence {
  machine_digest : string;
  session_status : string;
  last_activity_at : string;
  stale_after_seconds : N;
}.

Record CoordinatorTransfer := mk_CoordinatorTransfer {
  old_coordinator_digest : string;
  new_coordinator_digest : string;
  lifecycle_source_digest : string;
  t_reason : string;
  supervisor_digest : option string;
  supervisor_attestation : option SupervisorAttestation;
  retirement_evidence : option CoordinatorRetirementEvidence;
}.

Record ReviewHandoff := mk_ReviewHandoff {
  approval_policy : ApprovalPolicy;
  coordinator_digest : string;
  reviewer_digest : string;
  review_author : string;
  base_sha : string;
  assigned_head : string;
  returned_reason : option string;
  assignment_generation : N;
  surrendered : bool;
  coordinator_transfer : option CoordinatorTransfer;
  base_ref : string;
}.

(** ** review_sync_carry_over.rs *)
Record SyncCarryOver := mk_SyncCarryOver {
  review_url : string;
  reviewed_head : string;
  co_head : string;
  base_commit : string;
  merge_tree : string;
}.

(** ** Payloads, records and chains *)
Inductive ReviewStatePayload : Type :=
  | P_ReviewRunReceipt (receipt : ReviewRunReceipt)
  | P_ReviewLoop (state : ReviewLoopState)
  | P_ReviewLoopCorrection (state : ReviewLoopState) (correction : CorrectionReceipt)
  | P_ReviewLoopAcceptance (state : ReviewLoopState) (acceptance : AcceptanceReceipt)
  | P_ReviewLoopSupersession (state : ReviewLoopState) (supersession : SupersessionReceipt)
  | P_ReviewHandoff (handoff : ReviewHandoff)
  | P_ReviewSyncCarryOver (carry_over : SyncCarryOver).

Definition payload_kind (self : ReviewStatePayload) : string :=
  match self with
  | P_ReviewRunReceipt _ => "review-run-receipt"
  | P_ReviewLoop _ => "review-loop"
  | P_ReviewLoopCorrection _ _ => "review-loop-correction"
  | P_ReviewLoopAcceptance _ _ => "review-loop-acceptance"
  | P_ReviewLoopSupersession _ _ => "review-loop-supersession"
  | P_ReviewHandoff _ => "review-handoff"
  | P_ReviewSyncCarryOver _ => "review-sync-carry-over"
  end.

Record ReviewLoopTransition := mk_ReviewLoopTransition {
  tr_state : ReviewLoopState;
  tr_changed : bool;
  tr_correction : option CorrectionReceipt;
  tr_supersession : option SupersessionReceipt;
  tr_acceptance : option AcceptanceReceipt;
}.

Definition into_payload (self : ReviewLoopTransition) : ReviewStatePayload :=
  match tr_acceptance self with
  | Some acceptance => P_ReviewLoopAcceptance (tr_state self) acceptance
  | None =>
      match tr_supersession self with
      | Some supersession => P_ReviewLoopSupersession (tr_state self) supersession
      | None =>
          match tr_correction self with
          | Some correction => P_ReviewLoopCorrection (tr_state self) correction
          | None => P_ReviewLoop (tr_state self)
          end
      end
  end.

Record ReviewStateRecord := mk_ReviewStateRecord {
  r_schema : string;
  r_repository : string;
  r_pr : N;
  r_expected_head : string;
  r_generation : N;
  r_previous_digest : option string;
  r_payload : ReviewStatePayload;
  r_assignment_generation : option N;
  r_record_digest : string;
}.

(** The digested part of a record: every field but the digest itself. *)
Record ReviewStatePreimage := mk_ReviewStatePreimage {
  pre_schema : string;
  pre_repository : string;
  pre_pr : N;
  pre_expected_head : string;
  pre_generation : N;
  pre_previous_digest : option string;
  pre_payload : ReviewStatePayload;
  pre_assignment_generation : option N;
}.

Record ReviewStateChain := mk_ReviewStateChain {
  c_records : list ReviewStateRecord;
  c_tip_digest : option string;
  c_ignored_stale_records : list string;
}.

Record RunIdPreimage := mk_RunIdPreimage {
  rip_repository : string;
  rip_pr : N;
  rip_expected_head : string;
  rip_round : N;
  rip_route_lenses : list string;
  rip_decision : string;
  rip_summary_digest : string;
  rip_inline_manifest : list ReviewCommentManifestItem;
}.

Definition REVIEW_STATE_SCHEMA : string := "forge-cli.review-loop.v1".

(** ** Derived [PartialEq] *)
#[export] Instance ManifestItem_eq_dec : EqDecision ReviewCommentManifestItem.
Proof. solve_decision. Defined.
#[export] Instance ReviewRunReceipt_eq_dec : EqDecision ReviewRunReceipt.
Proof. solve_decision. Defined.
#[export] Instance ReviewLoopBudget_eq_dec : EqDecision ReviewLoopBudget.
Proof. solve_decision. Defined.
#[export] Instance ReviewFindingStatus_eq_dec : EqDecision ReviewFindingStatus.
Proof. solve_decision. Defined.
#[export] Instance ReviewLoopFinding_eq_dec : EqDecision ReviewLoopFinding.
Proof. solve_decision. Defined.
#[export] Instance ReviewLoopExtension_eq_dec : EqDecision ReviewLoopExtension.
Proof. solve_decision. Defined.
#[export] Instance ReviewLoopHardStop_eq_dec : EqDecision ReviewLoopHardStop.
Proof. solve_decision. Defined.
#[export] Instance ReviewLoopState_eq_dec : EqDecision ReviewLoopState.
Proof. solve_decision. Defined.
#[export] Instance ReviewFindingObservation_eq_dec : EqDecision ReviewFindingObservation.
Proof. solve_decision. Defined.
#[export] Instance CorrectionReason_eq_dec : EqDecision CorrectionReason.
Proof. solve_decision. Defined.
#[export] Instance CorrectionReceipt_eq_dec : EqDecision CorrectionReceipt.
Proof. solve_decision. Defined.
#[export] Instance AcceptanceRequest_eq_dec : EqDecision AcceptanceRequest.
Proof. solve_decision. Defined.
#[export] Instance AcceptanceReceipt_eq_dec : EqDecision AcceptanceReceipt.
Proof. solve_decision. Defined.
#[export] Instance SupersessionReason_eq_dec : EqDecision SupersessionReason.
Proof. solve_decision. Defined.
#[export] Instance SupersessionRequest_eq_dec : EqDecision SupersessionRequest.
Proof. solve_decision. Defined.
#[export] Instance SupersessionReceipt_eq_dec : EqDecision SupersessionReceipt.
Proof. solve_decision. Defined.
#[export] Instance ApprovalPolicy_eq_dec : EqDecision ApprovalPolicy.
Proof. solve_decision. Defined.
#[export] Instance SupervisorAttestation_eq_dec : EqDecision SupervisorAttestation.
Proof. solve_decision. Defined.
#[export] Instance RetirementEvidence_eq_dec : EqDecision CoordinatorRetirementEvidence.
Proof. solve_decision. Defined.
#[export] Instance CoordinatorTransfer_eq_dec : EqDecision CoordinatorTransfer.
Proof. solve_decision. Defined.
#[export] Instance ReviewHandoff_eq_dec : EqDecision ReviewHandoff.
Proof. solve_decision. Defined.
#[export] Instance SyncCarryOver_eq_dec : EqDecision SyncCarryOver.
Proof. solve_decision. Defined.
#[export] Instance ReviewStatePayload_eq_dec : EqDecision ReviewStatePayload.
Proof. solve_decision. Defined.
#[export] Instance ReviewStateRecord_eq_dec : EqDecision ReviewStateRecord.
Proof. solve_decision. Defined.

(** ** Field updates *)
Definition set_hard_stop (s : ReviewLoopState) (h : option ReviewLoopHardStop) : ReviewLoopState :=
  {| s_head_sha := s_head_sha s; s_round := s_round s;
     s_no_progress_rounds := s_no_progress_rounds s; s_budget := s_budget s;
     s_findings := s_findings s; s_extensions := s_extensions s; s_hard_stop := h |}.

Definition set_findings (s : ReviewLoopState) (m : gmap string ReviewLoopFinding) : ReviewLoopState :=
  {| s_head_sha := s_head_sha s; s_round := s_round s;
     s_no_progress_rounds := s_no_progress_rounds s; s_budget := s_budget s;
     s_findings := m; s_extensions := s_extensions s; s_hard_stop := s_hard_stop s |}.

Definition set_no_progress (s : ReviewLoopState) (n : N) : ReviewLoopState :=
  {| s_head_sha := s_head_sha s; s_round := s_round s;
     s_no_progress_rounds := n; s_budget := s_budget s;
     s_findings := s_findings s; s_extensions := s_extensions s; s_hard_stop := s_hard_stop s |}.

Definition set_status (f : ReviewLoopFinding) (st : ReviewFindingStatus) : ReviewLoopFinding :=
  {| f_root_cause_fingerprint := f_root_cause_fingerprint f; f_status := st;
     f_blocking := f_blocking f; f_first_seen_head := f_first_seen_head f;
     f_last_seen_head := f_last_seen_head f; f_seen_count := f_seen_count f;
     f_reopen_count := f_reopen_count f; f_threads := f_threads f |}.

(** ** serde implementations the ledger needs, as one interface *)
Class LedgerSerde := {
  #[export] serialize_preimage :: Serialize ReviewStatePreimage;
  #[export] serialize_record :: Serialize ReviewStateRecord;
  #[export] deserialize_record :: Deserialize ReviewStateRecord;
  #[export] serialize_extension :: Serialize (string * string * string * string * N);
  #[export] serialize_observations ::
    Serialize (string * string * gmap string ReviewFindingObservation);
  #[export] serialize_run_id :: Serialize RunIdPreimage;
  #[export] serialize_acceptance ::
    Serialize (string * string * string * gmap string ReviewFindingObservation
               * gmap string ReviewFindingObservation);
  #[export] serialize_supersession :: Serialize (string * option string * string);
}.

(** [error_schema] and [state_conflict] of review_state.rs. *)
Definition error_schema : string := "cli.forge-cli.error.v1".

Definition state_conflict (message : string) (detail : option string) : ForgeError :=
  validation error_schema "review_state_conflict" message detail.

Definition review_stop (code message detail : string) : ForgeError :=
  validation error_schema code message (Some detail).

Lemma status_as_str_inj : Inj (=) (=) status_as_str.
Proof. by intros [] []. Qed.

Lemma ReviewFindingStatus_ALL_complete st : st ∈ ReviewFindingStatus_ALL.
Proof. destruct st; unfold ReviewFindingStatus_ALL; set_solver. Qed.
