(* ===== verification/Validations.v ===== *)
(** * The lock-down rules

    [crates/forge-cli/src/validations.rs]: the rules that every command that writes a pull request
    or a comment applies to its branch, its title, its text and its checkout, the local preflight
    that evaluates all of them, and the validation chain of [pr create]. *)
From S2P Require Import Prelude RStr Collections Payload Error Types.
From stdpp Require Import options.

Definition BODY_SCAFFOLD_HINT : string :=
  "scaffold a valid body with `agent-runtime pr-body render --kind <kind>`".

(** ** Kinds and branches ([PrKind] of crates/nils-common/src/git.rs) *)
Inductive PrKind : Type := KFeature | KBug | KChore | KDocs | KCi | KRefactor | KTest.
#[export] Instance PrKind_eq_dec : EqDecision PrKind.
Proof. solve_decision. Defined.

Definition kind_as_str (k : PrKind) : string :=
  match k with
  | KFeature => "feature" | KBug => "bug" | KChore => "chore" | KDocs => "docs"
  | KCi => "ci" | KRefactor => "refactor" | KTest => "test"
  end.
Definition kind_branch_prefix (k : PrKind) : string :=
  match k with
  | KFeature => "feat" | KBug => "fix" | KChore => "chore" | KDocs => "docs"
  | KCi => "ci" | KRefactor => "refactor" | KTest => "test"
  end.
Definition kind_parse (value : string) : option PrKind :=
  if value ==? "feature" then Some KFeature
  else if value ==? "bug" then Some KBug
  else if value ==? "chore" then Some KChore
  else if value ==? "docs" then Some KDocs
  else if value ==? "ci" then Some KCi
  else if value ==? "refactor" then Some KRefactor
  else if value ==? "test" then Some KTest
  else None.
Definition kind_all : list PrKind := [KFeature; KBug; KChore; KDocs; KCi; KRefactor; KTest].

Inductive BranchPrefix : Type := Feat | Fix | Chore | Docs | Ci | Refactor | Test.
#[export] Instance BranchPrefix_eq_dec : EqDecision BranchPrefix.
Proof. solve_decision. Defined.

Definition prefix_as_str (p : BranchPrefix) : string :=
  match p with
  | Feat => "feat" | Fix => "fix" | Chore => "chore" | Docs => "docs"
  | Ci => "ci" | Refactor => "refactor" | Test => "test"
  end.

Record BodyHeadings := mk_BodyHeadings { bh_summary : string; bh_test_plan : string }.
Definition default_headings : BodyHeadings := mk_BodyHeadings "## Summary" "## Test plan".

Definition TITLE_MAX_LEN : nat := 70.

Definition rule_error (kind message : string) (detail : option string) : ForgeError :=
  validation error_schema kind message detail.

(** ** The branch *)
Definition branch_name_err (branch why : string) : ForgeError :=
  rule_error "branch_name_invalid" ("branch '" +:+ branch +:+ "' is invalid: " +:+ why)
    (Some "rule=^(feat|fix|chore|docs|ci|refactor|test)/[a-z0-9][a-z0-9.-]{1,63}$").

Definition prefix_of (prefix : string) : option BranchPrefix :=
  if prefix ==? "feat" then Some Feat
  else if prefix ==? "fix" then Some Fix
  else if prefix ==? "chore" then Some Chore
  else if prefix ==? "docs" then Some Docs
  else if prefix ==? "ci" then Some Ci
  else if prefix ==? "refactor" then Some Refactor
  else if prefix ==? "test" then Some Test
  else None.

Definition slug_first (c : ascii) : bool := is_ascii_lowercase c || is_ascii_digit c.
Definition slug_byte (c : ascii) : bool :=
  is_ascii_lowercase c || is_ascii_digit c || Ascii.eqb c "-" || Ascii.eqb c ".".

Definition check_slug (branch rest : string) : result ForgeError unit :=
  match rest with
  | EmptyString => Err (branch_name_err branch "slug is empty")
  | String first tail =>
      if (64 <? len rest)%N
      then Err (branch_name_err branch ("slug is " +:+ dec (len rest) +:+ " chars; max 64"))
      else if negb (slug_first first)
      then Err (branch_name_err branch "slug must start with a lowercase letter or digit")
      else if negb (all_bytes slug_byte tail)
      then Err (branch_name_err branch "slug must be lowercase [a-z0-9.-] only")
      else Ok tt
  end.

Definition branch_name (branch : string) : result ForgeError BranchPrefix :=
  match split_once "/" branch with
  | None => Err (branch_name_err branch "missing one of feat|fix|chore|docs|ci|refactor|test prefix")
  | Some (prefix, rest) =>
      match prefix_of prefix with
      | None => Err (branch_name_err branch ("unknown prefix '" +:+ prefix
                  +:+ "' (expected one of feat|fix|chore|docs|ci|refactor|test)"))
      | Some prefix => _ ← check_slug branch rest; Ok prefix
      end
  end.

Definition branch_kind_matches (prefix : BranchPrefix) (kind : PrKind) : result ForgeError unit :=
  if prefix_as_str prefix ==? kind_branch_prefix kind then Ok tt
  else Err (rule_error "branch_kind_mismatch"
    ("branch prefix '" +:+ prefix_as_str prefix +:+ "/' does not match --kind '" +:+ kind_as_str kind +:+ "'")
    (Some ("feature -> feat/*, bug -> fix/*, chore -> chore/*, docs -> docs/*, ci -> ci/*, refactor -> refactor/*, test -> test/* (branch_prefix="
           +:+ prefix_as_str prefix +:+ ", kind=" +:+ kind_as_str kind +:+ ")"))).

Definition delivery_base_matches (expected observed : string) : result ForgeError unit :=
  if expected ==? observed then Ok tt
  else Err (rule_error "delivery_base_mismatch"
    ("provider PR/MR base '" +:+ observed +:+ "' differs from requested delivery base '" +:+ expected +:+ "'")
    (Some ("expected_base=" +:+ expected +:+ "; observed_base=" +:+ observed
           +:+ "; select or create a PR/MR for the exact requested base"))).

(** ** The title *)
Definition title_length (title : string) : result ForgeError unit :=
  if is_empty title
  then Err (rule_error "title_too_long" "title is empty" (Some "rule=len(title) in 1..=70"))
  else if is_some_and (last (chars title)) is_whitespace
  then Err (rule_error "title_too_long" "title has trailing whitespace"
              (Some "rule=len(title) <= 70 and no trailing whitespace"))
  else if TITLE_MAX_LEN <? length (chars title)
  then Err (rule_error "title_too_long"
              ("title length " +:+ dec (N.of_nat (length (chars title))) +:+ " exceeds maximum 70")
              (Some "rule=len(title) <= 70"))
  else Ok tt.

(** ** The sections of the body *)
Definition is_h2_heading (line : string) : bool := starts_with "## " line && negb (starts_with "### " line).

(** The lines from here on, in the section or before it. *)
Fixpoint section_scan (heading : string) (in_section saw_content : bool) (ls : list string) : bool :=
  match ls with
  | [] => in_section && saw_content
  | line :: ls =>
      let trimmed := trim line in
      if is_h2_heading trimmed && in_section then saw_content
      else if is_h2_heading trimmed && (trimmed ==? heading) then section_scan heading true saw_content ls
      else section_scan heading in_section
             (if in_section && negb (is_empty trimmed) then true else saw_content) ls
  end.

Definition has_non_empty_section (body heading : string) : bool :=
  section_scan heading false false (lines body).

Definition missing_section (kind heading : string) : ForgeError :=
  rule_error kind ("body is missing a non-empty '" +:+ heading +:+ "' section")
    (Some ("rule=non-empty H2 '" +:+ heading +:+ "' section; " +:+ BODY_SCAFFOLD_HINT)).

Definition body_summary (body : string) (headings : BodyHeadings) : result ForgeError unit :=
  if has_non_empty_section body (bh_summary headings) then Ok tt
  else Err (missing_section "body_missing_summary" (bh_summary headings)).

Definition body_test_plan (body : string) (headings : BodyHeadings) : result ForgeError unit :=
  if has_non_empty_section body (bh_test_plan headings) then Ok tt
  else Err (missing_section "body_missing_test_plan" (bh_test_plan headings)).

Definition body_sections (body : string) (headings : BodyHeadings) : result ForgeError unit :=
  match body_summary body headings, body_test_plan body headings with
  | Ok _, Ok _ => Ok tt
  | Err err, Ok _ | Ok _, Err err => Err err
  | Err summary_err, Err test_plan_err =>
      Err (rule_error "body_missing_sections"
        ("body is missing required sections: '" +:+ bh_summary headings +:+ "' and '"
         +:+ bh_test_plan headings +:+ "'")
        (Some ("missing=" +:+ kind summary_err +:+ "," +:+ kind test_plan_err +:+ "; " +:+ BODY_SCAFFOLD_HINT)))
  end.

(** ** Text that is posted *)
Section payload.
Context `{PE : !PayloadEnv}.

Definition no_local_path (text field : string) : result ForgeError unit :=
  match validate_no_local_paths text field with
  | Ok _ => Ok tt
  | Err err => Err (rule_error LOCAL_PATH_ERROR_KIND (local_path_message err)
                      (Some (render_local_path_detail (le_hits err))))
  end.

Definition no_agent_attribution (text field : string) : result ForgeError unit :=
  match validate_no_agent_attribution text field with
  | Ok _ => Ok tt
  | Err err => Err (rule_error AGENT_ATTRIBUTION_ERROR_KIND (attribution_message err)
                      (Some (render_agent_attribution_detail (ae_hits err))))
  end.

Definition no_escaped_control_markdown (text : string) : result ForgeError unit :=
  match validate_markdown_payload text with
  | Ok _ => Ok tt
  | Err violations => Err (rule_error "markdown_escaped_control"
      (markdown_error_text violations
       +:+ ". Replace escaped controls (\n / \r / \t) with real characters or wrap them in a code span.")
      None)
  end.

(** ** The checkout: readers of [git] are arguments *)
Definition worktree_clean (git_status : result ForgeError string) : result ForgeError unit :=
  porcelain ← git_status;
  let dirty := List.filter (λ l, negb (is_empty (trim l))) (lines porcelain) in
  match dirty with
  | [] => Ok tt
  | _ => Err (rule_error "dirty_worktree"
           "worktree is dirty (commit, stash, or discard local changes first)" (Some (join nl dirty)))
  end.

Record HeadState := mk_HeadState { hs_head_sha : string; hs_upstream_sha : option string }.

Definition pushed_state (subject : string) (state : HeadState) : result ForgeError unit :=
  let who := if subject ==? "HEAD" then "HEAD" else "branch '" +:+ subject +:+ "'" in
  match hs_upstream_sha state with
  | None => Err (rule_error "head_not_pushed"
              (who +:+ " has no upstream tracking branch (push the branch first)") None)
  | Some upstream =>
      if upstream ==? hs_head_sha state then Ok tt
      else Err (rule_error "head_not_pushed"
        (who +:+ " differs from its upstream (push the branch first)")
        (Some ("branch=" +:+ subject +:+ nl +:+ "head=" +:+ hs_head_sha state +:+ nl
               +:+ "upstream=" +:+ upstream)))
  end.

Definition head_pushed (head_state : result ForgeError HeadState) : result ForgeError unit :=
  state ← head_state; pushed_state "HEAD" state.
Definition branch_pushed (branch : string) (branch_state : string → result ForgeError HeadState)
    : result ForgeError unit :=
  state ← branch_state branch; pushed_state branch state.

(** ** The local preflight *)
Record RuleVerdict := mk_RuleVerdict {
  rv_rule : string;
  rv_ok : bool;
  rv_code : option string;
  rv_message : option string;
}.

Definition from_result {A} (rule : string) (r : result ForgeError A) : RuleVerdict :=
  match r with
  | Ok _ => mk_RuleVerdict rule true None None
  | Err err => mk_RuleVerdict rule false (Some (kind err)) (Some (message err))
  end.

Definition not_evaluated (rule why : string) : RuleVerdict :=
  mk_RuleVerdict rule false None (Some ("not evaluated: " +:+ why)).

Record PreflightInputs := mk_PreflightInputs {
  pf_branch : string; pf_kind : PrKind; pf_title : string; pf_body : string; pf_headings : BodyHeadings }.

Definition run_local_preflight (inputs : PreflightInputs) (git_status : result ForgeError string)
    (head_state : string → result ForgeError HeadState) : list RuleVerdict :=
  let branch_result := branch_name (pf_branch inputs) in
  let prefix := ok branch_result in
  [ from_result "branch_name" branch_result;
    match prefix with
    | Some prefix => from_result "branch_kind" (branch_kind_matches prefix (pf_kind inputs))
    | None => not_evaluated "branch_kind" "branch name is invalid"
    end;
    from_result "title_length" (title_length (pf_title inputs));
    from_result "title_local_path" (no_local_path (pf_title inputs) "title");
    from_result "title_agent_attribution" (no_agent_attribution (pf_title inputs) "title");
    from_result "body_summary" (body_summary (pf_body inputs) (pf_headings inputs));
    from_result "body_test_plan" (body_test_plan (pf_body inputs) (pf_headings inputs));
    from_result "body_local_path" (no_local_path (pf_body inputs) "body");
    from_result "body_agent_attribution" (no_agent_attribution (pf_body inputs) "body");
    from_result "worktree_clean" (worktree_clean git_status);
    match prefix with
    | Some _ => from_result "head_pushed" (branch_pushed (pf_branch inputs) head_state)
    | None => not_evaluated "head_pushed" "branch name is invalid"
    end ].

(** ** The rules of [pr create], in its order (pr_create.rs); the labels, between the text and
    the checkout, are an argument. *)
Definition create_validations (inputs : PreflightInputs) (labels : result ForgeError unit)
    (git_status : result ForgeError string) (head_state : string → result ForgeError HeadState)
    : result ForgeError unit :=
  prefix ← branch_name (pf_branch inputs);
  _ ← branch_kind_matches prefix (pf_kind inputs);
  _ ← title_length (pf_title inputs);
  _ ← no_local_path (pf_title inputs) "title";
  _ ← no_agent_attribution (pf_title inputs) "title";
  _ ← body_sections (pf_body inputs) (pf_headings inputs);
  _ ← no_local_path (pf_body inputs) "body";
  _ ← no_agent_attribution (pf_body inputs) "body";
  _ ← labels;
  _ ← worktree_clean git_status;
  branch_pushed (pf_branch inputs) head_state.
End payload.
