(* ===== verification/Markers.v ===== *)
(** * Provider markers

    The owned HTML comment markers of [crates/forge-cli/src/ops/review_state.rs]:
    the hexadecimal encoding a state record travels in, the digest format, and the
    run, finding and thread markers that are written into review bodies and
    stripped from them again. *)
From S2P Require Import Prelude RStr Collections Error Types.
From stdpp Require Import options.

(** ** Constants *)
Definition STATE_MARKER_OPEN : string := "<!-- forge-cli:review-state:v1 ".
Definition STATE_MARKER_CLOSE : string := " -->".
Definition HTML_COMMENT_OPEN : string := "<!--".
Definition REVIEW_RUN_MARKER_PREFIX : string := "<!-- forge-cli:review-run:v1 run=".
Definition FINDING_MARKER_PREFIX : string := "<!-- forge-cli:review-finding:v1 run=".
Definition THREAD_DISPOSITION_MARKER_PREFIX : string :=
  "<!-- forge-cli:thread-disposition:v1 thread=".

(** ** Hexadecimal *)

(** [write!(&mut encoded, "{byte:02x}")]. *)
Definition hex_digit (n : N) : ascii :=
  if (n <? 10)%N then ascii_of_N (48 + n) else ascii_of_N (87 + n).

Fixpoint hex_encode (bytes : string) : string :=
  match bytes with
  | EmptyString => EmptyString
  | String c bytes =>
      String (hex_digit (N_of_ascii c / 16))
        (String (hex_digit (N_of_ascii c mod 16)) (hex_encode bytes))
  end.

Definition hex_value (c : ascii) : N :=
  if is_ascii_digit c then (N_of_ascii c - 48)%N else (N_of_ascii c - 87)%N.

(** [u8::from_str_radix(pair, 16)] over [as_chunks::<2>]; the guard of
    [hex_decode] leaves only pairs of lower-case digits. *)
Fixpoint hex_pairs (encoded : string) : string :=
  match encoded with
  | String a (String b encoded) =>
      String (ascii_of_N (hex_value a * 16 + hex_value b)) (hex_pairs encoded)
  | _ => EmptyString
  end.

Definition hex_decode (encoded : string) : exec string :=
  if is_empty encoded || negb (len encoded mod 2 =? 0)%N || negb (all_bytes is_lower_hex encoded)
  then throw (state_conflict "review-state marker payload is not canonical hex" None)
  else Ok (hex_pairs encoded).

(** ** Digests *)
Definition sha256_digest `{!Hasher} (bytes : string) : string :=
  "sha256:" +:+ hex_encode (sha256 bytes).

(** The canonical form of a digest: the tag and 64 lower-case hex digits. *)
Definition canonical_digest (s : string) : bool :=
  is_some_and (strip_prefix "sha256:" s) (λ digest,
    (len digest =? 64)%N && all_bytes is_lower_hex digest).

(** ** Run, finding and thread markers *)
Definition review_run_marker (review_run_id : string) : string :=
  REVIEW_RUN_MARKER_PREFIX +:+ review_run_id +:+ " -->".

Definition finding_marker (review_run_id body_digest : string) : string :=
  FINDING_MARKER_PREFIX +:+ review_run_id +:+ " digest=" +:+ body_digest +:+ " -->".

Definition thread_disposition_marker (thread_id : string) : string :=
  THREAD_DISPOSITION_MARKER_PREFIX +:+ thread_id +:+ " -->".

Definition has_thread_disposition_marker (body : string) : bool :=
  existsb (λ line,
    is_some_and
      (strip_prefix THREAD_DISPOSITION_MARKER_PREFIX (trim line) ≫= strip_suffix " -->")
      (λ thread, negb (is_empty thread)))
    (lines body).

Definition parse_review_run_id (body : string) : option string :=
  find_map (λ line,
    rest ← strip_prefix REVIEW_RUN_MARKER_PREFIX (trim line);
    value ← strip_suffix " -->" rest;
    if negb (is_empty value) && negb (has_whitespace value) then Some value else None)
    (lines body).

Definition parse_finding_marker (body : string) : option (string * string) :=
  find_map (λ line,
    rest ← strip_prefix FINDING_MARKER_PREFIX (trim line);
    rest ← strip_suffix " -->" rest;
    '(run, digest) ← split_once " digest=" rest;
    if is_empty run || is_empty digest then None else Some (run, digest))
    (lines body).

(** Whether a line starts with one of the prefixes this tool owns. *)
Definition owned_marker_line (line : string) : bool :=
  let line := trim line in
  starts_with REVIEW_RUN_MARKER_PREFIX line
  || starts_with FINDING_MARKER_PREFIX line
  || starts_with THREAD_DISPOSITION_MARKER_PREFIX line
  || starts_with STATE_MARKER_OPEN line.

Definition strip_owned_markers (body : string) : string :=
  trim_end (join nl (List.filter (λ line, negb (owned_marker_line line)) (lines body))).

(** ** Hexadecimal round trips *)

Lemma hex_digit_ok n : (n < 16)%N → is_lower_hex (hex_digit n) = true ∧ hex_value (hex_digit n) = n.
Proof.
  intros Hn. assert (Hall : Forall (λ n, is_lower_hex (hex_digit n) = true ∧ hex_value (hex_digit n) = n)
    (N.of_nat <$> seq 0 16)) by (repeat constructor).
  rewrite Forall_forall in Hall. apply Hall. apply list_elem_of_fmap.
  exists (N.to_nat n). rewrite N2Nat.id. split; [done|]. apply elem_of_seq. lia.
Qed.

Lemma byte_split c :
  (N_of_ascii c / 16 < 16)%N ∧ (N_of_ascii c mod 16 < 16)%N
  ∧ ascii_of_N (N_of_ascii c / 16 * 16 + N_of_ascii c mod 16) = c.
Proof.
  split; [|split].
  - apply N.Div0.div_lt_upper_bound. apply N_ascii_bounded.
  - by apply N.mod_lt.
  - rewrite N.mul_comm, <- N.Div0.div_mod. apply ascii_N_embedding.
Qed.

Lemma hex_encode_lower b : all_bytes is_lower_hex (hex_encode b) = true.
Proof.
  induction b as [|c b IH]; [done|]. cbn.
  destruct (byte_split c) as (H1 & H2 & _).
  by rewrite (proj1 (hex_digit_ok _ H1)), (proj1 (hex_digit_ok _ H2)), IH.
Qed.

Lemma hex_encode_length b : String.length (hex_encode b) = 2 * String.length b.
Proof. induction b as [|c b IH]; [done|]. cbn. rewrite IH. lia. Qed.

Lemma hex_pairs_encode b : hex_pairs (hex_encode b) = b.
Proof.
  induction b as [|c b IH]; [done|]. cbn.
  destruct (byte_split c) as (H1 & H2 & H3).
  by rewrite (proj2 (hex_digit_ok _ H1)), (proj2 (hex_digit_ok _ H2)), H3, IH.
Qed.

Lemma hex_value_range c : is_lower_hex c = true →
  (hex_value c < 16)%N ∧ hex_digit (hex_value c) = c.
Proof. destruct c as [[] [] [] [] [] [] [] []]; vm_compute; done. Qed.

Lemma even_length_ind (P : string → Prop) :
  P EmptyString → (∀ a b s, P s → P (String a (String b s))) →
  ∀ s, (String.length s mod 2)%nat = 0 → P s.
Proof.
  intros H0 H2. assert (Hn : ∀ n s, String.length s = n → (n mod 2)%nat = 0 → P s).
  { induction n as [n IH] using lt_wf_ind. intros s Hs Hn.
    destruct s as [|a [|b s]]; [done|cbn in Hs; subst; done|].
    apply H2. apply (IH (String.length s)); [cbn in Hs; lia|done|].
    cbn in Hs. subst n. change (S (S (String.length s))) with (2 + String.length s) in Hn.
    replace (2 + String.length s) with (String.length s + 1 * 2) in Hn by lia.
    by rewrite Nat.Div0.mod_add in Hn. }
  intros s. by apply Hn.
Qed.

Lemma hex_encode_pairs s :
  (String.length s mod 2)%nat = 0 → all_bytes is_lower_hex s = true → hex_encode (hex_pairs s) = s.
Proof.
  intros Hs. revert s Hs. apply (even_length_ind (λ s,
    all_bytes is_lower_hex s = true → hex_encode (hex_pairs s) = s)); [done|].
  intros a b s IH. cbn [all_bytes]. intros [Ha [Hb Hs]%andb_true_iff]%andb_true_iff.
  cbn [hex_pairs hex_encode]. destruct (hex_value_range a Ha) as [Ha1 Ha2].
  destruct (hex_value_range b Hb) as [Hb1 Hb2].
  rewrite N_ascii_embedding by lia.
  rewrite N.div_add_l, N.div_small, N.add_0_r by lia.
  rewrite N.add_comm, N.Div0.mod_add, N.mod_small by lia.
  by rewrite Ha2, Hb2, IH.
Qed.

Lemma len_mod2 s : (len s mod 2 =? 0)%N = true ↔ (String.length s mod 2)%nat = 0.
Proof.
  unfold len. rewrite N.eqb_eq. rewrite <- (Nat2N.inj_mod _ 2). lia.
Qed.

Lemma hex_decode_ok e b :
  hex_decode e = Ok b ↔ e ≠ EmptyString ∧ e = hex_encode b.
Proof.
  unfold hex_decode. split.
  - destruct (is_empty e) eqn:E1; [done|]. destruct (len e mod 2 =? 0)%N eqn:E2; [|done].
    destruct (all_bytes is_lower_hex e) eqn:E3; [|done]. intros [= <-].
    split; [by destruct e|]. symmetry. apply hex_encode_pairs; [by apply len_mod2|done].
  - intros [Hne ->]. rewrite hex_encode_lower.
    assert (He : (len (hex_encode b) mod 2 =? 0)%N = true).
    { apply len_mod2. rewrite hex_encode_length, Nat.mul_comm. apply Nat.Div0.mod_mul. }
    rewrite He. destruct (hex_encode b) eqn:E1; [done|]. cbn [is_empty orb negb].
    by rewrite <- E1, hex_pairs_encode.
Qed.

Lemma canonical_sha256_digest `{!Hasher, !HasherLaws} b : canonical_digest (sha256_digest b) = true.
Proof.
  unfold canonical_digest, sha256_digest. rewrite strip_prefix_app. cbn [is_some_and].
  rewrite hex_encode_lower, andb_true_r. unfold len. rewrite hex_encode_length, sha256_length.
  done.
Qed.

(** ** Markers in a body *)

Lemma marker_trim p m : starts_with HTML_COMMENT_OPEN p = true →
  trim (p +:+ m +:+ " -->") = p +:+ m +:+ " -->".
Proof.
  intros [r ->]%starts_with_true. change HTML_COMMENT_OPEN with (String "<" "!--").
  change " -->" with (" --" +:+ String ">" EmptyString).
  rewrite <- !app_assoc, !(app_cons "<"). by apply trim_solid.
Qed.

Lemma marker_line_ok p m :
  all_bytes (λ c, negb (Ascii.eqb c newline)) p = true →
  all_bytes (λ c, negb (Ascii.eqb c newline)) m = true →
  line_ok (p +:+ m +:+ " -->") = true.
Proof.
  intros Hp Hm. unfold line_ok. rewrite !all_bytes_app, Hp, Hm. cbn [andb].
  change " -->" with (" --" +:+ String ">" EmptyString). rewrite <- !app_assoc.
  by rewrite ends_with_last.
Qed.

Lemma owned_marker_line_false l :
  owned_marker_line l = false →
  strip_prefix REVIEW_RUN_MARKER_PREFIX (trim l) = None
  ∧ strip_prefix FINDING_MARKER_PREFIX (trim l) = None.
Proof.
  unfold owned_marker_line.
  intros [[[H1 H2]%orb_false_iff _]%orb_false_iff _]%orb_false_iff.
  split; [exact (starts_with_false _ _ H1)|exact (starts_with_false _ _ H2)].
Qed.

(** A body: [before] holds no owned marker, then the marker's line, then anything. *)
Record body_around (before after : list string) : Prop := {
  ba_before : ∀ l, l ∈ before → line_ok l = true ∧ owned_marker_line l = false;
  ba_after : ∀ l, l ∈ after → line_ok l = true;
  ba_last : last after ≠ Some EmptyString;
}.

Lemma lines_around before after m :
  body_around before after → line_ok m = true → m ≠ EmptyString →
  lines (join nl (before ++ m :: after)) = before ++ m :: after.
Proof.
  intros [Hb Ha Hl] Hm Hne. apply lines_join.
  - intros w [Hw|[->|Hw]%elem_of_cons]%elem_of_app; [by apply Hb|done|by apply Ha].
  - rewrite last_app. rewrite last_cons. destruct (last after); [done|]. congruence.
Qed.

Lemma find_map_around {B} (f : string → option B) before m after y :
  (∀ l, l ∈ before → f l = None) → f m = Some y →
  find_map f (before ++ m :: after) = Some y.
Proof.
  intros Hb Hm. apply find_map_some. exists before, m, after. done.
Qed.

(** a run marker written into a review body is read back from it. *)
Theorem review_run_marker_round_trip id before after :
  id ≠ EmptyString → has_whitespace id = false → body_around before after →
  parse_review_run_id (join nl (before ++ review_run_marker id :: after)) = Some id.
Proof.
  intros Hne Hws Hba. unfold parse_review_run_id.
  assert (Hok : line_ok (review_run_marker id) = true).
  { apply marker_line_ok; [done|]. apply no_ws1_no_byte; [done|]. by apply has_whitespace_ws1. }
  rewrite lines_around by done. apply find_map_around.
  - intros l Hl. destruct (ba_before _ _ Hba l Hl) as [_ [-> _]%owned_marker_line_false]. done.
  - unfold review_run_marker. rewrite marker_trim by done.
    rewrite strip_prefix_app. cbn [mbind option_bind]. rewrite strip_suffix_app.
    cbn [mbind option_bind]. rewrite Hws. by destruct id.
Qed.

(** a finding marker is read back with its run and body digest. *)
Theorem finding_marker_round_trip run digest before after :
  run ≠ EmptyString → digest ≠ EmptyString →
  has_whitespace run = false → has_whitespace digest = false → body_around before after →
  parse_finding_marker (join nl (before ++ finding_marker run digest :: after))
  = Some (run, digest).
Proof.
  intros Hr Hd Hwr Hwd Hba. unfold parse_finding_marker.
  set (payload := run +:+ " digest=" +:+ digest).
  assert (Heq : finding_marker run digest = FINDING_MARKER_PREFIX +:+ payload +:+ " -->").
  { unfold finding_marker, payload. by rewrite !app_assoc. }
  apply has_whitespace_ws1 in Hwr as Hwr'. apply has_whitespace_ws1 in Hwd as Hwd'.
  assert (Hok : line_ok (finding_marker run digest) = true).
  { rewrite Heq. apply marker_line_ok; [done|]. unfold payload. rewrite !all_bytes_app.
    by rewrite (no_ws1_no_byte newline run), (no_ws1_no_byte newline digest). }
  rewrite lines_around by done. apply find_map_around.
  - intros l Hl. destruct (ba_before _ _ Hba l Hl) as [_ [_ ->]%owned_marker_line_false]. done.
  - rewrite Heq. rewrite marker_trim by done.
    rewrite strip_prefix_app. cbn [mbind option_bind]. rewrite strip_suffix_app.
    cbn [mbind option_bind]. unfold payload.
    change " digest=" with (String " " "digest=") at 1 2.
    rewrite split_once_skip by by apply no_ws1_no_byte.
    change (String " " "digest=") with " digest=". rewrite split_once_here.
    cbn. rewrite app_nil_r. by destruct run, digest.
Qed.

(** an owned marker on a line of its own does not take part in the semantic
    comparison of a body. *)
Theorem strip_owned_markers_absorbs before after m :
  line_ok m = true → m ≠ EmptyString → owned_marker_line m = true →
  (∀ l, l ∈ before ++ after → line_ok l = true) →
  last after ≠ Some EmptyString → last (before ++ after) ≠ Some EmptyString →
  strip_owned_markers (join nl (before ++ m :: after))
  = strip_owned_markers (join nl (before ++ after)).
Proof.
  intros Hm Hne Hown Hok Hl1 Hl2. unfold strip_owned_markers.
  rewrite !lines_join.
  - rewrite !List.filter_app. cbn [List.filter]. by rewrite Hown.
  - done.
  - done.
  - intros w. rewrite elem_of_app, elem_of_cons. intros [Hw|[->|Hw]]; [|done|];
      apply Hok, elem_of_app; auto.
  - rewrite last_app, last_cons. destruct (last after); [done|]. congruence.
Qed.

Lemma review_run_marker_round_trip_witness :
  parse_review_run_id (join nl (["Summary"] ++ review_run_marker "sha256:ab" :: [])) = Some "sha256:ab".
Proof.
  apply (review_run_marker_round_trip "sha256:ab" ["Summary"] []); [done|reflexivity|].
  split; [|set_solver|done]. intros l Hl%list_elem_of_singleton. by subst.
Defined.

Lemma finding_marker_round_trip_witness :
  parse_finding_marker (join nl (["Summary"] ++ finding_marker "run" "sha256:ab" :: []))
  = Some ("run", "sha256:ab").
Proof.
  apply (finding_marker_round_trip "run" "sha256:ab" ["Summary"] []);
    [done|done|reflexivity|reflexivity|].
  split; [|set_solver|done]. intros l Hl%list_elem_of_singleton. by subst.
Defined.

Lemma strip_owned_markers_absorbs_witness :
  strip_owned_markers (join nl (["Summary"] ++ review_run_marker "r" :: ["end"]))
  = strip_owned_markers (join nl (["Summary"] ++ ["end"])).
Proof.
  apply (strip_owned_markers_absorbs ["Summary"] ["end"] (review_run_marker "r"));
    [reflexivity|done|reflexivity| |done|done].
  intros l. cbn. rewrite !elem_of_cons. intros [->|[->|Hl]]; [reflexivity..|].
  by apply not_elem_of_nil in Hl.
Defined.
