(* ===== verification/ReviewLoop.v ===== *)
(** * The review loop: observations, budgets, hard stops and extensions

    The state machine of [crates/forge-cli/src/ops/review_state.rs]:
    [observe_review_loop] folds a reviewer's observations into the loop state and
    enforces the three budgets; [record_review_loop_hard_stop] makes a refused
    attempt durable; [apply_review_loop_extension] consumes one approved proposal.
    [ceiling_proposal] is [pr_review_loop.rs]. *)
From S2P Require Import Prelude RStr Collections Error Types Markers.
From stdpp Require Import options.

Section defs.
Context `{HS : !Hasher, LS : !LedgerSerde}.

(** ** Fingerprints *)
Definition stable_part (part : string) : bool :=
  negb (is_empty part) && negb (starts_with "-" part) && negb (ends_with "-" part)
  && all_bytes (λ byte, is_ascii_lowercase byte || is_ascii_digit byte || Ascii.eqb byte "-") part.

Definition validate_lifecycle_fingerprint (fingerprint : string) : exec unit :=
  let parts := split_char ":" fingerprint in
  if (length parts =? 3)%nat && forallb stable_part parts then Ok tt
  else throw (review_stop "review_fingerprint_collision"
    "lifecycle fingerprint must have <category>:<component>:<invariant> form"
    ("fingerprint=" +:+ fingerprint)).

(** [if let Some(root) = .. { validate_lifecycle_fingerprint(root)?; }] *)
Definition validate_root (root : option string) : exec unit :=
  match root with Some root => validate_lifecycle_fingerprint root | None => Ok tt end.

(** ** Canonical observations *)
Definition lifecycle_key (observation : ReviewFindingObservation) : string :=
  default (o_fingerprint observation) (o_root_cause_fingerprint observation).

Definition canonical_observation (observation : ReviewFindingObservation) : ReviewFindingObservation :=
  {| o_fingerprint := o_fingerprint observation;
     o_root_cause_fingerprint := o_root_cause_fingerprint observation;
     o_blocking := if o_status observation !=? Open then false else o_blocking observation;
     o_status := o_status observation;
     o_threads := sort_dedup (o_threads observation) |}.

Definition canonical_step (result : gmap string ReviewFindingObservation)
    (observation : ReviewFindingObservation) : exec (gmap string ReviewFindingObservation) :=
  _ ← validate_lifecycle_fingerprint (o_fingerprint observation);
  _ ← validate_root (o_root_cause_fingerprint observation);
  let lifecycle := lifecycle_key observation in
  let observation := canonical_observation observation in
  let inserted := <[lifecycle := observation]> result in
  match result !! lifecycle with
  | Some previous =>
      if previous !=? observation then
        throw (review_stop "review_fingerprint_collision"
          "one lifecycle identity describes incompatible observations"
          ("fingerprint=" +:+ lifecycle))
      else Ok inserted
  | None => Ok inserted
  end.

Definition canonical_observations (observations : list ReviewFindingObservation)
    : exec (gmap string ReviewFindingObservation) :=
  foldM canonical_step ∅ observations.

(** ** Budget stops *)
Definition stop_budget_field (code : string) : option string :=
  if code ==? "review_round_limit_exceeded" then Some "max_repair_rounds"
  else if code ==? "review_no_progress" then Some "max_no_progress_rounds"
  else if code ==? "review_finding_reopened" then Some "max_auto_reopens_per_fingerprint"
  else None.

Definition hard_stop_error (stop : ReviewLoopHardStop) : ForgeError :=
  let code :=
    if hs_code stop ==? "review_round_limit_exceeded" then "review_round_limit_exceeded"
    else if hs_code stop ==? "review_no_progress" then "review_no_progress"
    else if hs_code stop ==? "review_finding_reopened" then "review_finding_reopened"
    else "review_state_conflict" in
  validation error_schema code "the durable review-loop hard stop is still active"
    (Some ("attempted_head=" +:+ hs_attempted_head_sha stop
      +:+ "; observation_digest=" +:+ hs_observation_digest stop
      +:+ "; proposal_digest=" +:+ hs_proposal_digest stop
      +:+ "; budget_field=" +:+ hs_budget_field stop
      +:+ "; increment=" +:+ dec (hs_increment stop))).

(** ** Well-formed states *)
Definition validate_finding (fingerprint : string) (finding : ReviewLoopFinding) : exec unit :=
  _ ← validate_lifecycle_fingerprint fingerprint;
  _ ← match f_root_cause_fingerprint finding with
      | Some root =>
          _ ← validate_lifecycle_fingerprint root;
          if root !=? fingerprint then
            throw (state_conflict "review-loop finding map key differs from its root-cause identity"
              (Some ("key=" +:+ fingerprint +:+ "; root=" +:+ root)))
          else Ok tt
      | None => Ok tt
      end;
  if is_empty (f_first_seen_head finding) || is_empty (f_last_seen_head finding)
     || (f_seen_count finding =? 0)%N
  then throw (state_conflict "review-loop finding lifecycle counters are invalid"
         (Some ("fingerprint=" +:+ fingerprint)))
  else Ok tt.

Definition validate_review_loop_state (state : ReviewLoopState) : exec unit :=
  if is_empty (s_head_sha state) then throw (state_conflict "review-loop state head is empty" None)
  else
  _ ← iterM (λ '(fingerprint, finding), validate_finding fingerprint finding)
        (entries (s_findings state));
  match s_hard_stop state with
  | Some stop =>
      if (stop_budget_field (hs_code stop) !=? Some (hs_budget_field stop))
         || negb (hs_increment stop =? 1)%N
         || is_empty (hs_proposal_digest stop)
         || is_empty (hs_attempted_head_sha stop)
         || is_empty (hs_observation_digest stop)
      then throw (state_conflict "review-loop hard-stop record is invalid"
             (Some ("code=" +:+ hs_code stop)))
      else Ok tt
  | None => Ok tt
  end.

(** ** Digests *)
Definition serialize_failure {A} (msg : string) (r : result string A) : exec A :=
  map_err (λ error, Fail (software error_schema msg (Some error))) r.

Definition review_observation_digest (expected_head : string)
    (observations : gmap string ReviewFindingObservation) : exec string :=
  bytes ← serialize_failure "failed to serialize review-loop observation digest"
            (to_vec (REVIEW_STATE_SCHEMA, expected_head, observations));
  Ok (sha256_digest bytes).

Definition known_budget_field (budget_field : string) : bool :=
  (budget_field ==? "max_repair_rounds") || (budget_field ==? "max_no_progress_rounds")
  || (budget_field ==? "max_auto_reopens_per_fingerprint").

Definition extension_increment_error (increment : N) : ForgeError :=
  validation error_schema "review_extension_invalid"
    "review budget extension increment must be between 1 and 100"
    (Some ("increment=" +:+ dec increment)).

Definition unknown_budget_field_error (budget_field : string) : ForgeError :=
  validation error_schema "review_extension_invalid" "unknown review budget field"
    (Some ("budget_field=" +:+ budget_field)).

Definition extension_proposal_digest (state_tip_digest stop_code budget_field : string)
    (increment : N) : exec string :=
  if (increment =? 0)%N || (100 <? increment)%N then throw (extension_increment_error increment)
  else if negb (known_budget_field budget_field) then
    throw (unknown_budget_field_error budget_field)
  else
  bytes ← serialize_failure "failed to serialize review extension proposal"
            (to_vec (REVIEW_STATE_SCHEMA, state_tip_digest, stop_code, budget_field, increment));
  Ok (sha256_digest bytes).

(** ** stopped_attempt.rs *)
Definition mismatch_error (stop : ReviewLoopHardStop) (expected_head observation_digest : string)
    : ForgeError :=
  let recovery :=
    if hs_attempted_head_sha stop ==? expected_head then
      "replay the original canonical inventory (observation_digest=" +:+ hs_observation_digest stop
      +:+ ") with forge-cli pr review-loop observe <PR> --expected-head " +:+ expected_head
      +:+ " --expected-state <current-tip> --findings-file <original-findings.json>"
      +:+ (if hs_extension_applied stop then
             "; the approved extension is already applied and must not be extended again"
           else
             "; first obtain the exact maintainer approval and run forge-cli pr review-loop extend for the current stop")
    else
      "if " +:+ hs_attempted_head_sha stop +:+ ".." +:+ expected_head
      +:+ " is a provider-verified signed fast-forward, prepare a forge-cli.review-loop-supersession.v1 findings file with reason signed-fast-forward and superseded_record set to the latest stopped review-loop record digest (not the handoff tip); run forge-cli pr review-loop observe <PR> --expected-head "
      +:+ expected_head
      +:+ " --expected-state <current-tip> --findings-file <supersession.json>; then obtain fresh maintainer approval for the new proposal and run forge-cli pr review-loop extend <PR> --expected-head "
      +:+ expected_head
      +:+ " --expected-state <new-stop-tip> --stop-code <new-stop-code> --budget-field <new-stop-field> --increment <new-stop-increment> --proposal-digest <new-proposal> --approval-comment <new-approval-id>; resume the identical new inventory with observe at the returned tip; an unsupported head change cannot reuse the old approval" in
  state_conflict
    ("a different observation cannot replace the durable review hard stop; recovery=run forge-cli pr review-loop inspect <PR> --format json; "
     +:+ recovery +:+ "; reviewer rebinding does not clear the stop or grant budget")
    (Some ("stop_head=" +:+ hs_attempted_head_sha stop +:+ "; attempted_head=" +:+ expected_head
      +:+ "; stop_observation=" +:+ hs_observation_digest stop
      +:+ "; attempted_observation=" +:+ observation_digest
      +:+ "; extension_applied=" +:+ (if hs_extension_applied stop then "true" else "false"))).

(** ** Observing *)
Definition open_finding (finding : ReviewLoopFinding) : bool := f_status finding ==? Open.

Definition observation_blocks (observation : ReviewFindingObservation) : bool :=
  (o_status observation ==? Open) && o_blocking observation.

Definition count_blocking_findings (findings : gmap string ReviewLoopFinding) : N :=
  count_if (λ finding, open_finding finding && f_blocking finding) (values findings).

Definition count_blocking_observations (current : gmap string ReviewFindingObservation) : N :=
  count_if observation_blocks (values current).

Definition observation_matches_state (state : ReviewLoopState)
    (observations : gmap string ReviewFindingObservation) : bool :=
  let active := filter (λ kv, f_last_seen_head kv.2 = s_head_sha state) (s_findings state) in
  (size active =? size observations)%nat
  && forallb (λ '(fingerprint, observation),
       is_some_and (active !! fingerprint) (λ finding,
         (f_root_cause_fingerprint finding ==? o_root_cause_fingerprint observation)
         && (f_status finding ==? o_status observation)
         && Bool.eqb (f_blocking finding) (o_blocking observation)
         && forallb (λ thread, bool_decide (thread ∈ f_threads finding)) (o_threads observation)))
     (entries observations).

(** The finding an observation starts. *)
Definition new_finding (expected_head : string) (observation : ReviewFindingObservation)
    : ReviewLoopFinding :=
  {| f_root_cause_fingerprint := o_root_cause_fingerprint observation;
     f_status := o_status observation;
     f_blocking := observation_blocks observation;
     f_first_seen_head := expected_head;
     f_last_seen_head := expected_head;
     f_seen_count := 1;
     f_reopen_count := 0;
     f_threads := o_threads observation |}.

Definition genesis_state (expected_head : string) (current : gmap string ReviewFindingObservation)
    : ReviewLoopState :=
  {| s_head_sha := expected_head; s_round := 0; s_no_progress_rounds := 0;
     s_budget := ReviewLoopBudget_default;
     s_findings := new_finding expected_head <$> current;
     s_extensions := []; s_hard_stop := None |}.

Definition repaired_head_error (fingerprint expected_head : string) : ForgeError :=
  state_conflict
    "a fixed disposition requires a repaired head; already fixed findings may be omitted or repeated on the same head"
    (Some ("fingerprint=" +:+ fingerprint +:+ "; head=" +:+ expected_head)).

(** The rules of an observation that does not move the head. *)
Definition same_head_rule (expected_head : string)
    (current : gmap string ReviewFindingObservation)
    (entry : string * ReviewLoopFinding) : exec unit :=
  let '(fingerprint, finding) := entry in
  if negb (open_finding finding) then Ok tt else
  match current !! fingerprint with
  | None =>
      throw (state_conflict "same-head observation cannot omit an open finding"
        (Some ("fingerprint=" +:+ fingerprint +:+ "; head=" +:+ expected_head)))
  | Some observation =>
      if o_status observation ==? Fixed then throw (repaired_head_error fingerprint expected_head)
      else if f_blocking finding && (o_status observation ==? Open)
              && negb (o_blocking observation) then
        throw (state_conflict
          "same-head observation cannot implicitly clear an open blocking finding"
          (Some ("fingerprint=" +:+ fingerprint +:+ "; head=" +:+ expected_head)))
      else Ok tt
  end.

(** One iteration of the merge loop: the finding stored for an observation. *)
Definition merge_finding (head_changed : bool) (expected_head : string) (max_reopens : N)
    (fingerprint : string) (stored : option ReviewLoopFinding)
    (observation : ReviewFindingObservation) : exec ReviewLoopFinding :=
  match stored with
  | None => Ok (new_finding expected_head observation)
  | Some finding =>
      if f_root_cause_fingerprint finding !=? o_root_cause_fingerprint observation then
        throw (review_stop "review_fingerprint_collision"
          "a lifecycle fingerprint changed root-cause identity" ("fingerprint=" +:+ fingerprint))
      else
      reopen_count ←
        (if (f_status finding ==? Fixed) && (o_status observation ==? Open) then
           let reopen_count := saturating_add u32_max (f_reopen_count finding) 1 in
           if (max_reopens <? reopen_count)%N then
             throw (review_stop "review_finding_reopened" "a fixed lifecycle finding reappeared"
               ("fingerprint=" +:+ fingerprint +:+ "; reopen_count=" +:+ dec reopen_count
                +:+ "; max_auto_reopens_per_fingerprint=" +:+ dec max_reopens))
           else Ok reopen_count
         else Ok (f_reopen_count finding));
      let threads := sort_dedup (f_threads finding ++ o_threads observation) in
      if (o_status observation ==? Fixed) && negb head_changed then
        if f_status finding ==? Fixed then
          Ok {| f_root_cause_fingerprint := f_root_cause_fingerprint finding;
                f_status := f_status finding; f_blocking := f_blocking finding;
                f_first_seen_head := f_first_seen_head finding;
                f_last_seen_head := f_last_seen_head finding;
                f_seen_count := f_seen_count finding;
                f_reopen_count := reopen_count; f_threads := threads |}
        else throw (repaired_head_error fingerprint expected_head)
      else
        Ok {| f_root_cause_fingerprint := f_root_cause_fingerprint finding;
              f_status := o_status observation;
              f_blocking := observation_blocks observation;
              f_first_seen_head := f_first_seen_head finding;
              f_last_seen_head := expected_head;
              f_seen_count := saturating_add u32_max (f_seen_count finding) 1;
              f_reopen_count := reopen_count; f_threads := threads |}
  end.

Definition merge_findings (head_changed : bool) (expected_head : string) (max_reopens : N)
    (findings : gmap string ReviewLoopFinding) (current : gmap string ReviewFindingObservation)
    : exec (gmap string ReviewLoopFinding) :=
  foldM (λ findings '(fingerprint, observation),
    finding ← merge_finding head_changed expected_head max_reopens fingerprint
                (findings !! fingerprint) observation;
    Ok (<[fingerprint := finding]> findings))
    findings (entries current).

Definition unchanged_transition (state : ReviewLoopState) : ReviewLoopTransition :=
  mk_ReviewLoopTransition state false None None None.

(** What a durable stop lets through: only its own attempt, once extended. *)
Definition resume_stopped (previous : ReviewLoopState) (expected_head : string)
    (current : gmap string ReviewFindingObservation) : exec ReviewLoopState :=
  match s_hard_stop previous with
  | None => Ok previous
  | Some stop =>
      observation_digest ← review_observation_digest expected_head current;
      if (hs_attempted_head_sha stop !=? expected_head)
         || (hs_observation_digest stop !=? observation_digest)
      then throw (mismatch_error stop expected_head observation_digest)
      else if negb (hs_extension_applied stop) then throw (hard_stop_error stop)
      else Ok (set_hard_stop previous None)
  end.

Definition next_no_progress_rounds (previous : ReviewLoopState) (head_changed : bool)
    (current : gmap string ReviewFindingObservation) : N :=
  let previous_blocking := count_blocking_findings (s_findings previous) in
  let current_blocking := count_blocking_observations current in
  if head_changed && (0 <? current_blocking)%N && (previous_blocking <=? current_blocking)%N
  then saturating_add u32_max (s_no_progress_rounds previous) 1
  else if head_changed then 0%N
  else s_no_progress_rounds previous.

(** Open findings of [previous] that the observation leaves out. *)
Definition missing_open (previous : ReviewLoopState)
    (current : gmap string ReviewFindingObservation) : list string :=
  (List.filter (λ '(key, finding), open_finding finding && negb (contains_key key current))
     (entries (s_findings previous))).*1.

(** [observe_review_loop] after the stop has been resumed. *)
Definition observe_resumed (previous : ReviewLoopState) (expected_head : string)
    (current : gmap string ReviewFindingObservation) : exec ReviewLoopTransition :=
  let head_changed := s_head_sha previous !=? expected_head in
  let missing := missing_open previous current in
  if head_changed && negb (bool_decide (missing = [])) then
    throw (validation error_schema "review_observation_incomplete"
      "observation omits open findings; include their current dispositions"
      (Some ("missing=" +:+ join "," missing
        +:+ "; recovery=include every open finding with its current status")))
  else if negb head_changed && observation_matches_state previous current then
    Ok (unchanged_transition previous)
  else
  _ ← (if negb head_changed
       then iterM (same_head_rule expected_head current) (entries (s_findings previous))
       else Ok tt);
  let next_round := wrapping_add u32_max (s_round previous) (if head_changed then 1 else 0) in
  if (max_repair_rounds (s_budget previous) <? next_round)%N then
    throw (review_stop "review_round_limit_exceeded" "review repair-round budget is exhausted"
      ("round=" +:+ dec next_round +:+ "; max_repair_rounds="
       +:+ dec (max_repair_rounds (s_budget previous))))
  else
  let next_no_progress := next_no_progress_rounds previous head_changed current in
  if (max_no_progress_rounds (s_budget previous) <? next_no_progress)%N then
    throw (review_stop "review_no_progress"
      "the blocking finding set did not shrink within the configured budget"
      ("previous_blocking=" +:+ dec (count_blocking_findings (s_findings previous))
       +:+ "; current_blocking=" +:+ dec (count_blocking_observations current)
       +:+ "; no_progress_rounds=" +:+ dec next_no_progress
       +:+ "; max_no_progress_rounds=" +:+ dec (max_no_progress_rounds (s_budget previous))))
  else
  findings ← merge_findings head_changed expected_head
               (max_auto_reopens_per_fingerprint (s_budget previous)) (s_findings previous) current;
  let state := {|
    s_head_sha := expected_head; s_round := next_round;
    s_no_progress_rounds := next_no_progress; s_budget := s_budget previous;
    s_findings := findings; s_extensions := s_extensions previous; s_hard_stop := None |} in
  Ok (mk_ReviewLoopTransition state (state !=? previous) None None None).

Definition observe_review_loop (previous : option ReviewLoopState) (expected_head : string)
    (observations : list ReviewFindingObservation) : exec ReviewLoopTransition :=
  if is_empty (trim expected_head) then
    throw (state_conflict "review-loop observation head is empty" None)
  else
  current ← canonical_observations observations;
  match previous with
  | None => Ok (mk_ReviewLoopTransition (genesis_state expected_head current) true None None None)
  | Some previous =>
      _ ← validate_review_loop_state previous;
      previous ← resume_stopped previous expected_head current;
      observe_resumed previous expected_head current
  end.

(** ** Hard stops and extensions *)
Definition record_review_loop_hard_stop (previous : ReviewLoopState) (attempted_head : string)
    (observations : list ReviewFindingObservation) (state_tip_digest : string)
    (error : ForgeError) : exec ReviewLoopState :=
  budget_field ← ok_or (Fail (state_conflict
      "only a budget hard stop can be recorded for extension"
      (Some ("error=" +:+ kind error)))) (stop_budget_field (kind error));
  current ← canonical_observations observations;
  let increment := 1%N in
  proposal_digest ← extension_proposal_digest state_tip_digest (kind error) budget_field increment;
  observation_digest ← review_observation_digest attempted_head current;
  Ok (set_hard_stop previous (Some {|
    hs_code := kind error; hs_budget_field := budget_field; hs_increment := increment;
    hs_proposal_digest := proposal_digest; hs_attempted_head_sha := attempted_head;
    hs_observation_digest := observation_digest; hs_extension_applied := false |})).

Definition apply_extension_stop (stop : ReviewLoopHardStop) : ReviewLoopHardStop :=
  {| hs_code := hs_code stop; hs_budget_field := hs_budget_field stop;
     hs_increment := hs_increment stop; hs_proposal_digest := hs_proposal_digest stop;
     hs_attempted_head_sha := hs_attempted_head_sha stop;
     hs_observation_digest := hs_observation_digest stop; hs_extension_applied := true |}.

(** [*target = target.checked_add(increment)?] on the budget the field names. *)
Definition extend_budget (budget : ReviewLoopBudget) (budget_field : string) (increment : N)
    : exec ReviewLoopBudget :=
  let overflow := Fail (validation error_schema "review_extension_invalid"
                          "review budget extension overflowed" None) in
  let check := if (increment =? 0)%N || (100 <? increment)%N
               then throw (extension_increment_error increment) else Ok tt in
  if budget_field ==? "max_repair_rounds" then
    _ ← check;
    v ← ok_or overflow (checked_add u32_max (max_repair_rounds budget) increment);
    Ok (mk_ReviewLoopBudget v (max_no_progress_rounds budget) (max_auto_reopens_per_fingerprint budget))
  else if budget_field ==? "max_no_progress_rounds" then
    _ ← check;
    v ← ok_or overflow (checked_add u32_max (max_no_progress_rounds budget) increment);
    Ok (mk_ReviewLoopBudget (max_repair_rounds budget) v (max_auto_reopens_per_fingerprint budget))
  else if budget_field ==? "max_auto_reopens_per_fingerprint" then
    _ ← check;
    v ← ok_or overflow (checked_add u32_max (max_auto_reopens_per_fingerprint budget) increment);
    Ok (mk_ReviewLoopBudget (max_repair_rounds budget) (max_no_progress_rounds budget) v)
  else throw (unknown_budget_field_error budget_field).

Definition apply_review_loop_extension (previous : ReviewLoopState)
    (proposal_digest approval_reference stop_code budget_field : string) (increment : N)
    : exec ReviewLoopState :=
  hard_stop ← ok_or (Fail (validation error_schema "review_extension_invalid"
      "review budget extension requires a durable hard-stop record" None)) (s_hard_stop previous);
  if hs_extension_applied hard_stop
     || (hs_code hard_stop !=? stop_code)
     || (hs_budget_field hard_stop !=? budget_field)
     || negb (hs_increment hard_stop =? increment)%N
     || (hs_proposal_digest hard_stop !=? proposal_digest)
     || (stop_budget_field stop_code !=? Some budget_field)
  then throw (validation error_schema "review_extension_invalid"
    "the extension does not match the current durable hard stop"
    (Some ("stop_code=" +:+ hs_code hard_stop +:+ "; budget_field=" +:+ hs_budget_field hard_stop
      +:+ "; increment=" +:+ dec (hs_increment hard_stop)
      +:+ "; proposal_digest=" +:+ hs_proposal_digest hard_stop)))
  else if existsb (λ extension, x_proposal_digest extension ==? proposal_digest)
            (s_extensions previous)
  then throw (validation error_schema "review_extension_replayed"
    "the review budget extension proposal was already consumed"
    (Some ("proposal_digest=" +:+ proposal_digest)))
  else
  budget ← extend_budget (s_budget previous) budget_field increment;
  Ok {| s_head_sha := s_head_sha previous; s_round := s_round previous;
        s_no_progress_rounds := s_no_progress_rounds previous; s_budget := budget;
        s_findings := s_findings previous;
        s_extensions := s_extensions previous ++ [
          {| x_proposal_digest := proposal_digest; x_approval_reference := approval_reference;
             x_budget_field := budget_field; x_increment := increment |}];
        s_hard_stop := Some (apply_extension_stop hard_stop) |}.

(** ** pr_review_loop.rs: the proposal at the no-progress ceiling *)
Record CeilingProposal := mk_CeilingProposal {
  cp_stop_code : string;
  cp_budget_field : string;
  cp_increment : N;
  cp_proposal_digest : string;
  cp_approval_marker : string;
}.

Definition extension_approval_marker (proposal budget_field : string) (increment : N) : string :=
  "<!-- forge-cli:review-loop-extension:v1 proposal=" +:+ proposal +:+ " field=" +:+ budget_field
  +:+ " increment=" +:+ dec increment +:+ " -->".

Definition ceiling_proposal (state : ReviewLoopState) (tip : string) : exec (option CeilingProposal) :=
  if is_some (s_hard_stop state)
     || negb (s_no_progress_rounds state =? max_no_progress_rounds (s_budget state))%N
     || negb (existsb (λ finding, f_blocking finding && open_finding finding)
                (values (s_findings state)))
  then Ok None
  else
  let stop_code := "review_no_progress" in
  let budget_field := "max_no_progress_rounds" in
  let increment := 1%N in
  proposal_digest ← extension_proposal_digest tip stop_code budget_field increment;
  let approval_marker := extension_approval_marker proposal_digest budget_field increment in
  Ok (Some (mk_CeilingProposal stop_code budget_field increment proposal_digest approval_marker)).
End defs.

#[global] Arguments extension_proposal_digest : simpl never.
#[global] Arguments review_observation_digest : simpl never.
#[global] Arguments canonical_observations : simpl never.
#[global] Arguments merge_findings : simpl never.
#[global] Arguments validate_review_loop_state : simpl never.
