(* ===== verification/Identity.v ===== *)
(** * Identity policy

    [crates/nils-common/src/forge_identity/policy.rs] and the launch rules of
    [forge_identity/session.rs]: which credential profile may act on which
    repository for which principal.  The policy is data ([BTreeMap]s are [gmap]s);
    [Policy_validate] is the check every loaded policy passes, [resolve] the
    selection, [principal_for_launch] the mapping of a launched session to a
    principal.  The secret regex and [std::fs::canonicalize] are parameters. *)
From S2P Require Import Prelude RStr Collections Error Types.
From stdpp Require Import options.

Inductive Operation : Type := ApiRead | ApiWrite | GitRead | GitPush | Commit.
#[export] Instance Operation_eq_dec : EqDecision Operation.
Proof. solve_decision. Defined.

Inductive Activation : Type := Always | AssertedOnly.

Record LaunchRule := mk_LaunchRule {
  lr_id : string; lr_initiator : string; lr_role : option string; lr_principal : string;
}.

Record Principal := mk_Principal {
  pr_profiles : list string;
  pr_default_profile : option string;
  pr_default_repositories : list string;
}.

Record Profile := mk_Profile {
  pf_expected_login : option string;
  pf_expected_app_id : option N;
  pf_app_slug : option string;
  pf_credential : string;
  pf_commit_name : string;
  pf_commit_email : string;
  pf_signing_fingerprint : string;
  pf_operations : list Operation;
}.

Inductive Credential : Type := GhUser (user : string) | EnvVar (name : string).

Record Rule := mk_Rule {
  ru_id : string; ru_principal : string; ru_profile : string;
  ru_repo : option string; ru_org : option string; ru_path : option string;
  ru_repositories : list string;
}.

Record Policy := mk_Policy {
  po_version : N;
  po_gitlab_hosts : list string;
  po_activation : Activation;
  po_require_session_binding : bool;
  po_launch_rules : list LaunchRule;
  po_principals : gmap string Principal;
  po_profiles : gmap string Profile;
  po_credentials : gmap string Credential;
  po_rules : list Rule;
}.

Record Target := mk_Target { tg_host : string; tg_repo : string }.

Record Selection := mk_Selection {
  se_principal : string; se_target : Target; se_operation : Operation;
  se_profile_id : string; se_matched_rule : string; se_profile : Profile;
}.

Record IdentityError := mk_IdentityError { ie_code : string; ie_detail : option string }.

(** An error the caller sees, or a panic of the program. *)
Inductive identity_stop : Type := Refused (e : IdentityError) | Crashed (reason : string).
Notation identity := (result identity_stop).

Definition refuse {A} (code : string) : identity A := Err (Refused (mk_IdentityError code None)).
Definition unwrap {A} (reason : string) (o : option A) : identity A :=
  match o with Some a => Ok a | None => Err (Crashed reason) end.

Definition bytes_any (p : ascii → bool) (s : string) : bool := negb (all_bytes (λ c, negb (p c)) s).
Definition byte_is (c d : ascii) : bool := Ascii.eqb c d.

(** ** Paths: the components of [std::path] on Unix *)
Inductive Component : Type := RootDir | CurDir | ParentDir | Normal (s : string).
#[export] Instance Component_eq_dec : EqDecision Component.
Proof. solve_decision. Defined.

Definition segment_component (s : string) : list Component :=
  if is_empty s || (s ==? ".") then [] else if s ==? ".." then [ParentDir] else [Normal s].

Definition components (path : string) : list Component :=
  let segments := split_char "/" path in
  (if starts_with "/" path then [RootDir]
   else if head segments ==? Some "." then [CurDir] else [])
  ++ segments ≫= segment_component.

Definition is_absolute (path : string) : bool := starts_with "/" path.
(** [Path::starts_with] and [PartialEq for Path] compare components. *)
Definition path_starts_with (path base : string) : bool :=
  bool_decide (take (length (components base)) (components path) = components base).
Definition path_eq (p q : string) : bool := components p ==? components q.

(** ** Hosts, identifiers and targets *)
Definition canonical_git_host (host : string) : string :=
  let host := to_ascii_lowercase (trim host) in
  if host ==? "ssh.github.com" then "github.com"
  else if host ==? "altssh.gitlab.com" then "gitlab.com"
  else host.

Definition canonical_host (host : string) : identity string :=
  if negb (all_bytes (λ b, is_ascii_alphanumeric b || byte_is b "." || byte_is b "-") host)
     || is_empty host || starts_with "-" host
  then refuse "identity_target_invalid"
  else Ok (canonical_git_host host).

Section identifiers.
Context `{SP : !SecretPattern}.

Definition identifier (s : string) : bool :=
  negb (token_secret_is_match s) && negb (is_empty s) && (len s <=? 128)%N
  && all_bytes (λ b, is_ascii_alphanumeric b || byte_is b "-" || byte_is b "_" || byte_is b ".") s.

Definition bad_part (p : string) : bool := negb (identifier p) || (p ==? ".") || (p ==? "..").

Definition Target_new (host repo : string) : identity Target :=
  host ← canonical_host host;
  let parts := split_char "/" repo in
  if negb (length parts =? 2)%nat || existsb bad_part parts
  then refuse "identity_target_invalid"
  else Ok (mk_Target host (to_ascii_lowercase repo)).

Definition Target_new_gitlab (host repo : string) : identity Target :=
  host ← canonical_host host;
  let parts := split_char "/" repo in
  if (length parts <? 2)%nat || existsb bad_part parts
  then refuse "identity_target_invalid"
  else Ok (mk_Target host (to_ascii_lowercase repo)).

Definition cross_repository (host : string) : identity Target :=
  host ← canonical_host host; Ok (mk_Target host EmptyString).

Definition target_key (self : Target) : string :=
  if is_empty (tg_repo self) then tg_host self else tg_host self +:+ "/" +:+ tg_repo self.

(** [parts.pop(); parts.join("/")]. *)
Definition org (self : Target) : string :=
  tg_host self +:+ "/" +:+ join "/" (removelast (split_char "/" (tg_repo self))).

Definition from_key (key : string) : identity Target :=
  '(host, repo) ← ok_or (Refused (mk_IdentityError "identity_target_invalid" None))
                    (split_once "/" key);
  Target_new host repo.

(** ** session.rs *)
Record LaunchContext := mk_LaunchContext {
  lc_initiator : string; lc_role : option string; lc_attested_role : option string;
}.

Definition LaunchContext_validate (self : LaunchContext) : identity unit :=
  if negb (identifier (lc_initiator self))
     || is_some_and (lc_role self) (λ r, negb (identifier r))
     || is_some_and (lc_attested_role self) (λ r, Some r !=? lc_role self)
  then refuse "identity_session_binding_invalid" else Ok tt.

Record SessionReference := mk_SessionReference {
  sf_machine : string; sf_session_id : string; sf_session_created_at : string;
  sf_session_incarnation : option string;
}.

Record SessionBinding := mk_SessionBinding {
  sb_schema_version : string; sb_session_id : string; sb_session_incarnation : string;
  sb_session_created_at : string; sb_root : SessionReference;
  sb_parent : option SessionReference; sb_initiator : string; sb_role : option string;
  sb_attested_role : option string;
}.

Definition BINDING_SCHEMA : string := "agent-session.forge-binding.v1".

Definition reference_valid `{!TimestampParse} (r : SessionReference) : bool :=
  identifier (sf_machine r) && identifier (sf_session_id r)
  && timestamp_ok (sf_session_created_at r)
  && is_none_or (sf_session_incarnation r) identifier.

Definition binding_context (self : SessionBinding) : LaunchContext :=
  {| lc_initiator := sb_initiator self; lc_role := sb_role self;
     lc_attested_role := sb_attested_role self |}.

Definition SessionBinding_validate `{!TimestampParse} (self : SessionBinding) : identity unit :=
  if (sb_schema_version self !=? BINDING_SCHEMA)
     || negb (identifier (sb_session_id self))
     || negb (identifier (sb_session_incarnation self))
     || negb (timestamp_ok (sb_session_created_at self))
     || negb (reference_valid (sb_root self))
     || is_some_and (sb_parent self) (λ p, negb (reference_valid p))
  then refuse "identity_session_binding_invalid"
  else LaunchContext_validate (binding_context self).

Definition principal_for_launch (self : Policy) (context : LaunchContext)
    : identity (string * string) :=
  _ ← LaunchContext_validate context;
  let matches := List.filter (λ r, (lr_initiator r ==? lc_initiator context)
    && (is_none (lr_role r) || (lr_role r ==? lc_role context))) (po_launch_rules self) in
  let exact := List.filter (λ r, is_some (lr_role r)) matches in
  let selected := match exact with [] => matches | _ => exact end in
  match selected with
  | [rule] => Ok (lr_principal rule, lr_id rule)
  | [] => refuse "identity_launch_rule_missing"
  | _ => refuse "identity_launch_rule_ambiguous"
  end.

Record SessionDecision := mk_SessionDecision {
  sd_binding : SessionBinding; sd_matched_launch_rule : string;
}.

Definition session_decision `{!TimestampParse} (self : Policy) (binding : SessionBinding)
    : identity (string * SessionDecision) :=
  _ ← SessionBinding_validate binding;
  '(principal, matched_launch_rule) ← principal_for_launch self (binding_context binding);
  Ok (principal, mk_SessionDecision binding matched_launch_rule).

(** ** Validation *)
Definition invalid {A} : identity A := refuse "identity_policy_invalid".

Definition target_from_key (self : Policy) (key : string) : identity Target :=
  '(host, repo) ← ok_or (Refused (mk_IdentityError "identity_target_invalid" None))
                    (split_once "/" key);
  if (host ==? "gitlab.com") || existsb (λ configured, configured ==? host) (po_gitlab_hosts self)
  then Target_new_gitlab host repo
  else Target_new host repo.

Definition bad_gitlab_host (host : string) : bool :=
  match Target_new_gitlab host "group/project" with
  | Ok target =>
      (host !=? to_ascii_lowercase host) || (tg_host target !=? host)
      || (host ==? "github.com") || (host ==? "gitlab.com")
  | Err _ => true
  end.

Definition env_name_byte (first : bool) (b : ascii) : bool :=
  byte_is b "_" || is_ascii_lowercase b || is_ascii_uppercase b
  || (negb first && is_ascii_digit b).

Definition env_name_ok (name : string) : bool :=
  match name with
  | EmptyString => false
  | String b rest => env_name_byte true b && all_bytes (env_name_byte false) rest
  end.

Definition validate_credential (entry : string * Credential) : identity unit :=
  let '(id, credential) := entry in
  if negb (identifier id) then invalid
  else match credential with
       | GhUser user => if negb (identifier user) then invalid else Ok tt
       | EnvVar name => if negb (env_name_ok name) then invalid else Ok tt
       end.

Definition name_break (c : ascii) : bool :=
  byte_is c newline || byte_is c carriage_return || byte_is c "<" || byte_is c ">".

Definition validate_profile (self : Policy) (entry : string * Profile) : identity unit :=
  let '(id, profile) := entry in
  let fingerprint := pf_signing_fingerprint profile in
  if negb (identifier id)
     || negb (contains_key (pf_credential profile) (po_credentials self))
     || bool_decide (pf_operations profile = [])
     || negb ((len fingerprint =? 40)%N || (len fingerprint =? 64)%N)
     || negb (all_bytes is_ascii_hexdigit fingerprint)
     || token_secret_is_match (pf_commit_name profile)
     || token_secret_is_match (pf_commit_email profile)
     || is_empty (trim (pf_commit_name profile))
     || bytes_any name_break (pf_commit_name profile)
     || negb (contains "@" (pf_commit_email profile))
     || bytes_any (λ c, name_break c || byte_is c " ") (pf_commit_email profile)
  then invalid
  else match pf_expected_login profile, pf_expected_app_id profile, pf_app_slug profile with
       | Some login, None, None => if identifier login then Ok tt else invalid
       | None, Some id, Some slug =>
           if (0 <? id)%N && identifier slug then Ok tt else invalid
       | _, _, _ => invalid
       end.

(** [self.target_from_key(repo)?.key() != *repo] is an error. *)
Definition canonical_key (self : Policy) (repo : string) : identity unit :=
  target ← target_from_key self repo;
  if target_key target !=? repo then invalid else Ok tt.

Definition validate_principal (self : Policy) (entry : string * Principal) : identity unit :=
  let '(id, principal) := entry in
  if negb (identifier id)
     || bool_decide (pr_profiles principal = [])
     || existsb (λ p, negb (contains_key p (po_profiles self))) (pr_profiles principal)
     || is_some_and (pr_default_profile principal)
          (λ p, negb (bool_decide (p ∈ pr_profiles principal)))
     || Bool.eqb (is_some (pr_default_profile principal))
          (bool_decide (pr_default_repositories principal = []))
  then invalid
  else iterM (canonical_key self) (pr_default_repositories principal).

(** The loop [for rule in &self.launch_rules] with its set of seen ids. *)
Definition validate_launch_rule (self : Policy) (launch_ids : gset string) (rule : LaunchRule)
    : identity (gset string) :=
  if negb (identifier (lr_id rule))
     || bool_decide (lr_id rule ∈ launch_ids)
     || negb (identifier (lr_initiator rule))
     || is_some_and (lr_role rule) (λ role, negb (identifier role))
     || negb (contains_key (lr_principal rule) (po_principals self))
  then invalid
  else Ok ({[lr_id rule]} ∪ launch_ids).

Definition count_selectors (rule : Rule) : nat :=
  length (List.filter id [is_some (ru_repo rule); is_some (ru_org rule); is_some (ru_path rule)]).

Definition validate_org (self : Policy) (org_key : string) : identity unit :=
  probe ← target_from_key self (org_key +:+ "/probe");
  if org probe !=? org_key then invalid else Ok tt.

(** [canonicalize] is the file system's answer for a path. *)
Definition validate_path (canonicalize : string → option string) (rule : Rule)
    : identity unit :=
  match ru_path rule with
  | Some path =>
      if negb (is_absolute path)
         || bool_decide (ru_repositories rule = [])
         || negb (is_some_and (canonicalize path) (λ canonical, path_eq canonical path))
         || existsb (λ c, c ==? ParentDir) (components path)
      then invalid else Ok tt
  | None => if negb (bool_decide (ru_repositories rule = [])) then invalid else Ok tt
  end.

Definition validate_rule (canonicalize : string → option string) (self : Policy)
    (ids : gset string) (rule : Rule) : identity (gset string) :=
  match po_principals self !! ru_principal rule with
  | None => invalid
  | Some principal =>
      if negb (identifier (ru_id rule))
         || bool_decide (ru_id rule ∈ ids)
         || negb (bool_decide (ru_profile rule ∈ pr_profiles principal))
         || negb (count_selectors rule =? 1)%nat
      then invalid
      else
      _ ← match ru_repo rule with Some repo => canonical_key self repo | None => Ok tt end;
      _ ← match ru_org rule with Some org => validate_org self org | None => Ok tt end;
      _ ← validate_path canonicalize rule;
      _ ← iterM (canonical_key self) (ru_repositories rule);
      Ok ({[ru_id rule]} ∪ ids)
  end.

Definition Policy_validate (canonicalize : string → option string) (self : Policy)
    : identity unit :=
  if negb (po_version self =? 1)%N then refuse "identity_policy_version"
  else if existsb bad_gitlab_host (po_gitlab_hosts self)
          || negb (length (sort_dedup (po_gitlab_hosts self)) =? length (po_gitlab_hosts self))%nat
  then invalid
  else if bool_decide (po_principals self = ∅) || bool_decide (po_profiles self = ∅)
          || bool_decide (po_credentials self = ∅)
  then invalid
  else
  _ ← iterM validate_credential (entries (po_credentials self));
  _ ← iterM (validate_profile self) (entries (po_profiles self));
  _ ← iterM (validate_principal self) (entries (po_principals self));
  _ ← foldM (validate_launch_rule self) ∅ (po_launch_rules self);
  _ ← foldM (validate_rule canonicalize self) ∅ (po_rules self);
  Ok tt.

(** ** Resolution *)
Definition has_operation (profile : Profile) (operation : Operation) : bool :=
  bool_decide (operation ∈ pf_operations profile).

Definition host_matches (host key : string) : bool :=
  is_some_and (split_once "/" key) (λ hr, hr.1 ==? host).

(** The authorities a principal declares for a profile. *)
Definition host_declared (self : Policy) (principal : string) (entry : Principal)
    (profile_id host : string) : bool :=
  existsb (λ rule,
    (ru_principal rule ==? principal) && (ru_profile rule ==? profile_id)
    && (is_some_and (ru_repo rule) (host_matches host)
        || is_some_and (ru_org rule) (host_matches host)
        || existsb (host_matches host) (ru_repositories rule))) (po_rules self)
  || ((pr_default_profile entry ==? Some profile_id)
      && existsb (host_matches host) (pr_default_repositories entry)).

(** The branch of [resolve] for a host-only target. *)
Definition resolve_host (self : Policy) (principal : string) (entry : Principal)
    (target : Target) (operation : Operation) : identity Selection :=
  if negb (bool_decide (operation = ApiRead)) then refuse "identity_operation_denied"
  else
  let candidates := sort_dedup (pr_profiles entry) in
  if negb (length candidates =? 1)%nat then
    Err (Refused (mk_IdentityError "identity_target_ambiguous"
      (Some ("candidate profiles: " +:+ join ", " candidates
        +:+ "; pass --repo owner/repo to apply repository rules, or set FORGE_IDENTITY_PRINCIPAL to a principal with exactly one profile"))))
  else
  profile_id ← unwrap "candidates.first()" (head candidates);
  if negb (host_declared self principal entry profile_id (tg_host target))
  then refuse "identity_repository_unknown"
  else
  profile ← unwrap "profiles.get" (po_profiles self !! profile_id);
  if negb (has_operation profile operation) then refuse "identity_operation_denied"
  else Ok (mk_Selection principal target operation profile_id "principal-single-profile" profile).

Definition rules_of (self : Policy) (principal : string) : list Rule :=
  List.filter (λ r, ru_principal r ==? principal) (po_rules self).

Definition path_rules (managed_path : option string) (rules : list Rule) : list Rule :=
  List.filter (λ r, is_some_and (ru_path r) (λ p,
    is_some_and managed_path (λ m, path_starts_with m p))) rules.

(** The groups in order of precedence: repository, organisation, path. *)
Definition first_group (groups : list (list Rule)) : option (list Rule) :=
  find_first (λ group, negb (bool_decide (length group = 0))) groups.

Definition select_rule (entry : Principal) (key : string) (chosen : option (list Rule))
    (paths : list Rule) : identity (string * string) :=
  match chosen with
  | Some group =>
      if negb (length group =? 1)%nat then refuse "identity_rule_ambiguous"
      else
      rule ← unwrap "group[0]" (head group);
      if existsb (λ r, ru_profile r !=? ru_profile rule) paths
      then refuse "identity_path_conflict"
      else Ok (ru_profile rule, ru_id rule)
  | None =>
      if negb (bool_decide (key ∈ pr_default_repositories entry))
      then refuse "identity_repository_unknown"
      else
      profile ← ok_or (Refused (mk_IdentityError "identity_repository_unknown" None))
                  (pr_default_profile entry);
      Ok (profile, "principal-default")
  end.

Definition resolve (self : Policy) (principal : string) (target : Target)
    (managed_path : option string) (operation : Operation) : identity Selection :=
  entry ← ok_or (Refused (mk_IdentityError "identity_principal_unknown" None))
            (po_principals self !! principal);
  if is_empty (tg_repo target) then resolve_host self principal entry target operation
  else
  let key := target_key target in
  let rules := rules_of self principal in
  let paths := path_rules managed_path rules in
  if existsb (λ r, negb (bool_decide (key ∈ ru_repositories r))) paths
  then refuse "identity_path_conflict"
  else
  let repos := List.filter (λ r, ru_repo r ==? Some key) rules in
  let orgs := List.filter (λ r, ru_org r ==? Some (org target)) rules in
  '(profile_id, matched_rule) ← select_rule entry key (first_group [repos; orgs; paths]) paths;
  profile ← unwrap "profiles.get" (po_profiles self !! profile_id);
  if negb (has_operation profile operation) then refuse "identity_operation_denied"
  else Ok (mk_Selection principal target operation profile_id matched_rule profile).
End identifiers.
