(* ===== verification/Record.v ===== *)
(** * Records and their provider comments

    [ReviewStateRecord] of [crates/forge-cli/src/ops/review_state.rs]: its digest
    and marker, the visible sentence and the comment body it is posted in, and the
    parser that reads a record back from a comment. *)
From S2P Require Import Prelude RStr Collections Error Types Markers ReviewLoop.
From stdpp Require Import options.

Definition MAX_PROVIDER_STATE_MARKER_BYTES : N := 64 * 1024.
Definition MAX_PROVIDER_STATE_COMMENT_BYTES : N := 64 * 1024.

Section defs.
Context `{HS : !Hasher, LS : !LedgerSerde}.

(** ** Digest and construction *)
Definition preimage (self : ReviewStateRecord) : ReviewStatePreimage :=
  {| pre_schema := r_schema self; pre_repository := r_repository self; pre_pr := r_pr self;
     pre_expected_head := r_expected_head self; pre_generation := r_generation self;
     pre_previous_digest := r_previous_digest self; pre_payload := r_payload self;
     pre_assignment_generation := r_assignment_generation self |}.

Definition compute_digest (self : ReviewStateRecord) : exec string :=
  bytes ← serialize_failure "failed to serialize review-state digest preimage"
            (to_vec (preimage self));
  Ok (sha256_digest bytes).

Definition set_record_digest (self : ReviewStateRecord) (d : string) : ReviewStateRecord :=
  {| r_schema := r_schema self; r_repository := r_repository self; r_pr := r_pr self;
     r_expected_head := r_expected_head self; r_generation := r_generation self;
     r_previous_digest := r_previous_digest self; r_payload := r_payload self;
     r_assignment_generation := r_assignment_generation self; r_record_digest := d |}.

Definition set_assignment_generation (self : ReviewStateRecord) (g : option N) : ReviewStateRecord :=
  {| r_schema := r_schema self; r_repository := r_repository self; r_pr := r_pr self;
     r_expected_head := r_expected_head self; r_generation := r_generation self;
     r_previous_digest := r_previous_digest self; r_payload := r_payload self;
     r_assignment_generation := g; r_record_digest := r_record_digest self |}.

Definition ReviewStateRecord_new (repository : string) (pr : N) (expected_head : string)
    (generation : N) (previous_digest : option string) (payload : ReviewStatePayload)
    : exec ReviewStateRecord :=
  let assignment_generation :=
    match payload with
    | P_ReviewHandoff handoff => Some (assignment_generation handoff)
    | _ => None
    end in
  let record := {|
    r_schema := REVIEW_STATE_SCHEMA; r_repository := repository; r_pr := pr;
    r_expected_head := expected_head; r_generation := generation;
    r_previous_digest := previous_digest; r_payload := payload;
    r_assignment_generation := assignment_generation; r_record_digest := EmptyString |} in
  digest ← compute_digest record;
  Ok (set_record_digest record digest).

Definition with_assignment_generation (self : ReviewStateRecord) (generation : option N)
    : exec ReviewStateRecord :=
  let self := set_assignment_generation self generation in
  digest ← compute_digest self;
  Ok (set_record_digest self digest).

Definition marker (self : ReviewStateRecord) : exec string :=
  json ← serialize_failure "failed to serialize review-state record" (to_vec self);
  let marker := STATE_MARKER_OPEN +:+ hex_encode json +:+ STATE_MARKER_CLOSE in
  if (MAX_PROVIDER_STATE_MARKER_BYTES <? len marker)%N then
    throw (validation error_schema "review_state_record_too_large"
      "the provider-visible review-state record exceeds the safe comment-body limit"
      (Some ("marker_bytes=" +:+ dec (len marker) +:+ "; max_bytes="
        +:+ dec MAX_PROVIDER_STATE_MARKER_BYTES)))
  else Ok marker.

(** ** The visible sentence *)
Definition short_sha (sha : string) : string :=
  if (len sha =? 40)%N && all_bytes is_ascii_hexdigit sha then String.substring 0 7 sha
  else "unknown".

Definition SAFE_CATEGORIES : list string :=
  ["api-contract"; "correctness"; "maintainability"; "performance"; "reliability";
   "security"; "testing"; "usability"].

Definition finding_category (fingerprint : string) : string :=
  let category := default EmptyString (head (split_char ":" fingerprint)) in
  if bool_decide (category ∈ SAFE_CATEGORIES) then category else "other".

Definition visible_finding_categories (state : ReviewLoopState) (blocking : bool) : string :=
  let categories : gset string := list_to_set
    ((λ kv, finding_category kv.1) <$>
       List.filter (λ '(_, finding), open_finding finding && Bool.eqb (f_blocking finding) blocking)
         (entries (s_findings state))) in
  join ", " (sorted_elements categories).

Definition count_findings (p : ReviewLoopFinding → bool) (state : ReviewLoopState) : N :=
  count_if p (values (s_findings state)).

Definition review_loop_sentence (state : ReviewLoopState) : string :=
  match s_hard_stop state with
  | Some stop =>
      if hs_extension_applied stop then
        "Review budget extension recorded at head " +:+ short_sha (hs_attempted_head_sha stop)
        +:+ ". Resume the review observation before merge."
      else
        "Review paused at head " +:+ short_sha (hs_attempted_head_sha stop)
        +:+ " by a review budget stop. Resolve the stop before continuing."
  | None =>
      let open_blocking := count_findings (λ f, open_finding f && f_blocking f) state in
      let open_non_blocking := count_findings (λ f, open_finding f && negb (f_blocking f)) state in
      if (0 <? open_blocking + open_non_blocking)%N then
        let blocking_categories := visible_finding_categories state true in
        let non_blocking_categories := visible_finding_categories state false in
        let blocking :=
          if is_empty blocking_categories then "0 blocking"
          else dec open_blocking +:+ " blocking (" +:+ blocking_categories +:+ ")" in
        let non_blocking :=
          if is_empty non_blocking_categories then "0 non-blocking"
          else dec open_non_blocking +:+ " non-blocking (" +:+ non_blocking_categories +:+ ")" in
        "Review findings recorded at head " +:+ short_sha (s_head_sha state) +:+ ": "
        +:+ blocking +:+ ", " +:+ non_blocking
        +:+ ". The author may fix only these findings; the same reviewer re-checks the fix."
      else
        let fixed := count_findings (λ f, f_status f ==? Fixed) state in
        "Review closed at head " +:+ short_sha (s_head_sha state) +:+ ": " +:+ dec fixed +:+ " "
        +:+ (if (fixed =? 1)%N then "finding" else "findings")
        +:+ " fixed, 0 open. Ready for merge checks."
  end.

Definition handoff_sentence (handoff : ReviewHandoff) : string :=
  if is_some (coordinator_transfer handoff) then
    "Coordinator ownership transferred (coordinator-retired); review assignment generation "
    +:+ dec (assignment_generation handoff) +:+ " revoked. Findings remain in this ledger."
  else if surrendered handoff then
    "Reviewer released this assignment at head " +:+ short_sha (assigned_head handoff)
    +:+ ". Waiting for reassignment."
  else if is_some (returned_reason handoff) then
    "Review assignment recovered at head " +:+ short_sha (assigned_head handoff)
    +:+ ". Waiting for reassignment."
  else
    "Review assigned to " +:+ review_author handoff +:+ " for head "
    +:+ short_sha (assigned_head handoff) +:+ " (base " +:+ short_sha (base_sha handoff)
    +:+ "). Only this exact head is under review; a new push needs re-review before merge.".

(** [expect("validated supersession stop")] is the one panic of the renderer. *)
Definition state_comment_visible_metadata (record : ReviewStateRecord) : exec string :=
  match r_payload record with
  | P_ReviewRunReceipt receipt =>
      Ok ("Review receipt recorded at head " +:+ short_sha (rr_expected_head receipt)
          +:+ ". Follow the review findings before merge.")
  | P_ReviewLoopAcceptance state acceptance =>
      Ok ("Review accepted risk recorded at head " +:+ short_sha (s_head_sha state) +:+ ": "
          +:+ dec (N.of_nat (length (ar_accepted_fingerprints acceptance)))
          +:+ " findings accepted; original stop, counters, and budgets retained. Approval: "
          +:+ ar_approval_reference acceptance +:+ ".")
  | P_ReviewLoopSupersession state supersession =>
      stop ← expect "validated supersession stop" (s_hard_stop state);
      Ok ("Review stop superseded from head " +:+ short_sha (sr_from_head supersession)
          +:+ " to head " +:+ short_sha (hs_attempted_head_sha stop)
          +:+ ". A new maintainer approval is required before resume.")
  | P_ReviewLoopCorrection state correction =>
      Ok ("Review correction recorded at head " +:+ short_sha (s_head_sha state) +:+ ": "
          +:+ dec (N.of_nat (length (cr_restored_findings correction)))
          +:+ " omitted findings restored; prior history and budgets retained."
          +:+ (if is_some (s_hard_stop state)
               then " Review remains paused by its budget stop." else EmptyString))
  | P_ReviewLoop state => Ok (review_loop_sentence state)
  | P_ReviewHandoff handoff => Ok (handoff_sentence handoff)
  | P_ReviewSyncCarryOver carry_over =>
      Ok ("Designated review pass at head " +:+ short_sha (reviewed_head carry_over)
          +:+ " carried to head " +:+ short_sha (co_head carry_over)
          +:+ ": a clean merge of base " +:+ short_sha (base_commit carry_over)
          +:+ " with an identical tree. Ready for merge checks.")
  end.

(** ** The comment body *)
Definition comment_invalid (message : string) (detail : option string) : ForgeError :=
  validation error_schema "review_state_comment_invalid" message detail.

Definition validate_outcome_body (outcome : string) : exec string :=
  let trimmed := trim outcome in
  if is_empty trimmed then
    throw (comment_invalid "the review-loop outcome body is empty" None)
  else if contains STATE_MARKER_OPEN trimmed then
    throw (comment_invalid "the review-loop outcome body must not contain a review-state marker"
      (Some ("marker_prefix=" +:+ trim_end STATE_MARKER_OPEN)))
  else if contains HTML_COMMENT_OPEN trimmed then
    throw (comment_invalid "the review-loop outcome body must not contain an HTML comment"
      (Some ("html_comment_prefix=" +:+ HTML_COMMENT_OPEN
        +:+ "; reason=an HTML comment can hide the visible ledger label and the machine marker")))
  else if (MAX_PROVIDER_STATE_COMMENT_BYTES <? len trimmed)%N then
    throw (validation error_schema "review_state_comment_too_large"
      "the review-loop outcome body exceeds the safe comment-body limit"
      (Some ("outcome_bytes=" +:+ dec (len trimmed) +:+ "; max_bytes="
        +:+ dec MAX_PROVIDER_STATE_COMMENT_BYTES)))
  else Ok trimmed.

Definition render_state_comment_body (record : ReviewStateRecord)
    (visible_outcome : option string) : exec string :=
  marker ← marker record;
  metadata ← state_comment_visible_metadata record;
  body ← match visible_outcome with
         | Some outcome =>
             outcome ← validate_outcome_body outcome;
             Ok (metadata +:+ nl +:+ marker +:+ nl +:+ nl +:+ "---" +:+ nl +:+ nl +:+ outcome)
         | None => Ok (metadata +:+ nl +:+ marker)
         end;
  if (MAX_PROVIDER_STATE_COMMENT_BYTES <? len body)%N then
    throw (validation error_schema "review_state_comment_too_large"
      "the complete provider review-state comment body exceeds the safe comment-body limit"
      (Some ("comment_bytes=" +:+ dec (len body) +:+ "; marker_bytes=" +:+ dec (len marker)
        +:+ "; max_bytes=" +:+ dec MAX_PROVIDER_STATE_COMMENT_BYTES)))
  else Ok body.

Definition comment_carries_outcome (body marker outcome : string) : bool :=
  contains marker body && contains (trim outcome) body.

(** ** Reading a record back *)
Definition parse_state_marker (body : string) : exec (option ReviewStateRecord) :=
  match split_once STATE_MARKER_OPEN body with
  | None => Ok None
  | Some (_, rest) =>
      match split_once STATE_MARKER_CLOSE rest with
      | None => throw (state_conflict "review-state marker is unterminated" None)
      | Some (encoded, _) =>
          bytes ← hex_decode encoded;
          json ← match utf8_error 0 bytes with
                 | None => Ok bytes
                 | Some error =>
                     throw (state_conflict "review-state marker payload is not UTF-8"
                       (Some (utf8_error_text error)))
                 end;
          record ← map_err (λ error, Fail (state_conflict
            "review-state marker payload does not match the current record contract; ask the reviewer or steward to coordinate current input; never rewrite retained ledgers"
            (Some error))) (from_str json);
          Ok (Some record)
      end
  end.

(** ** The loop state of a ledger *)
Definition payload_state (payload : ReviewStatePayload) : option ReviewLoopState :=
  match payload with
  | P_ReviewLoop state | P_ReviewLoopCorrection state _ | P_ReviewLoopAcceptance state _
  | P_ReviewLoopSupersession state _ => Some state
  | P_ReviewRunReceipt _ | P_ReviewHandoff _ | P_ReviewSyncCarryOver _ => None
  end.

Definition latest_review_loop_state (chain : ReviewStateChain) : option ReviewLoopState :=
  find_map (λ record, payload_state (r_payload record)) (rev (c_records chain)).

(** ** Run ids *)
Definition compute_review_run_id (repository : string) (pr : N) (expected_head : string)
    (round : N) (route_lenses : list string) (decision summary_digest : string)
    (inline_manifest : list ReviewCommentManifestItem) : exec string :=
  bytes ← serialize_failure "failed to serialize review-run id preimage"
    (to_vec {| rip_repository := repository; rip_pr := pr; rip_expected_head := expected_head;
               rip_round := round; rip_route_lenses := route_lenses; rip_decision := decision;
               rip_summary_digest := summary_digest; rip_inline_manifest := inline_manifest |});
  Ok (sha256_digest bytes).
End defs.

#[global] Arguments compute_digest : simpl never.
#[global] Arguments marker : simpl never.
#[global] Arguments parse_state_marker : simpl never.
#[global] Arguments validate_outcome_body : simpl never.
