(* ===== verification/Handoff.v ===== *)
(** * Designated review ownership

    [crates/forge-cli/src/ops/pr_review_handoff.rs] with its [policy.rs],
    [policy/attestation.rs], [surrender.rs] and [approval.rs]: the well-formedness of
    a persisted handoff, who may write in an assignment interval, which ownership
    transitions exist, and the handoffs the [assign], [surrender] and [recover]
    commands propose.  The environment variables the code reads are an [Env]; reads
    of the session board, the broker and the trusted git configuration are the
    fields of an [Authority]. *)
From S2P Require Import Prelude RStr Collections Error Types Markers Identity Record.
From stdpp Require Import options.

Definition handoff_schema : string := "cli.forge-cli.pr.review-handoff.v1".
Definition PUBLICATION_BINDING_PREFIX : string := "<!-- forge-cli:review-handoff:v1 ".

(** [std::env::var(..).ok()] of the variables the component reads. *)
Record Env := mk_Env {
  AGENT_SESSION_ID : option string;
  AGENT_REVIEWER_SESSION : option string;
  AGENT_REVIEW_ASSIGNMENT_GENERATION : option string;
}.

(** [uuid::Uuid::parse_str(id)] printed back, third-party code. *)
Class UuidParse := uuid_canonical : string → option string.

(** ** surrender.rs: the recovery hint of a refusal *)
Definition recovery (kind message : string) : string :=
  if kind ==? "review_assignment_generation_conflict" then
    "recovery=run `forge-cli pr review-handoff inspect` to read the retained assignment_generation, then set AGENT_REVIEW_ASSIGNMENT_GENERATION for the persisted reviewer; to relinquish instead, run `forge-cli pr review-handoff surrender` with the exact --expected-head and --expected-state"
  else if (kind ==? "review_handover_required") || (kind ==? "review_writer_conflict") then
    if contains "repository-configured handoff supervisor" message then
      "recovery=the original coordinator can run `forge-cli pr review-handoff recover --reason reviewer-declined` with the exact --expected-head and --expected-state; coordinator-retired takeover requires a distinct supervisor configured in [review_handoff].supervisors at the provider base; see forge-review-state-v1.md"
    else
      "recovery=the persisted reviewer can run `forge-cli pr review-handoff surrender` with the exact --expected-head and --expected-state; the original coordinator can instead run `forge-cli pr review-handoff recover --reason reviewer-declined` with those selectors, then assign the replacement; do not self-review"
  else "recovery=return control to the coordinator; do not self-review".

Definition fail (kind message : string) : ForgeError :=
  validation handoff_schema kind message (Some (recovery kind message)).

(** ** Well-formed fields *)
Definition valid_sha (s : string) : bool := (len s =? 40)%N && all_bytes is_ascii_hexdigit s.
(** [s.len() <= 255] bounds bytes; [chars] are inspected for whitespace and controls. *)
Definition valid_base_ref (s : string) : bool :=
  negb (is_empty s) && (len s <=? 255)%N && negb (has_whitespace s || has_control s).

(** [digest_valid] of [validate_handoff]: upper-case digits are accepted. *)
Definition digest_valid (s : string) : bool :=
  is_some_and (strip_prefix "sha256:" s) (λ v, (len v =? 64)%N && all_bytes is_ascii_hexdigit v).

Definition public_author (s : string) : bool :=
  negb (is_empty s) && (len s <=? 128)%N
  && all_bytes (λ c, is_ascii_alphanumeric c || Ascii.eqb c "-" || Ascii.eqb c "_"
                     || Ascii.eqb c "[" || Ascii.eqb c "]" || Ascii.eqb c ".") s.

Definition known_reason (r : string) : bool :=
  (r ==? "reviewer-unreachable") || (r ==? "reviewer-closed") || (r ==? "reviewer-declined")
  || (r ==? "reviewer-timeout") || (r ==? "coordinator-retired").

Section handoff.
Context `{HS : !Hasher, SP : !SecretPattern, TP : !TimestampParse, UP : !UuidParse}.

(** [SupervisorAttestation::valid]. *)
Definition attestation_valid (self : SupervisorAttestation) : bool :=
  is_ok (LaunchContext_validate (mk_LaunchContext "operator" (Some (sa_role self))
                                   (Some (sa_role self))))
  && digest_valid (sa_binding_digest self).

Definition evidence_invalid (e : CoordinatorRetirementEvidence) : bool :=
  negb (digest_valid (machine_digest e))
  || negb ((session_status e ==? "stopped") || (session_status e ==? "deleted"))
  || negb (timestamp_ok (last_activity_at e))
  || (stale_after_seconds e <? 60)%N.

Definition transfer_invalid (h : ReviewHandoff) (t : CoordinatorTransfer) : bool :=
  negb (digest_valid (old_coordinator_digest t))
  || negb (digest_valid (lifecycle_source_digest t))
  || (old_coordinator_digest t ==? coordinator_digest h)
  || (new_coordinator_digest t !=? coordinator_digest h)
  || (t_reason t !=? "coordinator-retired")
  || negb (Bool.eqb (is_some (supervisor_digest t)) (is_some (retirement_evidence t)))
  || is_some_and (supervisor_digest t)
       (λ d, negb (digest_valid d) || (d !=? new_coordinator_digest t))
  || is_some_and (supervisor_attestation t)
       (λ a, is_none (supervisor_digest t) || negb (attestation_valid a))
  || is_some_and (retirement_evidence t) evidence_invalid.

Definition validate_handoff (h : ReviewHandoff) : exec unit :=
  if (assignment_generation h =? 0)%N
     || (surrendered h && is_some (returned_reason h))
     || negb (Bool.eqb (returned_reason h ==? Some "coordinator-retired")
                (is_some (coordinator_transfer h)))
     || is_some_and (coordinator_transfer h) (transfer_invalid h)
     || negb (digest_valid (coordinator_digest h))
     || negb (digest_valid (reviewer_digest h))
     || (coordinator_digest h ==? reviewer_digest h)
     || negb (valid_sha (base_sha h))
     || negb (valid_sha (assigned_head h))
     || negb (valid_base_ref (base_ref h))
     || negb (public_author (review_author h))
     || is_some_and (returned_reason h) (λ r, negb (known_reason r))
  then throw (fail "review_assignment_invalid" "persisted reviewer handoff is invalid")
  else Ok tt.

(** ** Session identities *)
Definition selector_id (selector : string) : string :=
  default EmptyString (head (split_char "@" selector)).

Definition session_digest (selector : string) : exec string :=
  let id := selector_id selector in
  if is_empty id || (128 <? len id)%N
     || negb (all_bytes (λ c, is_ascii_alphanumeric c || Ascii.eqb c "-") id)
  then throw (fail "review_assignment_invalid"
         "a non-empty bounded reviewer session identity is required")
  else Ok (sha256_digest id).

Definition require_canonical_session_uuid (selector : string) : exec unit :=
  let id := selector_id selector in
  let canonical := is_some_and (uuid_canonical id) (λ parsed, parsed ==? id) in
  if negb canonical
  then throw (fail "review_assignment_invalid" "the full session UUID is required")
  else Ok tt.

Definition actor_digest (env : Env) : exec string :=
  session_digest (default EmptyString (AGENT_SESSION_ID env)).

Definition assignment_digest (env : Env) : exec (option string) :=
  match AGENT_REVIEWER_SESSION env with
  | Some v => if is_empty v then Ok None else d ← session_digest v; Ok (Some d)
  | None => Ok None
  end.

(** ** Reading ownership from a chain *)
Definition payload_handoff (p : ReviewStatePayload) : option ReviewHandoff :=
  match p with P_ReviewHandoff handoff => Some handoff | _ => None end.

Definition latest_handoff (records : list ReviewStateRecord) : option ReviewHandoff :=
  find_map (λ record, payload_handoff (r_payload record)) (rev records).

Definition latest (chain : ReviewStateChain) : option ReviewHandoff :=
  latest_handoff (c_records chain).

Definition latest_handoff_digest (chain : ReviewStateChain) : option string :=
  find_map (λ record, if is_some (payload_handoff (r_payload record))
                      then Some (r_record_digest record) else None) (rev (c_records chain)).

(** The records of the active interval, newest first. *)
Definition interval (chain : ReviewStateChain) : list ReviewStateRecord :=
  take_while (λ r, is_none (payload_handoff (r_payload r))) (rev (c_records chain)).

Definition owned_state (chain : ReviewStateChain) : option ReviewLoopState :=
  find_map (λ r, payload_state (r_payload r)) (interval chain).

Definition recorded_carry_over (chain : ReviewStateChain) (head : string)
    : option SyncCarryOver :=
  find_map (λ r, match r_payload r with
                 | P_ReviewSyncCarryOver carry_over =>
                     if co_head carry_over ==? head then Some carry_over else None
                 | _ => None
                 end) (interval chain).

Definition is_assigned (env : Env) (chain : ReviewStateChain) : bool :=
  is_some (latest chain) || is_some_and (AGENT_REVIEWER_SESSION env) (λ v, negb (is_empty v)).

Definition assigned (env : Env) (chain : ReviewStateChain) : exec (option ReviewHandoff) :=
  requested ← assignment_digest env;
  match latest chain with
  | None =>
      if is_some requested then
        throw (fail "awaiting_designated_review"
          "awaiting designated review: explicit handoff is missing")
      else Ok None
  | Some handoff =>
      if is_some_and requested (λ v, v !=? reviewer_digest handoff) then
        throw (fail "review_assignment_conflict"
          "reviewer assignment differs from the persisted handoff")
      else if is_some (returned_reason handoff) || surrendered handoff then
        throw (unavailable handoff_schema "designated_reviewer_unavailable"
          "designated reviewer unavailable; control returned to coordinator" None)
      else Ok (Some handoff)
  end.

(** surrender.rs *)
Definition require_reviewer (env : Env) (chain : ReviewStateChain) : exec (option ReviewHandoff) :=
  handoff ← assigned env chain;
  match handoff with
  | Some h =>
      actor ← actor_digest env;
      if actor !=? reviewer_digest h then
        throw (fail "review_writer_conflict"
          "only the designated reviewer session may surrender, append or publish this review")
      else Ok (Some h)
  | None => Ok None
  end.

(** ** Who may write *)
Definition ensure_writer (env : Env) (chain : ReviewStateChain) : exec unit :=
  handoff ← require_reviewer env chain;
  match handoff with
  | None => Ok tt
  | Some handoff =>
      let generation := AGENT_REVIEW_ASSIGNMENT_GENERATION env ≫= parse_u64 in
      if generation !=? Some (assignment_generation handoff) then
        throw (fail "review_assignment_generation_conflict"
          "designated append/publication requires AGENT_REVIEW_ASSIGNMENT_GENERATION from `forge-cli pr review-handoff inspect`")
      else Ok tt
  end.

Definition ensure_observation (env : Env) (chain : ReviewStateChain) (head : string) : exec unit :=
  _ ← ensure_writer env chain;
  handoff ← assigned env chain;
  match handoff with
  | Some h =>
      if is_none (owned_state chain) && (assigned_head h !=? head) then
        throw (fail "review_repair_unobserved"
          "a repair was pushed before the designated reviewer observed findings at the handed-off head")
      else Ok tt
  | None => Ok tt
  end.

Definition ensure_payload_writer (env : Env) (chain : ReviewStateChain)
    (payload : ReviewStatePayload) : exec unit :=
  match payload with
  | P_ReviewSyncCarryOver _ =>
      handoff ← assigned env chain;
      match handoff with
      | Some _ => Ok tt
      | None => throw (fail "review_assignment_missing" "no designated reviewer handoff exists")
      end
  | _ => ensure_writer env chain
  end.

(** ** Publication bindings *)
Definition binding_line (line : string) : bool :=
  starts_with PUBLICATION_BINDING_PREFIX (trim line).

Definition bind_native_report (chain : ReviewStateChain) (body : string) : string :=
  match latest_handoff_digest chain with
  | None => body
  | Some digest =>
      let summary := join nl (List.filter (λ line, negb (binding_line line)) (lines body)) in
      trim_end summary +:+ nl +:+ nl +:+ PUBLICATION_BINDING_PREFIX +:+ digest +:+ " -->"
  end.

Definition publication_markers (body : string) : list string :=
  List.filter (starts_with PUBLICATION_BINDING_PREFIX) (trim <$> lines body).

Definition publication_matches_interval (chain : ReviewStateChain) (body : string) : bool :=
  match publication_markers body with
  | [marker] => is_some_and (latest_handoff_digest chain)
                  (λ digest, marker ==? PUBLICATION_BINDING_PREFIX +:+ digest +:+ " -->")
  | _ => false
  end.

Definition publication_is_known_other_interval (chain : ReviewStateChain) (body : string) : bool :=
  match publication_markers body with
  | [marker] =>
      is_some_and (strip_prefix PUBLICATION_BINDING_PREFIX marker ≫= strip_suffix " -->")
        (λ digest, (Some digest !=? latest_handoff_digest chain)
           && existsb (λ record, (r_record_digest record ==? digest)
                                 && is_some (payload_handoff (r_payload record)))
                (c_records chain))
  | _ => false
  end.

(** ** Ownership transitions *)
Definition valid_scope_refresh (old next : ReviewHandoff) : bool :=
  negb (surrendered old) && is_none (returned_reason old)
  && negb (surrendered next) && is_none (returned_reason next)
  && is_none (coordinator_transfer next)
  && (coordinator_digest next ==? coordinator_digest old)
  && (reviewer_digest next ==? reviewer_digest old)
  && (review_author next ==? review_author old)
  && bool_decide (approval_policy next = approval_policy old)
  && (base_sha next !=? base_sha old)
  && (Some (assignment_generation next) ==? checked_add u64_max (assignment_generation old) 1).

Definition valid_coordinator_transfer (old next : ReviewHandoff) : bool :=
  is_some_and (coordinator_transfer next) (λ t,
    (old_coordinator_digest t ==? coordinator_digest old)
    && (new_coordinator_digest t ==? coordinator_digest next)
    && (coordinator_digest next !=? coordinator_digest old)
    && (coordinator_digest next !=? reviewer_digest old)
    && (t_reason t ==? "coordinator-retired")
    && (returned_reason next ==? Some "coordinator-retired")
    && (Some (assignment_generation next) ==? checked_add u64_max (assignment_generation old) 1)
    && (reviewer_digest next ==? reviewer_digest old)
    && (review_author next ==? review_author old)
    && bool_decide (approval_policy next = approval_policy old)
    && negb (surrendered next)).

Definition require_head (actual expected : string) : exec unit :=
  if negb (valid_sha expected) || (actual !=? expected) then
    throw (fail "review_state_conflict" "provider head differs from the handoff head")
  else Ok tt.

Definition require_tip (actual : option string) (expected : string) : exec unit :=
  if actual !=? (if expected ==? "none" then None else Some expected) then
    throw (fail "review_state_conflict" "ledger tip differs from the explicit handoff tip")
  else Ok tt.

(** ** policy.rs and policy/attestation.rs *)

(** What the takeover guards read from outside: the trusted git configuration
    ([trusted_supervisor_policy], supervisors and the staleness bound in seconds), the
    session board ([prove_coordinator_retired]) and the broker ([session::current]). *)
Record Authority := mk_Authority {
  trusted_supervisor_policy : string → string → string → exec (list string * N);
  prove_coordinator_retired :
    ReviewHandoff → option string → N → exec CoordinatorRetirementEvidence;
  session_current : option SessionBinding;
}.

Context `{SB : !Serialize SessionBinding}.

Definition authenticate (auth : Authority) (supervisors : list string) (actor : string)
    : exec SupervisorAttestation :=
  let refused := fail "review_writer_conflict"
    "takeover requires a repository-configured operator-attested supervisor role" in
  binding ← ok_or (Fail refused) (session_current auth);
  role ← ok_or (Fail refused) (sb_attested_role binding);
  let selector := "role:" +:+ role in
  session ← session_digest (sb_session_id binding);
  if (session !=? actor) || negb (bool_decide (selector ∈ supervisors)) then throw refused
  else
  bytes ← map_err (λ _, Fail refused) (to_vec binding);
  Ok (mk_SupervisorAttestation role (sha256_digest bytes)).

Definition require_supervisor (auth : Authority) (supervisors : list string) (actor : string)
    : exec (option SupervisorAttestation) :=
  if existsb (λ supervisor, supervisor ==? actor) supervisors then Ok None
  else if existsb (starts_with "role:") supervisors then
    a ← authenticate auth supervisors actor; Ok (Some a)
  else throw (fail "review_writer_conflict"
    (if bool_decide (supervisors = []) then
       "no repository-configured handoff supervisor exists at the provider base; add [review_handoff].supervisors on the base branch before takeover"
     else "only a repository-configured handoff supervisor may take over")).

(** ** The append guard of an ownership record *)
Definition ensure_takeover (auth : Authority) (repo : option string) (actor : string)
    (old next : ReviewHandoff) : exec unit :=
  if actor !=? coordinator_digest next then
    throw (fail "review_writer_conflict" "takeover belongs to the successor coordinator")
  else
  transfer ← expect "valid transfer" (coordinator_transfer next);
  evidence ← ok_or (Fail (fail "review_coordinator_unproven"
      "supervisor retirement evidence is required")) (retirement_evidence transfer);
  repository ← ok_or (Fail (fail "review_coordinator_unproven"
      "provider repository is unavailable")) repo;
  '(supervisors, configured_stale_after) ←
    trusted_supervisor_policy auth repository (base_sha next) (base_ref next);
  current ← prove_coordinator_retired auth old (Some (machine_digest evidence))
              configured_stale_after;
  if (current !=? evidence) || (lifecycle_source_digest transfer !=? machine_digest evidence) then
    throw (fail "review_coordinator_unproven" "retirement evidence changed before ledger append")
  else
  let refused := fail "review_writer_conflict"
    "only a repository-configured handoff supervisor may take over" in
  if supervisor_digest transfer !=? Some actor then throw refused
  else
  attestation ← require_supervisor auth supervisors actor;
  if (attestation !=? supervisor_attestation transfer)
     || negb (stale_after_seconds evidence =? configured_stale_after)%N
  then throw refused
  else Ok tt.

Definition ensure_handoff_append (env : Env) (auth : Authority) (repo : option string)
    (chain : ReviewStateChain) (next : ReviewHandoff) : exec unit :=
  actor ← actor_digest env;
  match latest chain with
  | Some old =>
      if (assignment_generation next =? assignment_generation old)%N && surrendered next then
        _ ← require_reviewer env chain; Ok tt
      else if valid_coordinator_transfer old next then ensure_takeover auth repo actor old next
      else if (actor !=? coordinator_digest old)
              || (coordinator_digest next !=? coordinator_digest old) then
        throw (fail "review_writer_conflict"
          "only the coordinator may assign or explicitly recover ownership")
      else if (Some (assignment_generation next)
                 !=? checked_add u64_max (assignment_generation old) 1)
              || (is_none (returned_reason next) && negb (surrendered old)
                  && is_none (returned_reason old) && negb (valid_scope_refresh old next)) then
        throw (fail "review_handover_required"
          "ownership transition requires surrender or explicit recovery in the next generation")
      else Ok tt
  | None =>
      if (actor !=? coordinator_digest next) || negb (assignment_generation next =? 1)%N then
        throw (fail "review_writer_conflict" "initial assignment belongs to its coordinator")
      else Ok tt
  end.

(** ** The handoffs the commands propose

    [head], [base] and [branch] are what the provider reports for the pull request. *)
Record AssignArgs := mk_AssignArgs {
  as_approval_policy : option ApprovalPolicy;
  as_reviewer_session : string;
  as_review_author : string;
  as_base_sha : string;
  as_expected_head : string;
  as_expected_state : string;
}.

Definition generation_overflow : ForgeError :=
  fail "review_assignment_invalid" "assignment generation overflow".

Definition propose_assign (env : Env) (chain : ReviewStateChain) (head base branch : string)
    (a : AssignArgs) : exec ReviewHandoff :=
  _ ← require_head head (as_expected_head a);
  _ ← require_tip (c_tip_digest chain) (as_expected_state a);
  coordinator ← actor_digest env;
  if is_some_and (latest chain) (λ h, coordinator_digest h !=? coordinator) then
    throw (fail "review_writer_conflict"
      "only the handoff coordinator may reassign review ownership")
  else if as_base_sha a !=? base then
    throw (fail "review_scope_changed" "handoff base differs from the provider base")
  else if negb (valid_sha (as_base_sha a)) || negb (public_author (as_review_author a)) then
    throw (fail "review_assignment_invalid" "base SHA or public review author is invalid")
  else
  generation ← ok_or (Fail generation_overflow)
    (checked_add u64_max (from_option assignment_generation 0%N (latest chain)) 1);
  _ ← require_canonical_session_uuid (as_reviewer_session a);
  reviewer ← session_digest (as_reviewer_session a);
  if reviewer ==? coordinator then
    throw (fail "review_assignment_invalid"
      "designated reviewer must be a different session from the worker")
  else
  let next := {|
    approval_policy :=
      default (from_option approval_policy SourcePass (latest chain)) (as_approval_policy a);
    coordinator_digest := coordinator; reviewer_digest := reviewer;
    review_author := as_review_author a; base_sha := as_base_sha a; assigned_head := head;
    returned_reason := None; assignment_generation := generation; surrendered := false;
    coordinator_transfer := None; base_ref := branch |} in
  if is_some_and (latest chain) (λ h,
       negb (surrendered h) && is_none (returned_reason h) && negb (valid_scope_refresh h next))
  then throw (fail "review_handover_required"
    "ordinary reassignment requires reviewer-owned surrender")
  else Ok next.

Definition set_surrendered (h : ReviewHandoff) (head : string) : ReviewHandoff :=
  {| approval_policy := approval_policy h; coordinator_digest := coordinator_digest h;
     reviewer_digest := reviewer_digest h; review_author := review_author h;
     base_sha := base_sha h; assigned_head := head; returned_reason := returned_reason h;
     assignment_generation := assignment_generation h; surrendered := true;
     coordinator_transfer := coordinator_transfer h; base_ref := base_ref h |}.

Definition propose_surrender (env : Env) (chain : ReviewStateChain)
    (head expected_head expected_state : string) : exec ReviewHandoff :=
  handoff ← ok_or (Fail (fail "review_assignment_missing" "no handoff to surrender"))
              (latest chain);
  let unobserved_head_advance :=
    (head !=? expected_head) && (assigned_head handoff ==? expected_head)
    && is_none (owned_state chain) in
  _ ← (if negb unobserved_head_advance then require_head head expected_head else Ok tt);
  _ ← require_tip (c_tip_digest chain) expected_state;
  _ ← require_reviewer env chain;
  Ok (set_surrendered handoff
        (if unobserved_head_advance then head else assigned_head handoff)).

Record RecoverArgs := mk_RecoverArgs {
  rc_expected_head : string;
  rc_expected_state : string;
  rc_reason : string;
  rc_coordinator_session : option string;
  rc_base_sha : option string;
}.

(** [a.coordinator_session.and_then(|s| s.split_once('@'))] and its machine bound. *)
Definition lifecycle_source (session : option string) : exec (option string) :=
  match session ≫= split_once "@" with
  | None => Ok None
  | Some (_, machine) =>
      if is_empty machine || (128 <? len machine)%N || contains "@" machine then
        throw (fail "review_assignment_invalid" "coordinator lifecycle source is invalid")
      else Ok (Some (sha256_digest machine))
  end.

(** The takeover branch: the transfer, or the refusal. *)
Definition propose_transfer (auth : Authority) (h : ReviewHandoff) (actor repository base
    branch : string) (a : RecoverArgs) : exec CoordinatorTransfer :=
  if rc_base_sha a !=? Some base then
    throw (fail "review_scope_changed" "takeover base differs from the provider base")
  else
  '(supervisors, stale_after) ← trusted_supervisor_policy auth repository base branch;
  attestation ← require_supervisor auth supervisors actor;
  _ ← match rc_coordinator_session a with
      | Some coordinator_selector =>
          _ ← require_canonical_session_uuid coordinator_selector;
          d ← session_digest coordinator_selector;
          if d !=? coordinator_digest h then
            throw (fail "review_assignment_conflict"
              "coordinator selector differs from the recorded coordinator")
          else Ok tt
      | None => Ok tt
      end;
  if (actor ==? coordinator_digest h) || (actor ==? reviewer_digest h) then
    throw (fail "review_writer_conflict" "takeover requires a distinct successor coordinator")
  else
  source ← lifecycle_source (rc_coordinator_session a);
  evidence ← prove_coordinator_retired auth h source stale_after;
  Ok {| old_coordinator_digest := coordinator_digest h; new_coordinator_digest := actor;
        lifecycle_source_digest := machine_digest evidence; t_reason := rc_reason a;
        supervisor_digest := Some actor; supervisor_attestation := attestation;
        retirement_evidence := Some evidence |}.

Definition propose_recover (env : Env) (auth : Authority) (chain : ReviewStateChain)
    (repository head base branch : string) (a : RecoverArgs) : exec ReviewHandoff :=
  _ ← require_head head (rc_expected_head a);
  _ ← require_tip (c_tip_digest chain) (rc_expected_state a);
  h ← ok_or (Fail (fail "review_assignment_missing" "no handoff to recover")) (latest chain);
  actor ← actor_digest env;
  '(transfer, coordinator, branch) ←
    (if rc_reason a ==? "coordinator-retired" then
       transfer ← propose_transfer auth h actor repository base branch a;
       Ok (Some transfer, actor, branch)
     else if is_some (rc_coordinator_session a) || is_some (rc_base_sha a) then
       throw (fail "review_assignment_invalid" "takeover selectors require coordinator-retired")
     else if actor !=? coordinator_digest h then
       throw (fail "review_writer_conflict"
         "only the handoff coordinator may explicitly revoke review ownership")
     else Ok (None, coordinator_digest h, base_ref h));
  generation ← ok_or (Fail generation_overflow)
    (checked_add u64_max (assignment_generation h) 1);
  Ok {| approval_policy := approval_policy h; coordinator_digest := coordinator;
        reviewer_digest := reviewer_digest h; review_author := review_author h;
        base_sha := base; assigned_head := head; returned_reason := Some (rc_reason a);
        assignment_generation := generation; surrendered := false;
        coordinator_transfer := transfer; base_ref := branch |}.

(** ** approval.rs *)
Inductive ApprovalState : Type := SourcePassed | FinallyApproved.
#[export] Instance ApprovalState_eq_dec : EqDecision ApprovalState.
Proof. solve_decision. Defined.

(** [NativeReviewSummary] of pr_reviews.rs. *)
Record NativeReview := mk_NativeReview {
  nr_id : string; nr_database_id : option N; nr_url : string; nr_author : string;
  nr_author_node_id : option string; nr_author_type : option string; nr_state : string;
  nr_commit_sha : string; nr_submitted_at : string; nr_summary : string;
  nr_summary_truncated : bool;
}.

Record PublishedApproval := mk_PublishedApproval {
  pa_state : ApprovalState; pa_review_id : string; pa_review_url : string;
  pa_review_author : string; pa_native_state : string; pa_reviewed_head : string;
  pa_submitted_at : string;
}.

Definition from_review (review : NativeReview) (head : string) : PublishedApproval :=
  {| pa_state := if (nr_state review ==? "APPROVED") && (nr_commit_sha review ==? head)
                 then FinallyApproved else SourcePassed;
     pa_review_id := nr_id review; pa_review_url := nr_url review;
     pa_review_author := nr_author review; pa_native_state := nr_state review;
     pa_reviewed_head := nr_commit_sha review; pa_submitted_at := nr_submitted_at review |}.

Definition require_policy (approval : option PublishedApproval) (policy : ApprovalPolicy)
    : exec unit :=
  if bool_decide (policy = FinalApproval)
     && is_none_or approval (λ a, pa_state a !=? FinallyApproved)
  then throw (fail "designated_final_approval_required"
    "source review passed; a current-head designated APPROVED report is required for final delivery")
  else Ok tt.

(** [ApprovalPolicy::requiring] of cli/review_handoff.rs. *)
Definition requiring (self : ApprovalPolicy) (requested : option ApprovalPolicy) : ApprovalPolicy :=
  if bool_decide (self = FinalApproval) || bool_decide (requested = Some FinalApproval)
  then FinalApproval else SourcePass.
End handoff.
