(* ===== verification/Correction.v ===== *)
(** * Corrections of omitted findings

    [crates/forge-cli/src/ops/review_state/correction.rs] and
    [correction/attempted_inventory.rs]: an append-only record that reopens findings
    an earlier observation closed by omission, proved from the chain itself. *)
From S2P Require Import Prelude RStr Collections Error Types Markers ReviewLoop Record Identity.
From S2P Require Import Handoff.
From stdpp Require Import options.

Definition invalid_correction (message : string) : ForgeError :=
  validation error_schema "review_correction_invalid" message None.

(** [state] of correction.rs, [record_state] of its siblings. *)
Definition record_state (record : ReviewStateRecord) : option ReviewLoopState :=
  payload_state (r_payload record).

(** The last record that carries a loop state, and that state. *)
Definition latest_state_record (records : list ReviewStateRecord) : option ReviewStateRecord :=
  find_first (λ record, is_some (record_state record)) (rev records).

Definition latest_state (records : list ReviewStateRecord) : option ReviewLoopState :=
  find_map record_state (rev records).

(** A finding as an observation row. *)
Definition finding_row (key : string) (finding : ReviewLoopFinding) : ReviewFindingObservation :=
  {| o_fingerprint := key; o_root_cause_fingerprint := f_root_cause_fingerprint finding;
     o_blocking := f_blocking finding; o_status := f_status finding;
     o_threads := f_threads finding |}.

Definition state_rows (state : ReviewLoopState) : list ReviewFindingObservation :=
  (λ kv, finding_row kv.1 kv.2) <$> entries (s_findings state).

(** An earlier receipt replayed from another assignment interval. *)
Definition other_interval (chain : ReviewStateChain) (record : ReviewStateRecord) : bool :=
  is_some_and (latest chain) (λ handoff,
    r_assignment_generation record !=? Some (assignment_generation handoff)).

Section correction.
Context `{HS : !Hasher, LS : !LedgerSerde}.

(** ** attempted_inventory.rs *)
Definition canonicalize (rows : option (list ReviewFindingObservation))
    : exec (option (list ReviewFindingObservation)) :=
  match rows with
  | Some rows => map ← canonical_observations rows; Ok (Some (values map))
  | None => Ok None
  end.

Definition attempted_row_matches (attempted : gmap string ReviewFindingObservation)
    (entry : string * ReviewLoopFinding) : bool :=
  is_some_and (attempted !! entry.1) (λ row,
    (o_root_cause_fingerprint row ==? f_root_cause_fingerprint entry.2)
    && (o_status row ==? f_status entry.2)
    && Bool.eqb (o_blocking row) (f_blocking entry.2)
    && (o_threads row ==? f_threads entry.2)).

Definition verify (corrected : ReviewLoopState) (head : string)
    (canonical_rows : list ReviewFindingObservation)
    (proof : option (list ReviewFindingObservation)) (stop : option ReviewLoopHardStop)
    : exec unit :=
  match stop with
  | None =>
      if is_some proof then
        throw (invalid_correction
          "attempted findings proof requires a historical false-reopen stop")
      else Ok tt
  | Some stop =>
      let mismatch := throw (invalid_correction
        "correction requires the identical attempted inventory; retain original alias rows as attempted_findings proof") in
      attempted ← canonical_observations (default canonical_rows proof);
      if negb (size attempted =? size (s_findings corrected))%nat
         || existsb (λ entry, negb (attempted_row_matches attempted entry))
              (entries (s_findings corrected))
      then mismatch
      else
      digest ← review_observation_digest head attempted;
      if hs_observation_digest stop !=? digest then mismatch else Ok tt
  end.

(** ** correction.rs *)
Definition CorrectionRequest_validate (self : CorrectionRequest) : exec unit :=
  if negb (canonical_digest (cq_corrected_record self)) then
    throw (invalid_correction "correction must name a canonical state record digest")
  else
  _ ← canonicalize (cq_attempted_findings self); Ok tt.

(** The erroneous observation and the state before it. *)
Definition context (records : list ReviewStateRecord) (head : string)
    (request : CorrectionRequest) : exec (ReviewLoopState * ReviewLoopState) :=
  _ ← CorrectionRequest_validate request;
  index ← ok_or (Fail (invalid_correction "corrected record is absent from the current chain"))
            (position (λ record, r_record_digest record ==? cq_corrected_record request) records);
  record ← expect "records[index]" (records !! index);
  target ← ok_or (Fail (invalid_correction
      "correction must target an ordinary observation record"))
    (match r_payload record with P_ReviewLoop state => Some state | _ => None end);
  prior ← ok_or (Fail (invalid_correction
      "a genesis observation cannot contain inferred omissions"))
    (latest_state (take index records));
  latest ← expect "latest state" (latest_state records);
  if (s_head_sha target !=? head) || (s_head_sha latest !=? head)
     || (s_head_sha prior ==? head) || is_some (s_hard_stop target)
  then throw (invalid_correction "correction requires the erroneous observation's current head")
  else if is_some_and (s_hard_stop latest) (λ stop,
         (hs_code stop !=? "review_finding_reopened")
         || (hs_attempted_head_sha stop !=? head) || hs_extension_applied stop)
  then throw (invalid_correction "correction cannot clear an unrelated or extended budget stop")
  else if set_hard_stop latest None !=? target
  then throw (invalid_correction "a later observation changed the state being corrected")
  else Ok (target, prior).

(** [windows(2).any(|pair| pair[0] >= pair[1])]. *)
Fixpoint not_increasing (l : list string) : bool :=
  match l with
  | x :: (y :: _) as l' => bool_decide (String.le y x) || not_increasing l'
  | _ => false
  end.

Definition restore_finding (target prior : ReviewLoopState)
    (findings : gmap string ReviewLoopFinding) (fingerprint : string)
    : exec (gmap string ReviewLoopFinding) :=
  before ← ok_or (Fail (invalid_correction
      "restored finding was not open before the observation"))
    (f ← s_findings prior !! fingerprint; if open_finding f then Some f else None);
  if s_findings target !! fingerprint !=? Some (set_status before Fixed) then
    throw (invalid_correction "restored finding is not a chain-proven omission")
  else Ok (<[fingerprint := before]> findings).

Definition count_blocking (state : ReviewLoopState) : N :=
  count_blocking_findings (s_findings state).

(** The no-progress debt the omission hid. *)
Definition restored_no_progress (corrected prior : ReviewLoopState) : N :=
  if (0 <? count_blocking corrected)%N && (count_blocking prior <=? count_blocking corrected)%N
  then N.max (s_no_progress_rounds corrected)
         (saturating_add u32_max (s_no_progress_rounds prior) 1)
  else s_no_progress_rounds corrected.

Definition restore (records : list ReviewStateRecord) (head : string)
    (receipt : CorrectionReceipt) : exec ReviewLoopState :=
  attempted ← canonicalize (cr_attempted_findings receipt);
  if attempted !=? cr_attempted_findings receipt then
    throw (invalid_correction "correction receipt requires canonical attempted proof")
  else
  let request := {|
    cq_corrected_record := cr_corrected_record receipt; cq_reason := cr_reason receipt;
    cq_attempted_findings := cr_attempted_findings receipt |} in
  '(target, prior) ← context records head request;
  if bool_decide (cr_restored_findings receipt = [])
     || not_increasing (cr_restored_findings receipt)
  then throw (invalid_correction "correction must list sorted unique omitted identities")
  else
  findings ← foldM (restore_finding target prior) (s_findings target)
               (cr_restored_findings receipt);
  let corrected := set_findings target findings in
  _ ← verify corrected head (state_rows corrected) (cr_attempted_findings receipt)
        (latest_state records ≫= s_hard_stop);
  let corrected := set_no_progress corrected (restored_no_progress corrected prior) in
  if (max_no_progress_rounds (s_budget corrected) <? s_no_progress_rounds corrected)%N then
    let error := review_stop "review_no_progress"
      "corrected inventory retains an exhausted no-progress budget"
      ("no_progress_rounds=" +:+ dec (s_no_progress_rounds corrected)) in
    tip ← expect "records.last()" (last records);
    record_review_loop_hard_stop corrected head (state_rows corrected) (r_record_digest tip) error
  else Ok corrected.

Definition matches_inventory (state : ReviewLoopState)
    (inventory : gmap string ReviewFindingObservation) : bool :=
  (size (s_findings state) =? size inventory)%nat
  && forallb (λ '(key, finding),
       is_some_and (inventory !! key) (λ row, row ==? finding_row key finding))
     (entries (s_findings state)).

(** The receipt of an identical earlier correction at the end of the chain. *)
Definition correction_replayed (chain : ReviewStateChain) (head : string)
    (request : CorrectionRequest) (inventory : gmap string ReviewFindingObservation)
    (attempted : option (list ReviewFindingObservation))
    : option (ReviewStateRecord * ReviewLoopState * CorrectionReceipt) :=
  record ← latest_state_record (c_records chain);
  match r_payload record with
  | P_ReviewLoopCorrection state correction =>
      if (cr_corrected_record correction ==? cq_corrected_record request)
         && (cr_reason correction ==? cq_reason request)
         && (cr_attempted_findings correction ==? attempted)
         && (s_head_sha state ==? head) && matches_inventory state inventory
      then Some (record, state, correction) else None
  | _ => None
  end.

Definition restored_keys (target : ReviewLoopState)
    (inventory : gmap string ReviewFindingObservation) : exec (list string) :=
  foldM (λ acc '(key, row),
    if negb (o_status row ==? Open) then Ok acc
    else
      finding ← expect "target.findings[key]" (s_findings target !! key);
      Ok (if f_status finding ==? Fixed then acc ++ [key] else acc))
    [] (entries inventory).

Definition apply_correction (chain : ReviewStateChain) (head : string)
    (expected_tip : option string) (request : CorrectionRequest)
    (observations : list ReviewFindingObservation) : exec ReviewLoopTransition :=
  _ ← CorrectionRequest_validate request;
  if is_none expected_tip || (expected_tip !=? c_tip_digest chain) then
    throw (invalid_correction "correction requires an explicit current --expected-state tip")
  else
  inventory ← canonical_observations observations;
  attempted_findings ← canonicalize (cq_attempted_findings request);
  match correction_replayed chain head request inventory attempted_findings with
  | Some (record, state, correction) =>
      if other_interval chain record then
        throw (invalid_correction
          "a correction retry from an earlier assignment cannot establish a new interval; observe its ordinary inventory first")
      else Ok (mk_ReviewLoopTransition state false (Some correction) None None)
  | None =>
      '(target, _) ← context (c_records chain) head request;
      if negb (size (s_findings target) =? size inventory)%nat
         || existsb (λ key, negb (contains_key key inventory)) (keys (s_findings target))
      then throw (invalid_correction "correction requires the complete finding inventory")
      else
      restored_findings ← restored_keys target inventory;
      let correction := {|
        cr_corrected_record := cq_corrected_record request; cr_reason := cq_reason request;
        cr_restored_findings := restored_findings;
        cr_attempted_findings := attempted_findings |} in
      corrected ← restore (c_records chain) head correction;
      if negb (matches_inventory corrected inventory) then
        throw (invalid_correction
          "correction may only restore proven omitted findings without changing other dispositions or metadata")
      else Ok (mk_ReviewLoopTransition corrected true (Some correction) None None)
  end.

Definition validate_correction_record (previous : list ReviewStateRecord)
    (record : ReviewStateRecord) : exec unit :=
  match r_payload record with
  | P_ReviewLoopCorrection state correction =>
      restored ← restore previous (r_expected_head record) correction;
      if restored !=? state then
        throw (invalid_correction
          "correction record changed counters, budgets, or unrelated findings")
      else Ok tt
  | _ => Ok tt
  end.
End correction.
