(* ===== verification/Supersession.v ===== *)
(** * Supersession of a stopped attempt

    [crates/forge-cli/src/ops/review_state/supersession.rs]: after a verified signed
    fast-forward the durable stop is rebound to the new head and inventory, with a
    new proposal; nothing else of the state changes. *)
From S2P Require Import Prelude RStr Collections Error Types Markers ReviewLoop Record Identity.
From S2P Require Import Handoff Correction.
From stdpp Require Import options.

Definition SUPERSESSION_INPUT_SCHEMA : string := "forge-cli.review-loop-supersession.v1".
Definition MAX_VERIFIED_COMMITS : nat := 100.

Definition invalid_supersession (message : string) : ForgeError :=
  validation error_schema "review_supersession_invalid" message None.

(** [valid_sha] of supersession.rs: lower-case digits only. *)
Definition full_commit_id (value : string) : bool :=
  (len value =? 40)%N && all_bytes is_lower_hex value.

Definition SupersessionRequest_validate (self : SupersessionRequest) : exec unit :=
  if negb (canonical_digest (sq_superseded_record self)) then
    throw (invalid_supersession "superseded record must be a canonical record digest")
  else Ok tt.

Definition source_head (chain : ReviewStateChain) (request : SupersessionRequest) : exec string :=
  _ ← SupersessionRequest_validate request;
  target ← ok_or (Fail (invalid_supersession "superseded record is not in the current chain"))
    (find_first (λ r, r_record_digest r ==? sq_superseded_record request) (c_records chain));
  state ← ok_or (Fail (invalid_supersession "superseded record is not a review-loop state"))
    (record_state target);
  ok_or (Fail (invalid_supersession "supersession requires a durable budget hard stop"))
    (hs_attempted_head_sha <$> s_hard_stop state).

Definition proof_incomplete (from_head head : string) (verified_commits : list string) : bool :=
  bool_decide (verified_commits = [])
  || (MAX_VERIFIED_COMMITS <? length verified_commits)%nat
  || (last verified_commits !=? Some head)
  || existsb (λ sha, negb (full_commit_id sha) || (sha ==? from_head)) verified_commits
  || negb (length (sort_dedup verified_commits) =? length verified_commits)%nat.

Section supersession.
Context `{HS : !Hasher, LS : !LedgerSerde}.

Definition supersede_stop (stop : ReviewLoopHardStop) (head observation_digest proposal_digest : string)
    : ReviewLoopHardStop :=
  {| hs_code := hs_code stop; hs_budget_field := hs_budget_field stop;
     hs_increment := hs_increment stop; hs_proposal_digest := proposal_digest;
     hs_attempted_head_sha := head; hs_observation_digest := observation_digest;
     hs_extension_applied := false |}.

Definition apply_supersession (chain : ReviewStateChain) (head : string)
    (expected_tip : option string) (request : SupersessionRequest)
    (observations : list ReviewFindingObservation) (verified_commits : list string)
    : exec ReviewLoopTransition :=
  _ ← SupersessionRequest_validate request;
  if is_none expected_tip || (expected_tip !=? c_tip_digest chain) then
    throw (invalid_supersession "supersession requires the explicit current state tip")
  else
  from_head ← source_head chain request;
  if negb (full_commit_id from_head) || negb (full_commit_id head) || (from_head ==? head) then
    throw (invalid_supersession "supersession requires distinct full commit IDs")
  else if proof_incomplete from_head head verified_commits then
    throw (invalid_supersession "signed fast-forward proof is incomplete")
  else
  canonical ← canonical_observations observations;
  let receipt := {| sr_request := request; sr_from_head := from_head;
                    sr_verified_commits := verified_commits;
                    sr_findings := values canonical |} in
  latest ← ok_or (Fail (invalid_supersession "supersession requires an existing state"))
             (latest_state_record (c_records chain));
  match (match r_payload latest with
         | P_ReviewLoopSupersession state supersession =>
             if (supersession ==? receipt) && (r_expected_head latest ==? head)
             then Some state else None
         | _ => None
         end) with
  | Some state =>
      if other_interval chain latest then
        throw (invalid_supersession
          "an earlier-assignment supersession retry cannot establish a new interval; use the current stop's approval and extension path before ordinary observation")
      else Ok (mk_ReviewLoopTransition state false None (Some receipt) None)
  | None =>
      if r_record_digest latest !=? sq_superseded_record request then
        throw (invalid_supersession "supersession target must be the latest review-loop state")
      else
      previous ← expect "latest state exists" (record_state latest);
      stop ← ok_or (Fail (invalid_supersession "supersession requires a durable budget hard stop"))
               (s_hard_stop previous);
      if negb (bool_decide (missing_open previous canonical = [])) then
        throw (invalid_supersession "supersession inventory must include every open finding")
      else
      observation_digest ← review_observation_digest head canonical;
      bytes ← map_err (λ _ : string, Fail (invalid_supersession "cannot encode supersession proposal"))
                (to_vec (SUPERSESSION_INPUT_SCHEMA, expected_tip, observation_digest));
      let binding := sha256_digest bytes in
      proposal_digest ← extension_proposal_digest binding (hs_code stop) (hs_budget_field stop)
                          (hs_increment stop);
      Ok (mk_ReviewLoopTransition
            (set_hard_stop previous
               (Some (supersede_stop stop head observation_digest proposal_digest)))
            true None (Some receipt) None)
  end.

Definition validate_supersession_record (prefix : list ReviewStateRecord)
    (record : ReviewStateRecord) : exec unit :=
  match r_payload record with
  | P_ReviewLoopSupersession state supersession =>
      let chain := {| c_records := prefix; c_tip_digest := r_record_digest <$> last prefix;
                      c_ignored_stale_records := [] |} in
      source ← source_head chain (sr_request supersession);
      if sr_from_head supersession !=? source then
        throw (invalid_supersession "supersession source head does not match its target")
      else
      expected ← apply_supersession chain (r_expected_head record) (r_previous_digest record)
                   (sr_request supersession) (sr_findings supersession)
                   (sr_verified_commits supersession);
      if negb (tr_changed expected) || (tr_state expected !=? state)
         || (tr_supersession expected !=? Some supersession)
      then throw (invalid_supersession
        "supersession receipt changed history, counters, or budgets")
      else Ok tt
  | _ => Ok tt
  end.
End supersession.
