(* ===== verification/Acceptance.v ===== *)
(** * Acceptance of a stopped inventory

    [crates/forge-cli/src/ops/review_state/acceptance.rs]: with a maintainer's approval
    the open findings of a stopped attempt are accepted as they are, and the stop is
    cleared without another repair round. *)
From S2P Require Import Prelude RStr Collections Error Types Markers ReviewLoop Record Identity.
From S2P Require Import Handoff Correction.
From stdpp Require Import options.

Definition ACCEPTANCE_INPUT_SCHEMA : string := "forge-cli.review-loop-acceptance.v1".

Section acceptance.
Context `{HS : !Hasher, LS : !LedgerSerde, JT : !JsonText, UP : !UrlParse}.

Definition invalid_acceptance (message : string) : ForgeError :=
  validation_with_details error_schema "review_acceptance_invalid" message
    (JObject [("retryable", JBool false); ("next_action", JString "inspect-stopped-inventory");
              ("recovery", JObject [("requires_explicit_state_tip", JBool true);
                                    ("requires_exact_stopped_head", JBool true)])]).

Definition AcceptanceRequest_validate (self : AcceptanceRequest) : exec unit :=
  if negb (canonical_digest (aq_stopped_record self)) || (aq_approval_comment self ==? Some 0%N)
  then throw (invalid_acceptance
    "acceptance requires a canonical stopped record and a positive approval comment id")
  else
  _ ← canonical_observations (aq_attempted_findings self); Ok tt.

Definition acceptance_proposal_digest (request : AcceptanceRequest) (head : string)
    (findings : list ReviewFindingObservation) : exec string :=
  _ ← AcceptanceRequest_validate request;
  attempted ← canonical_observations (aq_attempted_findings request);
  current ← canonical_observations findings;
  bytes ← map_err (λ _ : string, Fail (invalid_acceptance "cannot encode acceptance proposal"))
    (to_vec (ACCEPTANCE_INPUT_SCHEMA, aq_stopped_record request, head, attempted, current));
  Ok (sha256_digest bytes).

Definition approval_marker (proposal : string) : string :=
  "<!-- forge-cli:review-loop-acceptance:v1 proposal=" +:+ proposal +:+ " -->".

(** The row an accepted finding must have. *)
Definition accepted_row (original : ReviewFindingObservation) : ReviewFindingObservation :=
  {| o_fingerprint := o_fingerprint original;
     o_root_cause_fingerprint := o_root_cause_fingerprint original;
     o_blocking := false; o_status := Accepted; o_threads := o_threads original |}.

Definition accept_row (attempted : gmap string ReviewFindingObservation) (acc : list string)
    (entry : string * ReviewFindingObservation) : exec (list string) :=
  let '(key, row) := entry in
  original ← ok_or (Fail (invalid_acceptance "acceptance added a finding")) (attempted !! key);
  if row ==? original then Ok acc
  else if (o_status original !=? Open) || (row !=? accepted_row original) then
    throw (invalid_acceptance "acceptance may only change open findings to accepted")
  else Ok (acc ++ [key]).

(** The finding stored for a row of the accepted inventory. *)
Definition accept_finding (head : string) (stored : option ReviewLoopFinding)
    (row : ReviewFindingObservation) : ReviewLoopFinding :=
  let finding := default
    {| f_root_cause_fingerprint := o_root_cause_fingerprint row; f_status := o_status row;
       f_blocking := o_blocking row; f_first_seen_head := head; f_last_seen_head := head;
       f_seen_count := 1; f_reopen_count := 0; f_threads := [] |} stored in
  {| f_root_cause_fingerprint := o_root_cause_fingerprint row; f_status := o_status row;
     f_blocking := o_blocking row; f_first_seen_head := f_first_seen_head finding;
     f_last_seen_head := head; f_seen_count := f_seen_count finding;
     f_reopen_count := f_reopen_count finding;
     f_threads := sort_dedup (f_threads finding ++ o_threads row) |}.

Definition accept_findings (head : string) (findings : gmap string ReviewLoopFinding)
    (current : gmap string ReviewFindingObservation) : gmap string ReviewLoopFinding :=
  foldl (λ findings '(key, row), <[key := accept_finding head (findings !! key) row]> findings)
    findings (entries current).

Definition set_head (s : ReviewLoopState) (head : string) : ReviewLoopState :=
  {| s_head_sha := head; s_round := s_round s; s_no_progress_rounds := s_no_progress_rounds s;
     s_budget := s_budget s; s_findings := s_findings s; s_extensions := s_extensions s;
     s_hard_stop := s_hard_stop s |}.

(** [url::Url::parse] of the approval reference names the comment of this request. *)
Definition check_reference (target : ReviewStateRecord) (comment : N)
    (approval_reference : string) : exec unit :=
  reference ← ok_or (Fail (invalid_acceptance "acceptance approval reference is not a URL"))
                (url_parse approval_reference);
  if (url_path reference !=? "/" +:+ r_repository target +:+ "/pull/" +:+ dec (r_pr target))
     || (url_fragment reference !=? Some ("issuecomment-" +:+ dec comment))
  then throw (invalid_acceptance "acceptance approval reference does not match its comment")
  else Ok tt.

(** The accepted identities, or the refusal. *)
Definition accepted_keys (current attempted : gmap string ReviewFindingObservation)
    : exec (list string) :=
  if negb (size current =? size attempted)%nat then
    throw (invalid_acceptance "acceptance must retain the complete stopped inventory")
  else
  accepted_fingerprints ← foldM (accept_row attempted) [] (entries current);
  if bool_decide (accepted_fingerprints = []) || existsb observation_blocks (values current) then
    throw (invalid_acceptance "terminal acceptance must dispose every open blocking finding")
  else Ok accepted_fingerprints.

(** The stop being accepted: it froze exactly this head and inventory. *)
Definition accepted_stop (chain : ReviewStateChain) (head : string) (request : AcceptanceRequest)
    (attempted : gmap string ReviewFindingObservation) : exec ReviewLoopHardStop :=
  source ← ok_or (Fail (invalid_acceptance "acceptance target is absent from the chain"))
    (find_first (λ r, r_record_digest r ==? aq_stopped_record request) (c_records chain)
     ≫= record_state);
  stop ← ok_or (Fail (invalid_acceptance "acceptance requires a durable hard stop"))
    (s_hard_stop source);
  let mismatch := throw (invalid_acceptance
    "acceptance proof does not match the stopped head and inventory") in
  if hs_attempted_head_sha stop !=? head then mismatch
  else
  digest ← review_observation_digest head attempted;
  if hs_observation_digest stop !=? digest then mismatch else Ok stop.

Definition apply_acceptance (chain : ReviewStateChain) (head : string)
    (expected_tip : option string) (request : AcceptanceRequest)
    (findings : list ReviewFindingObservation) (approval_reference : string)
    : exec ReviewLoopTransition :=
  _ ← AcceptanceRequest_validate request;
  if is_none expected_tip || (expected_tip !=? c_tip_digest chain) then
    throw (invalid_acceptance "acceptance requires the explicit current state tip")
  else
  comment ← ok_or (Fail (invalid_acceptance "acceptance requires a provider approval comment"))
    (id ← aq_approval_comment request; if (0 <? id)%N then Some id else None);
  target ← ok_or (Fail (invalid_acceptance "acceptance requires an existing stopped state"))
    (list.head (c_records chain));
  _ ← check_reference target comment approval_reference;
  current ← canonical_observations findings;
  attempted ← canonical_observations (aq_attempted_findings request);
  accepted_fingerprints ← accepted_keys current attempted;
  stop ← accepted_stop chain head request attempted;
  proposal_digest ← acceptance_proposal_digest request head findings;
  let receipt := {|
    ar_request := {| aq_stopped_record := aq_stopped_record request;
                     aq_attempted_findings := values attempted;
                     aq_approval_comment := aq_approval_comment request |};
    ar_proposal_digest := proposal_digest; ar_original_stop := stop;
    ar_approval_reference := approval_reference;
    ar_accepted_fingerprints := accepted_fingerprints; ar_findings := values current |} in
  latest ← ok_or (Fail (invalid_acceptance "acceptance requires an existing stopped state"))
    (latest_state_record (c_records chain));
  match (match r_payload latest with
         | P_ReviewLoopAcceptance state acceptance =>
             if (acceptance ==? receipt) && (r_expected_head latest ==? head)
             then Some state else None
         | _ => None
         end) with
  | Some state =>
      if other_interval chain latest then
        throw (invalid_acceptance
          "an earlier-assignment acceptance cannot establish a new review interval")
      else Ok (mk_ReviewLoopTransition state false None None (Some receipt))
  | None =>
      if r_record_digest latest !=? aq_stopped_record request then
        throw (invalid_acceptance "acceptance must name the latest stopped review-loop record")
      else
      previous ← expect "latest state" (record_state latest);
      if negb (bool_decide (missing_open previous attempted = [])) then
        throw (invalid_acceptance "acceptance cannot omit a previously open finding")
      else
      let state := set_head (set_hard_stop previous None) head in
      Ok (mk_ReviewLoopTransition
            (set_findings state (accept_findings head (s_findings state) current))
            true None None (Some receipt))
  end.

Definition validate_acceptance_record (prefix : list ReviewStateRecord)
    (record : ReviewStateRecord) : exec unit :=
  match r_payload record with
  | P_ReviewLoopAcceptance state acceptance =>
      let chain := {| c_records := prefix; c_tip_digest := r_previous_digest record;
                      c_ignored_stale_records := [] |} in
      expected ← apply_acceptance chain (r_expected_head record) (r_previous_digest record)
                   (ar_request acceptance) (ar_findings acceptance)
                   (ar_approval_reference acceptance);
      if negb (tr_changed expected) || (tr_state expected !=? state)
         || (tr_acceptance expected !=? Some acceptance)
      then throw (invalid_acceptance "acceptance receipt changed history, counters, or budgets")
      else Ok tt
  | _ => Ok tt
  end.
End acceptance.
