(* ===== verification/Chain.v ===== *)
(** * The append-only chain

    [parse_chain] of [crates/forge-cli/src/ops/review_state.rs]: the trusted comments of
    a pull request are decoded, every record is checked, and the records are linked by
    previous digest into one chain.  Where an ownership record of the next assignment
    generation competes with stale writers of the old one, it wins and the losing
    subtrees are reported as ignored; every other fork is refused. *)
From S2P Require Import Prelude RStr Collections Error Types Markers ReviewLoop Record Identity.
From S2P Require Import Handoff Correction Supersession Acceptance.
From stdpp Require Import options.

(** [validate] of review_sync_carry_over.rs. *)
Definition lower_sha (sha : string) : bool := (len sha =? 40)%N && all_bytes is_lower_hex sha.

Definition validate_carry_over (c : SyncCarryOver) : bool :=
  lower_sha (reviewed_head c) && lower_sha (co_head c) && lower_sha (base_commit c)
  && lower_sha (merge_tree c)
  && (reviewed_head c !=? co_head c)
  && starts_with "https://" (review_url c) && (len (review_url c) <=? 512)%N.

Definition competing_generations : ForgeError :=
  state_conflict "review-state chain contains competing generations" None.

Section chain.
Context `{HS : !Hasher, LS : !LedgerSerde, JT : !JsonText, UP : !UrlParse,
          SP : !SecretPattern, TP : !TimestampParse}.

(** ** Decoding the comments *)
Definition decode_comment (repository : string) (pr : N) (records : list ReviewStateRecord)
    (comment : string) : exec (list ReviewStateRecord) :=
  parsed ← parse_state_marker comment;
  match parsed with
  | None => Ok records
  | Some record =>
      if (r_repository record !=? repository) || negb (r_pr record =? pr)%N then
        throw (state_conflict "review-state record targets a different pull request"
          (Some ("expected=" +:+ repository +:+ "#" +:+ dec pr +:+ "; observed="
            +:+ r_repository record +:+ "#" +:+ dec (r_pr record))))
      else Ok (records ++ [record])
  end.

Definition decode_comments (comments : list string) (repository : string) (pr : N)
    : exec (list ReviewStateRecord) :=
  foldM (decode_comment repository pr) [] comments.

(** ** Checking one record *)
Definition check_digest (record : ReviewStateRecord) : exec unit :=
  let bad := throw (state_conflict "review-state record digest is invalid"
    (Some ("record_digest=" +:+ r_record_digest record))) in
  if r_schema record !=? REVIEW_STATE_SCHEMA then bad
  else
  digest ← compute_digest record;
  if digest !=? r_record_digest record then bad else Ok tt.

Definition check_carry_over (record : ReviewStateRecord) : exec unit :=
  match r_payload record with
  | P_ReviewSyncCarryOver carry_over =>
      if negb (validate_carry_over carry_over)
         || (co_head carry_over !=? r_expected_head record)
         || is_none (r_assignment_generation record)
      then throw (state_conflict "review-state carry-over is invalid" None) else Ok tt
  | _ => Ok tt
  end.

Definition check_loop_state (record : ReviewStateRecord) : exec unit :=
  match record_state record with
  | Some state =>
      _ ← validate_review_loop_state state;
      let stopped_head_matches := is_some_and (s_hard_stop state)
        (λ stop, hs_attempted_head_sha stop ==? r_expected_head record) in
      if (s_head_sha state !=? r_expected_head record) && negb stopped_head_matches then
        throw (state_conflict "review-loop state head differs from its enclosing record"
          (Some ("record_head=" +:+ r_expected_head record +:+ "; state_head="
            +:+ s_head_sha state)))
      else Ok tt
  | None => Ok tt
  end.

Definition check_record (record : ReviewStateRecord) : exec unit :=
  _ ← check_digest record;
  _ ← match payload_handoff (r_payload record) with
      | Some handoff => validate_handoff handoff
      | None => Ok tt
      end;
  _ ← check_carry_over record;
  check_loop_state record.

(** ** The indexes: records by digest, and digests by previous digest *)
Record Index := mk_Index {
  by_digest : gmap string ReviewStateRecord;
  children : gmap (option string) (gset string);
}.

Definition children_of (ix : Index) (parent : option string) : gset string :=
  default ∅ (children ix !! parent).

Definition index_record (ix : Index) (record : ReviewStateRecord) : exec Index :=
  _ ← check_record record;
  match by_digest ix !! r_record_digest record with
  | Some existing =>
      if existing ==? record then Ok ix
      else throw (state_conflict "review-state chain contains conflicting records with one digest"
             (Some ("record_digest=" +:+ r_record_digest record)))
  | None =>
      Ok {| by_digest := <[r_record_digest record := record]> (by_digest ix);
            children := <[r_previous_digest record :=
                {[r_record_digest record]} ∪ children_of ix (r_previous_digest record)]>
              (children ix) |}
  end.

Definition index_records (records : list ReviewStateRecord) : exec Index :=
  foldM index_record (mk_Index ∅ ∅) records.

(** ** Ownership along the chain *)
Definition ownership_step (old handoff : ReviewHandoff) (generation : option N) : exec unit :=
  let same := (assignment_generation handoff =? assignment_generation old)%N in
  following ← ok_or (Fail (state_conflict "assignment generation overflow" None))
                (checked_add u64_max (assignment_generation old) 1);
  let next := (assignment_generation handoff =? following)%N in
  let transfer := valid_coordinator_transfer old handoff in
  if (((coordinator_digest handoff !=? coordinator_digest old)
       || is_some (coordinator_transfer handoff)) && negb transfer)
     || (negb same && negb next)
     || (same && (negb (surrendered handoff) || surrendered old || is_some (returned_reason old)
                  || (reviewer_digest handoff !=? reviewer_digest old)
                  || negb (bool_decide (approval_policy handoff = approval_policy old))
                  || is_some (returned_reason handoff)))
     || (next && is_none (returned_reason handoff) && negb (surrendered old)
         && is_none (returned_reason old) && negb (valid_scope_refresh old handoff))
     || (generation !=? Some (assignment_generation handoff))
  then throw (state_conflict "invalid designated ownership transition" None)
  else Ok tt.

Definition check_ownership (ordered : list ReviewStateRecord) (record : ReviewStateRecord)
    : exec unit :=
  match payload_handoff (r_payload record), latest_handoff ordered with
  | Some handoff, Some old => ownership_step old handoff (r_assignment_generation record)
  | Some handoff, None =>
      if negb (assignment_generation handoff =? 1)%N || surrendered handoff
         || is_some (returned_reason handoff) || is_some (coordinator_transfer handoff)
         || (r_assignment_generation record !=? Some 1%N)
      then throw (state_conflict "invalid initial designated ownership" None)
      else Ok tt
  | None, Some handoff =>
      if (r_assignment_generation record !=? Some (assignment_generation handoff))
         || surrendered handoff || is_some (returned_reason handoff)
      then throw (state_conflict "stale designated assignment generation" None)
      else Ok tt
  | None, None =>
      if is_some (r_assignment_generation record) then
        throw (state_conflict "assignment generation without an owner" None)
      else Ok tt
  end.

(** Everything the walk requires of the record it appends to [ordered]. *)
Definition check_next (ordered : list ReviewStateRecord) (record : ReviewStateRecord)
    : exec unit :=
  if negb (r_generation record =? N.of_nat (length ordered))%N then
    throw (state_conflict "review-state generation is not contiguous"
      (Some ("expected_generation=" +:+ dec (N.of_nat (length ordered))
        +:+ "; observed_generation=" +:+ dec (r_generation record))))
  else
  _ ← check_ownership ordered record;
  _ ← validate_correction_record ordered record;
  _ ← validate_supersession_record ordered record;
  validate_acceptance_record ordered record.

(** ** Forks *)
Definition wins (active : ReviewHandoff) (next_generation : N) (record : ReviewStateRecord) : bool :=
  is_some_and (payload_handoff (r_payload record)) (λ handoff,
    (assignment_generation handoff =? next_generation)%N
    && ((coordinator_digest handoff ==? coordinator_digest active)
        || valid_coordinator_transfer active handoff)
    && (is_some (returned_reason handoff) || valid_scope_refresh active handoff)
    && (r_assignment_generation record ==? Some next_generation)).

Definition record_of (ix : Index) (key : string) : exec ReviewStateRecord :=
  expect "by_digest[key]" (by_digest ix !! key).

(** [iter().filter(p).collect()] for a predicate that indexes [by_digest]. *)
Definition filter_keys (ix : Index) (p : ReviewStateRecord → bool) (keys : list string)
    : exec (list string) :=
  foldM (λ acc key, record ← record_of ix key; Ok (if p record then acc ++ [key] else acc))
    [] keys.

(** The subtrees below [stack], added to the ignored digests.  The [Vec] is kept with its
    last element first. *)
Fixpoint ignore_subtrees (fuel : nat) (ix : Index) (ignored : gset string) (stack : list string)
    : exec (gset string) :=
  match fuel with
  | 0 => Err OutOfFuel
  | S fuel =>
      match stack with
      | [] => Ok ignored
      | key :: stack =>
          if bool_decide (key ∈ ignored) then ignore_subtrees fuel ix ignored stack
          else ignore_subtrees fuel ix ({[key]} ∪ ignored)
                 (rev (sorted_elements (children_of ix (Some key))) ++ stack)
      end
  end.

(** Enough for every subtree of an index: see [ignore_subtrees_fuel]. *)
Definition subtree_fuel (ix : Index) : nat :=
  let n := size (by_digest ix) in S ((S n) * (S n)).

Definition resolve_fork (ix : Index) (ordered : list ReviewStateRecord) (ignored : gset string)
    (candidates : list string) : exec (string * gset string) :=
  active ← ok_or (Fail competing_generations) (latest_handoff ordered);
  next_generation ← ok_or (Fail (state_conflict "assignment generation overflow" None))
                      (checked_add u64_max (assignment_generation active) 1);
  winners ← filter_keys ix (wins active next_generation) candidates;
  match winners with
  | [winner] =>
      strays ← filter_keys ix (λ record,
        r_assignment_generation record !=? Some (assignment_generation active))
        (List.filter (λ key, key !=? winner) candidates);
      if negb (bool_decide (strays = [])) then throw competing_generations
      else
      ignored ← ignore_subtrees (subtree_fuel ix) ix ignored
                  (rev (List.filter (λ key, key !=? winner) candidates));
      Ok (winner, ignored)
  | _ => throw competing_generations
  end.

(** The record after [ordered], and what is ignored on the way. *)
Definition choose_next (ix : Index) (ordered : list ReviewStateRecord) (ignored : gset string)
    (digest : string) : exec (option string * gset string) :=
  match sorted_elements (children_of ix (Some digest)) with
  | [] => Ok (None, ignored)
  | [child] => Ok (Some child, ignored)
  | candidates =>
      '(winner, ignored) ← resolve_fork ix ordered ignored candidates;
      Ok (Some winner, ignored)
  end.

(** ** The walk from the genesis record *)
Fixpoint walk (fuel : nat) (ix : Index) (ordered : list ReviewStateRecord)
    (ignored : gset string) (current : option string)
    : exec (list ReviewStateRecord * gset string) :=
  match current with
  | None => Ok (ordered, ignored)
  | Some digest =>
      match fuel with
      | 0 => Err OutOfFuel
      | S fuel =>
          record ← ok_or (Fail (state_conflict "review-state chain references a missing record"
                            (Some ("record_digest=" +:+ digest))))
                     (by_digest ix !! digest);
          _ ← check_next ordered record;
          let ordered := ordered ++ [record] in
          '(next, ignored) ← choose_next ix ordered ignored digest;
          walk fuel ix ordered ignored next
      end
  end.

(** The generation check bounds the walk by the number of records: see [walk_fuel]. *)
Definition chain_fuel (ix : Index) : nat := S (size (by_digest ix)).

Definition link (records : list ReviewStateRecord) : exec ReviewStateChain :=
  ix ← index_records records;
  if forallb (λ r, is_none (r_assignment_generation r)) records
     && existsb (λ digests, (1 <? size digests)%nat) (map_to_list (children ix)).*2
  then throw competing_generations
  else
  let roots := children_of ix None in
  if negb (size roots =? 1)%nat then
    throw (state_conflict "review-state chain does not have exactly one genesis record"
      (Some ("genesis_count=" +:+ dec (N.of_nat (size roots)))))
  else
  '(ordered, ignored) ← walk (chain_fuel ix) ix [] ∅ (head (sorted_elements roots));
  if negb (length ordered + size ignored =? size (by_digest ix))%nat then
    throw (state_conflict "review-state chain contains unreachable records"
      (Some ("reachable=" +:+ dec (N.of_nat (length ordered)) +:+ "; total="
        +:+ dec (N.of_nat (length records)))))
  else Ok {| c_records := ordered; c_tip_digest := r_record_digest <$> last ordered;
             c_ignored_stale_records := sorted_elements ignored |}.

Definition parse_chain (comments : list string) (repository : string) (pr : N)
    : exec ReviewStateChain :=
  records ← decode_comments comments repository pr;
  match records with
  | [] => Ok {| c_records := []; c_tip_digest := None; c_ignored_stale_records := [] |}
  | _ => link records
  end.
End chain.
