(* ===== verification/Provider.v ===== *)
(** * The provider and the ledger snapshot

    Commands talk to GitHub through a [BackendRunner]: a call changes the world and
    answers with text or an error.  [io] is a computation over such a world; the world
    itself is a parameter, so other sessions may act between any two calls.  The reading
    side of [crates/forge-cli/src/ops/pr_review.rs] is here: the pages of comments, the
    authors that are trusted, and the snapshot they make. *)
From S2P Require Import Prelude RStr Collections Error Types Markers ReviewLoop Identity Record.
From S2P Require Import Handoff Correction Supersession Acceptance Chain.
From stdpp Require Import options.

(** ** Accessors of a JSON value ([serde_json::Value]) *)
Definition get (key : string) (v : JsonValue) : option JsonValue :=
  match v with
  | JObject l => snd <$> find_first (λ kv, kv.1 ==? key) l
  | _ => None
  end.

(** [Value::pointer] along object keys. *)
Fixpoint pointer (path : list string) (v : JsonValue) : option JsonValue :=
  match path with
  | [] => Some v
  | key :: path => get key v ≫= pointer path
  end.

Definition as_str (v : JsonValue) : option string :=
  match v with JString s => Some s | _ => None end.
Definition as_bool (v : JsonValue) : option bool :=
  match v with JBool b => Some b | _ => None end.
Definition as_u64 (v : JsonValue) : option N :=
  match v with JNumber n => Some n | _ => None end.
(** [Value::as_i64]: a negative integer is a [JReal] of its text. *)
Definition as_i64 (v : JsonValue) : option Z :=
  match v with
  | JNumber n => if (n <=? 9223372036854775807)%N then Some (Z.of_N n) else None
  | JReal (String "-" (String _ _ as digits)) =>
      (λ n, (- Z.of_N n)%Z) <$> parse_digits 9223372036854775808 0 digits
  | _ => None
  end.
Definition as_array (v : JsonValue) : option (list JsonValue) :=
  match v with JArray l => Some l | _ => None end.

Definition get_str (key : string) (v : JsonValue) : option string := get key v ≫= as_str.
Definition is_object (v : JsonValue) : bool :=
  match v with JObject _ => true | _ => false end.
Definition is_null (v : JsonValue) : bool :=
  match v with JNull => true | _ => false end.
(** [value[key]]: [null] where there is no such member. *)
Definition index (key : string) (v : JsonValue) : JsonValue := default JNull (get key v).
Definition nonempty (o : option string) : option string :=
  o ≫= λ s, if is_empty s then None else Some s.

(** ** Calls and worlds *)
Inductive BackendCall : Type :=
  | CommentsPage (repository : string) (number : N) (after : option string)
  | PostComment (number : N) (body : string)
  | GetComment (repository : string) (comment : N)
  | PullField (number : N) (jq : string)
  | Compare (repository from to : string) (page : N)
  | ReviewComments (number review : N)
  | ReviewLookup (number review : N)
  | ViewPr (number : N)
  | ReviewsPage (owner name : string) (number : N) (after : option string)
  | PullQuery (operation owner name : string) (number : N) (queue : bool) (extra : string)
  | CommitCheckRuns (slug sha : string)
  | ThreadsPage (owner name : string) (number : N) (after : option string)
  | ThreadCommentsPage (owner name : string) (number : N) (thread : string) (after : option string)
  | MergePolicyQuery (owner name base : string) (number : N)
  | FreezeQuery (owner name : string)
  | PrHead (id : string)
  | ApiGet (endpoint : string)
  | ApiJq (endpoint jq : string)
  | BranchProtectionQuery (owner name qualified_ref : string)
  | ApiPages (endpoint : string)
  | HoldConfigQuery (owner name base : string)
  | RepoViewCall
  | MergeCommitView (number : N)
  | Enqueue (node_id expected_head : string)
  | MergePr (number : N) (method : string) (delete_branch : bool) (match_head : option string)
  | IssueView (repo : option string) (number : N) (with_comments : bool)
  | IssueNotes (host path : string)
  | IssueEdit (repo : option string) (number : N) (title body : option string)
      (add_label remove_label add_assignee : list string)
  | IssueComment (repo : option string) (number : N) (body : string)
  (** A call made under the identity scope of a repository other than the command's own. *)
  | InScope (target : Target) (c : BackendCall).

(** A [BackendRunner]: what a call answers and the world after it. *)
Class Backend (W : Type) := {
  run_call : BackendCall → W → result ForgeError string * W;
}.

(** The forge behind a call ([Provider] of provider.rs). *)
Inductive Provider : Type := GitHub | GitLab | Local.
#[export] Instance Provider_eq_dec : EqDecision Provider.
Proof. solve_decision. Defined.

Definition provider_as_str (p : Provider) : string :=
  match p with GitHub => "github" | GitLab => "gitlab" | Local => "local" end.

Fixpoint is_write (c : BackendCall) : bool :=
  match c with
  | PostComment _ _ | Enqueue _ _ | MergePr _ _ _ _ => true
  | IssueEdit _ _ _ _ _ _ _ | IssueComment _ _ _ => true
  | InScope _ c => is_write c
  | _ => false
  end.

Definition io (W A : Type) : Type := W → exec A * W.
#[global] Instance io_ret {W} : MRet (io W) := λ A a w, (Ok a, w).
#[global] Instance io_bind {W} : MBind (io W) := λ A B f m w,
  let '(r, w') := m w in
  match r with Ok a => f a w' | Err e => (Err e, w') end.

Definition lift {W A} (m : exec A) : io W A := λ w, (m, w).

(** The outcome of a computation as a value: [match call { Ok(..) .., Err(..) .. }]. *)
Definition attempt {W A} (m : io W A) : io W (exec A) := λ w, let '(r, w') := m w in (Ok r, w').

(** A loop over a list whose body talks to the world. *)
Fixpoint mapM_io {W A B} (f : A → io W B) (l : list A) : io W (list B) :=
  match l with
  | [] => mret []
  | x :: l => y ← f x; ys ← mapM_io f l; mret (y :: ys)
  end.

Definition fails {A} (r : result ForgeError A) : exec A := map_err Fail r.

Section provider.
Context {W : Type} `{BE : !Backend W}.

Definition call (c : BackendCall) : io W string := λ w,
  let '(r, w') := run_call c w in (fails r, w').
End provider.

(** [github_repo_slug_from_url] of pr_comments.rs. *)
Definition slug_parts (slug : string) : option string :=
  match split_char "/" slug with
  | [owner; repo] =>
      if is_empty (trim owner) || is_empty (trim repo) then None
      else Some (trim owner +:+ "/" +:+ trim repo)
  | _ => None
  end.

Definition github_repo_slug_from_url (url : string) : option string :=
  let after_scheme := from_option snd url (split_once "://" url) in
  path ← snd <$> split_once "/" after_scheme;
  slug ← match split_once "/pull/" path with
         | Some (slug, _) => Some slug
         | None => fst <$> split_once "/issues/" path
         end;
  slug_parts slug.

(** ** One page of comments *)
Definition MAX_REVIEW_STATE_PAGES : nat := 100.
Definition MAX_REVIEW_STATE_PAGE_BYTES : N := 8 * 1024 * 1024.

Record ReviewStateComment := mk_ReviewStateComment { rc_body : string; rc_created_at : string }.

Record ReviewStatePage := mk_ReviewStatePage {
  pg_trusted_comments : list ReviewStateComment;
  pg_viewer_login : string;
  pg_has_next_page : bool;
  pg_end_cursor : option string;
}.

Record ReviewStateSnapshot := mk_ReviewStateSnapshot {
  sn_chain : ReviewStateChain;
  sn_trusted_comments : list ReviewStateComment;
  sn_viewer_login : string;
  sn_end_cursor : option string;
}.

Definition incomplete (message : string) (detail : option string) : ForgeError :=
  validation error_schema "review_state_snapshot_incomplete" message detail.

Definition github_comment_author_is_viewer (author viewer : string) : bool :=
  (author ==? viewer)
  || is_some_and (strip_suffix "[bot]" viewer)
       (λ canonical, negb (is_empty canonical) && (author ==? canonical)).

(** The comments whose author may write the ledger. *)
Definition trusted_node (viewer_login : string) (node : JsonValue) : bool :=
  is_some_and (pointer ["author"; "login"] node ≫= as_str)
    (λ author, github_comment_author_is_viewer author viewer_login)
  || is_some_and (get_str "authorAssociation" node)
       (λ association, (association ==? "OWNER") || (association ==? "MEMBER")
                       || (association ==? "COLLABORATOR")).

Definition node_comment (node : JsonValue) : option ReviewStateComment :=
  body ← get "body" node ≫= as_str;
  Some (mk_ReviewStateComment body (default EmptyString (get_str "createdAt" node))).

Section snapshot.
Context `{HS : !Hasher, LS : !LedgerSerde, JT : !JsonText, UP : !UrlParse,
          SP : !SecretPattern, TP : !TimestampParse} {W : Type} `{BE : !Backend W}.

Definition parse_review_state_page (stdout : string) : exec ReviewStatePage :=
  if (MAX_REVIEW_STATE_PAGE_BYTES <? len stdout)%N then
    throw (incomplete "a review-state comment page exceeds the safety byte limit"
      (Some ("page_bytes=" +:+ dec (len stdout) +:+ "; max_bytes="
        +:+ dec MAX_REVIEW_STATE_PAGE_BYTES)))
  else
  value ← map_err (λ error, Fail (software error_schema
      "review-state comment response is invalid JSON" (Some error)))
    (value_from_str (trim stdout));
  if is_some_and (get "errors" value ≫= as_array) (λ errors, negb (bool_decide (length errors = 0)))
  then throw (incomplete "GitHub returned partial review-state comment data" None)
  else
  viewer_login ← ok_or (Fail (incomplete
      "review-state comments are missing the authenticated viewer" None))
    (nonempty (pointer ["data"; "viewer"; "login"] value ≫= as_str));
  comments ← ok_or (Fail (incomplete "review-state response is missing pull-request comments" None))
    (pointer ["data"; "repository"; "pullRequest"; "comments"] value);
  nodes ← ok_or (Fail (incomplete "review-state response is missing comment nodes" None))
    (get "nodes" comments ≫= as_array);
  let trusted_comments := omap node_comment (List.filter (trusted_node viewer_login) nodes) in
  page_info ← ok_or (Fail (incomplete "review-state response is missing pageInfo" None))
    (get "pageInfo" comments);
  has_next_page ← ok_or (Fail (incomplete "review-state pageInfo is missing hasNextPage" None))
    (get "hasNextPage" page_info ≫= as_bool);
  let end_cursor := nonempty (get_str "endCursor" page_info) in
  Ok (mk_ReviewStatePage trusted_comments viewer_login has_next_page end_cursor).

(** ** All pages

    [remaining] counts the pages left of the source's [for page_index in 0..100]. *)
Fixpoint read_pages (remaining : nat) (repository : string) (number : N)
    (cursor : option string) (seen_cursors : gset string) (viewer_login : option string)
    (trusted_comments : list ReviewStateComment) : io W ReviewStateSnapshot :=
  match remaining with
  | 0 => lift (throw (incomplete "review-state comment pagination exceeded the safety page limit"
                (Some ("max_pages=" +:+ dec (N.of_nat MAX_REVIEW_STATE_PAGES)))))
  | S remaining =>
      let page_number := dec (N.of_nat (MAX_REVIEW_STATE_PAGES - remaining)) in
      output ← call (CommentsPage repository number cursor);
      page ← lift (parse_review_state_page output);
      if is_some_and viewer_login (λ viewer, viewer !=? pg_viewer_login page) then
        lift (throw (state_conflict
          "the authenticated viewer changed while reading review transaction state" None))
      else
      let viewer_login := default (pg_viewer_login page) viewer_login in
      let trusted_comments := trusted_comments ++ pg_trusted_comments page in
      if negb (pg_has_next_page page) then
        chain ← lift (parse_chain (rc_body <$> trusted_comments) repository number);
        mret (mk_ReviewStateSnapshot chain trusted_comments viewer_login (pg_end_cursor page))
      else
      next ← lift (ok_or (Fail (incomplete "review-state comment pagination is missing endCursor"
               (Some ("page=" +:+ page_number)))) (pg_end_cursor page));
      if bool_decide (next ∈ seen_cursors) then
        lift (throw (incomplete "review-state comment pagination repeated a cursor"
          (Some ("page=" +:+ page_number +:+ "; cursor=" +:+ next))))
      else read_pages remaining repository number (Some next) ({[next]} ∪ seen_cursors)
             (Some viewer_login) trusted_comments
  end.

Definition read_review_state_after (repository : string) (number : N)
    (initial_cursor expected_viewer : option string)
    (trusted_comments : list ReviewStateComment) : io W ReviewStateSnapshot :=
  read_pages MAX_REVIEW_STATE_PAGES repository number initial_cursor ∅ expected_viewer
    trusted_comments.

Definition read_review_state_snapshot (repository : string) (number : N)
    : io W ReviewStateSnapshot :=
  read_review_state_after repository number None None [].

(** ** The view the commands use *)
Record ReviewLoopStateView := mk_ReviewLoopStateView {
  sv_chain : ReviewStateChain;
  sv_tip_created_at : option string;
  sv_handoff_created_at : option string;
  sv_trusted_comment_bodies : list string;
}.

(** The creation time of the first comment that carries the record of this digest. *)
Definition created_at (comments : list ReviewStateComment) (digest : string) : option string :=
  find_map (λ comment,
    match parse_state_marker (rc_body comment) with
    | Ok (Some record) => if r_record_digest record ==? digest
                          then Some (rc_created_at comment) else None
    | _ => None
    end) comments.

Definition state_view (snapshot : ReviewStateSnapshot) : ReviewLoopStateView :=
  {| sv_chain := sn_chain snapshot;
     sv_tip_created_at :=
       c_tip_digest (sn_chain snapshot) ≫= created_at (sn_trusted_comments snapshot);
     sv_handoff_created_at :=
       find_first (λ r, is_some (payload_handoff (r_payload r))) (rev (c_records (sn_chain snapshot)))
       ≫= λ record, created_at (sn_trusted_comments snapshot) (r_record_digest record);
     sv_trusted_comment_bodies := rc_body <$> sn_trusted_comments snapshot |}.

Definition read_review_loop_state_view (repository : string) (number : N)
    : io W ReviewLoopStateView :=
  snapshot ← read_review_state_snapshot repository number; mret (state_view snapshot).
End snapshot.
