(* ===== verification/Hosts.v ===== *)
(** * Hosts of a provider

    The comparison of provider authorities of [crates/forge-cli/src/provider.rs], over the host
    aliases of the identity policy. *)
From S2P Require Import Prelude RStr Collections Error Types Identity Provider.
From stdpp Require Import options.

Definition contains_byte (c : ascii) (s : string) : bool := negb (all_bytes (λ b, b !=? c) s).

(** [str::rsplit_once] at a byte. *)
Fixpoint rsplit_byte (c : ascii) (s : string) : option (string * string) :=
  match s with
  | EmptyString => None
  | String a s =>
      match rsplit_byte c s with
      | Some (before, after) => Some (String a before, after)
      | None => if a ==? c then Some (EmptyString, s) else None
      end
  end.

Definition label_ok (label : string) : bool :=
  (len label <=? 63)%N
  && all_bytes (λ b, is_ascii_alphanumeric b || (b ==? "-"%char)) label
  && is_some_and (String.get 0 label) is_ascii_alphanumeric
  && is_some_and (String.get (String.length label - 1) label) is_ascii_alphanumeric.

Definition parse_authority (value : string) : option string :=
  if is_empty value || (value !=? trim value) || has_whitespace value || has_control value
     || existsb (λ c, contains_byte c value) ["/"%char; "\"%char; "@"%char; "?"%char; "#"%char]
     || (1 <? length (split_char ":" value) - 1)%nat
  then None
  else
  '(hostname, port) ←
    match rsplit_byte ":" value with
    | Some (hostname, port) =>
        port ← parse_u16 port;
        if (port =? 0)%N then None else Some (hostname, Some port)
    | None => Some (value, None)
    end;
  if is_empty hostname || (253 <? len hostname)%N then None
  else
  let hostname := to_ascii_lowercase hostname in
  if (hostname !=? "local") && negb (forallb label_ok (split_char "." hostname)) then None
  else Some (match port with
             | None => hostname
             | Some port => if (port =? 443)%N then hostname else hostname +:+ ":" +:+ dec port
             end).

Definition split_authority (authority : string) : string * option N :=
  match rsplit_byte ":" authority with
  | Some (hostname, port) => (hostname, parse_u16 port)
  | None => (authority, None)
  end.

Definition canonical_provider_host (provider : Provider) (host : string) : string :=
  match parse_authority host with
  | None => canonical_git_host host
  | Some authority =>
      let '(hostname, port) := split_authority authority in
      let hostname := canonical_git_host hostname in
      let hostname := if (provider ==? GitLab) && (hostname ==? "altssh.gitlab.com")
                      then "gitlab.com" else hostname in
      match port with
      | Some port => hostname +:+ ":" +:+ dec port
      | None => hostname
      end
  end.

(** Rust's [eq_ignore_ascii_case] of two canonical hosts. *)
Definition authorities_equal (provider : Provider) (left right : string) : bool :=
  to_ascii_lowercase (canonical_provider_host provider left)
    ==? to_ascii_lowercase (canonical_provider_host provider right).
