(* ===== verification/Paths.v ===== *)
(** * The machine: time, paths and files

    What the commands see of the clock, of directories and of the local checkout. *)
From S2P Require Import Prelude RStr Collections Error Types Identity Provider Hosts.
From stdpp Require Import options.

(** ** Time

    An instant and a duration are numbers of nanoseconds.  The clock is part of the world, so
    calls to the provider take time and so does sleeping ([trait Clock] of
    [crates/forge-cli/src/ops/pr_wait_checks.rs]); the parsing of durations is that of
    [crates/forge-cli/src/cli.rs]. *)

Class Clock (W : Type) := {
  clock_now : W → N;
  clock_sleep : N → W → W;
}.

Definition millis (n : N) : N := n * 1000000.
Definition secs (n : N) : N := n * 1000000000.
Definition as_secs (d : N) : N := d / 1000000000.
Definition as_millis (d : N) : N := d / 1000000.

Section clock.
Context {W : Type} `{CK : !Clock W}.
Definition now : io W N := λ w, (Ok (clock_now w), w).
Definition sleep (d : N) : io W unit := λ w, (Ok tt, clock_sleep d w).
End clock.

(** [Instant::checked_add]: the seconds of an instant are a signed 64-bit number. *)
Definition INSTANT_MAX : N := secs 9223372036854775808 - 1.
Definition instant_checked_add (start d : N) : option N := checked_add INSTANT_MAX start d.

(** [duration_ms]: milliseconds, at most [u64::MAX]. *)
Definition duration_ms (d : N) : N := N.min (as_millis d) u64_max.

(** ** [parse_duration] *)
Definition checked_mul (max a b : N) : option N := if (a * b <=? max)%N then Some (a * b)%N else None.

(** The digits at the front of a text, and the rest. *)
Fixpoint split_digits (s : string) : string * string :=
  match s with
  | String c rest =>
      if is_ascii_digit c then let '(num, unit) := split_digits rest in (String c num, unit)
      else (EmptyString, s)
  | EmptyString => (EmptyString, EmptyString)
  end.

Definition parse_duration (s : string) : result string N :=
  let s := trim s in
  if is_empty s then Err "duration cannot be empty"
  else
  let '(num, unit) := split_digits s in
  value ← ok_or ("invalid number in " +:+ debug_str s) (parse_u64 num);
  let overflows := "duration overflows in " +:+ debug_str s in
  if (unit ==? EmptyString) || (unit ==? "s") then Ok (secs value)
  else if unit ==? "ms" then Ok (millis value)
  else if unit ==? "m" then secs <$> ok_or overflows (checked_mul u64_max value 60)
  else if unit ==? "h" then secs <$> ok_or overflows (checked_mul u64_max value 3600)
  else Err ("unknown duration unit " +:+ debug_str unit +:+ " in " +:+ debug_str s).

(** ** Local directories and files

    The part of [std::path] the configuration loader walks directories with, and what the local
    checkout answers: its files and its [git].  The answers are read at a world, like those of
    the provider. *)
(** ** [std::path] *)
Fixpoint trim_slashes_end (s : string) : string :=
  match s with
  | EmptyString => EmptyString
  | String c s =>
      let rest := trim_slashes_end s in
      if is_empty rest && bool_decide (c = "/"%char) then EmptyString else String c rest
  end.

(** [Path::parent]. *)
Definition path_parent (path : string) : option string :=
  let path := trim_slashes_end path in
  if is_empty path then None
  else
  match rsplit_byte "/" path with
  | None => Some EmptyString
  | Some (before, _) =>
      let before := trim_slashes_end before in
      Some (if is_empty before then "/" else before)
  end.

(** The path and its parents, nearest first; every parent is shorter. *)
Fixpoint ancestors_from (fuel : nat) (path : string) : list string :=
  path ::
  match fuel with
  | 0 => []
  | S fuel => match path_parent path with Some up => ancestors_from fuel up | None => [] end
  end.
Definition ancestors (path : string) : list string := ancestors_from (String.length path) path.

Definition path_join (dir name : string) : string :=
  if is_empty dir || ends_with "/" dir then dir +:+ name else dir +:+ "/" +:+ name.

Definition component_text (c : Component) : string :=
  match c with RootDir => EmptyString | CurDir => "." | ParentDir => ".." | Normal s => s end.

(** [Path::strip_prefix]. *)
Definition path_strip_prefix (base path : string) : option string :=
  if path_starts_with path base
  then Some (join "/" (component_text <$> drop (length (components base)) (components path)))
  else None.

(** ** The checkout *)

(** What running [git] gives: it may not start, and else exits with its two streams. *)
Inductive GitOutput : Type :=
  | NotSpawned (error : string)
  | Exited (success : bool) (stdout stderr : string).

Definition git_stdout (output : GitOutput) : option string :=
  match output with Exited true stdout _ => Some stdout | _ => None end.

Class LocalFiles (W : Type) := {
  (** [std::fs::canonicalize]. *)
  local_canonicalize : string → W → option string;
  (** Whether the path exists. *)
  local_exists : string → W → bool;
  (** The text of a file; [None] when the path is not a file. *)
  local_file : string → W → option (result string string);
  (** [git] run in a directory. *)
  local_git : string → list string → W → GitOutput;
  (** The path of the user-global configuration file. *)
  local_global_config : W → option string;
}.

Section files.
Context {W : Type} `{LF : !LocalFiles W}.

Definition canonical_or_path (path : string) (w : W) : string :=
  default path (local_canonicalize path w).

Definition find_git_toplevel (start : string) (w : W) : option string :=
  find_first (λ dir, local_exists (path_join dir ".git") w) (ancestors start).

(** [find_git_toplevel] of pr_create.rs, where [git] is asked. *)
Definition git_toplevel (start : string) (w : W) : option string :=
  stdout ← git_stdout (local_git start ["rev-parse"; "--show-toplevel"] w);
  let path := trim stdout in
  if is_empty path then None else Some path.

(** [git show <git_ref>:<path>]. *)
Definition git_show (repo git_ref path : string) (w : W) : option string :=
  git_stdout (local_git repo ["show"; git_ref +:+ ":" +:+ path] w).

(** A local reading as a step of a command. *)
Definition local {A} (f : W → A) : io W A := λ w, (Ok (f w), w).
End files.
