(* ===== verification/Config.v ===== *)
(** * Layered configuration

    [crates/forge-cli/src/config.rs] and [config/test_first.rs]: the settings of a
    [.forge-cli.toml], the warnings its reader collects, the overlay of the user-global layer by
    the repository's, and the resolved settings.  The fields of the source's flat struct are
    grouped by their TOML section, and the [toml] crate's reader is a parameter. *)
From S2P Require Import Prelude RStr Collections Error Types Validations Identity Provider Paths.
From stdpp Require Import options.

(** ** The reader of the [toml] crate *)

(** [toml::Value]; a table lists its entries in the order of its map.  Numbers and dates keep
    their text: no setting is one. *)
Inductive TomlValue : Type :=
  | TString (s : string)
  | TBoolean (b : bool)
  | TArray (l : list TomlValue)
  | TTable (l : list (string * TomlValue))
  | TScalar (text : string).

Class TomlText := toml_from_str : string → result string TomlValue.

Definition t_str (v : TomlValue) : option string := match v with TString s => Some s | _ => None end.
Definition t_bool (v : TomlValue) : option bool := match v with TBoolean b => Some b | _ => None end.
Definition t_array (v : TomlValue) : option (list TomlValue) :=
  match v with TArray l => Some l | _ => None end.
Definition t_table (v : TomlValue) : option (list (string * TomlValue)) :=
  match v with TTable l => Some l | _ => None end.
Definition t_get (key : string) (l : list (string * TomlValue)) : option TomlValue :=
  snd <$> find_first (λ kv, kv.1 ==? key) l.

(** [iter().map(f).collect::<Option<Vec<_>>>()]. *)
Fixpoint collect {A B} (f : A → option B) (l : list A) : option (list B) :=
  match l with
  | [] => Some []
  | x :: l => y ← f x; ys ← collect f l; Some (y :: ys)
  end.

(** ** The settings *)
Inductive MergeMethod : Type := Squash | Merge | Rebase.
#[export] Instance MergeMethod_eq_dec : EqDecision MergeMethod.
Proof. solve_decision. Defined.

Definition method_as_str (m : MergeMethod) : string :=
  match m with Squash => "squash" | Merge => "merge" | Rebase => "rebase" end.

Definition method_from_str (s : string) : option MergeMethod :=
  if s ==? "squash" then Some Squash
  else if s ==? "merge" then Some Merge
  else if s ==? "rebase" then Some Rebase
  else None.

Inductive ReviewBotMode : Type := Observed.
#[export] Instance ReviewBotMode_eq_dec : EqDecision ReviewBotMode.
Proof. solve_decision. Defined.

Definition mode_from_str (value : string) : option ReviewBotMode :=
  if value ==? "observed" then Some Observed else None.

Record ReviewConvergenceBot := mk_Bot { bot_login : string; bot_mode : ReviewBotMode }.
#[export] Instance ReviewConvergenceBot_eq_dec : EqDecision ReviewConvergenceBot.
Proof. solve_decision. Defined.

Record ReviewConvergencePolicy := mk_ConvergencePolicy {
  cp_require : bool; cp_quiet_period : N; cp_timeout : N; cp_bots : list ReviewConvergenceBot;
}.

Record MergeConfig := mk_MergeConfig {
  merge_method : option MergeMethod; merge_delete_branch : option bool;
  merge_hold_labels : list string;
}.
Record BodyConfig := mk_BodyConfig {
  body_summary_heading : option string; body_test_plan_heading : option string }.
Record BranchConfig := mk_BranchConfig {
  branch_feature_prefix : option string; branch_bug_prefix : option string }.
Record ChecksConfig := mk_ChecksConfig {
  checks_timeout : option N; checks_interval : option N; checks_required_only : option bool;
  checks_none : option bool; checks_none_reason : option string;
}.
Record InboxConfig := mk_InboxConfig {
  inbox_gitlab_vpn : option string; inbox_gitlab_vpn_check : option string;
  inbox_gitlab_vpn_check_timeout : option N; inbox_gitlab_openvpn_profile : option string;
  inbox_provider_timeout : option N; inbox_strict_providers : option bool;
  inbox_cache_fallback : option bool; inbox_cache_max_age : option N;
  inbox_no_cache : option bool;
}.
Record TestFirstConfig := mk_TestFirstConfig {
  test_first_required : option bool; test_first_require_kinds : option (list PrKind) }.
Record ReviewConfig := mk_ReviewConfig {
  review_convergence_required : option bool; review_convergence_quiet_period : option N;
  review_convergence_timeout : option N;
  review_convergence_bots : option (list ReviewConvergenceBot);
}.
Record HandoffConfig := mk_HandoffConfig {
  review_handoff_supervisors : option (list string); review_handoff_stale_after : option N }.

Record ForgeConfig := mk_ForgeConfig {
  cfg_merge : MergeConfig; cfg_body : BodyConfig; cfg_branch : BranchConfig;
  cfg_checks : ChecksConfig; cfg_inbox : InboxConfig; cfg_test_first : TestFirstConfig;
  cfg_review : ReviewConfig; cfg_handoff : HandoffConfig;
  warnings : list string; source_path : option string;
}.

Definition ForgeConfig_default : ForgeConfig := {|
  cfg_merge := mk_MergeConfig None None []; cfg_body := mk_BodyConfig None None;
  cfg_branch := mk_BranchConfig None None; cfg_checks := mk_ChecksConfig None None None None None;
  cfg_inbox := mk_InboxConfig None None None None None None None None None;
  cfg_test_first := mk_TestFirstConfig None None;
  cfg_review := mk_ReviewConfig None None None None; cfg_handoff := mk_HandoffConfig None None;
  warnings := []; source_path := None |}.

Definition MAX_REVIEW_QUIET_PERIOD : N := secs (60 * 60).
Definition MAX_REVIEW_TIMEOUT : N := secs (24 * 60 * 60).

(** ** The section readers

    A section's reader goes over its entries with the section's settings so far and the
    warnings so far; a bad entry warns and leaves the settings alone. *)
Definition Settings (S : Type) : Type := S * list string.
Definition warn {S} (acc : Settings S) (warning : string) : Settings S := (acc.1, acc.2 ++ [warning]).
Definition put {S} (acc : Settings S) (settings : S) : Settings S := (settings, acc.2).

Definition unknown_key (name : string) : string := "unknown-config-key:" +:+ name.
Definition invalid_value (name : string) : string := "invalid-config-value:" +:+ name.

(** A value of the wanted shape is stored, another one warned about. *)
Definition store {S A} (acc : Settings S) (value : option A) (set : A → S) (warning : string)
    : Settings S :=
  match value with Some a => put acc (set a) | None => warn acc (invalid_value warning) end.

Definition hold_label (value : TomlValue) : option string :=
  label ← t_str value;
  if negb (is_empty (trim label)) && (len label <=? 128)%N && negb (has_control label)
  then Some label else None.

Definition parse_merge_entry (acc : Settings MergeConfig) (entry : string * TomlValue)
    : Settings MergeConfig :=
  let '(key, value) := entry in
  let c := acc.1 in
  if key ==? "method" then
    match t_str value with
    | Some s =>
        store acc (method_from_str s)
          (λ m, mk_MergeConfig (Some m) (merge_delete_branch c) (merge_hold_labels c))
          ("merge.method:" +:+ s)
    | None => warn acc (invalid_value "merge.method:not_a_string")
    end
  else if key ==? "hold_labels" then
    store acc (t_array value ≫= collect hold_label)
      (λ labels, mk_MergeConfig (merge_method c) (merge_delete_branch c) labels) "merge.hold_labels"
  else if key ==? "delete_branch" then
    store acc (t_bool value)
      (λ b, mk_MergeConfig (merge_method c) (Some b) (merge_hold_labels c))
      "merge.delete_branch:not_a_bool"
  else warn acc (unknown_key ("merge." +:+ key)).

Definition parse_body_entry (acc : Settings BodyConfig) (entry : string * TomlValue)
    : Settings BodyConfig :=
  let '(key, value) := entry in
  let c := acc.1 in
  if negb (bool_decide (key ∈ ["summary_heading"; "test_plan_heading"]))
  then warn acc (unknown_key ("body." +:+ key))
  else
    store acc (t_str value)
      (λ s, if key ==? "summary_heading" then mk_BodyConfig (Some s) (body_test_plan_heading c)
            else mk_BodyConfig (body_summary_heading c) (Some s))
      ("body." +:+ key +:+ ":not_a_string").

Definition parse_branch_entry (acc : Settings BranchConfig) (entry : string * TomlValue)
    : Settings BranchConfig :=
  let '(key, value) := entry in
  let c := acc.1 in
  if negb (bool_decide (key ∈ ["feature_prefix"; "bug_prefix"]))
  then warn acc (unknown_key ("branch." +:+ key))
  else
    store acc (t_str value)
      (λ s, if key ==? "feature_prefix" then mk_BranchConfig (Some s) (branch_bug_prefix c)
            else mk_BranchConfig (branch_feature_prefix c) (Some s))
      ("branch." +:+ key +:+ ":not_a_string").

(** A duration: its text is parsed, and the error text is part of the warning. *)
Definition store_duration {S} (acc : Settings S) (name : string) (value : TomlValue) (set : N → S)
    : Settings S :=
  match t_str value with
  | Some s =>
      match parse_duration s with
      | Ok d => put acc (set d)
      | Err err => warn acc (invalid_value (name +:+ ":" +:+ err))
      end
  | None => warn acc (invalid_value (name +:+ ":not_a_string"))
  end.

Definition parse_checks_entry (acc : Settings ChecksConfig) (entry : string * TomlValue)
    : Settings ChecksConfig :=
  let '(key, value) := entry in
  let '(mk_ChecksConfig timeout interval only none reason) := acc.1 in
  if key ==? "timeout" then
    store_duration acc "checks.timeout" value (λ d, mk_ChecksConfig (Some d) interval only none reason)
  else if key ==? "interval" then
    store_duration acc "checks.interval" value (λ d, mk_ChecksConfig timeout (Some d) only none reason)
  else if key ==? "required_only" then
    store acc (t_bool value) (λ b, mk_ChecksConfig timeout interval (Some b) none reason)
      "checks.required_only:not_a_bool"
  else if key ==? "none" then
    store acc (t_bool value) (λ b, mk_ChecksConfig timeout interval only (Some b) reason)
      "checks.none:not_a_bool"
  else if key ==? "none_reason" then
    match trim <$> t_str value with
    | Some s =>
        if is_empty s then warn acc (invalid_value "checks.none_reason:empty")
        else put acc (mk_ChecksConfig timeout interval only none (Some s))
    | None => warn acc (invalid_value "checks.none_reason:not_a_string")
    end
  else warn acc (unknown_key ("checks." +:+ key)).

(** A declaration without its reason is dropped. *)
Definition parse_checks (table : list (string * TomlValue)) (acc : Settings ChecksConfig)
    : Settings ChecksConfig :=
  let acc := fold_left parse_checks_entry table acc in
  let c := acc.1 in
  if (checks_none c ==? Some true) && is_none (checks_none_reason c) then
    warn (put acc (mk_ChecksConfig (checks_timeout c) (checks_interval c) (checks_required_only c)
                     None (checks_none_reason c)))
      (invalid_value "checks.none:missing_none_reason")
  else acc.

Definition parse_inbox_entry (acc : Settings InboxConfig) (entry : string * TomlValue)
    : Settings InboxConfig :=
  let '(key, value) := entry in
  let '(mk_InboxConfig vpn check check_timeout profile provider strict fallback age no_cache) := acc.1 in
  let text set := store acc (t_str value) set ("inbox." +:+ key +:+ ":not_a_string") in
  let duration := store_duration acc ("inbox." +:+ key) value in
  let flag set := store acc (t_bool value) set ("inbox." +:+ key +:+ ":not_a_bool") in
  if key ==? "gitlab_vpn" then
    text (λ s, mk_InboxConfig (Some s) check check_timeout profile provider strict fallback age no_cache)
  else if key ==? "gitlab_vpn_check" then
    text (λ s, mk_InboxConfig vpn (Some s) check_timeout profile provider strict fallback age no_cache)
  else if key ==? "gitlab_openvpn_profile" then
    text (λ s, mk_InboxConfig vpn check check_timeout (Some s) provider strict fallback age no_cache)
  else if key ==? "gitlab_vpn_check_timeout" then
    duration (λ d, mk_InboxConfig vpn check (Some d) profile provider strict fallback age no_cache)
  else if key ==? "provider_timeout" then
    duration (λ d, mk_InboxConfig vpn check check_timeout profile (Some d) strict fallback age no_cache)
  else if key ==? "cache_max_age" then
    duration (λ d, mk_InboxConfig vpn check check_timeout profile provider strict fallback (Some d) no_cache)
  else if key ==? "strict_providers" then
    flag (λ b, mk_InboxConfig vpn check check_timeout profile provider (Some b) fallback age no_cache)
  else if key ==? "cache_fallback" then
    flag (λ b, mk_InboxConfig vpn check check_timeout profile provider strict (Some b) age no_cache)
  else if key ==? "no_cache" then
    flag (λ b, mk_InboxConfig vpn check check_timeout profile provider strict fallback age (Some b))
  else warn acc (unknown_key ("inbox." +:+ key)).

Definition parse_test_first_entry (acc : Settings TestFirstConfig) (entry : string * TomlValue)
    : Settings TestFirstConfig :=
  let '(key, value) := entry in
  let c := acc.1 in
  if key ==? "require" then
    store acc (t_bool value) (λ b, mk_TestFirstConfig (Some b) (test_first_require_kinds c))
      "test_first.require:not_a_bool"
  else if key ==? "require_kinds" then
    store acc (t_array value ≫= collect (λ v, t_str v ≫= kind_parse))
      (λ kinds, mk_TestFirstConfig (test_first_required c) (Some kinds))
      "test_first.require_kinds:expected_array_of_pr_kinds"
  else warn acc (unknown_key ("test_first." +:+ key)).

(** *** [review_convergence] *)
Definition validate_review_duration (key : string) (duration : N) : result string unit :=
  let '(max, label) := if key ==? "quiet_period" then (MAX_REVIEW_QUIET_PERIOD, "1h")
                       else (MAX_REVIEW_TIMEOUT, "24h") in
  if (duration <=? max)%N then Ok tt else Err label.

(** One entry of [bots]: its warnings, and the bot when it is a valid one. *)
Definition parse_bot (index : N) (item : TomlValue) : option ReviewConvergenceBot * list string :=
  let at_ := "review_convergence.bots." +:+ dec index in
  match t_table item with
  | None => (None, [invalid_value (at_ +:+ ":not_a_table")])
  | Some table =>
      let unknown :=
        (λ key, unknown_key (at_ +:+ "." +:+ key))
        <$> List.filter (λ key, negb (bool_decide (key ∈ ["login"; "mode"]))) table.*1 in
      match nonempty (trim <$> (t_get "login" table ≫= t_str)) with
      | None => (None, unknown ++ [invalid_value (at_ +:+ ".login")])
      | Some login =>
          match t_get "mode" table ≫= t_str with
          | None => (None, unknown ++ [invalid_value (at_ +:+ ".mode")])
          | Some mode_raw =>
              match mode_from_str mode_raw with
              | None => (None, unknown ++ [invalid_value (at_ +:+ ".mode:" +:+ mode_raw)])
              | Some mode => (Some (mk_Bot login mode), unknown)
              end
          end
      end
  end.

(** The list is kept when every entry is valid. *)
Definition parse_review_convergence_bots (acc : Settings ReviewConfig) (value : TomlValue)
    : Settings ReviewConfig :=
  match t_array value with
  | None => warn acc (invalid_value "review_convergence.bots:not_an_array")
  | Some items =>
      let read := imap (λ index item, parse_bot (N.of_nat index) item) items in
      let acc := (acc.1, acc.2 ++ concat read.*2) in
      match collect fst read with
      | Some bots =>
          let c := acc.1 in
          put acc (mk_ReviewConfig (review_convergence_required c)
            (review_convergence_quiet_period c) (review_convergence_timeout c) (Some bots))
      | None => acc
      end
  end.

Definition parse_review_convergence_entry (acc : Settings ReviewConfig) (entry : string * TomlValue)
    : Settings ReviewConfig :=
  let '(key, value) := entry in
  let '(mk_ReviewConfig required quiet timeout bots) := acc.1 in
  let named := "review_convergence." +:+ key in
  if key ==? "require" then
    store acc (t_bool value) (λ b, mk_ReviewConfig (Some b) quiet timeout bots)
      "review_convergence.require:not_a_bool"
  else if bool_decide (key ∈ ["quiet_period"; "timeout"]) then
    match t_str value with
    | None => warn acc (invalid_value (named +:+ ":not_a_string"))
    | Some raw =>
        match parse_duration raw with
        | Err _ => warn acc (invalid_value (named +:+ ":" +:+ raw))
        | Ok duration =>
            match validate_review_duration key duration with
            | Ok _ =>
                put acc (if key ==? "quiet_period"
                         then mk_ReviewConfig required (Some duration) timeout bots
                         else mk_ReviewConfig required quiet (Some duration) bots)
            | Err max => warn acc (invalid_value (named +:+ ":exceeds_max:" +:+ max))
            end
        end
    end
  else if key ==? "bots" then parse_review_convergence_bots acc value
  else warn acc (unknown_key named).

(** *** [review_handoff] *)
Section handoff.
Context `{SP : !SecretPattern}.

(** A session digest, or a role an operator may attest. *)
Definition supervisor_ok (selector : string) : bool :=
  let hex := default EmptyString (strip_prefix "sha256:" selector) in
  is_some_and (strip_prefix "role:" selector)
    (λ role, is_ok (LaunchContext_validate (mk_LaunchContext "operator" (Some role) (Some role))))
  || ((len hex =? 64)%N && all_bytes (λ b, is_ascii_hexdigit b && negb (is_ascii_uppercase b)) hex).

Definition supervisor (item : TomlValue) : option string :=
  selector ← t_str item; if supervisor_ok selector then Some selector else None.

Definition parse_review_handoff_entry (acc : Settings HandoffConfig) (entry : string * TomlValue)
    : Settings HandoffConfig :=
  let '(key, value) := entry in
  let c := acc.1 in
  if key ==? "supervisors" then
    match t_array value with
    | None => warn acc (invalid_value "review_handoff.supervisors:not_an_array")
    | Some items =>
        let bad := concat (imap (λ index item,
          if is_none (supervisor item)
          then [invalid_value ("review_handoff.supervisors." +:+ dec (N.of_nat index))] else []) items) in
        let acc := (acc.1, acc.2 ++ bad) in
        match collect supervisor items with
        | Some supervisors =>
            put acc (mk_HandoffConfig (Some (sort_dedup supervisors)) (review_handoff_stale_after c))
        | None => acc
        end
    end
  else if key ==? "stale_after" then
    match t_str value with
    | None => warn acc (invalid_value "review_handoff.stale_after:not_a_string")
    | Some raw =>
        match parse_duration raw with
        | Ok duration =>
            if (secs 60 <=? duration)%N && (duration <=? secs (30 * 24 * 60 * 60))%N
            then put acc (mk_HandoffConfig (review_handoff_supervisors c) (Some duration))
            else warn acc (invalid_value "review_handoff.stale_after")
        | Err _ => warn acc (invalid_value "review_handoff.stale_after")
        end
    end
  else warn acc (unknown_key ("review_handoff." +:+ key)).

(** ** [parse_value]

    The section readers share the list of warnings. *)
Definition parse_section (cfg : ForgeConfig) (entry : string * TomlValue) : ForgeConfig :=
  let '(section, section_value) := entry in
  let '(mk_ForgeConfig merge body branch checks inbox test_first review handoff ws path) := cfg in
  let with_warnings ws :=
    mk_ForgeConfig merge body branch checks inbox test_first review handoff ws path in
  if negb (bool_decide (section ∈ ["merge"; "body"; "branch"; "checks"; "inbox"; "test_first";
                                   "review_convergence"; "review_handoff"]))
  then with_warnings (ws ++ [unknown_key section])
  else
  match t_table section_value with
  | None => with_warnings (ws ++ [invalid_value (section +:+ ":not_a_table")])
  | Some table =>
      if section ==? "merge" then
        let '(merge, ws) := fold_left parse_merge_entry table (merge, ws) in
        mk_ForgeConfig merge body branch checks inbox test_first review handoff ws path
      else if section ==? "body" then
        let '(body, ws) := fold_left parse_body_entry table (body, ws) in
        mk_ForgeConfig merge body branch checks inbox test_first review handoff ws path
      else if section ==? "branch" then
        let '(branch, ws) := fold_left parse_branch_entry table (branch, ws) in
        mk_ForgeConfig merge body branch checks inbox test_first review handoff ws path
      else if section ==? "checks" then
        let '(checks, ws) := parse_checks table (checks, ws) in
        mk_ForgeConfig merge body branch checks inbox test_first review handoff ws path
      else if section ==? "inbox" then
        let '(inbox, ws) := fold_left parse_inbox_entry table (inbox, ws) in
        mk_ForgeConfig merge body branch checks inbox test_first review handoff ws path
      else if section ==? "test_first" then
        let '(test_first, ws) := fold_left parse_test_first_entry table (test_first, ws) in
        mk_ForgeConfig merge body branch checks inbox test_first review handoff ws path
      else if section ==? "review_convergence" then
        let '(review, ws) := fold_left parse_review_convergence_entry table (review, ws) in
        mk_ForgeConfig merge body branch checks inbox test_first review handoff ws path
      else
        let '(handoff, ws) := fold_left parse_review_handoff_entry table (handoff, ws) in
        mk_ForgeConfig merge body branch checks inbox test_first review handoff ws path
  end.

Definition with_warning (cfg : ForgeConfig) (warning : string) : ForgeConfig :=
  mk_ForgeConfig (cfg_merge cfg) (cfg_body cfg) (cfg_branch cfg) (cfg_checks cfg) (cfg_inbox cfg)
    (cfg_test_first cfg) (cfg_review cfg) (cfg_handoff cfg) (warnings cfg ++ [warning])
    (source_path cfg).

Definition with_source (cfg : ForgeConfig) (path : string) : ForgeConfig :=
  mk_ForgeConfig (cfg_merge cfg) (cfg_body cfg) (cfg_branch cfg) (cfg_checks cfg) (cfg_inbox cfg)
    (cfg_test_first cfg) (cfg_review cfg) (cfg_handoff cfg) (warnings cfg) (Some path).

Definition parse_value (value : TomlValue) : ForgeConfig :=
  match t_table value with
  | None => with_warning ForgeConfig_default (invalid_value "root_not_table")
  | Some table => fold_left parse_section table ForgeConfig_default
  end.

Section text.
Context `{TT : !TomlText}.

Definition parse_content (contents : string) : result string ForgeConfig :=
  parse_value <$> toml_from_str contents.

(** A file's settings: a text that does not read or parse leaves the defaults and a warning. *)
Definition parse_file (prefix : string) (contents : result string string) (path : string)
    : ForgeConfig :=
  let failed what err :=
    with_warning ForgeConfig_default (invalid_value (prefix +:+ what +:+ ":" +:+ err)) in
  with_source
    (match contents with
     | Err err => failed "read_error" err
     | Ok contents =>
         match toml_from_str contents with
         | Ok value => parse_value value
         | Err err => failed "parse_error" err
         end
     end) path.
End text.
End handoff.

(** ** The loaders *)
Definition CONFIG_FILE_NAME : string := ".forge-cli.toml".

Section loaders.
Context `{SP : !SecretPattern, TT : !TomlText} {W : Type} `{LF : !LocalFiles W}.

(** The nearest directory with a configuration file, up to the top of the checkout. *)
Fixpoint find_config_in (dirs : list string) (top : option string) (w : W) : option string :=
  match dirs with
  | [] => None
  | dir :: dirs =>
      let candidate := path_join dir CONFIG_FILE_NAME in
      if is_some (local_file candidate w) then Some candidate
      else if top ==? Some dir then None
      else find_config_in dirs top w
  end.

Definition find_config_file (start_dir : string) (git_toplevel : option string) (w : W)
    : option string :=
  find_config_in (ancestors (canonical_or_path start_dir w))
    ((λ top, canonical_or_path top w) <$> git_toplevel) w.

Definition load_from (start_dir : string) (git_toplevel : option string) (w : W) : ForgeConfig :=
  match find_config_file start_dir git_toplevel w with
  | None => ForgeConfig_default
  | Some found =>
      parse_file EmptyString
        (default (Err "No such file or directory (os error 2)") (local_file found w)) found
  end.

(** The committed file of the nearest of these directories. *)
Fixpoint load_committed (dirs : list string) (top git_ref : string) (w : W) : ForgeConfig :=
  match dirs with
  | [] => ForgeConfig_default
  | dir :: dirs =>
      match path_strip_prefix top dir with
      | None => ForgeConfig_default
      | Some rel =>
          let rel_path :=
            map_bytes (λ c, if bool_decide (c = "\"%char) then "/"%char else c)
              (path_join rel CONFIG_FILE_NAME) in
          match git_show top git_ref rel_path w with
          | Some contents => parse_file EmptyString (Ok contents) (path_join top rel_path)
          | None =>
              if dir ==? top then ForgeConfig_default else load_committed dirs top git_ref w
          end
      end
  end.

Definition load_from_git_ref (start_dir git_toplevel git_ref : string) (w : W) : ForgeConfig :=
  load_committed (ancestors (canonical_or_path start_dir w)) (canonical_or_path git_toplevel w)
    git_ref w.

Definition load_global (w : W) : ForgeConfig :=
  match local_global_config w with
  | None => ForgeConfig_default
  | Some path =>
      match local_file path w with
      | None => ForgeConfig_default
      | Some contents => parse_file "global_" contents path
      end
  end.
End loaders.

(** ** The overlay *)

(** [top.or(base)]. *)
Definition over {A} (top base : option A) : option A :=
  match top with Some _ => top | None => base end.

Definition same_bot (bot existing : ReviewConvergenceBot) : bool :=
  (bot_mode existing ==? bot_mode bot)
  && (to_ascii_lowercase (bot_login existing) ==? to_ascii_lowercase (bot_login bot)).

Definition add_bot (merged : list ReviewConvergenceBot) (bot : ReviewConvergenceBot)
    : list ReviewConvergenceBot :=
  if existsb (same_bot bot) merged then merged else merged ++ [bot].

Definition merge_review_bot_layers (base top : option (list ReviewConvergenceBot))
    (protect_base : bool) : option (list ReviewConvergenceBot) :=
  if negb protect_base then over top base
  else Some (fold_left add_bot (default [] top) (default [] base)).

Definition DEFAULT_QUIET_PERIOD : N := secs (2 * 60).

Definition overlay_review (base top : ReviewConfig) : ReviewConfig :=
  let protect := review_convergence_required base ==? Some true in
  {| review_convergence_required :=
       if protect then Some true
       else over (review_convergence_required top) (review_convergence_required base);
     review_convergence_quiet_period :=
       if protect then
         match review_convergence_quiet_period top with
         | Some period =>
             Some (N.max period
                     (default DEFAULT_QUIET_PERIOD (review_convergence_quiet_period base)))
         | None => review_convergence_quiet_period base
         end
       else over (review_convergence_quiet_period top) (review_convergence_quiet_period base);
     review_convergence_timeout :=
       over (review_convergence_timeout top) (review_convergence_timeout base);
     review_convergence_bots :=
       merge_review_bot_layers (review_convergence_bots base) (review_convergence_bots top) protect |}.

Definition overlay_checks (base top : ChecksConfig) : ChecksConfig :=
  let from := if (checks_none base ==? Some false) || is_none (checks_none top) then base else top in
  {| checks_timeout := over (checks_timeout top) (checks_timeout base);
     checks_interval := over (checks_interval top) (checks_interval base);
     checks_required_only := over (checks_required_only top) (checks_required_only base);
     checks_none := checks_none from; checks_none_reason := checks_none_reason from |}.

Definition overlay_inbox (base top : InboxConfig) : InboxConfig :=
  let pick {A} (f : InboxConfig → option A) := over (f top) (f base) in
  mk_InboxConfig (pick inbox_gitlab_vpn) (pick inbox_gitlab_vpn_check)
    (pick inbox_gitlab_vpn_check_timeout) (pick inbox_gitlab_openvpn_profile)
    (pick inbox_provider_timeout) (pick inbox_strict_providers) (pick inbox_cache_fallback)
    (pick inbox_cache_max_age) (pick inbox_no_cache).

Definition overlaid_by (base top : ForgeConfig) : ForgeConfig := {|
  cfg_merge :=
    mk_MergeConfig (over (merge_method (cfg_merge top)) (merge_method (cfg_merge base)))
      (over (merge_delete_branch (cfg_merge top)) (merge_delete_branch (cfg_merge base)))
      (merge_hold_labels (cfg_merge base) ++ merge_hold_labels (cfg_merge top));
  cfg_body :=
    mk_BodyConfig (over (body_summary_heading (cfg_body top)) (body_summary_heading (cfg_body base)))
      (over (body_test_plan_heading (cfg_body top)) (body_test_plan_heading (cfg_body base)));
  cfg_branch :=
    mk_BranchConfig
      (over (branch_feature_prefix (cfg_branch top)) (branch_feature_prefix (cfg_branch base)))
      (over (branch_bug_prefix (cfg_branch top)) (branch_bug_prefix (cfg_branch base)));
  cfg_checks := overlay_checks (cfg_checks base) (cfg_checks top);
  cfg_inbox := overlay_inbox (cfg_inbox base) (cfg_inbox top);
  cfg_test_first :=
    mk_TestFirstConfig
      (over (test_first_required (cfg_test_first top)) (test_first_required (cfg_test_first base)))
      (over (test_first_require_kinds (cfg_test_first top))
         (test_first_require_kinds (cfg_test_first base)));
  cfg_review := overlay_review (cfg_review base) (cfg_review top);
  cfg_handoff :=
    mk_HandoffConfig
      (over (review_handoff_supervisors (cfg_handoff top))
         (review_handoff_supervisors (cfg_handoff base)))
      (over (review_handoff_stale_after (cfg_handoff top))
         (review_handoff_stale_after (cfg_handoff base)));
  warnings := warnings base ++ warnings top;
  source_path := over (source_path top) (source_path base) |}.

Definition load_layered `{!SecretPattern, !TomlText} {W : Type} `{!LocalFiles W}
    (start_dir : string) (git_toplevel : option string) (w : W) : ForgeConfig :=
  overlaid_by (load_global w) (load_from start_dir git_toplevel w).

(** ** The resolved settings *)
Definition resolve_merge_method (c : ForgeConfig) (explicit : option MergeMethod) : MergeMethod :=
  default Squash (over explicit (merge_method (cfg_merge c))).

Definition DEFAULT_HOLD_LABELS : list string :=
  ["state::do-not-merge"; "do-not-merge"; "control::hold"].

Definition add_label (labels : list string) (label : string) : list string :=
  if bool_decide (label ∈ labels) then labels else labels ++ [label].

Definition resolve_hold_labels (c : ForgeConfig) : list string :=
  fold_left add_label (merge_hold_labels (cfg_merge c)) DEFAULT_HOLD_LABELS.

Definition resolve_delete_branch (c : ForgeConfig) (explicit : option bool) : bool :=
  default true (over explicit (merge_delete_branch (cfg_merge c))).

Definition resolve_summary_heading (c : ForgeConfig) (explicit : option string) : string :=
  default "## Summary" (over explicit (body_summary_heading (cfg_body c))).
Definition resolve_test_plan_heading (c : ForgeConfig) (explicit : option string) : string :=
  default "## Test plan" (over explicit (body_test_plan_heading (cfg_body c))).
Definition resolve_feature_prefix (c : ForgeConfig) (explicit : option string) : string :=
  default "feat/" (over explicit (branch_feature_prefix (cfg_branch c))).
Definition resolve_bug_prefix (c : ForgeConfig) (explicit : option string) : string :=
  default "fix/" (over explicit (branch_bug_prefix (cfg_branch c))).
Definition resolve_checks_timeout (c : ForgeConfig) (explicit : option N) : N :=
  default (secs (30 * 60)) (over explicit (checks_timeout (cfg_checks c))).
Definition resolve_checks_interval (c : ForgeConfig) (explicit : option N) : N :=
  default (secs 20) (over explicit (checks_interval (cfg_checks c))).
Definition resolve_required_only (c : ForgeConfig) (explicit : option bool) : bool :=
  default true (over explicit (checks_required_only (cfg_checks c))).

Definition declared_no_checks_reason (c : ForgeConfig) : option string :=
  if checks_none (cfg_checks c) ==? Some true then checks_none_reason (cfg_checks c) else None.

Definition resolve_test_first_required (c : ForgeConfig) (explicit : option bool) : bool :=
  default false (over explicit (test_first_required (cfg_test_first c))).

Definition resolve_review_convergence (c : ForgeConfig) (explicit_required : option bool)
    : ReviewConvergencePolicy :=
  {| cp_require :=
       default false (over explicit_required (review_convergence_required (cfg_review c)));
     cp_quiet_period := default DEFAULT_QUIET_PERIOD (review_convergence_quiet_period (cfg_review c));
     cp_timeout := default (secs (20 * 60)) (review_convergence_timeout (cfg_review c));
     cp_bots := default [] (review_convergence_bots (cfg_review c)) |}.

Definition READ_WARNINGS : list string :=
  ["invalid-config-value:read_error:"; "invalid-config-value:parse_error:";
   "invalid-config-value:global_read_error:"; "invalid-config-value:global_parse_error:";
   "invalid-config-value:root_not_table"].

Definition invalid_review_convergence_warnings (c : ForgeConfig) : list string :=
  List.filter (λ warning,
    starts_with "invalid-config-value:review_convergence" warning
    || existsb (λ prefix, starts_with prefix warning) READ_WARNINGS) (warnings c).

(** ** test_first.rs *)
Record TestFirstPolicy := mk_TestFirstPolicy {
  tf_require : bool; tf_require_kinds : list PrKind; tf_invalid_require_kinds : bool }.

Definition TestFirstPolicy_default : TestFirstPolicy := mk_TestFirstPolicy false [KFeature; KBug] false.

Definition required_for (policy : TestFirstPolicy) (kind : PrKind) : bool :=
  tf_require policy && bool_decide (kind ∈ tf_require_kinds policy).

Definition resolve_test_first_policy (c : ForgeConfig) : TestFirstPolicy := {|
  tf_require := resolve_test_first_required c None;
  tf_invalid_require_kinds :=
    existsb (starts_with "invalid-config-value:test_first.require_kinds:") (warnings c);
  tf_require_kinds :=
    default (tf_require_kinds TestFirstPolicy_default) (test_first_require_kinds (cfg_test_first c)) |}.
