(* ===== verification/PrView.v ===== *)
(** * The view of one pull request

    [pr_view::compute] and the normalisations of [crates/forge-cli/src/ops/pr_state.rs],
    with the parsers of [ops/pr_view.rs] for both providers, and the lifecycle data the
    standalone read adds ([ops/merge_queue.rs], [ops/pr_lifecycle.rs]). *)
From S2P Require Import Prelude RStr Collections Error Types Markers ReviewLoop Provider.
From stdpp Require Import options.

(** ** pr_state.rs *)
Definition unknown_state (raw : string) (provider : Provider) : ForgeError :=
  software error_schema
    (provider_as_str provider +:+ " returned an unknown state literal '" +:+ raw +:+ "'") None.

Definition normalize_state (raw : string) (provider : Provider) : exec string :=
  let lower := to_ascii_lowercase (trim raw) in
  match provider with
  | GitHub | Local =>
      if lower ==? "open" then Ok "open"
      else if lower ==? "closed" then Ok "closed"
      else if lower ==? "merged" then Ok "merged"
      else throw (unknown_state raw provider)
  | GitLab =>
      if (lower ==? "opened") || (lower ==? "open") then Ok "open"
      else if (lower ==? "closed") || (lower ==? "locked") then Ok "closed"
      else if lower ==? "merged" then Ok "merged"
      else throw (unknown_state raw provider)
  end.

Definition normalize_mergeable_github (value : option string) : string :=
  let upper := to_ascii_uppercase (default EmptyString value) in
  if upper ==? "MERGEABLE" then "yes"
  else if upper ==? "CONFLICTING" then "no" else "unknown".

Definition normalize_mergeable_gitlab (value : option string) : string :=
  let value := default EmptyString value in
  if (value ==? "can_be_merged") || (value ==? "mergeable") then "yes"
  else if (value ==? "cannot_be_merged") || (value ==? "cannot_be_merged_recheck") then "no"
  else "unknown".

(** ** The data *)
Record ClosingIssueRef := mk_ClosingIssueRef { ci_number : N; ci_url : string }.

Record QueueRead := mk_QueueRead {
  q_queued : bool;
  q_position : option N;
  q_enqueued_at : option string;
  q_state : option string;
  q_head_sha : option string;
}.

Record GroupCheck := mk_GroupCheck {
  gc_name : option string;
  gc_status : option string;
  gc_conclusion : option string;
  gc_started_at : option string;
  gc_completed_at : option string;
}.

Record MergeGroup := mk_MergeGroup {
  mgr_head_sha : string;
  mgr_started_at : option string;
  mgr_completed_at : option string;
  mgr_checks : list GroupCheck;
}.

Record PrLifecycle := mk_PrLifecycle {
  lc_created_at : option string;
  lc_ready_for_review_at : option string;
  lc_merge_queue : option QueueRead;
  lc_merge_group : option MergeGroup;
}.

Record PrView := mk_PrView {
  v_provider : string;
  v_number : N;
  v_url : string;
  v_state : string;
  v_draft : bool;
  v_title : string;
  v_head : string;
  v_head_sha : option string;
  v_head_repository : option string;
  v_base : string;
  v_mergeable : string;
  v_merged_at : option string;
  v_lifecycle : PrLifecycle;
  v_merge_commit_sha : option string;
  v_labels : list string;
  v_body : option string;
  v_closing_issue_refs : list ClosingIssueRef;
}.

(** [merge_queue::string]. *)
Definition json_string (value : JsonValue) : option string := nonempty (as_str value).

(** ** Parsing *)
Definition missing (key : string) : ForgeError :=
  software error_schema ("missing required field '" +:+ key +:+ "' in pr view JSON") None.

Definition required_str (value : JsonValue) (key : string) : exec string :=
  ok_or (Fail (missing key)) (get_str key value).

Definition parse_closing_refs (value : JsonValue) : list ClosingIssueRef :=
  omap (λ item, number ← get "number" item ≫= as_u64;
                Some (mk_ClosingIssueRef number (default EmptyString (get_str "url" item))))
    (default [] (get "closingIssuesReferences" value ≫= as_array)).

Definition github_label_names (value : JsonValue) : list string :=
  omap (get_str "name") (default [] (get "labels" value ≫= as_array)).

Definition gitlab_label_names (value : JsonValue) : list string :=
  omap (λ item, match as_str item with Some s => Some s | None => get_str "name" item end)
    (default [] (get "labels" value ≫= as_array)).

Definition gitlab_head_sha (value : JsonValue) : option string :=
  nonempty (match get_str "sha" value with
            | Some s => Some s
            | None => get "diff_refs" value ≫= get_str "head_sha"
            end).

Definition created_lifecycle (created_at : option string) : PrLifecycle :=
  mk_PrLifecycle created_at None None None.

Definition parse_github (provider : Provider) (value : JsonValue) : exec PrView :=
  let raw_state := default EmptyString (get_str "state" value) in
  let merged_at := nonempty (get_str "mergedAt" value) in
  state ← (if is_some merged_at then Ok "merged" else normalize_state raw_state provider);
  number ← ok_or (Fail (missing "number")) (get "number" value ≫= as_u64);
  url ← required_str value "url";
  title ← required_str value "title";
  head ← required_str value "headRefName";
  base ← required_str value "baseRefName";
  Ok {| v_provider := provider_as_str provider; v_number := number; v_url := url;
        v_state := state; v_draft := default false (get "isDraft" value ≫= as_bool);
        v_title := title; v_head := head;
        v_head_sha := nonempty (get_str "headRefOid" value);
        v_head_repository := nonempty (to_ascii_lowercase <$>
          (get "headRepository" value ≫= get_str "nameWithOwner"));
        v_base := base; v_mergeable := normalize_mergeable_github (get_str "mergeable" value);
        v_merged_at := merged_at;
        v_lifecycle := created_lifecycle
          (if provider ==? Local then None else json_string (index "createdAt" value));
        v_merge_commit_sha := nonempty (get "mergeCommit" value ≫= get_str "oid");
        v_labels := github_label_names value; v_body := get_str "body" value;
        v_closing_issue_refs := parse_closing_refs value |}.

Definition parse_gitlab (provider : Provider) (value : JsonValue) : exec PrView :=
  let raw_state := default EmptyString (get_str "state" value) in
  state ← normalize_state raw_state provider;
  number ← ok_or (Fail (missing "iid")) (get "iid" value ≫= as_u64);
  url ← required_str value "web_url";
  title ← required_str value "title";
  head ← required_str value "source_branch";
  base ← required_str value "target_branch";
  Ok {| v_provider := provider_as_str provider; v_number := number; v_url := url;
        v_state := state;
        v_draft := default false
          (match get "draft" value ≫= as_bool with
           | Some draft => Some draft
           | None => get "work_in_progress" value ≫= as_bool
           end);
        v_title := title; v_head := head; v_head_sha := gitlab_head_sha value;
        v_head_repository := (λ id, "gitlab-project-id:" +:+ dec id) <$>
          (get "source_project_id" value ≫= as_u64);
        v_base := base; v_mergeable := normalize_mergeable_gitlab (get_str "merge_status" value);
        v_merged_at := nonempty (get_str "merged_at" value);
        v_lifecycle := created_lifecycle (json_string (index "created_at" value));
        v_merge_commit_sha := nonempty (get_str "merge_commit_sha" value);
        v_labels := gitlab_label_names value; v_body := get_str "description" value;
        v_closing_issue_refs := [] |}.

Section view.
Context `{JT : !JsonText}.

Definition parse_view_output (provider : Provider) (stdout : string) : exec PrView :=
  value ← map_err (λ e, Fail (software error_schema "pr view JSON is invalid" (Some e)))
    (value_from_str (trim stdout));
  match provider with
  | GitHub | Local => parse_github provider value
  | GitLab => parse_gitlab provider value
  end.

Context {W : Type} `{BE : !Backend W}.

Definition pr_view_compute (provider : Provider) (number : N) : io W PrView :=
  stdout ← call (ViewPr number);
  lift (parse_view_output provider stdout).

(** The ledger commands run against GitHub. *)
Definition view (number : N) : io W PrView := pr_view_compute GitHub number.
End view.

(** ** merge_queue.rs *)
Definition lifecycle_unavailable (message : string) : ForgeError :=
  unavailable "cli.forge-cli.error.v1" "pr_lifecycle_unavailable" message None.

Definition unsupported_message (message : string) : bool :=
  (contains "mergeQueueEntry" message || contains "isInMergeQueue" message)
  && (contains "doesn't exist" message || contains "Cannot query field" message).

Definition error_unsupported (error : JsonValue) : bool :=
  is_some_and (as_str (index "message" error)) unsupported_message.

Definition from_pull (pull : JsonValue) : option QueueRead :=
  let entry := index "mergeQueueEntry" pull in
  if negb (is_object entry) || (as_bool (index "isInMergeQueue" pull) ==? Some false) then None
  else Some {| q_queued := true; q_position := as_u64 (index "position" entry);
               q_enqueued_at := json_string (index "enqueuedAt" entry);
               q_state := json_string (index "state" entry);
               q_head_sha := json_string (index "headRefOid" (index "pullRequest" entry)) |}.

Section queue.
Context `{JT : !JsonText}.

Definition unsupported_backend (detail : string) : bool :=
  match value_from_str detail with
  | Ok value =>
      is_some_and (as_array (index "errors" value)) (λ errors,
        negb (bool_decide (length errors = 0)) && forallb error_unsupported errors)
  | Err _ =>
      let lines := List.filter (λ line, negb (is_empty (trim line))) (lines detail) in
      negb (bool_decide (length lines = 0)) && forallb unsupported_message lines
  end.

Definition unsupported_error (e : stop) : bool :=
  match e with Fail (BackendError _ _ (Some detail)) => unsupported_backend detail | _ => false end.

(** The answer of one attempt: the pull request, or [None] to ask again without the queue. *)
Definition read_pull_answer (queue : bool) (answer : exec string) : exec (option JsonValue) :=
  match answer with
  | Ok stdout =>
      value ← map_err (λ _ : string, Fail (lifecycle_unavailable "invalid queue-read JSON"))
        (value_from_str stdout);
      match as_array (index "errors" value) with
      | Some ((_ :: _) as errors) =>
          if queue && forallb error_unsupported errors then Ok None
          else throw (lifecycle_unavailable "provider rejected the queue read")
      | _ =>
          let pull := index "pullRequest" (index "repository" (index "data" value)) in
          if is_object pull then Ok (Some pull)
          else throw (lifecycle_unavailable "queue-read response has no pull request")
      end
  | Err e => if queue && unsupported_error e then Ok None else Err e
  end.

Context {W : Type} `{BE : !Backend W}.

(** The source's [loop]: at most one more attempt, without the queue fields. *)
Definition read_pull (owner name : string) (pr : N) (extra : string) : io W JsonValue :=
  let attempt_with queue :=
    answer ← attempt (call (PullQuery "ForgePrLifecycle" owner name pr queue extra));
    lift (read_pull_answer queue answer) in
  first ← attempt_with true;
  match first with
  | Some pull => mret pull
  | None =>
      second ← attempt_with false;
      lift (ok_or OutOfFuel second)
  end.

Definition queue_read (provider : Provider) (owner name : string) (pr : N)
    : io W (option QueueRead) :=
  if provider !=? GitHub then mret None
  else pull ← read_pull owner name pr EmptyString; mret (from_pull pull).

(** ** pr_lifecycle.rs *)
Definition READY_FIELDS : string :=
  "headRefOid ready:timelineItems(itemTypes:[READY_FOR_REVIEW_EVENT],last:1){nodes{... on ReadyForReviewEvent{createdAt}}}".

Definition parse_group_check (check : JsonValue) : GroupCheck :=
  {| gc_name := json_string (index "name" check);
     gc_status := json_string (index "status" check);
     gc_conclusion := json_string (index "conclusion" check);
     gc_started_at := json_string (index "started_at" check);
     gc_completed_at := json_string (index "completed_at" check) |}.

Definition group_pages (pages : JsonValue) : exec (list GroupCheck) :=
  pages ← ok_or (Fail (lifecycle_unavailable "missing merge-group check pages")) (as_array pages);
  rows ← mapR (λ page,
    ok_or (Fail (lifecycle_unavailable "missing merge-group check runs"))
      (as_array (index "check_runs" page))) pages;
  Ok (parse_group_check <$> concat rows).

(** [Iterator::min] and [Iterator::max] over strings. *)
Definition smin (l : list string) : option string := head (sort l).
Definition smax (l : list string) : option string := last (sort l).

Definition group_check_done (check : GroupCheck) : bool :=
  (gc_status check ==? Some "completed") && is_some (gc_completed_at check).

Definition merge_group (sha : string) (checks : list GroupCheck) : MergeGroup :=
  {| mgr_head_sha := sha;
     mgr_started_at := smin (omap gc_started_at checks);
     mgr_completed_at :=
       if negb (bool_decide (length checks = 0)) && forallb group_check_done checks
       then smax (omap gc_completed_at checks) else None;
     mgr_checks := checks |}.

Definition read_group (slug sha : string) : io W MergeGroup :=
  stdout ← call (CommitCheckRuns slug sha);
  pages ← lift (map_err (λ _ : string, Fail (lifecycle_unavailable "invalid merge-group check JSON"))
    (value_from_str stdout));
  checks ← lift (group_pages pages);
  mret (merge_group sha checks).

(** The head commit of the queue entry, when it is not the head of the pull request. *)
Definition group_head (pull : JsonValue) : option string :=
  sha ← json_string (index "oid" (index "headCommit" (index "mergeQueueEntry" pull)));
  if Some sha ==? as_str (index "headRefOid" pull) then None else Some sha.

Definition ready_at (pull : JsonValue) : option string :=
  node ← as_array (index "nodes" (index "ready" pull)) ≫= last;
  json_string (index "createdAt" node).

Definition enrich (v : PrView) : io W PrView :=
  slug ← lift (ok_or (Fail (lifecycle_unavailable
      "cannot resolve PR repository for lifecycle read")) (github_repo_slug_from_url (v_url v)));
  '(owner, name) ← lift (ok_or (Fail (lifecycle_unavailable "invalid PR repository"))
    (split_once "/" slug));
  pull ← read_pull owner name (v_number v) READY_FIELDS;
  let queue := from_pull pull in
  group ← match queue, group_head pull with
          | Some _, Some sha => group ← read_group slug sha; mret (Some group)
          | _, _ => mret (lc_merge_group (v_lifecycle v))
          end;
  mret {| v_provider := v_provider v; v_number := v_number v; v_url := v_url v;
          v_state := v_state v; v_draft := v_draft v; v_title := v_title v; v_head := v_head v;
          v_head_sha := v_head_sha v; v_head_repository := v_head_repository v;
          v_base := v_base v; v_mergeable := v_mergeable v; v_merged_at := v_merged_at v;
          v_lifecycle := {| lc_created_at := lc_created_at (v_lifecycle v);
                            lc_ready_for_review_at := ready_at pull;
                            lc_merge_queue := queue; lc_merge_group := group |};
          v_merge_commit_sha := v_merge_commit_sha v; v_labels := v_labels v;
          v_body := v_body v; v_closing_issue_refs := v_closing_issue_refs v |}.
End queue.
