(* ===== verification/PrReviews.v ===== *)
(** * The native reviews of a pull request

    The paginated snapshot of [crates/forge-cli/src/ops/pr_reviews.rs]: one page is parsed
    strictly, every page must show the same viewer and the same head, and the reviews are
    split into those of the head and the stale ones.  The summary of a review is bounded. *)
From S2P Require Import Prelude RStr Collections Error Types Markers ReviewLoop Handoff Provider.
From stdpp Require Import options.

Definition MAX_SUMMARY_BYTES : N := 4096.
Definition MAX_REVIEW_PAGES : nat := 100.

(** A review that is not submitted yet. *)
Record PendingReview := mk_PendingReview {
  pr_id : string; pr_database_id : option N; pr_url : string; pr_author : string;
  pr_state : string; pr_commit_sha : option string; pr_summary : string;
  pr_summary_truncated : bool;
}.

Record ReviewPage := mk_ReviewPage {
  rp_viewer_login : string;
  rp_head_sha : string;
  rp_reviews : list NativeReview;
  rp_pending_reviews : list PendingReview;
  rp_has_next_page : bool;
  rp_end_cursor : option string;
}.

Record PrReviews := mk_PrReviews {
  pv_provider : string;
  pv_number : N;
  pv_url : string;
  pv_head_sha : string;
  pv_viewer_login : string;
  current_head_reviews : list NativeReview;
  stale_reviews : list NativeReview;
  pending_reviews : list PendingReview;
}.

Definition reviews_incomplete (message : string) (detail : option string) : ForgeError :=
  validation error_schema "review_snapshot_incomplete" message detail.

(** ** Fields of a node *)
Definition string_at (value : JsonValue) (path : list string) : string :=
  default EmptyString (pointer path value ≫= as_str).

Definition optional_string (value : JsonValue) (path : list string) : option string :=
  nonempty (pointer path value ≫= as_str).

Definition required_string (value : JsonValue) (path : list string) (field : string)
    : exec string :=
  ok_or (Fail (reviews_incomplete "reviews response is missing a required field"
                 (Some ("field=" +:+ field)))) (optional_string value path).

Definition REVIEW_STATES : list string :=
  ["APPROVED"; "CHANGES_REQUESTED"; "COMMENTED"; "DISMISSED"; "PENDING"].

Definition required_review_state (node : JsonValue) : exec string :=
  state ← required_string node ["state"] "review.state";
  if bool_decide (state ∈ REVIEW_STATES) then Ok state
  else throw (reviews_incomplete "reviews response contains an unknown review state"
    (Some ("review_id=" +:+ string_at node ["id"] +:+ "; state=" +:+ state))).

(** ** The bounded summary *)

(** [str::is_char_boundary] of an index inside the string: the byte there does not continue a
    character. *)
Definition is_char_boundary (s : string) (i : nat) : bool :=
  match String.get i s with
  | Some c => negb (continuation c)
  | None => bool_decide (i = String.length s)
  end.

(** [while !value.is_char_boundary(end) { end -= 1 }]; zero is a boundary. *)
Fixpoint char_boundary (s : string) (i : nat) : nat :=
  if is_char_boundary s i then i else match i with 0 => 0 | S i => char_boundary s i end.

Definition bounded_summary (value : string) : string * bool :=
  if (len value <=? MAX_SUMMARY_BYTES)%N then (value, false)
  else (String.substring 0 (char_boundary value (N.to_nat MAX_SUMMARY_BYTES)) value, true).

(** ** One page *)
Definition parse_review_node (node : JsonValue) : exec (PendingReview + NativeReview) :=
  let '(summary, truncated) := bounded_summary (default EmptyString (get_str "body" node)) in
  id ← required_string node ["id"] "review.id";
  let database_id := get "databaseId" node ≫= as_u64 in
  url ← required_string node ["url"] "review.url";
  let author := string_at node ["author"; "login"] in
  state ← required_review_state node;
  if state ==? "PENDING" then
    Ok (inl {| pr_id := id; pr_database_id := database_id; pr_url := url; pr_author := author;
               pr_state := state; pr_commit_sha := optional_string node ["commit"; "oid"];
               pr_summary := summary; pr_summary_truncated := truncated |})
  else
  commit_sha ← required_string node ["commit"; "oid"] "review.commit.oid";
  submitted_at ← required_string node ["submittedAt"] "review.submittedAt";
  Ok (inr {| nr_id := id; nr_database_id := database_id; nr_url := url; nr_author := author;
             nr_author_node_id := optional_string node ["author"; "id"];
             nr_author_type := optional_string node ["author"; "__typename"];
             nr_state := state; nr_commit_sha := commit_sha; nr_submitted_at := submitted_at;
             nr_summary := summary; nr_summary_truncated := truncated |}).

Definition submitted (r : PendingReview + NativeReview) : option NativeReview :=
  match r with inr r => Some r | inl _ => None end.
Definition pending (r : PendingReview + NativeReview) : option PendingReview :=
  match r with inl r => Some r | inr _ => None end.

Section reviews.
Context `{JT : !JsonText}.

Definition parse_github_review_page (stdout : string) : exec ReviewPage :=
  value ← map_err (λ e, Fail (software error_schema "reviews response is invalid JSON" (Some e)))
    (value_from_str (trim stdout));
  let errors := default [] (get "errors" value ≫= as_array) in
  if negb (bool_decide (length errors = 0)) then
    throw (reviews_incomplete "GitHub returned partial native-review data"
      (Some ("graphql_errors=" +:+ dec (N.of_nat (length errors)))))
  else
  pull ← ok_or (Fail (reviews_incomplete "reviews response is missing pullRequest" None))
    (pointer ["data"; "repository"; "pullRequest"] value);
  head_sha ← required_string pull ["headRefOid"] "headRefOid";
  let viewer_login := default EmptyString (optional_string value ["data"; "viewer"; "login"]) in
  nodes ← ok_or (Fail (reviews_incomplete "reviews response is missing reviews nodes" None))
    (pointer ["reviews"; "nodes"] pull ≫= as_array);
  page_info ← ok_or (Fail (reviews_incomplete "reviews response is missing pageInfo" None))
    (pointer ["reviews"; "pageInfo"] pull);
  has_next_page ← ok_or (Fail (reviews_incomplete
      "reviews pageInfo is missing hasNextPage" None)) (get "hasNextPage" page_info ≫= as_bool);
  let end_cursor := nonempty (get_str "endCursor" page_info) in
  parsed ← mapR parse_review_node nodes;
  Ok {| rp_viewer_login := viewer_login; rp_head_sha := head_sha;
        rp_reviews := omap submitted parsed; rp_pending_reviews := omap pending parsed;
        rp_has_next_page := has_next_page; rp_end_cursor := end_cursor |}.

(** ** All pages *)
Definition ensure_github (provider : Provider) : exec unit :=
  if provider ==? GitHub then Ok tt
  else throw (provider_unsupported error_schema
    ("pr reviews is GitHub-only in v1 (provider: " +:+ provider_as_str provider +:+ ")") None).

Definition split_slug (slug : string) : exec (string * string) :=
  ok_or (Fail (validation error_schema "repo_required"
      "reviews require a repository slug shaped as owner/name" (Some ("repo=" +:+ slug))))
    (split_once "/" slug).

Context {W : Type} `{BE : !Backend W}.

(** The time left for the whole snapshot: [None] where the caller set no limit. *)
Context (remaining_timeout : io W unit).

(** [remaining] counts the pages left of the source's [for page_index in 0..100]; [seen] are the
    viewer and the head of the first page, [acc] the reviews read so far. *)
Fixpoint review_pages (remaining : nat) (provider : Provider) (url owner name : string)
    (number : N) (cursor : option string) (seen_cursors : gset string)
    (seen : option (string * string))
    (acc : list NativeReview * list NativeReview * list PendingReview) : io W PrReviews :=
  match remaining with
  | 0 => lift (throw (reviews_incomplete "native review pagination exceeded the safety page limit"
                (Some ("max_pages=" +:+ dec (N.of_nat MAX_REVIEW_PAGES)))))
  | S remaining =>
      let page_number := dec (N.of_nat (MAX_REVIEW_PAGES - remaining)) in
      _ ← remaining_timeout;
      output ← call (ReviewsPage owner name number cursor);
      page ← lift (parse_github_review_page output);
      if is_some_and seen (λ seen, seen.1 !=? rp_viewer_login page) then
        lift (throw (reviews_incomplete
          "the authenticated viewer changed while paginating native reviews" None))
      else if is_some_and seen (λ seen, seen.2 !=? rp_head_sha page) then
        lift (throw (reviews_incomplete "the PR head changed while paginating native reviews"
          (Some ("expected_head=" +:+ default "<missing>" (snd <$> seen)
                 +:+ " provider_head=" +:+ rp_head_sha page))))
      else
      let '(viewer_login, head_sha) := default (rp_viewer_login page, rp_head_sha page) seen in
      let current := acc.1.1 ++ List.filter (λ r, nr_commit_sha r ==? head_sha) (rp_reviews page) in
      let stale := acc.1.2 ++ List.filter (λ r, nr_commit_sha r !=? head_sha) (rp_reviews page) in
      let pending := acc.2 ++ rp_pending_reviews page in
      if negb (rp_has_next_page page) then
        mret {| pv_provider := provider_as_str provider; pv_number := number; pv_url := url;
                pv_head_sha := head_sha; pv_viewer_login := viewer_login;
                current_head_reviews := current; stale_reviews := stale;
                pending_reviews := pending |}
      else
      next ← lift (ok_or (Fail (reviews_incomplete "native review pagination is missing endCursor"
               (Some ("page=" +:+ page_number)))) (rp_end_cursor page));
      if bool_decide (next ∈ seen_cursors) then
        lift (throw (reviews_incomplete "native review pagination repeated a cursor"
          (Some ("page=" +:+ page_number +:+ "; cursor=" +:+ next))))
      else review_pages remaining provider url owner name number (Some next)
             ({[next]} ∪ seen_cursors) (Some (viewer_login, head_sha)) (current, stale, pending)
  end.

Definition compute_for_pr_with_timeout (provider : Provider) (number : N) (url : string)
    : io W PrReviews :=
  _ ← lift (ensure_github provider);
  slug ← lift (ok_or (Fail (software error_schema
      "unable to derive GitHub owner/repo from PR url" (Some ("url=" +:+ url))))
    (github_repo_slug_from_url url));
  '(owner, name) ← lift (split_slug slug);
  review_pages MAX_REVIEW_PAGES provider url owner name number None ∅ None ([], [], []).
End reviews.

(** [pr_reviews::compute_for_pr]: no time limit. *)
Definition compute_for_pr `{!JsonText} {W : Type} `{!Backend W} (provider : Provider) (number : N)
    (url : string) : io W PrReviews :=
  compute_for_pr_with_timeout (mret tt) provider number url.
