(* ===== verification/Threads.v ===== *)
(** * Review threads

    The complete snapshot of the review threads of a pull request
    ([crates/forge-cli/src/ops/pr_review_threads.rs], GitHub): every page of threads and every
    page of comments of every thread is read, each page must make progress towards the total
    the provider announced, and the threads that hold a merge are the unresolved ones that are
    not outdated.  The source loops without a page limit; [fuel] bounds the model's loops. *)
From S2P Require Import Prelude RStr Collections Error Types Markers ReviewLoop Provider PrView.
From S2P Require Import PrReviews.
From stdpp Require Import options.

(** ** The data *)
Record ThreadComment := mk_ThreadComment {
  tc_id : string; tc_author : string; tc_body : string; tc_created_at : string; tc_url : string;
}.

Record Thread := mk_Thread {
  th_id : string; th_resolved : bool; th_outdated : bool; th_author : string; th_path : string;
  th_diff_side : option string; th_line : option N; th_original_line : option N;
  th_original_start_line : option N; th_start_diff_side : option string;
  th_start_line : option N; th_subject_type : option string; th_created_at : string;
  th_url : string; th_body : string; th_comments : list ThreadComment;
}.

Record Completeness := mk_Completeness { cp_threads : bool; cp_comments : bool }.
Definition FULL : Completeness := mk_Completeness true true.

Record PrThreads := mk_PrThreads {
  pt_provider : string; pt_number : N; pt_url : string; pt_head_sha : option string;
  pt_total : N; pt_unresolved : N; pt_completeness : Completeness; pt_threads : list Thread;
}.

Record ThreadNode := mk_ThreadNode {
  tn_summary : Thread;
  tn_total_count : option N;
  tn_has_next_page : bool;
  tn_end_cursor : option string;
}.

Record ThreadPage := mk_ThreadPage {
  tp_head_sha : string; tp_total_count : option N; tp_threads : list ThreadNode;
  tp_has_next_page : bool; tp_end_cursor : option string;
}.

Record CommentsPageRead := mk_CommentsPageRead {
  cr_head_sha : string; cr_thread_id : string; cr_total_count : option N;
  cr_comments : list ThreadComment; cr_has_next_page : bool; cr_end_cursor : option string;
}.

Record StaleThreadDisposition := mk_StaleThreadDisposition {
  sd_thread_id : string; sd_author : string; sd_path : string; sd_summary : string;
  sd_disposition : string; sd_rationale : string;
}.

(** ** Fields *)
Definition required_json_string (value : JsonValue) (path : list string) (field : string)
    : exec string :=
  ok_or (Fail (reviews_incomplete "review-thread response is missing a required field"
                 (Some ("field=" +:+ field)))) (nonempty (pointer path value ≫= as_str)).

Definition required_json_string_allow_empty (value : JsonValue) (path : list string)
    (field : string) : exec string :=
  ok_or (Fail (reviews_incomplete "review-thread response is missing a required field"
                 (Some ("field=" +:+ field)))) (pointer path value ≫= as_str).

Definition required_json_bool (value : JsonValue) (path : list string) (field : string)
    : exec bool :=
  ok_or (Fail (reviews_incomplete "review-thread response is missing a required field"
                 (Some ("field=" +:+ field)))) (pointer path value ≫= as_bool).

Definition optional_json_u32 (value : JsonValue) (path : list string) : option N :=
  n ← pointer path value ≫= as_u64; if (n <=? u32_max)%N then Some n else None.

Definition optional_connection_total_count (connection : JsonValue) (label : string)
    : exec (option N) :=
  match get "totalCount" connection with
  | None => Ok None
  | Some value =>
      count ← ok_or (Fail (reviews_incomplete "review pagination returned an invalid totalCount"
                (Some ("connection=" +:+ label)))) (as_u64 value);
      Ok (Some count)
  end.

Definition parse_page_info (connection : JsonValue) (label : string)
    : exec (bool * option string) :=
  page_info ← ok_or (Fail (reviews_incomplete "review-thread response is missing pageInfo"
      (Some ("connection=" +:+ label)))) (get "pageInfo" connection);
  has_next_page ← ok_or (Fail (reviews_incomplete
      "review-thread pageInfo is missing hasNextPage" (Some ("connection=" +:+ label))))
    (get "hasNextPage" page_info ≫= as_bool);
  Ok (has_next_page, nonempty (get_str "endCursor" page_info)).

Definition reject_graphql_errors (value : JsonValue) (label : string) : exec unit :=
  let errors := default [] (get "errors" value ≫= as_array) in
  if bool_decide (length errors = 0) then Ok tt
  else throw (reviews_incomplete "GitHub returned partial review-thread data"
    (Some ("surface=" +:+ label +:+ "; graphql_errors=" +:+ dec (N.of_nat (length errors))))).

(** ** Progress of a connection

    The total that further pages are held to, when this page is consistent with it. *)
Definition validate_connection_progress (label : string) (expected_total provider_total : option N)
    (page_node_count accumulated_count : N) (has_next_page : bool) (detail : string)
    : exec (option N) :=
  let incomplete message context :=
    reviews_incomplete message (Some ("connection=" +:+ label +:+ context +:+ "; " +:+ detail)) in
  expected_total ←
    match provider_total with
    | None => Ok expected_total
    | Some provider_total =>
        if is_some_and expected_total (λ expected, negb (expected =? provider_total)%N) then
          throw (incomplete "review pagination totalCount changed between pages"
            ("; expected_total=" +:+ dec (default 0%N expected_total)
             +:+ "; provider_total=" +:+ dec provider_total))
        else Ok (Some (default provider_total expected_total))
    end;
  if has_next_page && is_none expected_total then
    throw (incomplete "review pagination cannot prove a finite connection without totalCount"
      EmptyString)
  else
  let expected_total :=
    if negb has_next_page && is_none expected_total then Some accumulated_count
    else expected_total in
  total ← expect "terminal pages derive a total above" expected_total;
  let counts := "; accumulated=" +:+ dec accumulated_count +:+ "; total=" +:+ dec total in
  if (total <? accumulated_count)%N then
    throw (incomplete "review pagination returned more nodes than totalCount" counts)
  else if has_next_page && ((page_node_count =? 0)%N || (total <=? accumulated_count)%N) then
    throw (incomplete "review pagination did not make bounded progress"
      ("; page_nodes=" +:+ dec page_node_count +:+ counts))
  else if negb has_next_page && negb (accumulated_count =? total)%N then
    throw (incomplete "review pagination ended before totalCount was consumed" counts)
  else Ok expected_total.

(** ** Pages *)
Definition parse_github_thread_comments (connection : JsonValue) (thread_id : string)
    : exec (list ThreadComment) :=
  nodes ← ok_or (Fail (reviews_incomplete "review-thread comments response is missing nodes"
      (Some ("thread_id=" +:+ thread_id)))) (get "nodes" connection ≫= as_array);
  mapR (λ comment,
    id ← required_json_string comment ["id"] "reviewThread.comment.id";
    body ← required_json_string_allow_empty comment ["body"] "reviewThread.comment.body";
    created_at ← required_json_string comment ["createdAt"] "reviewThread.comment.createdAt";
    url ← required_json_string comment ["url"] "reviewThread.comment.url";
    Ok (mk_ThreadComment id (string_at comment ["author"; "login"]) body created_at url)) nodes.

Definition parse_thread_node (node : JsonValue) : exec ThreadNode :=
  id ← required_json_string node ["id"] "reviewThread.id";
  connection ← ok_or (Fail (reviews_incomplete "review-thread response is missing comments"
      (Some ("thread_id=" +:+ id)))) (pointer ["comments"] node);
  comments ← parse_github_thread_comments connection id;
  '(has_next_page, end_cursor) ← parse_page_info connection "reviewThread.comments";
  total_count ← optional_connection_total_count connection "reviewThread.comments";
  let first := default (mk_ThreadComment EmptyString EmptyString EmptyString EmptyString EmptyString)
                 (head comments) in
  resolved ← required_json_bool node ["isResolved"] "reviewThread.isResolved";
  outdated ← required_json_bool node ["isOutdated"] "reviewThread.isOutdated";
  diff_side ← required_json_string node ["diffSide"] "reviewThread.diffSide";
  subject_type ← required_json_string node ["subjectType"] "reviewThread.subjectType";
  Ok {| tn_summary :=
          {| th_id := id; th_resolved := resolved; th_outdated := outdated;
             th_author := tc_author first; th_path := default EmptyString (get_str "path" node);
             th_diff_side := Some diff_side; th_line := optional_json_u32 node ["line"];
             th_original_line := optional_json_u32 node ["originalLine"];
             th_original_start_line := optional_json_u32 node ["originalStartLine"];
             th_start_diff_side := pointer ["startDiffSide"] node ≫= as_str;
             th_start_line := optional_json_u32 node ["startLine"];
             th_subject_type := Some subject_type; th_created_at := tc_created_at first;
             th_url := tc_url first; th_body := tc_body first; th_comments := comments |};
        tn_total_count := total_count; tn_has_next_page := has_next_page;
        tn_end_cursor := end_cursor |}.

Section threads.
Context `{JT : !JsonText}.

Definition thread_json (message stdout : string) : exec JsonValue :=
  map_err (λ e, Fail (software error_schema message (Some e))) (value_from_str (trim stdout)).

Definition parse_github_thread_page (stdout : string) : exec ThreadPage :=
  value ← thread_json "review-threads response is invalid JSON" stdout;
  _ ← reject_graphql_errors value "review threads";
  pull ← ok_or (Fail (reviews_incomplete "review-threads response is missing pullRequest" None))
    (pointer ["data"; "repository"; "pullRequest"] value);
  head_sha ← required_json_string pull ["headRefOid"] "headRefOid";
  connection ← ok_or (Fail (reviews_incomplete
      "review-threads response is missing reviewThreads" None)) (pointer ["reviewThreads"] pull);
  nodes ← ok_or (Fail (reviews_incomplete
      "review-threads response is missing reviewThreads nodes" None))
    (pointer ["nodes"] connection ≫= as_array);
  '(has_next_page, end_cursor) ← parse_page_info connection "reviewThreads";
  total_count ← optional_connection_total_count connection "reviewThreads";
  threads ← mapR parse_thread_node nodes;
  Ok (mk_ThreadPage head_sha total_count threads has_next_page end_cursor).

Definition parse_github_thread_comments_page (stdout : string) : exec CommentsPageRead :=
  value ← thread_json "review-thread comments response is invalid JSON" stdout;
  _ ← reject_graphql_errors value "review-thread comments";
  pull ← ok_or (Fail (reviews_incomplete
      "review-thread comments response is missing pullRequest" None))
    (pointer ["data"; "repository"; "pullRequest"] value);
  head_sha ← required_json_string pull ["headRefOid"] "headRefOid";
  node ← ok_or (Fail (reviews_incomplete "review-thread comments response is missing node" None))
    (pointer ["data"; "node"] value);
  thread_id ← required_json_string node ["id"] "reviewThread.id";
  connection ← ok_or (Fail (reviews_incomplete
      "review-thread comments response is missing comments" (Some ("thread_id=" +:+ thread_id))))
    (pointer ["comments"] node);
  comments ← parse_github_thread_comments connection thread_id;
  '(has_next_page, end_cursor) ← parse_page_info connection "reviewThread.comments";
  total_count ← optional_connection_total_count connection "reviewThread.comments";
  Ok (mk_CommentsPageRead head_sha thread_id total_count comments has_next_page end_cursor).

(** ** Reading everything *)

(** [for id in ids { if !seen.insert(id) { return Err(..) } }]. *)
Definition insert_fresh (duplicate : string → ForgeError) (seen : gset string) (ids : list string)
    : exec (gset string) :=
  foldM (λ seen id, if bool_decide (id ∈ seen) then throw (duplicate id) else Ok ({[id]} ∪ seen))
    seen ids.

Definition count {A} (l : list A) : N := N.of_nat (length l).

Context {W : Type} `{BE : !Backend W}.

(** The pages of comments after the first; [page_number] is the page read before. *)
Fixpoint comment_pages (fuel : nat) (owner name : string) (number : N) (expected_head id : string)
    (has_next_page : bool) (cursor : option string) (seen_cursors seen_ids : gset string)
    (expected_total : option N) (comments : list ThreadComment) (page_number : N)
    : io W (list ThreadComment) :=
  if negb has_next_page then mret comments
  else
  match fuel with
  | 0 => lift (Err OutOfFuel)
  | S fuel =>
      let page_number := (page_number + 1)%N in
      let page_text := dec page_number in
      after ← lift (ok_or (Fail (reviews_incomplete
          "review-thread comment pagination is missing endCursor"
          (Some ("thread_id=" +:+ id +:+ "; page=" +:+ page_text)))) cursor);
      if bool_decide (after ∈ seen_cursors) then
        lift (throw (reviews_incomplete "review-thread comment pagination repeated a cursor"
          (Some ("thread_id=" +:+ id +:+ "; cursor=" +:+ after))))
      else
      output ← call (ThreadCommentsPage owner name number id (Some after));
      page ← lift (parse_github_thread_comments_page output);
      if cr_head_sha page !=? expected_head then
        lift (throw (reviews_incomplete
          "the PR head changed while paginating review-thread comments"
          (Some ("expected_head=" +:+ expected_head +:+ "; provider_head=" +:+ cr_head_sha page))))
      else if cr_thread_id page !=? id then
        lift (throw (reviews_incomplete
          "review-thread comment page returned a different thread"
          (Some ("expected_thread=" +:+ id +:+ "; provider_thread=" +:+ cr_thread_id page))))
      else
      seen_ids ← lift (insert_fresh (λ comment, reviews_incomplete
          "review-thread comment pagination returned a duplicate comment"
          (Some ("thread_id=" +:+ id +:+ "; comment_id=" +:+ comment +:+ "; page=" +:+ page_text)))
        seen_ids (tc_id <$> cr_comments page));
      let comments := comments ++ cr_comments page in
      expected_total ← lift (validate_connection_progress "reviewThread.comments" expected_total
        (cr_total_count page) (count (cr_comments page)) (count comments) (cr_has_next_page page)
        ("thread_id=" +:+ id +:+ "; page=" +:+ page_text));
      comment_pages fuel owner name number expected_head id (cr_has_next_page page)
        (cr_end_cursor page) ({[after]} ∪ seen_cursors) seen_ids expected_total comments page_number
  end.

Definition with_comments (t : Thread) (comments : list ThreadComment) : Thread :=
  {| th_id := th_id t; th_resolved := th_resolved t; th_outdated := th_outdated t;
     th_author := th_author t; th_path := th_path t; th_diff_side := th_diff_side t;
     th_line := th_line t; th_original_line := th_original_line t;
     th_original_start_line := th_original_start_line t;
     th_start_diff_side := th_start_diff_side t; th_start_line := th_start_line t;
     th_subject_type := th_subject_type t; th_created_at := th_created_at t; th_url := th_url t;
     th_body := th_body t; th_comments := comments |}.

Definition complete_github_thread_comments (fuel : nat) (owner name : string) (number : N)
    (expected_head : string) (node : ThreadNode) : io W Thread :=
  let summary := tn_summary node in
  let id := th_id summary in
  let comments := th_comments summary in
  seen_ids ← lift (insert_fresh (λ comment, reviews_incomplete
      "review-thread comment pagination returned a duplicate comment"
      (Some ("thread_id=" +:+ id +:+ "; comment_id=" +:+ comment))) ∅ (tc_id <$> comments));
  expected_total ← lift (validate_connection_progress "reviewThread.comments" (tn_total_count node)
    (tn_total_count node) (count comments) (count comments) (tn_has_next_page node)
    ("thread_id=" +:+ id +:+ "; page=1"));
  all ← comment_pages fuel owner name number expected_head id (tn_has_next_page node)
          (tn_end_cursor node) ∅ seen_ids expected_total comments 1;
  mret (with_comments summary all).

(** [head] and [expected_total] are those of the pages before. *)
Fixpoint thread_pages (comment_fuel fuel : nat) (provider : Provider) (url owner name : string) (number : N)
    (cursor : option string) (seen_cursors : gset string) (expected_head : option string)
    (expected_total : option N) (seen_ids : gset string) (threads : list Thread) (page_number : N)
    : io W PrThreads :=
  match fuel with
  | 0 => lift (Err OutOfFuel)
  | S fuel =>
      let page_number := (page_number + 1)%N in
      let page_text := dec page_number in
      output ← call (ThreadsPage owner name number cursor);
      page ← lift (parse_github_thread_page output);
      if is_some_and expected_head (λ head, head !=? tp_head_sha page) then
        lift (throw (reviews_incomplete "the PR head changed while paginating review threads"
          (Some ("expected_head=" +:+ default "<missing>" expected_head
                 +:+ "; provider_head=" +:+ tp_head_sha page))))
      else
      let stable_head := default (tp_head_sha page) expected_head in
      seen_ids ← lift (insert_fresh (λ thread, reviews_incomplete
          "review-thread pagination returned a duplicate thread"
          (Some ("thread_id=" +:+ thread +:+ "; page=" +:+ page_text)))
        seen_ids ((λ node, th_id (tn_summary node)) <$> tp_threads page));
      accumulated ← lift (ok_or (Fail (reviews_incomplete "review-thread count overflowed" None))
        (checked_add u64_max (count threads) (count (tp_threads page))));
      expected_total ← lift (validate_connection_progress "reviewThreads" expected_total
        (tp_total_count page) (count (tp_threads page)) accumulated (tp_has_next_page page)
        ("page=" +:+ page_text));
      completed ← mapM_io (complete_github_thread_comments comment_fuel owner name number
                              stable_head)
                    (tp_threads page);
      let threads := threads ++ completed in
      if negb (tp_has_next_page page) then
        mret {| pt_provider := provider_as_str provider; pt_number := number; pt_url := url;
                pt_head_sha := Some stable_head; pt_total := count threads;
                pt_unresolved := count_if (λ t, negb (th_resolved t)) threads;
                pt_completeness := FULL; pt_threads := threads |}
      else
      next ← lift (ok_or (Fail (reviews_incomplete "review-thread pagination is missing endCursor"
               (Some ("page=" +:+ page_text)))) (tp_end_cursor page));
      if bool_decide (next ∈ seen_cursors) then
        lift (throw (reviews_incomplete "review-thread pagination repeated a cursor"
          (Some ("page=" +:+ page_text +:+ "; cursor=" +:+ next))))
      else thread_pages comment_fuel fuel provider url owner name number (Some next)
             ({[next]} ∪ seen_cursors) (Some stable_head) expected_total seen_ids threads page_number
  end.

Definition compute_github_threads (fuel : nat) (provider : Provider) (url : string) (number : N)
    : io W PrThreads :=
  slug ← lift (ok_or (Fail (reviews_incomplete "unable to derive GitHub owner/repo from PR url"
      (Some ("url=" +:+ url)))) (github_repo_slug_from_url url));
  '(owner, name) ← lift (ok_or (Fail (reviews_incomplete
      "unable to split GitHub owner/repo slug" (Some ("slug=" +:+ slug)))) (split_once "/" slug));
  thread_pages fuel fuel provider url owner name number None ∅ None None ∅ [] 0.
End threads.

(** ** The merge gate on threads *)
Definition first_line (body : string) : string := default EmptyString (head (lines body)).

Definition thread_blocks (t : Thread) : bool := negb (th_resolved t) && negb (th_outdated t).

Definition thread_listing (t : Thread) : string :=
  "- " +:+ th_author t
  +:+ (if is_empty (th_path t) then EmptyString else " @ " +:+ th_path t)
  +:+ ": " +:+ first_line (th_body t).

Definition ensure_payload_resolved (payload : PrThreads) : exec unit :=
  let blocking := List.filter thread_blocks (pt_threads payload) in
  if bool_decide (length blocking = 0) then Ok tt
  else throw (validation error_schema "unresolved_review_threads"
    (dec (count blocking) +:+ " unresolved review thread(s) on the PR/MR; disposition each (repair / resolve as accepted / convert to a follow-up) or pass --allow-unresolved-threads to bypass")
    (Some (join (String newline EmptyString) (thread_listing <$> blocking)))).

Definition stale_dispositions (payload : PrThreads) : list StaleThreadDisposition :=
  (λ t, {| sd_thread_id := th_id t; sd_author := th_author t; sd_path := th_path t;
           sd_summary := first_line (th_body t); sd_disposition := "stale";
           sd_rationale := "the anchored diff hunk is outdated; the referenced code changed" |})
    <$> List.filter (λ t, negb (th_resolved t) && th_outdated t) (pt_threads payload).
