(* ===== verification/Append.v ===== *)
(** * Appending to the ledger

    [append_review_state_payload] of
    [crates/forge-cli/src/ops/pr_review/pr_review_append.rs] and its
    [handoff_persistence.rs]: compare the tip, check the right to write, build the record,
    post it as one comment, and confirm that the provider shows it.  [plan_state_comment]
    of [pr_review_loop.rs] renders the same comment without posting it. *)
From S2P Require Import Prelude RStr Collections Error Types Markers ReviewLoop Identity Record.
From S2P Require Import Handoff Correction Supersession Acceptance Chain Provider PrView.
From S2P Require Import PrReviews.
From stdpp Require Import options.

Record ReviewStateAppend := mk_ReviewStateAppend {
  ap_repository : string;
  ap_number : N;
  ap_expected_head : string;
  ap_expected_tip : option string;
  ap_payload : ReviewStatePayload;
  ap_visible_outcome : option string;
}.

Record ReviewLoopAppendResult := mk_ReviewLoopAppendResult {
  al_chain : ReviewStateChain;
  al_outcome_posted : bool;
}.

Definition or_genesis (tip : option string) : string := default "<genesis>" tip.

(** [Result::map_err] on the typed errors of a computation. *)
Definition map_fail {A} (f : ForgeError → ForgeError) (m : exec A) : exec A :=
  match m with Err (Fail e) => Err (Fail (f e)) | _ => m end.

Section append.
Context `{HS : !Hasher, LS : !LedgerSerde, JT : !JsonText, UP : !UrlParse,
          SP : !SecretPattern, TP : !TimestampParse, SB : !Serialize SessionBinding}
  {W : Type} `{BE : !Backend W}.
(** The environment variables, the takeover authority and the repository of the context. *)
Context (env : Env) (auth : Authority) (repo : option string).

(** ** handoff_persistence.rs *)
Definition verification_error (record : ReviewStateRecord) (acknowledged : bool)
    (cause : ForgeError) : ForgeError :=
  if negb acknowledged || is_none (payload_handoff (r_payload record)) then cause
  else
  validation_with_details "cli.forge-cli.pr.review-handoff.v1"
    "review_handoff_persisted_verification_failed"
    ("the review handoff was persisted at resulting tip " +:+ r_record_digest record
      +:+ "; post-write verification failed (" +:+ kind cause
      +:+ "); inspect the handoff before retrying")
    (JObject [("persisted", JBool true); ("state_tip_digest", JString (r_record_digest record));
              ("handoff_digest", JString (r_record_digest record)); ("retryable", JBool false);
              ("next_action", JString "inspect_review_handoff");
              ("cause", JObject [("code", JString (kind cause))])]).

(** ** pr_review_handoff.rs: the provider's base *)
Definition quoted (s : string) : string := String "034" (s +:+ String "034" EmptyString).
Definition provider_pull_field (number : N) (jq : string) : io W string :=
  _ ← lift (ok_or (Fail (fail "repo_required" "designated review requires a repository")) repo);
  stdout ← call (PullField number jq);
  mret (trim stdout).

Definition provider_base (number : N) : io W string :=
  base ← provider_pull_field number ".base.sha";
  if negb (valid_sha base) then
    lift (throw (fail "review_snapshot_incomplete" "provider base SHA is missing or invalid"))
  else mret base.

Definition provider_base_scope (number : N) : io W (string * string) :=
  scope ← provider_pull_field number (".base.sha + " +:+ quoted " " +:+ " + .base.ref");
  let invalid := lift (throw (fail "review_snapshot_incomplete"
                   "provider base SHA or branch is missing or invalid")) in
  match split_once " " scope with
  | Some (base, base_ref) =>
      if valid_sha base && valid_base_ref base_ref then mret (base, base_ref) else invalid
  | None => invalid
  end.

(** ** The record a writer appends under the tip of a chain *)
Definition assignment_generation_for (chain : ReviewStateChain) (payload : ReviewStatePayload)
    : option N :=
  match payload with
  | P_ReviewHandoff handoff => Some (assignment_generation handoff)
  | _ => assignment_generation <$> latest chain
  end.

Definition build_record (repository : string) (number : N) (expected_head : string)
    (chain : ReviewStateChain) (payload : ReviewStatePayload) (generation : option N)
    : exec ReviewStateRecord :=
  record ← ReviewStateRecord_new repository number expected_head
             (N.of_nat (length (c_records chain))) (c_tip_digest chain) payload;
  with_assignment_generation record generation.

(** Who may append this payload, with the provider reads the check makes. *)
Definition ensure_may_append (a : ReviewStateAppend) (chain : ReviewStateChain) : io W unit :=
  match ap_payload a with
  | P_ReviewHandoff handoff =>
      _ ← (if negb (surrendered handoff) then
             current ← view (ap_number a);
             if v_head_sha current !=? Some (ap_expected_head a) then
               lift (throw (state_conflict "provider head changed before review handoff" None))
             else
             base ← provider_base (ap_number a);
             if base !=? base_sha handoff then
               lift (throw (validation error_schema "review_scope_changed"
                 "provider base changed before review handoff" None))
             else mret tt
           else mret tt);
      lift (ensure_handoff_append env auth repo chain handoff)
  | payload => lift (ensure_payload_writer env chain payload)
  end.

Definition tip_changed (expected provider : option string) : ForgeError :=
  state_conflict "the review-state tip changed before append"
    (Some ("expected_tip=" +:+ or_genesis expected +:+ "; provider_tip=" +:+ or_genesis provider)).

Definition outcome_not_posted (digest : string) : ForgeError :=
  validation error_schema "review_outcome_not_posted"
    "the review-loop record is durable but its delivery outcome is not visible after provider write"
    (Some ("record_digest=" +:+ digest
      +:+ "; recovery=inspect the pull request and post the outcome separately, or rerun the identical observe against the new tip")).

(** What the write amounted to, from the snapshot read after it. *)
Definition settle (a : ReviewStateAppend) (record : ReviewStateRecord) (marker : string)
    (posted : exec string) (after : ReviewStateSnapshot) : exec ReviewLoopAppendResult :=
  if existsb (λ observed, r_record_digest observed ==? r_record_digest record)
       (c_records (sn_chain after)) then
    match ap_visible_outcome a with
    | None => Ok (mk_ReviewLoopAppendResult (sn_chain after) false)
    | Some outcome =>
        if negb (existsb (λ comment, comment_carries_outcome (rc_body comment) marker outcome)
                   (sn_trusted_comments after))
        then throw (outcome_not_posted (r_record_digest record))
        else Ok (mk_ReviewLoopAppendResult (sn_chain after) true)
    end
  else
    match posted with
    | Ok _ => throw (verification_error record true (state_conflict
                "the review-loop state was not visible after provider write"
                (Some ("record_digest=" +:+ r_record_digest record))))
    | Err (Fail error) => throw (verification_error record false error)
    | Err e => Err e
    end.

Definition append_review_state_payload (a : ReviewStateAppend) : io W ReviewLoopAppendResult :=
  before ← read_review_state_snapshot (ap_repository a) (ap_number a);
  let chain := sn_chain before in
  if c_tip_digest chain !=? ap_expected_tip a then
    lift (throw (tip_changed (ap_expected_tip a) (c_tip_digest chain)))
  else
  _ ← ensure_may_append a chain;
  record ← lift (build_record (ap_repository a) (ap_number a) (ap_expected_head a) chain
             (ap_payload a) (assignment_generation_for chain (ap_payload a)));
  marker ← lift (marker record);
  body ← lift (render_state_comment_body record (ap_visible_outcome a));
  posted ← attempt (call (PostComment (ap_number a) body));
  after ← attempt (read_review_state_snapshot (ap_repository a) (ap_number a));
  after ← lift (map_fail (verification_error record (is_ok posted)) after);
  lift (settle a record marker posted after).

Definition append_review_loop_state (repository : string) (number : N) (expected_head : string)
    (expected_tip : option string) (state : ReviewLoopState) (visible_outcome : option string)
    : io W ReviewLoopAppendResult :=
  append_review_state_payload {|
    ap_repository := repository; ap_number := number; ap_expected_head := expected_head;
    ap_expected_tip := expected_tip; ap_payload := P_ReviewLoop state;
    ap_visible_outcome := visible_outcome |}.

(** ** The same comment, planned *)
Record PlannedStateComment := mk_PlannedStateComment {
  pl_visible_metadata : string;
  pl_includes_outcome_body : bool;
  pl_bytes : N;
}.

Definition plan_state_comment (repository : string) (number : N) (expected_head : string)
    (chain : ReviewStateChain) (payload : ReviewStatePayload) (outcome_body : option string)
    : exec PlannedStateComment :=
  record ← build_record repository number expected_head chain payload
             (assignment_generation <$> latest chain);
  body ← render_state_comment_body record outcome_body;
  metadata ← state_comment_visible_metadata record;
  Ok (mk_PlannedStateComment metadata (is_some outcome_body) (len body)).
End append.
