(* ===== verification/Report.v ===== *)
(** * Designated review reports

    The rules a published report has to satisfy before it counts as the designated verdict:
    the author rule of [crates/forge-cli/src/ops/pr_review_handoff.rs], the report format of
    [pr_review.rs], the complete read-back of [pr_review_get.rs], and the base-sync merge of
    [review_sync_carry_over.rs].  Commits, merges and ancestry come from a git object
    store, which is a parameter. *)
From S2P Require Import Prelude RStr Collections Error Types Markers Identity Handoff Chain.
From S2P Require Import Provider PrView PrReviews Append.
From stdpp Require Import options.

Definition eq_ignore_ascii_case (a b : string) : bool :=
  to_ascii_lowercase a ==? to_ascii_lowercase b.

(** ** Whose report it is *)
Definition matches_designated_author (review : NativeReview) (expected : string) : bool :=
  let expected_bot := ends_with "[bot]" (to_ascii_lowercase expected) in
  if is_some_and (nr_author_type review) (λ kind, xorb (kind ==? "Bot") expected_bot) then false
  else if expected_bot then
    (nr_author_type review ==? Some "Bot") && is_some (nr_author_node_id review)
    && (eq_ignore_ascii_case (nr_author review) expected
        || eq_ignore_ascii_case (nr_author review)
             (String.substring 0 (String.length expected - 5) expected))
  else eq_ignore_ascii_case (nr_author review) expected.

(** ** Which pull request it is about *)
Definition reviewable_mismatch (number : N) : ForgeError :=
  validation error_schema "reviewable_mismatch"
    "specialist report Reviewable field does not identify the selected pull request"
    (Some ("field=Reviewable; expected_pr=" +:+ dec number +:+ "; accepted=PR #" +:+ dec number
      +:+ ", #" +:+ dec number +:+ ", repository#" +:+ dec number
      +:+ ", or the pull request URL, optionally followed by at <full commit SHA> matching the expected head")).

(** The values of a field line, in order. *)
Definition field_values (field : string) (lines : list string) : list string :=
  omap (λ line, trim <$> strip_prefix field line) lines.

Definition reference_matches (repo : option string) (number : N) (url reference : string) : bool :=
  (negb (is_empty url) && (reference ==? url))
  || (reference ==? "PR #" +:+ dec number) || (reference ==? "#" +:+ dec number)
  || is_some_and repo (λ repo, reference ==? repo +:+ "#" +:+ dec number).

Definition validate_reviewable (body : string) (repo : option string) (number : N) (url : string)
    (expected_head : option string) : exec unit :=
  match field_values "- Reviewable:" (trim <$> lines body) with
  | [value] =>
      let '(reference, head_matches) :=
        match split_once " at " value with
        | Some (reference, sha) =>
            (reference, (len sha =? 40)%N && all_bytes is_ascii_hexdigit sha
                        && is_none_or expected_head (eq_ignore_ascii_case sha))
        | None => (value, true)
        end in
      if head_matches && reference_matches repo number url reference then Ok tt
      else throw (reviewable_mismatch number)
  | _ => throw (reviewable_mismatch number)
  end.

(** ** The report format *)
Definition REPORT_MARKER : string := "<!-- agent-kit:specialist-review-report:v1 -->".
Definition TABLE_HEADER : string :=
  "| Finding | Severity | Confidence | Evidence | Recommendation |".
Definition TABLE_SEPARATOR : string := "| --- | --- | ---: | --- | --- |".
Definition PROVIDER_REVIEW_PLACEHOLDERS : list string :=
  ["not provided"; "unspecified"; "no input files"].

(** [str::matches(p).count()]: occurrences that do not overlap; [skip] bytes belong to one. *)
Fixpoint count_matches (skip : nat) (p s : string) : nat :=
  match s with
  | EmptyString => 0
  | String _ s' =>
      match skip with
      | S skip => count_matches skip p s'
      | 0 => if starts_with p s then S (count_matches (String.length p - 1) p s')
             else count_matches 0 p s'
      end
  end.

(** Bars that are not escaped; [backslashes] counts those directly before. *)
Fixpoint count_bars (backslashes : nat) (s : string) : nat :=
  match s with
  | EmptyString => 0
  | String c s =>
      if Ascii.eqb c "|" then
        (if Nat.even backslashes then 1 else 0) + count_bars 0 s
      else count_bars (if Ascii.eqb c "\" then S backslashes else 0) s
  end.

Definition markdown_table_cell_count (row : string) : option nat :=
  if negb (starts_with "|" row) || negb (ends_with "|" row) then None
  else match count_bars 0 row with 0 => None | S n => Some n end.

Definition invalid_specialist_review_report (message : string) : ForgeError :=
  validation error_schema "invalid_specialist_review_report" message None.

Definition REPORT_FIELDS : list string :=
  ["- Reviewable:"; "- Lens:"; "- Lens verdict:"; "- Scope:"; "- Evidence reviewed:"].

Definition check_field (lines : list string) (field : string) : exec unit :=
  let invalid := throw (invalid_specialist_review_report
    ("specialist report requires exactly one non-empty " +:+ field +:+ " field")) in
  match field_values field lines with
  | [value] =>
      if is_empty value then invalid
      else if bool_decide (value ∈ PROVIDER_REVIEW_PLACEHOLDERS) then
        throw (invalid_specialist_review_report ("specialist report " +:+ field
          +:+ " field is the renderer's placeholder (" +:+ value
          +:+ "); bind the real value before publishing"))
      else Ok tt
  | _ => invalid
  end.

Definition VERDICTS : list string := ["pass"; "findings"; "blocked"; "follow-up-pass"].

Definition validate_specialist_review_report (body : string) : exec unit :=
  let lines := trim <$> lines body in
  if negb (count_matches 0 REPORT_MARKER body =? 1)%nat
     || negb (length (List.filter (λ line, line ==? "## Review Report") lines) =? 1)%nat
  then throw (invalid_specialist_review_report
    "specialist report requires exactly one v1 marker and one Review Report heading")
  else
  _ ← iterM (check_field lines) REPORT_FIELDS;
  let verdict := default EmptyString (head (field_values "- Lens verdict:" lines)) in
  if negb (bool_decide (verdict ∈ VERDICTS)) then
    throw (invalid_specialist_review_report
      "specialist report lens verdict must be pass, findings, blocked, or follow-up-pass")
  else
  header_index ← ok_or (Fail (invalid_specialist_review_report
      "specialist report requires the canonical findings table header"))
    (position (λ line, line ==? TABLE_HEADER) lines);
  let rows := take_while (λ line, negb (is_empty line)) (drop (header_index + 2) lines) in
  if (lines !! (header_index + 1) !=? Some TABLE_SEPARATOR) || bool_decide (rows = [])
     || existsb (λ row, markdown_table_cell_count row !=? Some 5) rows
  then throw (invalid_specialist_review_report
    "specialist report requires the canonical table separator and finding rows with exactly five cells")
  else Ok tt.

(** ** Base-sync merges *)
Record SyncMerge := mk_SyncMerge { sm_base_commit : string; sm_merge_tree : string }.

(** What the isolated repository answers: the text of a commit, a recomputed merge (its exit
    code and first line of output) and an ancestry test (its exit code). *)
Record Objects := mk_Objects {
  cat_file_commit : string → option string;
  merge_tree_of : string → string → option (option Z * string);
  is_ancestor : string → string → option (option Z);
}.

Definition commit_header (acc : option string * list string) (line : string)
    : option string * list string :=
  match strip_prefix "tree " line with
  | Some value => (Some value, acc.2)
  | None =>
      match strip_prefix "parent " line with
      | Some value => (acc.1, acc.2 ++ [value])
      | None => acc
      end
  end.

Definition verify_merge (objects : Objects) (reviewed_head head : string) : result string SyncMerge :=
  raw ← ok_or "head-unavailable" (cat_file_commit objects head);
  match foldl commit_header (None, []) (take_while (λ line, negb (is_empty line)) (lines raw)) with
  | (Some tree, [first; base]) =>
      if (first !=? reviewed_head) || negb (lower_sha base) then Err "not-a-sync-merge"
      else
      merged ← ok_or "merge-unavailable" (merge_tree_of objects reviewed_head base);
      match merged with
      | (Some 0%Z, merge_tree) =>
          if merge_tree !=? tree then Err "tree-mismatch" else Ok (mk_SyncMerge base merge_tree)
      | (Some 1%Z, _) => Err "merge-conflicted"
      | _ => Err "merge-unavailable"
      end
  | _ => Err "not-a-sync-merge"
  end.

Definition verify_on_target (objects : Objects) (commit target_base : string) : result string unit :=
  match is_ancestor objects commit target_base with
  | Some (Some 0%Z) => Ok tt
  | Some (Some 1%Z) => Err "base-not-on-target"
  | _ => Err "base-unavailable"
  end.

(** ** Read-backs *)
Section reads.
Context `{JT : !JsonText} {W : Type} `{BE : !Backend W}.

Definition MAX_COMPLETE_BODY_BYTES : N := 64 * 1024.

Definition snapshot_incomplete (message : string) : ForgeError :=
  fail "review_snapshot_incomplete" message.

(** The REST read-back shows the same review, by the same account. *)
Definition same_review (selected : NativeReview) (database_id : N) (expected_author : string)
    (value : JsonValue) : bool :=
  let user path := pointer ["user"; path] value ≫= as_str in
  let same_node := is_some_and (nr_author_node_id selected) (λ node, user "node_id" ==? Some node) in
  let identity_matches :=
    if nr_author_type selected ==? Some "Bot" then (user "type" ==? Some "Bot") && same_node
    else is_none (nr_author_node_id selected) || same_node in
  (get "id" value ≫= as_u64 ==? Some database_id)
  && (get_str "html_url" value ==? Some (nr_url selected))
  && (get_str "commit_id" value ==? Some (nr_commit_sha selected))
  && is_some_and (user "login") (λ login, eq_ignore_ascii_case login expected_author)
  && identity_matches
  && negb (is_some_and (nr_author_type selected) (λ kind,
       is_some_and (user "type") (λ rest, rest !=? kind)))
  && (get_str "state" value ==? Some (nr_state selected)).

Definition read_complete_report (number : N) (selected : NativeReview) (expected_author : string)
    : io W string :=
  id ← lift (ok_or (Fail (snapshot_incomplete "native review id is missing")) (nr_database_id selected));
  stdout ← call (ReviewLookup number id);
  value ← lift (map_err (λ _ : string, Fail (snapshot_incomplete "native report read-back is invalid"))
    (value_from_str stdout));
  if negb (same_review selected id expected_author value) then
    lift (throw (snapshot_incomplete "native report changed during read-back"))
  else
  lift (ok_or (Fail (snapshot_incomplete "native report body is missing or exceeds its bound"))
    (body ← get_str "body" value;
     if (len body <=? MAX_COMPLETE_BODY_BYTES)%N then Some body else None)).

(** The loop over the comments of one review: [Ok false] at the first that replies to none. *)
Fixpoint only_replies (id : N) (comments : list JsonValue) : exec bool :=
  match comments with
  | [] => Ok true
  | comment :: comments =>
      if get "pull_request_review_id" comment ≫= as_u64 !=? Some id then
        throw (snapshot_incomplete "native review comment provenance is missing or changed")
      else if is_none_or (get "in_reply_to_id" comment ≫= as_u64) (λ id, (id =? 0)%N) then Ok false
      else only_replies id comments
  end.

Definition native_review_contains_only_replies (repo : option string) (number : N)
    (selected : NativeReview) : io W bool :=
  id ← lift (ok_or (Fail (snapshot_incomplete "native review id is missing")) (nr_database_id selected));
  _ ← lift (ok_or (Fail (fail "repo_required" "designated review requires a repository")) repo);
  stdout ← call (ReviewComments number id);
  if (8 * 1024 * 1024 <? len stdout)%N then
    lift (throw (snapshot_incomplete "native review comments exceed their bound"))
  else
  value ← lift (map_err (λ _ : string, Fail (snapshot_incomplete "native review comments are invalid"))
    (value_from_str stdout));
  comments ← lift (ok_or (Fail (snapshot_incomplete "native review comments are incomplete"))
    (comments ← as_array value; if (length comments <? 100)%nat then Some comments else None));
  lift (only_replies id comments).
End reads.
