(* ===== verification/Detect.v ===== *)
(** * Provider detection

    Git remote URLs ([parse_git_remote_url] of [crates/nils-common/src/git.rs]) and the
    detection of the provider, the host and the repository a command works on
    ([crates/forge-cli/src/provider.rs]). *)
From S2P Require Import Prelude RStr Collections Error Types Identity Provider Hosts Append Report.
From stdpp Require Import options.

(** ** Git remote URLs *)

(** [str::trim_end_matches] of a text: every copy of it at the end goes. *)
Fixpoint trim_end_text (fuel : nat) (p s : string) : string :=
  match fuel with
  | 0 => s
  | S fuel => match strip_suffix p s with Some s => trim_end_text fuel p s | None => s end
  end.
Definition trim_end_matches (p s : string) : string := trim_end_text (String.length s) p s.

Fixpoint trim_start_byte (c : ascii) (s : string) : string :=
  match s with
  | String a rest => if bool_decide (a = c) then trim_start_byte c rest else s
  | EmptyString => EmptyString
  end.
Definition trim_end_byte (c : ascii) (s : string) : string :=
  String.rev (trim_start_byte c (String.rev s)).
(** [trim_matches] of a byte. *)
Definition trim_byte (c : ascii) (s : string) : string := trim_end_byte c (trim_start_byte c s).

Record GitRemoteUrl := mk_GitRemoteUrl { gr_host : string; gr_path : string }.
#[export] Instance GitRemoteUrl_eq_dec : EqDecision GitRemoteUrl.
Proof. solve_decision. Defined.

Definition strip_userinfo (host : string) : string :=
  from_option snd host (rsplit_byte "@" host).

Definition finalize (host path : string) : option GitRemoteUrl :=
  let host := trim host in
  let path := trim_end_matches ".git" (trim_byte "/" path) in
  if is_empty host || is_empty path then None else Some (mk_GitRemoteUrl host path).

(** The host of [host\[:port\]]. *)
Definition without_port (host_port : string) : string :=
  from_option fst host_port (split_once ":" host_port).

(** [\[user@\]host:path]: a colon, with no slash before it. *)
Definition scp_parts (trimmed : string) : option (string * string) :=
  if contains "://" trimmed then None
  else
  '(host_with_user, path) ← split_once ":" trimmed;
  if contains "/" host_with_user || contains "://" path then None else Some (host_with_user, path).

Definition parse_git_remote_url (url : string) : option GitRemoteUrl :=
  let trimmed := trim_end_byte "/" (trim url) in
  if is_empty trimmed then None
  else
  match scp_parts trimmed with
  | Some (host_with_user, path) => finalize (strip_userinfo host_with_user) path
  | None =>
      match strip_prefix "ssh://" trimmed with
      | Some rest =>
          '(host_port, path) ← split_once "/" (strip_userinfo rest);
          finalize (without_port host_port) path
      | None =>
          rest ← find_map (λ prefix, strip_prefix prefix trimmed) ["https://"; "http://"];
          '(host_with_user, path) ← split_once "/" rest;
          finalize (without_port (strip_userinfo host_with_user)) path
      end
  end.

Definition canonical_repository_identity (host path : string) : string :=
  to_ascii_lowercase (canonical_git_host host +:+ "/"
    +:+ trim_end_matches ".git" (trim_byte "/" path)).

Definition repository_identity_from_remote_url (url : string) : option string :=
  parsed ← parse_git_remote_url url;
  Some (canonical_repository_identity (gr_host parsed) (gr_path parsed)).

(** ** Hosts and repositories of a URL *)
Definition classify_host (host : string) : option Provider :=
  authority ← parse_authority host;
  let hostname := canonical_git_host (split_authority authority).1 in
  if (hostname ==? "github.com") || ends_with ".github.com" hostname || ends_with ".ghe.com" hostname
  then Some GitHub
  else if (hostname ==? "gitlab.com") || ends_with ".gitlab.com" hostname then Some GitLab
  else None.

Definition parse_host (url : string) : option string :=
  if (url !=? trim url) || has_control url then None
  else
  let other := parse_git_remote_url url ≫= λ remote, parse_authority (gr_host remote) in
  match split_once "://" url with
  | Some (scheme, remainder) =>
      if bool_decide (to_ascii_lowercase scheme ∈ ["http"; "https"]) then
        parse_authority (strip_userinfo (until_byte ["/"%char; "?"%char; "#"%char] remainder))
      else other
  | None => other
  end.

Definition parse_slug (url : string) : option string :=
  remote ← parse_git_remote_url url;
  if contains "/" (gr_path remote) then Some (gr_path remote) else None.

Definition validate_repo_shape (provider : Provider) (repository : string) : exec unit :=
  let shaped_repository :=
    if provider ==? Local then default repository (strip_prefix "local:" repository)
    else repository in
  let segments := split_char "/" shaped_repository in
  let segments_are_valid :=
    (repository ==? trim repository) && negb (contains "://" repository)
    && negb (has_whitespace repository || has_control repository)
    && forallb (λ s, negb (bool_decide (s ∈ [EmptyString; "."; ".."]))) segments in
  let provider_shape_is_valid :=
    match provider with
    | GitHub => bool_decide (length segments = 2)
    | GitLab => bool_decide (2 ≤ length segments)
    | Local => negb (bool_decide (length segments = 0))
    end in
  if segments_are_valid && provider_shape_is_valid then Ok tt
  else
  let expected :=
    match provider with
    | GitHub => "owner/name" | GitLab => "group[/subgroup...]/project"
    | Local => "local:<slug> or <slug>"
    end in
  throw (validation error_schema "repo_invalid"
    ("repository is not a valid " +:+ provider_as_str provider +:+ " repository path; expected "
     +:+ expected) None).

(** ** [detect] *)
Inductive ProviderHint : Type :=
  | Auto
  | Forced (p : Provider)
  | ForcedHost (p : Provider) (host : string)
  | HintHost (host : string)
  | Named (name : string)
  | NamedHost (name host : string).

Inductive DetectionSource : Type := FromFlag | FromRemote | FromDefaultHost.

Record ProviderContext := mk_ProviderContext {
  cx_provider : Provider; cx_host : string; cx_source : DetectionSource; cx_repo : option string }.

Inductive RepositoryScope : Type := Scoped | Independent.
#[export] Instance RepositoryScope_eq_dec : EqDecision RepositoryScope.
Proof. solve_decision. Defined.

Definition REMOTE_URL_OMITTED_DETAIL : string := "selected remote URL omitted from diagnostics".

Definition provider_refused (message : string) (detail : option string) : ForgeError :=
  provider_unsupported error_schema message detail.

Definition unsupported_explicit_host : ForgeError :=
  provider_refused
    "explicit forge host must be a hostname or hostname:port authority without userinfo, path, query, fragment, whitespace, or control characters"
    None.

Definition explicit_host_repo_required : ForgeError :=
  validation error_schema "repo_required"
    "repository-scoped operations with --host require --repo or a same-authority Git remote" None.

Definition default_host_for (p : Provider) : string :=
  match p with GitHub => "github.com" | GitLab => "gitlab.com" | Local => "local" end.

Definition resolved_context (provider : Provider) (host : string) (source : DetectionSource)
    (repo : option string) (scope : RepositoryScope) : exec ProviderContext :=
  _ ← match scope, repo with
      | Scoped, Some repository => validate_repo_shape provider repository
      | _, _ => Ok tt
      end;
  Ok (mk_ProviderContext provider (canonical_provider_host provider host) source repo).

Definition or_repo (a b : option string) : option string :=
  match a with Some _ => a | None => b end.

Section detect.
(** The registry of named providers gives the kind of a name; [discovery] is the deadline of the
    detection, checked after the remote was read. *)
Context (registry : string → exec string) (discovery : exec unit).

(** A context on an explicit host: the remote's repository only when the remote is on it. *)
Definition on_explicit_host (provider : Provider) (host : string)
    (repo_override remote_host remote_repo : option string) (scope : RepositoryScope)
    : exec ProviderContext :=
  let repo := or_repo repo_override
    (if is_some_and remote_host (λ remote_host, authorities_equal provider remote_host host)
     then remote_repo else None) in
  if (scope ==? Scoped) && is_none repo then throw explicit_host_repo_required
  else resolved_context provider host FromFlag repo scope.

(** A context of an explicit provider on the remote's host, or on the default host where there
    is no remote or where the remote does not matter and is of the other provider. *)
Definition on_forced_provider (provider : Provider)
    (url repo_override remote_host remote_repo : option string) (scope : RepositoryScope)
    : exec ProviderContext :=
  let remote_authority_is_optional := (scope ==? Independent) || is_some repo_override in
  let remote_positively_conflicts :=
    is_some_and (remote_host ≫= classify_host) (λ classified, classified !=? provider) in
  if is_none url || (remote_authority_is_optional && remote_positively_conflicts) then
    resolved_context provider (default_host_for provider) FromFlag repo_override scope
  else
  host ← ok_or (Fail (provider_refused
      "the selected Git remote does not expose a valid forge authority" None)) remote_host;
  if classify_host host !=? Some provider then
    throw (provider_refused ("selected provider '" +:+ provider_as_str provider
      +:+ "' does not match Git remote authority '" +:+ host
      +:+ "'; pass --host with an explicit custom authority") None)
  else resolved_context provider host FromFlag (or_repo repo_override remote_repo) scope.

Definition detect_with_scope (hint : ProviderHint) (url repo_override : option string)
    (scope : RepositoryScope) : exec ProviderContext :=
  _ ← discovery;
  let remote_host := url ≫= parse_host in
  let remote_repo := url ≫= parse_slug in
  match hint with
  | Named name =>
      kind ← registry name;
      throw (provider_refused ("named provider '" +:+ name +:+ "' (" +:+ kind
        +:+ ") is registered but this operation is not implemented yet") None)
  | NamedHost name _ =>
      throw (provider_refused ("named provider '" +:+ name
        +:+ "' is already bound to its registered base URL; --host is not accepted") None)
  | ForcedHost Local host =>
      if host !=? "local" then throw unsupported_explicit_host
      else resolved_context Local host FromFlag (or_repo repo_override remote_repo) scope
  | ForcedHost provider host =>
      host ← ok_or (Fail unsupported_explicit_host) (parse_authority host);
      if is_some_and (classify_host host) (λ classified, classified !=? provider) then
        throw (provider_refused "explicit forge host does not match the selected provider" None)
      else on_explicit_host provider host repo_override remote_host remote_repo scope
  | HintHost host =>
      host ← ok_or (Fail unsupported_explicit_host) (parse_authority host);
      provider ← ok_or (Fail unsupported_explicit_host) (classify_host host);
      on_explicit_host provider host repo_override remote_host remote_repo scope
  | Forced Local =>
      resolved_context Local "local" FromFlag (or_repo repo_override remote_repo) scope
  | Forced provider =>
      on_forced_provider provider url repo_override remote_host remote_repo scope
  | Auto =>
      if is_none url then
        throw (provider_refused "no remote URL available and no --provider override supplied" None)
      else
      host ← ok_or (Fail (provider_refused
          "the selected Git remote does not expose a valid forge authority"
          (Some REMOTE_URL_OMITTED_DETAIL))) remote_host;
      provider ← ok_or (Fail (provider_refused ("unsupported forge host: " +:+ host)
          (Some REMOTE_URL_OMITTED_DETAIL))) (classify_host host);
      resolved_context provider host FromRemote (or_repo repo_override remote_repo) scope
  end.
End detect.

(** [ProviderContext::repo_locator]. *)
Definition repo_locator (ctx : ProviderContext) : option string :=
  repo ← cx_repo ctx;
  let host := canonical_provider_host (cx_provider ctx) (cx_host ctx) in
  if eq_ignore_ascii_case host (default_host_for (cx_provider ctx)) then Some repo
  else Some (match cx_provider ctx with
             | GitHub => host +:+ "/" +:+ repo
             | GitLab => "https://" +:+ host +:+ "/" +:+ repo
             | Local => repo
             end).
