(* ===== verification/Tracker.v ===== *)
(** * The tracker's body

    [crates/forge-cli/src/tracker/mod.rs] and [edit.rs]: the phase table with its findings and its
    graph, then the two edits. *)
From S2P Require Import Prelude RStr Collections Error Report.
From stdpp Require Import options.

(** ** The phase table of a tracker

    [crates/forge-cli/src/tracker/mod.rs]: the rows of a tracker's body, the findings of its
    table, and the dependency graph that the rows derive.  Strings are UTF-8 bytes and offsets
    count bytes, as in the code. *)

Definition blank (c : ascii) : bool := Ascii.eqb c " " || Ascii.eqb c "009".
Definition line_end (c : ascii) : bool := blank c || Ascii.eqb c carriage_return.

(** ** Constants *)
Definition PHASE_TABLE : string := "## phase table".
Definition DEPENDENCY_GRAPH : string := "## dependency graph".
Definition OPEN_FENCE : string := "```mermaid".
Definition CLOSE_FENCE : string := "```".
Definition MAX_ROWS : nat := 500.
Definition ROW_MARKS : list string := ["- [ ]"; "- [x]"; "- [X]"].
Definition AFTER_MARK : string := " " +:+ String "194" (String "183" " after").

(** ** Data *)
(** [owner] and [repo] are both [None] for the tracker's own repository. *)
Record IssueRef := mk_IssueRef {
  ir_owner : option string; ir_repo : option string; ir_number : N }.
#[export] Instance IssueRef_eq_dec : EqDecision IssueRef.
Proof. solve_decision. Defined.

Definition ref_text (r : IssueRef) : string :=
  match ir_owner r, ir_repo r with
  | Some owner, Some repo => owner +:+ "/" +:+ repo
  | _, _ => EmptyString
  end +:+ "#" +:+ dec (ir_number r).

Record Row := mk_Row {
  row_id : string; row_title : string; row_reference : option IssueRef; row_notes : option string;
  row_after : list string; row_done : bool; row_phase : option string; row_line : nat }.

Inductive FindingCode : Type :=
  | MalformedRow | DuplicateId | UnknownDependency | SelfDependency | Cycle | StaleGraph | TooManyRows.
#[export] Instance FindingCode_eq_dec : EqDecision FindingCode.
Proof. solve_decision. Defined.

Definition code_as_str (c : FindingCode) : string :=
  match c with
  | MalformedRow => "malformed-row"
  | DuplicateId => "duplicate-id"
  | UnknownDependency => "unknown-dependency"
  | SelfDependency => "self-dependency"
  | Cycle => "cycle"
  | StaleGraph => "stale-graph"
  | TooManyRows => "too-many-rows"
  end.

Record Finding := mk_Finding {
  tf_code : FindingCode; tf_line : option nat; tf_ids : list string }.

Definition message (f : Finding) : string :=
  let id i := default "?" (tf_ids f !! i) in
  match tf_code f with
  | MalformedRow => "row does not match the tracker row grammar"
  | DuplicateId => "id " +:+ id 0 +:+ " is already used by an earlier row"
  | UnknownDependency => id 0 +:+ " depends on " +:+ id 1 +:+ ", which is not the id of any row"
  | SelfDependency => id 0 +:+ " lists itself in its after clause"
  | Cycle => "dependency cycle: " +:+ join ", " (tf_ids f)
  | StaleGraph => "the mermaid block in the Dependency graph section is missing or not current"
  | TooManyRows =>
      "the phase table has more than " +:+ dec (N.of_nat MAX_ROWS) +:+ " rows and was not analysed"
  end.

Record Table := mk_Table { tb_rows : list Row; tb_malformed : list nat }.
Record LintReport := mk_LintReport { lr_rows : list Row; lr_findings : list Finding }.

(** ** Lines and sections *)
Definition line_text (raw : string) : string := trim_end_bytes line_end raw.
Definition tracker_lines (body : string) : list string := line_text <$> split_char newline body.
Definition trim_blank (text : string) : string :=
  trim_end_bytes blank (trim_start_bytes blank text).

Record Section_ := mk_Section { sc_heading : nat; sc_end : nat }.

(** The first section of the heading; it ends before the next heading of its level. *)
Definition section (lines : list string) (heading : string) : option Section_ :=
  start ← position (λ line, eq_ignore_ascii_case line heading) lines;
  let stop := from_option (λ offset, S start + offset) (length lines)
                (position (starts_with "## ") (drop (S start) lines)) in
  Some (mk_Section start stop).

Inductive GraphLocation : Type :=
  | NoSection
  | NoBlock (heading : nat)
  | Block (open close : nat).

(** The first index of the range at which the line is this one. *)
Definition find_line (lines : list string) (line : string) (start stop : nat) : option nat :=
  Nat.add start <$> position (λ l, l ==? line) (take (stop - start) (drop start lines)).

Definition locate_graph (lines : list string) : GraphLocation :=
  match section lines DEPENDENCY_GRAPH with
  | None => NoSection
  | Some s =>
      let block :=
        open ← find_line lines OPEN_FENCE (S (sc_heading s)) (sc_end s);
        close ← find_line lines CLOSE_FENCE (S open) (sc_end s);
        Some (open, close) in
      match block with
      | Some (open, close) => Block open close
      | None => NoBlock (sc_heading s)
      end
  end.

(** ** Rows *)
Definition is_id (text : string) : bool :=
  match text with
  | String c text => is_ascii_uppercase c && all_bytes is_ascii_alphanumeric text
  | EmptyString => false
  end.

Definition is_name (text : string) : bool :=
  negb (is_empty text)
  && all_bytes (λ c, is_ascii_alphanumeric c || Ascii.eqb c "." || Ascii.eqb c "_" || Ascii.eqb c "-") text.

Definition parse_ref (text : string) : option IssueRef :=
  '(repository, digits) ← rsplit_once "#" text;
  if is_empty digits || (15 <? len digits)%N || starts_with "0" digits
     || negb (all_bytes is_ascii_digit digits)
  then None
  else
  number ← parse_u64 digits;
  if is_empty repository then Some (mk_IssueRef None None number)
  else
  '(owner, repo) ← split_once "/" repository;
  if is_name owner && is_name repo then Some (mk_IssueRef (Some owner) (Some repo) number) else None.

Record RowSpans := mk_RowSpans { rs_text_end : nat; rs_notes : option (nat * nat) }.

(** The state, the id, and the offset of what follows [- [<state>] **<id>**]. *)
Definition row_prefix (line : string) : option (bool * string * nat) :=
  '(done, rest) ← match strip_prefix "- [ ] " line with
                  | Some rest => Some (false, rest)
                  | None =>
                      match strip_prefix "- [x] " line with
                      | Some rest => Some (true, rest)
                      | None => pair true <$> strip_prefix "- [X] " line
                      end
                  end;
  rest ← strip_prefix "**" rest;
  '(id, _) ← split_once "**" rest;
  if is_id id then Some (done, id, 6 + 2 + String.length id + 2) else None.

(** The last offset at which the rest of the string satisfies the test. *)
Fixpoint last_index (p : string → bool) (s : string) : option nat :=
  match s with
  | EmptyString => if p EmptyString then Some 0 else None
  | String _ s' =>
      match last_index p s' with
      | Some i => Some (S i)
      | None => if p s then Some 0 else None
      end
  end.

(** A marker that a space or the end of the line follows. *)
Definition clause_here (s : string) : bool :=
  is_some_and (strip_prefix AFTER_MARK s) (λ next, is_empty next || starts_with " " next).

(** The ids of a clause: each one valid, none twice. *)
Fixpoint clause_ids (entries : list string) (seen : gset string) : option (list string) :=
  match entries with
  | [] => Some []
  | entry :: entries =>
      let entry := trim_blank entry in
      if negb (is_id entry) || bool_decide (entry ∈ seen) then None
      else ids ← clause_ids entries (seen ∪ {[ entry ]}); Some (entry :: ids)
  end.

(** The scan from the right for the parenthesis that opens the last group: its offset, or the
    depth at the start of the string. *)
Fixpoint open_scan (s : string) : nat + nat :=
  match s with
  | EmptyString => inl 0
  | String c s =>
      match open_scan s with
      | inr i => inr (S i)
      | inl depth =>
          let depth := if Ascii.eqb c ")" then S depth
                       else if Ascii.eqb c "(" then Nat.pred depth else depth in
          if Nat.eqb depth 0 then inr 0 else inl depth
      end
  end.

(** The notes of a text: the offsets of the parentheses, the notes, and the text before. *)
Definition split_notes (text : string) : option (nat * string * string) :=
  if ends_with ")" text then
    match open_scan text with
    | inr open =>
        let inner := trim_blank (take_bytes (String.length text - 1 - S open) (drop_bytes (S open) text)) in
        let before := take_bytes open text in
        if ends_with " " before && negb (is_empty inner)
        then Some (open, inner, trim_blank before)
        else None
    | inl _ => None
    end
  else None.

(** [: <ref>] at the end of a text. *)
Definition split_ref (text : string) : option (IssueRef * string) :=
  '(head, candidate) ← rsplit_once " " text;
  head ← strip_suffix ":" head;
  parsed ← parse_ref candidate;
  Some (parsed, trim_blank head).

(** The notes and the reference of the trimmed text of a row, and its title. *)
Definition parse_text (done : bool) (id : string) (after : list string) (text_start : nat)
    (text : string) : option (Row * RowSpans) :=
  let text_end := text_start + String.length text in
  let noted := split_notes text in
  let text := from_option snd text noted in
  let referred := split_ref text in
  let text := from_option snd text referred in
  if is_empty text then None
  else Some (mk_Row id text (fst <$> referred) (snd ∘ fst <$> noted) after done None 0,
             mk_RowSpans text_end ((λ n, (text_start + n.1.1, text_end - 1)) <$> noted)).

(** The clause of a row and the text before it. *)
Definition parse_tail (done : bool) (id : string) (tail_start : nat) (tail : string)
    : option (Row * RowSpans) :=
  let clause := last_index clause_here tail in
  after ← match clause with
          | Some at_ =>
              clause_ids (split_char "," (trim_blank (drop_bytes (at_ + String.length AFTER_MARK) tail))) ∅
          | None => Some []
          end;
  let head := from_option (λ at_, take_bytes at_ tail) tail clause in
  let text_start :=
    tail_start + (String.length head - String.length (trim_start_bytes blank head)) in
  parse_text done id after text_start (trim_blank head).

Definition parse_row (line : string) : option (Row * RowSpans) :=
  '(done, id, tail_start) ← row_prefix line;
  let tail := drop_bytes tail_start line in
  if negb (starts_with " " tail) then None else parse_tail done id tail_start tail.

Inductive RowLine : Type :=
  | RowLineRow (row : Row) (spans : RowSpans)
  | RowLineMalformed (shown_id : option string).

(** The phase heading in force, and one line of the table. *)
Definition scan_line (at_ : nat) (phase : option string) (line : string)
    : option string * option (nat * RowLine) :=
  match strip_prefix "### " line with
  | Some name =>
      let name := trim_blank name in
      (if is_empty name then phase else Some name, None)
  | None =>
      if existsb (λ mark, starts_with mark line) ROW_MARKS then
        (phase, Some (at_, match parse_row line with
          | Some (row, spans) =>
              RowLineRow (mk_Row (row_id row) (row_title row) (row_reference row) (row_notes row)
                            (row_after row) (row_done row) phase (S at_)) spans
          | None => RowLineMalformed ((λ p, p.1.2) <$> row_prefix line)
          end))
      else (phase, None)
  end.

Fixpoint scan_from (at_ : nat) (phase : option string) (lines : list string)
    : list (nat * RowLine) :=
  match lines with
  | [] => []
  | line :: lines =>
      let '(phase, found) := scan_line at_ phase line in
      option_list found ++ scan_from (S at_) phase lines
  end.

Definition scan (lines : list string) : list (nat * RowLine) :=
  match section lines PHASE_TABLE with
  | None => []
  | Some table =>
      scan_from (S (sc_heading table)) None
        (take (sc_end table - S (sc_heading table)) (drop (S (sc_heading table)) lines))
  end.

Definition has_phase_table (body : string) : bool :=
  is_some (section (tracker_lines body) PHASE_TABLE).

Definition scanned_row (l : nat * RowLine) : option Row :=
  match l.2 with RowLineRow row _ => Some row | RowLineMalformed _ => None end.
Definition scanned_malformed (l : nat * RowLine) : option nat :=
  match l.2 with RowLineRow _ _ => None | RowLineMalformed _ => Some (S l.1) end.

Definition table_of (found : list (nat * RowLine)) : Table :=
  mk_Table (omap scanned_row found) (omap scanned_malformed found).

Definition parse (body : string) : Table := table_of (scan (tracker_lines body)).

(** ** Findings *)

(** The distinct ids in table order with the lines of their first rows, their index, and the
    findings of the rows that use one again. *)
Record Ids := mk_Ids {
  id_findings : list Finding; id_index : gmap string nat; id_list : list (string * nat) }.

Definition note_id (acc : Ids) (row : Row) : Ids :=
  if contains_key (row_id row) (id_index acc) then
    mk_Ids (id_findings acc ++ [mk_Finding DuplicateId (Some (row_line row)) [row_id row]])
      (id_index acc) (id_list acc)
  else
    mk_Ids (id_findings acc) (<[row_id row := length (id_list acc)]> (id_index acc))
      (id_list acc ++ [(row_id row, row_line row)]).

Definition line_le (a b : Finding) : Prop :=
  match tf_line a, tf_line b with
  | None, _ => True
  | Some _, None => False
  | Some x, Some y => x ≤ y
  end.
#[export] Instance line_le_dec a b : Decision (line_le a b).
Proof. unfold line_le. destruct (tf_line a), (tf_line b); apply _. Defined.

(** One dependency: a finding, or an edge to the rows that depend on it.  The index holds every
    row's id. *)
Definition note_dependency (index : gmap string nat) (row : Row)
    (acc : list Finding * list (list nat)) (dependency : string)
    : list Finding * list (list nat) :=
  if dependency ==? row_id row then
    (acc.1 ++ [mk_Finding SelfDependency (Some (row_line row)) [row_id row]], acc.2)
  else
    match index !! dependency with
    | Some prerequisite =>
        (acc.1, alter (λ l, l ++ [default 0 (index !! row_id row)]) prerequisite acc.2)
    | None =>
        (acc.1 ++ [mk_Finding UnknownDependency (Some (row_line row)) [row_id row; dependency]],
         acc.2)
    end.

Definition note_dependencies (index : gmap string nat)
    (acc : list Finding * list (list nat)) (row : Row)
    : list Finding * list (list nat) :=
  fold_left (note_dependency index row) (row_after row) acc.

Definition dependents_of (dependents : list (list nat)) (node : nat) : list nat :=
  default [] (dependents !! node).

(** The search from a stack, its top first: what it sees. *)
Fixpoint reach_from (fuel : nat) (dependents : list (list nat)) (stack : list nat) (seen : gset nat)
    : exec (gset nat) :=
  match fuel with
  | 0 => Err OutOfFuel
  | S fuel =>
      match stack with
      | [] => Ok seen
      | node :: stack =>
          if bool_decide (node ∈ seen) then reach_from fuel dependents stack seen
          else reach_from fuel dependents (reverse (dependents_of dependents node) ++ stack)
                 (seen ∪ {[ node ]})
      end
  end.

Definition reach_fuel (dependents : list (list nat)) : nat :=
  S (2 * length (concat dependents)).

Definition reach_all (dependents : list (list nat)) : exec (list (gset nat)) :=
  mapR (λ start,
      reach_from (reach_fuel dependents) dependents (reverse (dependents_of dependents start)) ∅)
    (seq 0 (length dependents)).

Definition reaches (reach : list (gset nat)) (a b : nat) : bool :=
  bool_decide (b ∈ default ∅ (reach !! a)).

(** The nodes that reach a node and that it reaches, with itself. *)
Definition group (reach : list (gset nat)) (n first : nat) : list nat :=
  List.filter (λ other, (other =? first) || (reaches reach first other && reaches reach other first))
    (seq 0 n).

Definition note_cycle (ids : list (string * nat)) (reach : list (gset nat))
    (acc : list Finding * gset nat) (first : nat) : list Finding * gset nat :=
  if bool_decide (first ∈ acc.2) then acc
  else
  let group := group reach (length ids) first in
  if 1 <? length group then
    (acc.1 ++ [mk_Finding Cycle (snd <$> ids !! first)
                 ((λ member, default EmptyString (fst <$> ids !! member)) <$> group)],
     acc.2 ∪ list_to_set group)
  else acc.

Definition malformed_finding (line : nat) : Finding :=
  mk_Finding MalformedRow (Some line) [].

Definition row_findings (table : Table) : exec (list Finding) :=
  if MAX_ROWS <? length (tb_rows table) + length (tb_malformed table)
  then Ok [mk_Finding TooManyRows None []]
  else
  let ids := fold_left note_id (tb_rows table)
               (mk_Ids (malformed_finding <$> tb_malformed table) ∅ []) in
  let findings := merge_sort line_le (id_findings ids) in
  let '(findings, dependents) :=
    fold_left (note_dependencies (id_index ids)) (tb_rows table)
      (findings, replicate (length (id_list ids)) []) in
  reach ← reach_all dependents;
  Ok (fold_left (note_cycle (id_list ids) reach) (seq 0 (length (id_list ids))) (findings, ∅)).1.

(** ** The graph *)
Definition node_line (row : Row) : string :=
  match row_reference row with
  | Some _ => "  " +:+ row_id row
  | None => "  " +:+ row_id row +:+ "{{" +:+ row_id row +:+ "}}"
  end.
Definition edge_line (row : Row) (dependency : string) : string :=
  "  " +:+ dependency +:+ " --> " +:+ row_id row.

Definition generate (rows : list Row) : list string :=
  "graph LR" :: (node_line <$> rows) ++ concat ((λ row, edge_line row <$> row_after row) <$> rows).

Definition graph_of_lines (lines : list string) : option (list string) :=
  match locate_graph lines with
  | Block open close => Some (take (close - S open) (drop (S open) lines))
  | _ => None
  end.
Definition graph_block (body : string) : option (list string) := graph_of_lines (tracker_lines body).

(** [lint]: the graph is compared only where the rows have no finding. *)
Definition lint (body : string) : exec LintReport :=
  let table := parse body in
  findings ← row_findings table;
  let stale := bool_decide (length findings = 0) && (graph_block body !=? Some (generate (tb_rows table))) in
  Ok (mk_LintReport (tb_rows table)
        (findings ++ if stale then [mk_Finding StaleGraph None []] else [])).

(** ** Edits of a tracker's body

    [crates/forge-cli/src/tracker/edit.rs]: rewriting the dependency graph block or one row of
    the phase table.  A body is the list of its segments between line feeds, so that the lines
    that are not touched keep their bytes. *)
Definition GRAPH_HEADING : string := "## Dependency graph".

Inductive GraphChange : Type := Unchanged | ReplacedBlock | InsertedBlock | InsertedSection.
#[export] Instance GraphChange_eq_dec : EqDecision GraphChange.
Proof. solve_decision. Defined.

Definition change_as_str (c : GraphChange) : string :=
  match c with
  | Unchanged => "none"
  | ReplacedBlock => "replaced-block"
  | InsertedBlock => "inserted-block"
  | InsertedSection => "inserted-section"
  end.

Record GraphEdit := mk_GraphEdit { ge_body : string; ge_change : GraphChange }.

Inductive TickError : Type :=
  | UnknownItem
  | DuplicateItem (lines : list nat)
  | MalformedItem (lines : list nat)
  | InvalidPr
  | TooManyItems.

Record TickEdit := mk_TickEdit {
  te_body : string; te_line : nat; te_before : string; te_after : string }.

Definition changed (e : TickEdit) : bool := te_before e !=? te_after e.

(** ** Splicing lines *)
Definition cr : string := String carriage_return EmptyString.
Definition ends_cr (line : string) : bool := ends_with cr line.

(** Whether the line ending in use just before the segment is CR LF. *)
Definition uses_crlf (raw : list string) (at_ : nat) : bool :=
  let terminated := length raw - 1 in
  let probe := (at_ - 1) `min` (terminated - 1) in
  (0 <? terminated) && ends_cr (default EmptyString (raw !! probe)).

(** The lines before an insertion: where it is at the end, the old last line gets its ending. *)
Definition spliced_head (crlf : bool) (raw : list string) (at_ : nat) : list string :=
  let head := take at_ raw in
  if crlf && (at_ =? length raw) then
    match last head with
    | Some line => if ends_cr line then head else take (length head - 1) head ++ [line +:+ cr]
    | None => head
    end
  else head.

(** The new lines, the last of them without an ending where it is the body's last. *)
Definition spliced_lines (crlf appending : bool) (new : list string) : list string :=
  imap (λ index line,
    if crlf && negb (appending && (S index =? length new)) then line +:+ cr else line) new.

(** [splice], before the segments are joined. *)
Definition splice (raw : list string) (at_ remove : nat) (new : list string) : list string :=
  let crlf := uses_crlf raw at_ in
  spliced_head crlf raw at_ ++ spliced_lines crlf (at_ =? length raw) new ++ drop (at_ + remove) raw.

(** ** The graph block *)
Definition fenced (graph : list string) : list string := OPEN_FENCE :: graph ++ [CLOSE_FENCE].

(** Where a section goes: before the heading that ends the phase table, or at the end ahead of a
    final line feed. *)
Definition next_heading (lines : list string) : option nat :=
  table ← section lines PHASE_TABLE;
  if sc_end table <? length lines then Some (sc_end table) else None.

Definition section_at (raw lines : list string) : nat :=
  default (if last raw ==? Some EmptyString then length raw - 1 else length raw) (next_heading lines).

Definition new_section (lines graph : list string) (at_ : nat) : list string :=
  (if (0 <? at_) && negb (is_empty (default EmptyString (lines !! (at_ - 1)))) then [EmptyString] else [])
  ++ [GRAPH_HEADING; EmptyString] ++ fenced graph
  ++ (if is_some (next_heading lines) then [EmptyString] else []).

Definition new_block (lines graph : list string) (heading : nat) : list string :=
  EmptyString :: fenced graph
  ++ (if is_some_and (lines !! S heading) (λ next, negb (is_empty next)) then [EmptyString] else []).

(** The segments of the edited body; [None] where the block holds the graph already. *)
Definition graph_segments (raw graph : list string) : option (list string * GraphChange) :=
  let lines := line_text <$> raw in
  match locate_graph lines with
  | Block open close =>
      if take (close - S open) (drop (S open) lines) ==? graph then None
      else Some (splice raw (S open) (close - S open) graph, ReplacedBlock)
  | NoBlock heading => Some (splice raw (S heading) 0 (new_block lines graph heading), InsertedBlock)
  | NoSection =>
      let at_ := section_at raw lines in
      Some (splice raw at_ 0 (new_section lines graph at_), InsertedSection)
  end.

Definition write_graph (body : string) (graph : list string) : GraphEdit :=
  match graph_segments (split_char newline body) graph with
  | Some (segments, change) => mk_GraphEdit (join nl segments) change
  | None => mk_GraphEdit body Unchanged
  end.

(** ** Ticking a row *)

(** U+00B7 MIDDLE DOT. *)
Definition MIDDLE_DOT : string := String "194" (String "183" EmptyString).

Definition pr_is_recordable (pr : string) : bool :=
  negb (is_empty pr)
  && negb (has_whitespace pr || has_control pr || contains "(" pr || contains ")" pr
           || contains "," pr || contains MIDDLE_DOT pr).

Definition boundary (c : option ascii) : bool := negb (is_some_and c is_ascii_alphanumeric).

Definition first_byte (s : string) : option ascii :=
  match s with String c _ => Some c | EmptyString => None end.

(** A whole reference among the matches from the left: [skip] bytes of a match are still to be
    passed, and [previous] is the byte before. *)
Fixpoint names_from (entry : string) (skip : nat) (previous : option ascii) (s : string) : bool :=
  match s with
  | EmptyString => false
  | String c rest =>
      match skip with
      | S skip => names_from entry skip (Some c) rest
      | 0 =>
          match strip_prefix entry s with
          | Some following =>
              boundary previous && boundary (first_byte following)
              || names_from entry (String.length entry - 1) (Some c) rest
          | None => names_from entry 0 (Some c) rest
          end
      end
  end.

Definition names (notes entry : string) : bool := names_from entry 0 None notes.

Definition insert_at (n : nat) (text s : string) : string :=
  take_bytes n s +:+ text +:+ drop_bytes n s.

(** The row line with the reference in its notes. *)
Definition note_pr (before : string) (spans : RowSpans) (pr : option string) : string :=
  match pr with
  | None => before
  | Some pr =>
      let entry := "PR " +:+ pr in
      match rs_notes spans with
      | Some (open, close) =>
          let inner := take_bytes (close - S open) (drop_bytes (S open) before) in
          if names inner entry then before
          else insert_at (S open + String.length (trim_end_bytes blank inner)) (", " +:+ entry) before
      | None => insert_at (rs_text_end spans) (" (" +:+ entry +:+ ")") before
      end
  end.

(** The row line with its box ticked. *)
Definition tick_box (done : bool) (line : string) : string :=
  if done then line else take_bytes 3 line +:+ "x" +:+ drop_bytes 4 line.

(** The rows of an item, and the malformed lines that show its id. *)
Definition rows_of (item : string) (found : list (nat * RowLine)) : list (nat * Row * RowSpans) :=
  omap (λ l, match l.2 with
             | RowLineRow row spans => if row_id row ==? item then Some (l.1, row, spans) else None
             | RowLineMalformed _ => None
             end) found.
Definition malformed_of (item : string) (found : list (nat * RowLine)) : list nat :=
  omap (λ l, match l.2 with
             | RowLineMalformed shown => if shown ==? Some item then Some (S l.1) else None
             | RowLineRow _ _ => None
             end) found.

Definition tick (body item : string) (pr : option string) : result TickError TickEdit :=
  if is_some_and pr (λ pr, negb (pr_is_recordable pr)) then Err InvalidPr
  else
  let raw := split_char newline body in
  let lines := line_text <$> raw in
  let found := scan lines in
  if MAX_ROWS <? length found then Err TooManyItems
  else
  let malformed := malformed_of item found in
  if negb (bool_decide (length malformed = 0)) then Err (MalformedItem malformed)
  else
  match rows_of item found with
  | [] => Err UnknownItem
  | [(at_, row, spans)] =>
      let before := default EmptyString (lines !! at_) in
      let after := tick_box (row_done row) (note_pr before spans pr) in
      let line := after +:+ drop_bytes (String.length before) (default EmptyString (raw !! at_)) in
      Ok (mk_TickEdit (join nl (<[at_ := line]> raw)) (S at_) before after)
  | rows => Err (DuplicateItem ((λ r, S r.1.1) <$> rows))
  end.
