(* ===== verification/IssueTracker.v ===== *)
(** * Issues and the tracker commands

    The view, the comment and the edit of an issue, and [issue tracker tick], [graph], [lint] and
    [show] on top of them. *)
From S2P Require Import Prelude RStr Collections Payload Error Types Validations Provider Hosts PrView Report.
From S2P Require Import Detect Tracker.
From stdpp Require Import options.

(** ** Issues

    [crates/forge-cli/src/ops/issue_view.rs], [issue_comment.rs] and [issue_edit.rs]: the view of
    an issue from both providers' answers, the guarded comment and the guarded edit. *)

(** ** The data *)
Record IssueCommentSummary := mk_IssueCommentSummary {
  is_url : string; is_author : string; is_created_at : string; is_body : string }.

Record IssueViewPayload := mk_IssueViewPayload {
  iv_provider : string;
  iv_number : N;
  iv_url : string;
  iv_state : string;
  iv_title : string;
  iv_body : string;
  iv_closed_at : option string;
  iv_state_reason : option string;
  iv_labels : list string;
  iv_assignees : list string;
  iv_comments : list IssueCommentSummary;
}.

Definition set_comments (comments : list IssueCommentSummary) (v : IssueViewPayload) : IssueViewPayload :=
  mk_IssueViewPayload (iv_provider v) (iv_number v) (iv_url v) (iv_state v) (iv_title v) (iv_body v)
    (iv_closed_at v) (iv_state_reason v) (iv_labels v) (iv_assignees v) comments.

(** ** Parsing *)
Definition issue_missing (key : string) : ForgeError :=
  software error_schema ("missing required field '" +:+ key +:+ "' in issue view JSON") None.
Definition issue_str (value : JsonValue) (key : string) : exec string :=
  ok_or (Fail (issue_missing key)) (get_str key value).
Definition str_or_empty (key : string) (value : JsonValue) : string :=
  default EmptyString (get_str key value).
Definition names_of (key field : string) (value : JsonValue) : list string :=
  omap (get_str field) (default [] (get key value ≫= as_array)).
Definition label_name (item : JsonValue) : option string :=
  match as_str item with Some s => Some s | None => get_str "name" item end.
Definition gitlab_label_list (value : JsonValue) : list string :=
  omap label_name (default [] (get "labels" value ≫= as_array)).

Definition github_comment (item : JsonValue) : IssueCommentSummary :=
  mk_IssueCommentSummary (str_or_empty "url" item)
    (default EmptyString (get "author" item ≫= get_str "login"))
    (str_or_empty "createdAt" item) (str_or_empty "body" item).
Definition github_comments (value : JsonValue) : list IssueCommentSummary :=
  github_comment <$> default [] (get "comments" value ≫= as_array).

Definition parse_github_issue (provider : Provider) (with_comments : bool) (value : JsonValue)
    : exec IssueViewPayload :=
  state ← normalize_state (str_or_empty "state" value) provider;
  number ← ok_or (Fail (issue_missing "number")) (get "number" value ≫= as_u64);
  url ← issue_str value "url";
  title ← issue_str value "title";
  Ok (mk_IssueViewPayload (provider_as_str provider) number url state title
        (str_or_empty "body" value) (get_str "closedAt" value)
        (to_ascii_lowercase <$> get_str "stateReason" value)
        (names_of "labels" "name" value) (names_of "assignees" "login" value)
        (if with_comments then github_comments value else [])).

Definition parse_gitlab_issue (provider : Provider) (value : JsonValue) : exec IssueViewPayload :=
  state ← normalize_state (str_or_empty "state" value) provider;
  number ← ok_or (Fail (issue_missing "iid")) (get "iid" value ≫= as_u64);
  url ← issue_str value "web_url";
  title ← issue_str value "title";
  Ok (mk_IssueViewPayload (provider_as_str provider) number url state title
        (str_or_empty "description" value) (get_str "closed_at" value) None
        (gitlab_label_list value) (names_of "assignees" "username" value) []).

Section parsing.
Context `{JT : !JsonText}.

Definition parse_view_output_with (ctx : ProviderContext) (stdout : string) (with_comments : bool)
    : exec IssueViewPayload :=
  value ← map_err (λ error, Fail (software error_schema "issue view JSON is invalid" (Some error)))
            (value_from_str (trim stdout));
  match cx_provider ctx with
  | GitLab => parse_gitlab_issue (cx_provider ctx) value
  | provider => parse_github_issue provider with_comments value
  end.

(** ** GitLab notes *)

(** Pages come back to back: one value, or the arrays between the brackets that touch. *)
Definition bracketed (raw : string) : string :=
  let opened := if starts_with "[" raw then raw else "[" +:+ raw in
  if ends_with "]" opened then opened else opened +:+ "]".

Definition note_chunks (trimmed : string) : exec (list JsonValue) :=
  match value_from_str trimmed with
  | Ok value => Ok [value]
  | Err _ =>
      mapR (λ raw, map_err (λ error, Fail (software error_schema
                       "gitlab notes response is invalid JSON" (Some error)))
                     (value_from_str (bracketed raw)))
        (List.filter (λ raw, negb (is_empty raw)) (trim <$> split_str "][" trimmed))
  end.

Definition note_comment (issue_url : string) (item : JsonValue) : option IssueCommentSummary :=
  if default false (get "system" item ≫= as_bool) then None
  else
    let note := from_option dec EmptyString (get "id" item ≫= as_u64) in
    Some (mk_IssueCommentSummary (issue_url +:+ "#note_" +:+ note)
            (default EmptyString (get "author" item ≫= get_str "username"))
            (str_or_empty "created_at" item) (str_or_empty "body" item)).

Definition parse_gitlab_notes (stdout issue_url : string) : exec (list IssueCommentSummary) :=
  let trimmed := trim stdout in
  if is_empty trimmed then Ok []
  else
    chunks ← note_chunks trimmed;
    Ok (omap (note_comment issue_url) (concat ((λ chunk, default [chunk] (as_array chunk)) <$> chunks))).
End parsing.

Definition gitlab_host_from_url (url : string) : option string :=
  after_scheme ← snd <$> split_once "://" url;
  host ← fst <$> split_once "/" after_scheme;
  if is_empty host then None else Some host.

Definition before_text (p s : string) : option string := fst <$> split_once p s.

Definition gitlab_project_path_from_url (url : string) : option string :=
  let after_scheme := from_option snd url (split_once "://" url) in
  path ← snd <$> split_once "/" after_scheme;
  let path := trim_end_bytes (Ascii.eqb "/") path in
  project ← match before_text "/-/issues/" path with
            | Some p => Some p
            | None => match before_text "/-/work_items/" path with
                      | Some p => Some p
                      | None => before_text "/issues/" path
                      end
            end;
  if is_empty project then None else Some project.

Definition url_part (what : string) (url : string) (part : option string) : exec string :=
  ok_or (Fail (software error_schema ("unable to derive GitLab " +:+ what +:+ " from issue web_url")
                 (Some ("url=" +:+ url)))) part.

Definition build_gitlab_notes_call (view : IssueViewPayload) : exec BackendCall :=
  project_path ← url_part "project path" (iv_url view) (gitlab_project_path_from_url (iv_url view));
  host ← url_part "host" (iv_url view) (gitlab_host_from_url (iv_url view));
  Ok (IssueNotes host ("projects/" +:+ join "%2F" (split_char "/" project_path) +:+ "/issues/"
        +:+ dec (iv_number view) +:+ "/notes?per_page=100&order_by=created_at&sort=asc")).

(** ** Text that a command reads: a file, or the standard input *)
Class TextFiles (W : Type) := {
  text_stdin : W → result string string;
  text_file : string → W → result string string;
  text_write : string → string → W → result string unit * W;
}.

Definition unreadable (message error : string) : stop :=
  Fail (software error_schema message (Some error)).

Section commands.
Context {W : Type} `{BE : !Backend W, TF : !TextFiles W, JT : !JsonText, PE : !PayloadEnv}.

Definition read_text (of_stdin of_file path : string) : io W string := λ w,
  (if path ==? "-" then map_err (unreadable of_stdin) (text_stdin w)
   else map_err (unreadable (of_file +:+ "'" +:+ path +:+ "'")) (text_file path w), w).

Definition read_body (what : string) (inline file : option string) : io W string :=
  match inline, file with
  | Some text, _ => mret text
  | None, Some path =>
      read_text ("failed to read " +:+ what +:+ " body from stdin") "failed to read --body-file " path
  | None, None => mret EmptyString
  end.

(** ** Viewing *)
Definition build_view_call_with (ctx : ProviderContext) (id : N) (with_comments : bool) : BackendCall :=
  IssueView (cx_repo ctx) id with_comments.

Definition fetch_issue (ctx : ProviderContext) (id : N) (with_comments : bool) : io W IssueViewPayload :=
  stdout ← call (build_view_call_with ctx id with_comments);
  view ← lift (parse_view_output_with ctx stdout with_comments);
  if with_comments && (cx_provider ctx ==? GitLab) then
    notes_call ← lift (build_gitlab_notes_call view);
    stdout ← call notes_call;
    comments ← lift (parse_gitlab_notes stdout (iv_url view));
    mret (set_comments comments view)
  else mret view.

(** A plan of the dry run, or what the run answers. *)
Definition issue_view_run (ctx : ProviderContext) (dry_run : bool) (id : N) (with_comments : bool)
    : io W (BackendCall + IssueViewPayload) :=
  if dry_run then mret (inl (build_view_call_with ctx id with_comments))
  else view ← fetch_issue ctx id with_comments; mret (inr view).

(** ** Commenting *)
Definition comment_empty : ForgeError :=
  rule_error "body_missing_summary" "comment body is empty (supply --body or --body-file)" None.

Definition build_guarded_comment_call (ctx : ProviderContext) (id : N) (body : string)
    : result ForgeError BackendCall :=
  if is_empty (trim body) then Err comment_empty
  else
    _ ← no_local_path body "comment";
    _ ← no_agent_attribution body "comment";
    _ ← no_escaped_control_markdown body;
    Ok (IssueComment (cx_repo ctx) id body).

Definition url_wrapping (c : ascii) : bool :=
  bool_decide (c ∈ [dquote; "'"; "`"; "<"; ">"; "("; ")"; "["; "]"; ","]%char).
Definition token_url (token : string) : option string :=
  let url := trim_end_bytes url_wrapping (trim_start_bytes url_wrapping token) in
  if starts_with "http://" url || starts_with "https://" url || starts_with "local://" url
  then Some url else None.
Definition first_url (stdout : string) : option string := find_map token_url (split_whitespace stdout).

Definition posted_comment_url (view : IssueViewPayload) (body : string) : option string :=
  let newest := reverse (iv_comments view) in
  let linked (c : IssueCommentSummary) := negb (is_empty (is_url c)) in
  is_url <$> match find_first (λ c, (is_body c ==? body) && linked c) newest with
             | Some c => Some c
             | None => find_first linked newest
             end.

Record IssueCommentPayload := mk_IssueCommentPayload {
  cp_provider : string; cp_number : N; cp_url : string }.

Definition issue_comment_run (ctx : ProviderContext) (dry_run : bool) (id : N)
    (inline file : option string) : io W (BackendCall + IssueCommentPayload) :=
  body ← read_body "comment" inline file;
  comment ← lift (fails (build_guarded_comment_call ctx id body));
  if dry_run then mret (inl comment)
  else
    stdout ← call comment;
    view ← fetch_issue ctx id true;
    let url := match first_url stdout with
               | Some url => url
               | None => default (iv_url view) (posted_comment_url view body)
               end in
    mret (inr (mk_IssueCommentPayload (iv_provider view) (iv_number view) url)).

(** ** Editing *)
Definition guard_body (body : string) : result ForgeError unit :=
  _ ← no_local_path body "body";
  _ ← no_agent_attribution body "body";
  no_escaped_control_markdown body.

Definition guard_title (title : string) : result ForgeError unit :=
  _ ← title_length title;
  _ ← no_local_path title "title";
  _ ← no_agent_attribution title "title";
  no_escaped_control_markdown title.

Record IssueEditArgs := mk_IssueEditArgs {
  ea_id : N; ea_title : option string; ea_body : option string; ea_body_file : option string;
  ea_add_label : list string; ea_remove_label : list string; ea_add_assignee : list string }.

Definition build_edit_call (ctx : ProviderContext) (args : IssueEditArgs) (body : option string)
    : BackendCall :=
  IssueEdit (cx_repo ctx) (ea_id args) (ea_title args) body
    (ea_add_label args) (ea_remove_label args) (ea_add_assignee args).

Definition build_body_edit_call (ctx : ProviderContext) (id : N) (body : string)
    : result ForgeError BackendCall :=
  _ ← guard_body body;
  Ok (build_edit_call ctx (mk_IssueEditArgs id None None None [] [] []) (Some body)).

Record IssueEditPayload := mk_IssueEditPayload {
  ep_provider : string; ep_number : N; ep_url : string; ep_state : string; ep_title : string;
  ep_labels : list string; ep_assignees : list string }.

Definition issue_edit_run (ctx : ProviderContext) (dry_run : bool) (args : IssueEditArgs)
    : io W (BackendCall + IssueEditPayload) :=
  _ ← lift (fails (from_option guard_title (Ok tt) (ea_title args)));
  body ← (if is_some (ea_body args) || is_some (ea_body_file args)
          then text ← read_body "issue" (ea_body args) (ea_body_file args); mret (Some text)
          else mret None);
  _ ← lift (fails (from_option guard_body (Ok tt) body));
  let edit := build_edit_call ctx args body in
  if dry_run then mret (inl edit)
  else
    _ ← call edit;
    stdout ← call (build_view_call_with ctx (ea_id args) false);
    view ← lift (parse_view_output_with ctx stdout false);
    mret (inr (mk_IssueEditPayload (iv_provider view) (iv_number view) (iv_url view) (iv_state view)
                 (iv_title view) (iv_labels view) (iv_assignees view))).
End commands.

(** ** The tracker commands

    [crates/forge-cli/src/ops/issue_tracker.rs] with its [lint], [graph], [tick] and [show]: each
    command starts from one read of the tracker issue, and a write transforms that read. *)
Definition TRACKING_LABEL : string := "workflow::tracking".
Definition FINDINGS_ERROR_KIND : string := "tracker_findings".
Definition MAX_STATE_REFS : nat := 200.

(** ** What the commands share *)
Record TrackerFinding := mk_TrackerFinding {
  kf_code : string; kf_line : option nat; kf_ids : list string; kf_message : string }.
Definition from_finding (f : Finding) : TrackerFinding :=
  mk_TrackerFinding (code_as_str (tf_code f)) (tf_line f) (tf_ids f) (Tracker.message f).

Record TrackerTarget := mk_TrackerTarget {
  tt_source : string; tt_provider : option string; tt_number : option N; tt_url : option string }.
Definition target_issue (view : IssueViewPayload) : TrackerTarget :=
  mk_TrackerTarget "issue" (Some (iv_provider view)) (Some (iv_number view)) (Some (iv_url view)).
Definition target_draft : TrackerTarget := mk_TrackerTarget "body-file" None None None.
Definition describe (target : TrackerTarget) : string :=
  match tt_number target with Some number => "issue #" +:+ dec number | None => "draft" end.

(** A call that a dry run would have made. *)
Record PlannedAction := mk_PlannedAction { pa_kind : string; pa_call : BackendCall }.

(** A failure envelope that still carries the payload. *)
Definition emit_findings {T} (schema : string) (payload : T) (findings : list TrackerFinding)
    : N * Envelope T :=
  (exit.DATA, mk_Envelope schema false (Some payload) []
    (Some (EnvelopeError_new FINDINGS_ERROR_KIND
             (dec (N.of_nat (length findings)) +:+ " tracker finding(s)")))).
Definition emit_success {T} (schema : string) (payload : T) : N * Envelope T :=
  (exit.SUCCESS, Envelope_success schema payload).
Definition emit {T} (schema : string) (payload : T) (findings : list TrackerFinding) : N * Envelope T :=
  match findings with
  | [] => emit_success schema payload
  | _ => emit_findings schema payload findings
  end.

Definition missing_target : ForgeError :=
  software error_schema "issue tracker: expected an issue id or --body-file" None.

(** ** tick *)
Record TickArgs := mk_TickArgs {
  ta_id : N; ta_item : string; ta_pr : option string; ta_comment_file : option string }.

Record TickPayload := mk_TickPayload {
  tp_provider : string;
  tp_number : N;
  tp_url : string;
  tp_item : string;
  tp_line : nat;
  tp_row_before : string;
  tp_row_after : string;
  tp_changed : bool;
  tp_written : bool;
  tp_dry_run : bool;
  tp_comment_posted : bool;
  tp_comment_url : option string;
  tp_actions : list PlannedAction;
}.

Definition line_list (at_ : list nat) : option string :=
  let noun := if length at_ =? 1 then "line" else "lines" in
  Some (noun +:+ " " +:+ join ", " ((λ n, dec (N.of_nat n)) <$> at_)).

Definition refusal (item : string) (err : TickError) : ForgeError :=
  let '(kind, message, detail) :=
    match err with
    | UnknownItem => ("tracker_item_unknown", "no phase-table row has the id " +:+ item, None)
    | DuplicateItem at_ =>
        ("tracker_item_duplicated", "more than one phase-table row has the id " +:+ item, line_list at_)
    | MalformedItem at_ =>
        ("tracker_item_malformed",
         "the row for " +:+ item +:+ " does not match the tracker row grammar", line_list at_)
    | TooManyItems =>
        ("tracker_too_many_rows",
         "the phase table has more than " +:+ dec (N.of_nat MAX_ROWS) +:+ " rows and was not analysed", None)
    | InvalidPr =>
        ("tracker_pr_invalid",
         "--pr must be one reference without whitespace, parentheses, commas, or a middle dot", None)
    end in
  validation error_schema kind message detail.

Definition comment_refused (err : ForgeError) : ForgeError :=
  if kind err ==? "body_missing_summary"
  then validation error_schema "body_missing_summary"
         "comment body is empty (--comment-file has no text)" None
  else err.

Definition comment_not_posted (item : string) (err : ForgeError) : ForgeError :=
  runtime_failure error_schema "tracker_comment_not_posted"
    (item +:+ " was ticked but the comment was not posted; post it with `issue comment`")
    (Some (kind err +:+ ": " +:+ Error.message err)).

(** The payload before anything is written. *)
Definition tick_payload (args : TickArgs) (dry_run : bool) (view : IssueViewPayload) (e : TickEdit)
    (actions : list PlannedAction) : TickPayload :=
  mk_TickPayload (iv_provider view) (iv_number view) (iv_url view) (ta_item args) (te_line e)
    (te_before e) (te_after e) (changed e) false dry_run false None actions.
Definition tick_written (p : TickPayload) (comment : option (option string)) : TickPayload :=
  mk_TickPayload (tp_provider p) (tp_number p) (tp_url p) (tp_item p) (tp_line p)
    (tp_row_before p) (tp_row_after p) (tp_changed p) true (tp_dry_run p)
    (is_some comment) (default None comment) (tp_actions p).

Section tracker.
Context {W : Type} `{BE : !Backend W, TF : !TextFiles W, JT : !JsonText, PE : !PayloadEnv}.

Definition read_issue (ctx : ProviderContext) (id : N) : io W IssueViewPayload :=
  stdout ← call (build_view_call_with ctx id false);
  lift (parse_view_output_with ctx stdout false).

Definition read_draft (path : string) : io W string :=
  read_text "failed to read tracker body from stdin" "failed to read --body-file " path.

Definition comment_call (ctx : ProviderContext) (id : N) (path : string) : io W BackendCall :=
  body ← read_text "failed to read --comment-file from stdin" "failed to read --comment-file " path;
  lift (fails (map_err comment_refused (build_guarded_comment_call ctx id body))).

Definition planned_comment (ctx : ProviderContext) (args : TickArgs) : io W (option BackendCall) :=
  match ta_comment_file args with
  | Some path => comment ← comment_call ctx (ta_id args) path; mret (Some comment)
  | None => mret None
  end.

(** The comment after the edit; its failure says that the row was ticked. *)
Definition post_comment (item : string) (comment : BackendCall) : io W string := λ w,
  let '(r, w') := run_call comment w in (fails (map_err (comment_not_posted item) r), w').

Definition tick_compute (dry_run : bool) (ctx : ProviderContext) (args : TickArgs) : io W TickPayload :=
  if is_some_and (ta_pr args) (λ pr, negb (pr_is_recordable pr))
  then lift (throw (refusal (ta_item args) InvalidPr))
  else
  comment ← planned_comment ctx args;
  view ← read_issue ctx (ta_id args);
  e ← lift (map_err (λ err, Fail (refusal (ta_item args) err)) (tick (iv_body view) (ta_item args) (ta_pr args)));
  let payload := tick_payload args dry_run view e in
  if negb (changed e) then mret (payload [])
  else
  write ← lift (fails (build_body_edit_call ctx (ta_id args) (te_body e)));
  if dry_run then
    mret (payload (mk_PlannedAction "edit-body" write
                   :: option_list (mk_PlannedAction "comment" <$> comment)))
  else
  _ ← call write;
  match comment with
  | Some comment =>
      posted ← post_comment (ta_item args) comment;
      mret (tick_written (payload []) (Some (first_url posted)))
  | None => mret (tick_written (payload []) None)
  end.

Definition tick_run (dry_run : bool) (ctx : ProviderContext) (args : TickArgs)
    : io W (N * Envelope TickPayload) :=
  payload ← tick_compute dry_run ctx args;
  mret (emit_success "cli.forge-cli.issue.tracker.tick.v1" payload).

(** ** graph *)
Record GraphPayload := mk_GraphPayload {
  gp_target : TrackerTarget;
  gp_graph : option string;
  gp_current : bool;
  gp_change : string;
  gp_changed : bool;
  gp_written : bool;
  gp_dry_run : bool;
  gp_findings : list TrackerFinding;
  gp_actions : list PlannedAction;
}.

Definition no_phase_table (target : TrackerTarget) : ForgeError :=
  validation error_schema "tracker_no_phase_table"
    (describe target +:+ " has no `## Phase table` section; --write only edits a tracker") None.

(** The payload and, where the write changes the body, the new body. *)
Definition graph_plan (target : TrackerTarget) (body : string) (write dry_run : bool)
    : exec (GraphPayload * option string) :=
  if write && negb (has_phase_table body) then throw (no_phase_table target)
  else
  let table := parse body in
  findings ← row_findings table;
  let payload graph current change changed :=
    mk_GraphPayload target graph current (change_as_str change) changed false dry_run
      (from_finding <$> findings) [] in
  match findings with
  | _ :: _ => Ok (payload None false Unchanged false, None)
  | [] =>
      let graph := generate (tb_rows table) in
      let e := write_graph body graph in
      let current := ge_change e ==? Unchanged in
      let text := Some (join nl graph) in
      if negb write || current then Ok (payload text current Unchanged false, None)
      else Ok (payload text current (ge_change e) true, Some (ge_body e))
  end.

Definition graph_done (p : GraphPayload) (written : bool) (actions : list PlannedAction) : GraphPayload :=
  mk_GraphPayload (gp_target p) (gp_graph p) (gp_current p) (gp_change p) (gp_changed p)
    written (gp_dry_run p) (gp_findings p) actions.

Definition graph_compute (dry_run : bool) (ctx : ProviderContext) (id : N) (write : bool)
    : io W GraphPayload :=
  view ← read_issue ctx id;
  '(payload, body) ← lift (graph_plan (target_issue view) (iv_body view) write dry_run);
  match body with
  | Some body =>
      edit ← lift (fails (build_body_edit_call ctx id body));
      if dry_run then mret (graph_done payload false [mk_PlannedAction "edit-body" edit])
      else _ ← call edit; mret (graph_done payload true [])
  | None => mret payload
  end.

Definition graph_schema : string := "cli.forge-cli.issue.tracker.graph.v1".
Definition stdin_not_writable : ForgeError :=
  validation error_schema "tracker_stdin_not_writable"
    "--write needs a file to rewrite; --body-file - reads stdin" None.

Definition write_draft (path body : string) : io W unit := λ w,
  let '(r, w') := text_write path body w in
  (map_err (unreadable ("failed to write --body-file '" +:+ path +:+ "'")) r, w').

Definition graph_draft (dry_run : bool) (path : string) (write : bool) : io W GraphPayload :=
  if write && (path ==? "-") then lift (throw stdin_not_writable)
  else
  draft ← read_draft path;
  '(payload, body) ← lift (graph_plan target_draft draft write dry_run);
  match body with
  | Some body =>
      if dry_run then mret payload
      else _ ← write_draft path body; mret (graph_done payload true [])
  | None => mret payload
  end.

(** The plan of one read, or the answer. *)
Definition graph_run (dry_run : bool) (ctx : ProviderContext) (body_file : option string)
    (id : option N) (write : bool) : io W (BackendCall + N * Envelope GraphPayload) :=
  match body_file, id with
  | Some path, _ =>
      payload ← graph_draft dry_run path write;
      mret (inr (emit graph_schema payload (gp_findings payload)))
  | None, Some id =>
      if dry_run && negb write then mret (inl (build_view_call_with ctx id false))
      else
        payload ← graph_compute dry_run ctx id write;
        mret (inr (emit graph_schema payload (gp_findings payload)))
  | None, None => lift (throw missing_target)
  end.

(** ** lint *)
Record LintPayload := mk_LintPayload {
  lp_target : TrackerTarget; lp_row_count : nat; lp_state_checked : bool;
  lp_findings : list TrackerFinding }.

Inductive RefState : Type := RefOpen | RefClosed | RefUnreadable (why : string).

(** The repository, [None] for the tracker's own, and the number. *)
Definition RefKey : Type := option string * N.

Definition resolve_slug (repo : option string) : string :=
  match repo with Some raw => default raw (strip_prefix "local:" raw) | None => "local" end.

Definition own_repository (ctx : ProviderContext) (global_repo : option string) : option string :=
  match cx_provider ctx with Local => Some (resolve_slug global_repo) | _ => cx_repo ctx end.

Definition key_of (own_repo : option string) (r : IssueRef) : RefKey :=
  let named := match ir_owner r, ir_repo r with
               | Some owner, Some repo => Some (owner +:+ "/" +:+ repo)
               | _, _ => None
               end in
  let other := named ≫= λ named,
    if is_some_and own_repo (λ own, eq_ignore_ascii_case own named) then None else Some named in
  (other, ir_number r).

(** The distinct issues in table order, and whether all rows of an issue are done. *)
Definition note_ref (own_repo : option string) (acc : list RefKey * gmap RefKey bool) (row : Row)
    : list RefKey * gmap RefKey bool :=
  match row_reference row with
  | None => acc
  | Some reference =>
      let key := key_of own_repo reference in
      (if is_some (acc.2 !! key) then acc.1 else acc.1 ++ [key],
       <[key := default true (acc.2 !! key) && row_done row]> acc.2)
  end.

Definition with_repo (ctx : ProviderContext) (repo : string) : ProviderContext :=
  mk_ProviderContext (cx_provider ctx) (cx_host ctx) (cx_source ctx) (Some repo).

Definition read_state_of (ctx : ProviderContext) (number : N) : io W RefState :=
  read ← attempt (read_issue ctx number);
  match read with
  | Ok view => mret (if iv_state view ==? "open" then RefOpen else RefClosed)
  | Err (Fail (BackendError _ _ _ as err)) => mret (RefUnreadable (kind err))
  | Err e => lift (Err e)
  end.

Definition read_state (ctx : ProviderContext) (key : RefKey) : io W RefState :=
  match key.1 with
  | None => read_state_of ctx key.2
  | Some repo =>
      if cx_provider ctx ==? Local then mret (RefUnreadable "the local store holds one repository")
      else read_state_of (with_repo ctx repo) key.2
  end.

Fixpoint read_states (ctx : ProviderContext) (distinct : list RefKey) (states : gmap RefKey RefState)
    : io W (gmap RefKey RefState) :=
  match distinct with
  | [] => mret states
  | key :: distinct =>
      state ← read_state ctx key;
      read_states ctx distinct (<[key := state]> states)
  end.

Definition no_entry : string := "no entry found for key".

Definition state_mismatch (row : Row) (message : string) : TrackerFinding :=
  mk_TrackerFinding "state-mismatch" (Some (row_line row)) [row_id row] (row_id row +:+ message).

Definition state_finding (own_repo : option string) (all_done : gmap RefKey bool)
    (states : gmap RefKey RefState) (row : Row) : exec (option TrackerFinding) :=
  match row_reference row with
  | None => Ok None
  | Some reference =>
      let key := key_of own_repo reference in
      state ← expect no_entry (states !! key);
      match state with
      | RefUnreadable why =>
          Ok (Some (mk_TrackerFinding "unreadable-ref" (Some (row_line row)) [row_id row]
                      (row_id row +:+ " cannot read " +:+ ref_text reference +:+ ": " +:+ why)))
      | RefClosed =>
          if row_done row then Ok None
          else Ok (Some (state_mismatch row (" is not ticked but " +:+ ref_text reference +:+ " is closed")))
      | RefOpen =>
          done ← expect no_entry (all_done !! key);
          if done : bool
          then Ok (Some (state_mismatch row (" is ticked but " +:+ ref_text reference +:+ " is open")))
          else Ok None
      end
  end.

Definition too_many_refs (count : nat) : TrackerFinding :=
  mk_TrackerFinding "too-many-refs" None []
    ("the rows reference " +:+ dec (N.of_nat count) +:+ " distinct issues; --check-state reads at most "
     +:+ dec (N.of_nat MAX_STATE_REFS) +:+ ", so none was read").

Definition state_findings (ctx : ProviderContext) (global_repo : option string) (rows : list Row)
    : io W (list TrackerFinding) :=
  let own_repo := own_repository ctx global_repo in
  let '(distinct, all_done) := fold_left (note_ref own_repo) rows ([], ∅) in
  if MAX_STATE_REFS <? length distinct then mret [too_many_refs (length distinct)]
  else
  states ← read_states ctx distinct ∅;
  findings ← lift (mapR (state_finding own_repo all_done states) rows);
  mret (omap id findings).

Definition missing_label : TrackerFinding :=
  mk_TrackerFinding "missing-tracking-label" None []
    ("the issue does not carry the " +:+ TRACKING_LABEL +:+ " label").

Definition over_the_limit (f : Finding) : bool := bool_decide (tf_code f = TooManyRows).

Definition lint_compute (ctx : ProviderContext) (global_repo : option string) (id : N)
    (check_state : bool) : io W LintPayload :=
  view ← read_issue ctx id;
  report ← lift (lint (iv_body view));
  let findings := (from_finding <$> lr_findings report)
    ++ (if bool_decide (TRACKING_LABEL ∈ iv_labels view) then [] else [missing_label]) in
  let analysed := negb (existsb over_the_limit (lr_findings report)) in
  states ← (if check_state && analysed then state_findings ctx global_repo (lr_rows report) else mret []);
  mret (mk_LintPayload (target_issue view) (length (lr_rows report)) (check_state && analysed)
          (findings ++ states)).

Definition lint_draft (body : string) : exec LintPayload :=
  report ← lint body;
  Ok (mk_LintPayload target_draft (length (lr_rows report)) false (from_finding <$> lr_findings report)).

Definition lint_schema : string := "cli.forge-cli.issue.tracker.lint.v1".

Definition lint_run (dry_run : bool) (ctx : ProviderContext) (global_repo body_file : option string)
    (id : option N) (check_state : bool) : io W (BackendCall + N * Envelope LintPayload) :=
  match body_file, id with
  | Some path, _ =>
      draft ← read_draft path;
      payload ← lift (lint_draft draft);
      mret (inr (emit lint_schema payload (lp_findings payload)))
  | None, Some id =>
      if dry_run then mret (inl (build_view_call_with ctx id false))
      else
        payload ← lint_compute ctx global_repo id check_state;
        mret (inr (emit lint_schema payload (lp_findings payload)))
  | None, None => lift (throw missing_target)
  end.

(** ** show *)
Record ShowTarget := mk_ShowTarget { st_repo : option string; st_number : N }.

(** [N], [#N] or [<repo>#N]. *)
Definition parse_target (text : string) : result string ShowTarget :=
  let bad := "expected an issue number, `#N`, or `owner/repo#N`, got `" +:+ text +:+ "`" in
  let '(repo, digits) :=
    match rsplit_once "#" text with
    | Some (repo, digits) => (if is_empty repo then None else Some repo, digits)
    | None => (None, text)
    end in
  if is_some_and repo has_whitespace then Err bad
  else if is_empty digits || negb (all_bytes is_ascii_digit digits) then Err bad
  else mk_ShowTarget repo <$> ok_or bad (parse_u64 digits).

Record ShowRow := mk_ShowRow {
  sr_id : string; sr_title : string; sr_reference : option string; sr_done : bool;
  sr_phase : option string; sr_after : list string; sr_notes : option string; sr_line : nat }.

Record ShowPayload := mk_ShowPayload {
  sp_target : TrackerTarget; sp_repo : option string; sp_title : string; sp_state : string;
  sp_labels : list string; sp_row_count : nat; sp_rows : list ShowRow;
  sp_findings : list TrackerFinding }.

Definition shown_reference (own_repo : option string) (r : IssueRef) : string :=
  match ir_owner r, ir_repo r, own_repo with
  | Some owner, Some repo, _ => owner +:+ "/" +:+ repo +:+ "#" +:+ dec (ir_number r)
  | _, _, Some own => own +:+ "#" +:+ dec (ir_number r)
  | _, _, None => ref_text r
  end.

Definition show_row (own_repo : option string) (row : Row) : ShowRow :=
  mk_ShowRow (row_id row) (row_title row) (shown_reference own_repo <$> row_reference row)
    (row_done row) (row_phase row) (row_after row) (row_notes row) (row_line row).

Definition show_compute (ctx : ProviderContext) (id : N) : io W ShowPayload :=
  view ← read_issue ctx id;
  let table := parse (iv_body view) in
  findings ← lift (row_findings table);
  let findings := from_finding <$> findings in
  let too_many := existsb (λ f, kf_code f ==? "too-many-rows") findings in
  let rows := if too_many then [] else show_row (cx_repo ctx) <$> tb_rows table in
  mret (mk_ShowPayload (target_issue view) (cx_repo ctx) (iv_title view) (iv_state view)
          (iv_labels view) (length rows) rows findings).

Definition show_run (dry_run : bool) (ctx : ProviderContext) (id : N)
    : io W (BackendCall + N * Envelope ShowPayload) :=
  if dry_run then mret (inl (build_view_call_with ctx id false))
  else
    payload ← show_compute ctx id;
    mret (inr (emit_success "cli.forge-cli.issue.tracker.show.v1" payload)).
End tracker.
