(* ===== verification/TestDiff.v ===== *)
(** * What a diff does to the tests

    [crates/forge-cli/src/ops/pr_review_handoff/test_integrity/diff.rs] with
    [diff/skip_calls.rs]: the findings of a unified diff, and the errors of
    [test_integrity.rs] they are reported with. *)
From S2P Require Import Prelude RStr Collections Error.
From stdpp Require Import options.

(** ** The errors of the test-change gate *)
Section errors.
Context `{JT : !JsonText}.

Definition change_error (kind message : string) (detail : option string) : ForgeError :=
  let next_action :=
    if kind ==? "test_changes_undeclared" then "declare_test_changes"
    else if kind ==? "test_changes_unconfirmed" then "request_reviewer_confirmation"
    else if kind ==? "test_changes_limit_exceeded" then "split_comparison_or_rename_paths"
    else "retry_complete_comparison" in
  validation_with_details "cli.forge-cli.pr.review-handoff.v1" kind message
    (JObject [("detail", from_option JString JNull detail);
              ("next_action", JString next_action);
              ("retryable", JBool (kind ==? "test_changes_incomplete"))]).

Definition change_limit (name message : string) : ForgeError :=
  change_error "test_changes_limit_exceeded" message
    (Some ("Limit: " +:+ name +:+ ". Recovery: split the PR into smaller comparisons; for path_bytes, rename affected paths to unambiguous printable ASCII without whitespace, quotes or pipes. See crates/forge-cli/docs/specs/test-change-admission-v1.md#limits-and-recovery. No bypass is available.")).

Definition change_incomplete : ForgeError :=
  change_error "test_changes_incomplete"
    "cannot inspect the complete test-change comparison; retry with complete provider evidence" None.

Definition or_incomplete {A} (o : option A) : exec A := ok_or (Fail change_incomplete) o.
End errors.

(** 4 MiB. *)
Definition DIFF_BYTES : N := 4 * 1024 * 1024.

(** ** Findings *)
Record Finding := mk_Finding { fd_path : string; fd_kind : string }.
#[export] Instance Finding_eq_dec : EqDecision Finding.
Proof. solve_decision. Defined.
#[export] Instance Finding_countable : Countable Finding.
Proof.
  refine (inj_countable' (λ f, (fd_path f, fd_kind f)) (λ p, mk_Finding p.1 p.2) _).
  by intros [].
Defined.

(** The derived order: by path, then by kind. *)
Definition finding_le (a b : Finding) : Prop :=
  String.compare (fd_path a) (fd_path b) = Lt
  ∨ fd_path a = fd_path b ∧ String.le (fd_kind a) (fd_kind b).
#[export] Instance finding_le_dec a b : Decision (finding_le a b).
Proof. unfold finding_le. apply _. Defined.

Definition sort_findings (l : list Finding) : list Finding := merge_sort finding_le l.

(** ** skip_calls.rs *)

(** [char::is_alphanumeric] beyond ASCII: a table of the standard library. *)
Class WideAlphanumeric := wide_alphanumeric : string → bool.

Definition SKIP_MARKERS : list string :=
  ["test.skip("; "it.skip("; "describe.skip("; "xit("; "xtest("; "xdescribe("].

Section skip_calls.
Context `{WA : !WideAlphanumeric}.

Definition identifier_char (ch : string) : bool :=
  match ch with
  | String a EmptyString => is_ascii_alphanumeric a || bool_decide (a ∈ ["_"%char; "$"%char])
  | _ => wide_alphanumeric ch
  end.

(** The rest of the line from a code point on, whitespace left out, starts with a marker. *)
Definition skip_here (rest : list string) : bool :=
  let actual := join EmptyString (List.filter (λ ch, negb (is_whitespace ch)) rest) in
  existsb (λ marker, starts_with marker actual) SKIP_MARKERS.

Fixpoint skip_from (previous : option string) (rest : list string) : bool :=
  match rest with
  | [] => false
  | ch :: rest' =>
      is_none_or previous (λ c, negb (identifier_char c))
      && bool_decide (ch ∈ ["t"; "i"; "d"; "x"]) && skip_here rest
      || skip_from (Some ch) rest'
  end.

Definition contains_skip_call (line : string) : bool := skip_from None (chars line).
End skip_calls.

(** ** Signals of a text: its test cases, assertions and skips, each with its count *)
Definition Counts : Type := gmap string N.
Definition bump (key : string) (counts : Counts) : Counts :=
  <[key := (default 0 (counts !! key) + 1)%N]> counts.

Record Signals := mk_Signals {
  sg_cases : Counts; sg_assertions : Counts; sg_skips : Counts;
  sg_test_attribute : bool; sg_assertion : string; sg_depth : Z }.
Definition Signals_new : Signals := mk_Signals ∅ ∅ ∅ false EmptyString 0.

Definition is_comment (line : string) : bool :=
  starts_with "/" line || starts_with "*" line
  || starts_with "#" line && negb (starts_with "#[" line) && negb (starts_with "#![" line).

Definition CASE_CALLS : list string :=
  ["it("; "test("; "it.skip("; "test.skip("; "it.only("; "test.only("].

Definition is_case (test_path test_attribute : bool) (line compact : string) : bool :=
  let function :=
    starts_with "fn " line || starts_with "async fn " line || starts_with "pub fn " line in
  function && (test_path || test_attribute)
  || test_attribute && contains "(" compact && contains "{" compact
  || starts_with "def test_" line || starts_with "async def test_" line
  || starts_with "func Test" line
  || existsb (λ p, starts_with p compact) CASE_CALLS.

Definition SKIP_TEXTS : list string :=
  ["#[ignore"; "pytest.mark.skip"; "pytest.mark.xfail"; "pytest.skip("; "pytest.xfail(";
   "unittest.skip"; ".skipTest("; "unittest.expectedFailure"; "@Ignore"; "@Disabled"; ".Skip("].

Definition is_skip `{!WideAlphanumeric} (line compact : string) : bool :=
  contains_skip_call line || contains "cfg(any())" compact
  || contains "cfg_attr(" compact && contains "ignore" compact
  || existsb (λ p, contains p compact) SKIP_TEXTS.

(** How many bytes of a text are among these. *)
Fixpoint count_bytes (set : list ascii) (s : string) : Z :=
  match s with
  | EmptyString => 0
  | String c s => (if bool_decide (c ∈ set) then 1 else 0) + count_bytes set s
  end.

Definition starts_assertion (test_path : bool) (compact : string) : bool :=
  contains "assert" compact || contains "expect(" compact || test_path && starts_with ".to" compact.

(** An assertion goes on over the lines until its brackets are closed. *)
Definition note_assertion (test_path : bool) (compact : string) (st : Signals) : Signals :=
  if negb (is_empty (sg_assertion st)) || starts_assertion test_path compact then
    let assertion := sg_assertion st +:+ compact in
    let depth := (sg_depth st + count_bytes ["("%char; "["%char; "{"%char] compact
                  - count_bytes [")"%char; "]"%char; "}"%char] compact)%Z in
    if (depth <=? 0)%Z then
      mk_Signals (sg_cases st) (bump assertion (sg_assertions st)) (sg_skips st)
        (sg_test_attribute st) EmptyString 0
    else
      mk_Signals (sg_cases st) (sg_assertions st) (sg_skips st) (sg_test_attribute st) assertion depth
  else st.

(** The test cases a line declares: a module of tests, and a case. *)
Definition note_cases (test_path : bool) (line compact : string) (st : Signals) : Signals :=
  let attribute :=
    sg_test_attribute st
    || starts_with "#[" line && (contains "test]" compact || contains "test(" compact)
    || starts_with "@Test" line || contains "#[cfg(test)]" compact in
  let module := attribute && (starts_with "mod" compact || contains "]mod" compact)
                && ends_with ";" compact in
  let cases := if module then bump compact (sg_cases st) else sg_cases st in
  let attribute := attribute && negb module in
  let case := is_case test_path attribute line compact in
  let cases := if case then bump (until_byte ["{"%char; ":"%char] compact) cases else cases in
  mk_Signals cases (sg_assertions st) (sg_skips st) (attribute && negb case) (sg_assertion st)
    (sg_depth st).

Definition note_skips `{!WideAlphanumeric} (line compact : string) (st : Signals) : Signals :=
  if is_skip line compact then
    mk_Signals (sg_cases st) (sg_assertions st) (bump compact (sg_skips st)) (sg_test_attribute st)
      (sg_assertion st) (sg_depth st)
  else st.

Definition signal_line `{!WideAlphanumeric} (test_path : bool) (st : Signals) (raw : string)
    : Signals :=
  let line := trim raw in
  if is_comment line then st
  else
  let compact := without_whitespace line in
  note_skips line compact (note_assertion test_path compact (note_cases test_path line compact st)).

(** An assertion that is still open at the end counts as it is. *)
Definition signals `{!WideAlphanumeric} (lines : list string) (test_path : bool) : Signals :=
  let st := fold_left (signal_line test_path) lines Signals_new in
  if is_empty (sg_assertion st) then st
  else mk_Signals (sg_cases st) (bump (sg_assertion st) (sg_assertions st)) (sg_skips st)
         (sg_test_attribute st) (sg_assertion st) (sg_depth st).

(** ** Files of a diff *)
Record File := mk_File {
  fl_old : string; fl_new : string; fl_deleted : bool;
  fl_before : list string; fl_after : list string }.
Definition File_default : File := mk_File EmptyString EmptyString false [] [].

Definition last_segment (sep : ascii) (s : string) : string := default s (last (split_char sep s)).

Definition test_path (path : string) : bool :=
  let name := last_segment "/" path in
  existsb (λ p, bool_decide (p ∈ ["test"; "tests"; "__tests__"])) (split_char "/" path)
  || starts_with "test_" name || ends_with "_test.go" name || contains ".test." name
  || contains ".spec." name || ends_with "Test.java" name.

Definition SOURCE_EXTENSIONS : list string :=
  ["rs"; "py"; "js"; "jsx"; "cjs"; "mjs"; "ts"; "tsx"; "cts"; "mts"; "go"; "java"; "kt"; "sh";
   "bash"; "zsh"; "rb"; "cs"; "cpp"; "cc"; "c"].

Definition source (path : string) : bool :=
  bool_decide (last_segment "." path ∈ SOURCE_EXTENSIONS).

(** Some key counts more before than after. *)
Definition removed (old new : Counts) : bool :=
  existsb (λ kv, (default 0 (new !! kv.1) <? kv.2)%N) (entries old).

(** The findings of one file. *)
Definition finish `{!WideAlphanumeric} (file : File) : gset Finding :=
  let renamed_test :=
    negb (fl_deleted file) && (fl_old file !=? fl_new file) && source (fl_old file)
    && test_path (fl_old file) in
  let renamed : gset Finding :=
    if renamed_test then {[ mk_Finding (fl_old file) "deleted-test" ]} else ∅ in
  let path := if fl_deleted file || is_empty (fl_new file) then fl_old file else fl_new file in
  if is_empty path || negb (source path) then renamed
  else
  let test := test_path (fl_old file) || test_path (fl_new file) in
  let before := signals (fl_before file) test in
  let after := signals (fl_after file) test in
  let add (b : bool) (kind : string) : gset Finding := if b then {[ mk_Finding path kind ]} else ∅ in
  renamed
  ∪ add (fl_deleted file && test || removed (sg_cases before) (sg_cases after)) "deleted-test"
  ∪ add (removed (sg_assertions before) (sg_assertions after)) "assertion-change"
  ∪ add (removed (sg_skips after) (sg_skips before)) "new-skip".

(** ** The diff, line by line *)
Section detect.
Context `{JT : !JsonText, WA : !WideAlphanumeric}.

Definition bad_path_byte (b : ascii) : bool :=
  byte_in 0 32 b || byte_in 127 255 b || bool_decide (b ∈ [dquote; "|"%char]).

Definition path_name (path prefix : string) : exec string :=
  let path := default path (strip_prefix prefix path) in
  if negb (all_bytes (λ b, negb (bad_path_byte b)) path)
  then throw (change_limit "path_bytes" "path requires quoting or contains unsupported non-ASCII, whitespace, control, quote or pipe bytes")
  else Ok path.

(** A range of a hunk's header: how many lines it covers. *)
Definition range (value : option string) (prefix : string) : exec N :=
  value ← or_incomplete (value ≫= strip_prefix prefix);
  let '(start, length) := default (value, "1") (split_once "," value) in
  _ ← or_incomplete (parse_u64 start);
  or_incomplete (parse_u64 length).

Record DiffScan := mk_DiffScan {
  ds_findings : gset Finding; ds_file : File; ds_remaining : N * N; ds_count : N }.

Definition with_file (st : DiffScan) (file : File) : DiffScan :=
  mk_DiffScan (ds_findings st) file (ds_remaining st) (ds_count st).
Definition set_old (f : File) (old : string) : File :=
  mk_File old (fl_new f) (fl_deleted f) (fl_before f) (fl_after f).
Definition set_new (f : File) (new : string) : File :=
  mk_File (fl_old f) new (fl_deleted f) (fl_before f) (fl_after f).
Definition set_deleted (f : File) : File :=
  mk_File (fl_old f) (fl_new f) true (fl_before f) (fl_after f).
Definition push_lines (f : File) (before after : list string) : File :=
  mk_File (fl_old f) (fl_new f) (fl_deleted f) (fl_before f ++ before) (fl_after f ++ after).

(** [diff --git]: the file before is finished and a new one begins. *)
Definition file_header (st : DiffScan) (line : string) : exec DiffScan :=
  if ds_remaining st !=? (0, 0)%N then throw change_incomplete
  else if contains (String dquote EmptyString) line then
    throw (change_limit "path_bytes" "Git-quoted paths are unsupported")
  else
  names ← or_incomplete (strip_prefix "diff --git a/" line ≫= split_once " b/");
  old ← path_name names.1 EmptyString;
  new ← path_name names.2 EmptyString;
  let count := (ds_count st + 1)%N in
  if (300 <=? count)%N then throw (change_limit "file_count" "comparison contains 300 or more files")
  else Ok (mk_DiffScan (ds_findings st ∪ finish (ds_file st)) (mk_File old new false [] [])
             (0, 0)%N count).

(** A line of a hunk. *)
Definition hunk_line (st : DiffScan) (line : string) : exec DiffScan :=
  let '(old, new) := ds_remaining st in
  let take before after remaining :=
    Ok (mk_DiffScan (ds_findings st) (push_lines (ds_file st) before after) remaining (ds_count st)) in
  match line with
  | String "-" content => if (0 <? old)%N then take [content] [] (old - 1, new)%N else throw change_incomplete
  | String "+" content => if (0 <? new)%N then take [] [content] (old, new - 1)%N else throw change_incomplete
  | String " " content =>
      if (0 <? old)%N && (0 <? new)%N then take [content] [content] (old - 1, new - 1)%N
      else throw change_incomplete
  | String "\" _ => Ok st
  | _ => throw change_incomplete
  end.

(** A line between the hunks. *)
Definition meta_line (st : DiffScan) (line : string) : exec DiffScan :=
  let file := ds_file st in
  match strip_prefix "--- " line with
  | Some path => old ← path_name path "a/"; Ok (with_file st (set_old file old))
  | None =>
  match strip_prefix "+++ " line with
  | Some path => new ← path_name path "b/"; Ok (with_file st (set_new file new))
  | None =>
  if starts_with "deleted file mode " line then Ok (with_file st (set_deleted file))
  else if starts_with "@@ " line then
    let parts := split_whitespace line in
    old ← range (parts !! 1) "-";
    new ← range (parts !! 2) "+";
    Ok (mk_DiffScan (ds_findings st) file (old, new) (ds_count st))
  else if starts_with "Binary files " line || (line ==? "GIT binary patch") then
    if source (fl_old file) || source (fl_new file) then throw change_incomplete else Ok st
  else
  match strip_prefix "rename from " line with
  | Some path => old ← path_name path EmptyString; Ok (with_file st (set_old file old))
  | None =>
  match strip_prefix "rename to " line with
  | Some path => new ← path_name path EmptyString; Ok (with_file st (set_new file new))
  | None =>
      if (starts_with "+" line || starts_with "-" line) && negb (starts_with "---" line)
      then throw change_incomplete else Ok st
  end end end end.

Definition diff_line (st : DiffScan) (line : string) : exec DiffScan :=
  if starts_with "diff --git " line then file_header st line
  else if ds_remaining st !=? (0, 0)%N then hunk_line st line
  else meta_line st line.

Definition detect (patch : string) : exec (list Finding) :=
  if is_empty (trim patch) then Ok []
  else if (DIFF_BYTES <? len patch)%N then throw (change_limit "diff_bytes" "diff exceeds 4 MiB")
  else if negb (starts_with "diff --git " patch) then throw change_incomplete
  else
  st ← foldM diff_line (mk_DiffScan ∅ File_default (0, 0)%N 0) (lines patch);
  if ds_remaining st !=? (0, 0)%N then throw change_incomplete
  else Ok (sort_findings (elements (ds_findings st ∪ finish (ds_file st)))).
End detect.
