(* ===== verification/MergePolicy.v ===== *)
(** * The provider's merge policy

    [crates/forge-cli/src/ops/merge_policy.rs]: repository-wide merge freezes, the merge queue
    of the base branch, handing the verified head to the queue and waiting, with a time limit,
    for it to land. *)
From S2P Require Import Prelude RStr Collections Error Types Markers ReviewLoop Provider Append.
From S2P Require Import Report Paths Config.
From stdpp Require Import options.

(** ** The data *)
Record Freeze := mk_Freeze {
  fz_number : N; fz_title : string; fz_url : string;
  fz_author : option string; fz_created_at : option string;
}.

Record FreezeOverride := mk_FreezeOverride { fo_issues : list N; fo_reason : string }.

(** The queue of a base branch, with the method it merges by when it is a known one. *)
Record MergeQueue := mk_MergeQueue { mq_method : option MergeMethod }.

Record MergePolicy := mk_MergePolicy {
  mp_freezes : list Freeze;
  mp_queue : option MergeQueue;
  mp_pr_node_id : option string;
  mp_in_queue : bool;
  mp_merged : bool;
}.

Definition describe (f : Freeze) : string :=
  "#" +:+ dec (fz_number f) +:+ " " +:+ fz_title f +:+ " (by " +:+ default "unknown" (fz_author f)
  +:+ ", since " +:+ default "unknown" (fz_created_at f) +:+ ") " +:+ fz_url f.

Definition DEFAULT_QUEUE_TIMEOUT : N := secs (95 * 60).
Definition QUEUE_POLL_INTERVAL : N := secs 15.
Definition QUEUE_EXIT_GRACE : N := secs 60.
Definition QUEUE_EXIT_POLL_INTERVAL : N := secs 5.

(** ** Errors *)
Definition policy_unavailable (message : string) (detail : option string) : ForgeError :=
  unavailable error_schema "merge_policy_unavailable" message detail.

Definition enqueue_rejected (message : string) (detail : option string) : ForgeError :=
  runtime_failure error_schema "merge_queue_enqueue_rejected" message detail.

Definition poll_failed (message : string) (detail : option string) : ForgeError :=
  unavailable error_schema "merge_queue_poll_failed" message detail.

Definition dequeued (pr : N) (state : string) : ForgeError :=
  runtime_failure error_schema "merge_queue_dequeued"
    "the pull request left the merge queue without being merged"
    (Some ("pr=" +:+ dec pr +:+ "; state=" +:+ state)).

Definition queue_timeout (pr : N) (entry_state : string) (timeout : N) (host owner name : string)
    : ForgeError :=
  let message :=
    if entry_state ==? "none"
    then "the wait timed out during a queue transition; queue membership and the final merge outcome are unknown"
    else "the wait timed out while the pull request was still queued; its final merge outcome is unknown" in
  let where_ := dec pr +:+ " --repo " +:+ owner +:+ "/" +:+ name +:+ " --host " +:+ host in
  unavailable error_schema "merge_queue_timeout" message
    (Some ("pr=" +:+ dec pr +:+ "; entry_state=" +:+ entry_state +:+ "; timeout_secs="
      +:+ dec (as_secs timeout) +:+ "; next: forge-cli pr view " +:+ where_
      +:+ "; forge-cli pr checks " +:+ where_)).

Definition reject_errors (value : JsonValue) (label : string)
    (error : string → option string → ForgeError) : exec unit :=
  match as_array (index "errors" value) with
  | Some ((_ :: _) as errors) =>
      throw (error (label +:+ " returned GraphQL errors")
        (Some (join "; " (omap (λ e, as_str (index "message" e)) errors))))
  | _ => Ok tt
  end.

(** ** Parsing *)
Definition parse_freeze (node : JsonValue) : option Freeze :=
  number ← as_u64 (index "number" node);
  Some {| fz_number := number; fz_title := default EmptyString (as_str (index "title" node));
          fz_url := default EmptyString (as_str (index "url" node));
          fz_author := as_str (index "login" (index "author" node));
          fz_created_at := as_str (index "createdAt" node) |}.

Definition parse_method (value : string) : option MergeMethod :=
  let upper := to_ascii_uppercase value in
  if upper ==? "SQUASH" then Some Squash
  else if upper ==? "MERGE" then Some Merge
  else if upper ==? "REBASE" then Some Rebase
  else None.

Definition error_lacks_schema (error : JsonValue) : bool :=
  is_some_and (as_str (index "message" error)) (λ message,
    (contains "mergeQueue" message || contains "isInMergeQueue" message)
    && contains "doesn't exist" message).

Definition lacks_merge_queue_schema (value : JsonValue) : bool :=
  is_some_and (as_array (index "errors" value)) (λ errors,
    negb (bool_decide (length errors = 0)) && forallb error_lacks_schema errors).

Section policy.
Context `{JT : !JsonText}.

Definition parse_json (stdout label : string) : exec JsonValue :=
  map_err (λ error, Fail (policy_unavailable (label +:+ " response is not valid JSON") (Some error)))
    (value_from_str (trim stdout)).

(** The freezes of a repository object. *)
Definition freeze_list (repository : JsonValue) (message : string) : exec (list Freeze) :=
  nodes ← ok_or (Fail (policy_unavailable message None))
    (as_array (index "nodes" (index "issues" repository)));
  Ok (omap (M:=list) parse_freeze nodes).

Definition parse_policy (value : JsonValue) : exec MergePolicy :=
  _ ← reject_errors value "merge policy" policy_unavailable;
  let repository := index "repository" (index "data" value) in
  if is_null repository
  then throw (policy_unavailable "merge policy response has no repository" None)
  else
  freezes ← freeze_list repository "merge policy response has no freeze list";
  let queue := index "mergeQueue" repository in
  let pull := index "pullRequest" repository in
  Ok {| mp_freezes := freezes;
        mp_queue := if is_null queue then None
                    else Some (mk_MergeQueue
                      (as_str (index "mergeMethod" (index "configuration" queue)) ≫= parse_method));
        mp_pr_node_id := nonempty (as_str (index "id" pull));
        mp_in_queue := default false (as_bool (index "isInMergeQueue" pull));
        mp_merged := is_some_and (as_str (index "state" pull))
                       (λ state, eq_ignore_ascii_case state "MERGED") |}.

Context {W : Type} `{BE : !Backend W}.

Definition read_freezes_only (owner name : string) : io W MergePolicy :=
  stdout ← call (FreezeQuery owner name);
  value ← lift (parse_json stdout "merge freeze");
  _ ← lift (reject_errors value "merge freeze" policy_unavailable);
  freezes ← lift (freeze_list (index "repository" (index "data" value))
    "merge freeze response has no freeze list");
  mret (mk_MergePolicy freezes None None false false).

Definition read_policy (owner name base : string) (pr : N) : io W MergePolicy :=
  stdout ← call (MergePolicyQuery owner name base pr);
  value ← lift (parse_json stdout "merge policy");
  if lacks_merge_queue_schema value then read_freezes_only owner name
  else lift (parse_policy value).

(** ** Freezes *)
Definition enforce_freeze (freezes : list Freeze) (allowed : list N) (reason : option string)
    : exec (option FreezeOverride) :=
  if bool_decide (length freezes = 0) then Ok None
  else
  let uncovered := List.filter (λ f, negb (bool_decide (fz_number f ∈ allowed))) freezes in
  match uncovered, reason with
  | [], Some reason => Ok (Some (mk_FreezeOverride (fz_number <$> freezes) reason))
  | _, _ =>
      let blocking := match uncovered with [] => freezes | _ => uncovered end in
      throw (validation error_schema "merge_freeze_active"
        "the repository has an active merge freeze; wait for it to end or, as its holder, pass --allow-merge-freeze <issue> with a reason"
        (Some (join "; " (describe <$> blocking))))
  end.

(** ** The queue *)
Definition resolve_queue_method (queue : MergeQueue) (explicit : option MergeMethod)
    (fallback : MergeMethod) : exec MergeMethod :=
  match mq_method queue, explicit with
  | Some queue_method, Some wanted =>
      if queue_method !=? wanted then
        throw (validation error_schema "merge_queue_method_mismatch"
          ("the base branch merge queue merges with " +:+ quoted (method_as_str queue_method)
            +:+ ", not the requested " +:+ quoted (method_as_str wanted)) None)
      else Ok queue_method
  | Some queue_method, None => Ok queue_method
  | None, explicit => Ok (default fallback explicit)
  end.

Definition enqueue (pr_node_id expected_head : string) : io W unit :=
  stdout ← call (Enqueue pr_node_id expected_head);
  value ← lift (parse_json stdout "merge queue enqueue");
  _ ← lift (reject_errors value "merge queue enqueue" enqueue_rejected);
  if is_null (index "mergeQueueEntry" (index "enqueuePullRequest" (index "data" value)))
  then lift (throw (enqueue_rejected "the merge queue did not accept the pull request" None))
  else mret tt.

(** What one poll shows. *)
Inductive Reading : Type :=
  | Landed (oid : string)
  | Closed (state : string)
  | Transitional (merged : bool) (state : string)
  | Unmergeable
  | Queued (entry_state : string).

Definition read_poll (value : JsonValue) : Reading :=
  let pull := index "pullRequest" (index "repository" (index "data" value)) in
  let state := default EmptyString (as_str (index "state" pull)) in
  let entry := index "mergeQueueEntry" pull in
  let merged := eq_ignore_ascii_case state "MERGED" in
  match merged, nonempty (as_str (index "oid" (index "mergeCommit" pull))) with
  | true, Some oid => Landed oid
  | _, _ =>
      if eq_ignore_ascii_case state "CLOSED" then Closed state
      else if merged || is_null entry then Transitional merged state
      else if is_some_and (as_str (index "state" entry))
                (λ state, eq_ignore_ascii_case state "UNMERGEABLE") then Unmergeable
      else Queued (default "unknown" (as_str (index "state" entry)))
  end.

Context `{CK : !Clock W}.
Context (host owner name : string) (pr : N).

Definition poll : io W Reading :=
  stdout ← call (PullQuery "ForgeMergeQueuePoll" owner name pr true EmptyString);
  value ← lift (parse_json stdout "merge queue poll");
  _ ← lift (reject_errors value "merge queue poll" poll_failed);
  mret (read_poll value).

Fixpoint poll_queue (fuel : nat) (timeout started : N) (transitional_since : option N)
    : io W (option string) :=
  match fuel with
  | 0 => lift (Err OutOfFuel)
  | S fuel =>
      reading ← poll;
      match reading with
      | Landed oid => mret (Some oid)
      | Closed state => lift (throw (dequeued pr state))
      | Transitional merged state =>
          now ← now;
          let since := default now transitional_since in
          let grace_over := (QUEUE_EXIT_GRACE <=? now - since)%N in
          if grace_over || (timeout <=? now - started)%N then
            if merged then mret None
            else if grace_over then lift (throw (dequeued pr state))
            else lift (throw (queue_timeout pr "none" timeout host owner name))
          else
          _ ← sleep QUEUE_EXIT_POLL_INTERVAL;
          poll_queue fuel timeout started (Some since)
      | Unmergeable =>
          lift (throw (runtime_failure error_schema "merge_queue_checks_failed"
            "the merge queue reports the pull request as unmergeable" (Some ("pr=" +:+ dec pr))))
      | Queued entry_state =>
          now ← now;
          if (timeout <=? now - started)%N then
            lift (throw (queue_timeout pr entry_state timeout host owner name))
          else
          _ ← sleep QUEUE_POLL_INTERVAL;
          poll_queue fuel timeout started None
      end
  end.

Definition wait_for_merge (fuel : nat) (timeout : N) : io W (option string) :=
  started ← now;
  poll_queue fuel timeout started None.
End policy.
