(* ===== verification/Convergence.v ===== *)
(** * Convergence of native reviews

    [crates/forge-cli/src/ops/review_convergence.rs]: before a merge, the activity of configured
    review bots on the current head must have been quiet for a window, within a time limit, and
    no reviewer's latest opinion may request changes; the same snapshot is read once more right
    before the merge.  The process clock is part of the world; the wall clock only labels. *)
From S2P Require Import Prelude RStr Collections Error Types Markers ReviewLoop Handoff Provider.
From S2P Require Import PrView PrReviews Threads Append Report Paths Config.
From stdpp Require Import options.

(** [jiff::Timestamp::now] plus a number of milliseconds, as text. *)
Class WallClock (W : Type) := wall_clock_after : N → W → option string.

Definition POLL_INTERVAL : N := secs 10.

Record ConvergenceSnapshot := mk_ConvergenceSnapshot {
  cv_required : bool;
  cv_head_sha : string;
  cv_observed_reviews : list NativeReview;
  cv_stale_reviews : list NativeReview;
  cv_semantic_activity : list string;
  cv_semantic_digest : string;
  cv_unresolved_threads : N;
  cv_changes_requested_by : list string;
  cv_missing_reviewers : list string;
  cv_latest_activity_at : option string;
  cv_quiet_until : option string;
  cv_quiet_period_ms : N;
  cv_timeout_ms : N;
  cv_waited_ms : N;
  cv_bots : list ReviewConvergenceBot;
}.

(** ** Errors *)
Definition changes_requested_error (s : ConvergenceSnapshot) : ForgeError :=
  validation error_schema "review_changes_requested"
    "one or more current-head native reviews request changes"
    (Some ("changes_requested_by=" +:+ join "," (cv_changes_requested_by s))).

Definition timeout_error (policy : ReviewConvergencePolicy) (expected_head_sha : option string)
    : ForgeError :=
  unavailable error_schema "review_convergence_timeout"
    "native review convergence exceeded the configured timeout"
    (Some ("head_sha=" +:+ default "<unknown>" expected_head_sha +:+ "; quiet_period_ms="
      +:+ dec (duration_ms (cp_quiet_period policy)) +:+ "; timeout_ms="
      +:+ dec (duration_ms (cp_timeout policy)))).

Definition map_provider_timeout (policy : ReviewConvergencePolicy)
    (expected_head_sha : option string) (err : stop) : stop :=
  match err with
  | Fail e =>
      Fail (if kind e ==? "backend_timeout" then timeout_error policy expected_head_sha else e)
  | e => e
  end.

Definition ensure_expected_head (expected_head_sha : option string) (reviews : PrReviews)
    : exec unit :=
  if is_none_or expected_head_sha (λ expected, expected ==? pv_head_sha reviews) then Ok tt
  else throw (validation error_schema "review_convergence_head_changed"
    "the provider PR head changed during review convergence"
    (Some ("expected_head=" +:+ default "<missing>" expected_head_sha +:+ " provider_head="
      +:+ pv_head_sha reviews))).

Definition ensure_thread_head (reviews : PrReviews) (threads : PrThreads) : exec unit :=
  if pt_head_sha threads ==? Some (pv_head_sha reviews) then Ok tt
  else throw (validation error_schema "review_convergence_head_changed"
    "native review and thread snapshots are not bound to the same provider head"
    (Some ("review_head=" +:+ pv_head_sha reviews +:+ "; thread_head="
      +:+ default "<missing>" (pt_head_sha threads)))).

(** ** Who requests changes *)
Definition login_of (author : string) : string := to_ascii_lowercase (trim author).

Definition review_identity (review : NativeReview) : string :=
  let login := login_of (nr_author review) in
  if is_empty login then "review:" +:+ nr_id review else login.

Definition review_display_identity (review : NativeReview) : string :=
  if is_empty (trim (nr_author review)) then "review:" +:+ nr_id review else nr_author review.

(** [Ordering::then_with]. *)
Definition then_with (first second : comparison) : comparison :=
  match first with Eq => second | c => c end.

Definition compare_ids (left right : option N) : comparison :=
  match left, right with
  | None, None => Eq
  | None, Some _ => Lt
  | Some _, None => Gt
  | Some l, Some r => (l ?= r)%N
  end.

Definition review_order (left right : NativeReview) : comparison :=
  then_with (String.compare (nr_submitted_at left) (nr_submitted_at right))
    (then_with (compare_ids (nr_database_id left) (nr_database_id right))
       (String.compare (nr_id left) (nr_id right))).

Definition OPINIONATED : list string := ["CHANGES_REQUESTED"; "APPROVED"; "DISMISSED"].
Definition opinionated (review : NativeReview) : bool := bool_decide (nr_state review ∈ OPINIONATED).

Definition note_review (latest : gmap string NativeReview) (review : NativeReview)
    : gmap string NativeReview :=
  if negb (opinionated review) then latest
  else
  let identity := review_identity review in
  if is_none_or (latest !! identity) (λ current, bool_decide (review_order review current = Gt))
  then <[identity := review]> latest else latest.

Definition latest_opinions (reviews : list NativeReview) : gmap string NativeReview :=
  fold_left note_review reviews ∅.

Definition effective_changes_requested_by (reviews : list NativeReview) : list string :=
  review_display_identity
    <$> List.filter (λ review, eq_ignore_ascii_case (nr_state review) "CHANGES_REQUESTED")
          (values (latest_opinions reviews)).

(** ** Activity of the configured bots *)
Definition normalized_login (login : string) : string :=
  to_ascii_lowercase (default (trim login) (strip_suffix "[bot]" (trim login))).

Definition is_observed_login (author : string) (bots : list ReviewConvergenceBot) : bool :=
  existsb (λ bot, (bot_mode bot ==? Observed)
                  && (normalized_login (bot_login bot) ==? normalized_login author)) bots.

Definition review_is_observed_bot (bots : list ReviewConvergenceBot) (review : NativeReview) : bool :=
  bool_decide (nr_author_type review ∈ [Some "Bot"; None]) && is_observed_login (nr_author review) bots.

Definition thread_author_is_observed_bot (bots : list ReviewConvergenceBot)
    (non_bot_authors : gset string) (author : string) : bool :=
  negb (bool_decide (login_of author ∈ non_bot_authors)) && is_observed_login author bots.

Definition meaningful_thread_comment (body : string) : bool :=
  negb (has_thread_disposition_marker body) && negb (is_empty (trim (strip_owned_markers body))).

Definition review_is_semantic (review : NativeReview) : bool :=
  opinionated review || negb (is_empty (trim (strip_owned_markers (nr_summary review)))).

Definition bool_text (b : bool) : string := if b then "true" else "false".

Definition review_activity (review : NativeReview) : string :=
  "review:" +:+ normalized_login (nr_author review) +:+ ":" +:+ nr_state review +:+ ":"
  +:+ nr_commit_sha review +:+ ":" +:+ bool_text (nr_summary_truncated review) +:+ ":"
  +:+ strip_owned_markers (nr_summary review).

Definition activity_fingerprint (reviews : list NativeReview) (bots : list ReviewConvergenceBot)
    : list string :=
  sort_dedup (review_activity
    <$> List.filter review_is_semantic (List.filter (review_is_observed_bot bots) reviews)).

Definition open_thread (t : Thread) : bool := negb (th_resolved t) && negb (th_outdated t).

Definition meaningful_comments (bots : list ReviewConvergenceBot) (non_bot_authors : gset string)
    (t : Thread) : list ThreadComment :=
  List.filter (λ c, thread_author_is_observed_bot bots non_bot_authors (tc_author c)
                    && meaningful_thread_comment (tc_body c)) (th_comments t).

Definition comment_activity (c : ThreadComment) : string :=
  normalized_login (tc_author c) +:+ ":" +:+ strip_owned_markers (tc_body c).

Definition thread_activity (t : Thread) (comments : list ThreadComment) : string :=
  "thread:" +:+ th_id t +:+ ":" +:+ th_path t +:+ ":" +:+ debug_option debug_str (th_diff_side t)
  +:+ ":" +:+ debug_option dec (th_line t) +:+ ":" +:+ debug_option dec (th_start_line t) +:+ ":"
  +:+ join "|" (comment_activity <$> comments).

Definition combined_activity_fingerprint (reviews : list NativeReview) (threads : list Thread)
    (bots : list ReviewConvergenceBot) (non_bot_authors : gset string) : list string :=
  sort_dedup (activity_fingerprint reviews bots
    ++ omap (λ t, match meaningful_comments bots non_bot_authors t with
                  | [] => None
                  | comments => Some (thread_activity t comments)
                  end) (List.filter open_thread threads)).

Definition has_new_activity (previous current : list string) : bool :=
  existsb (λ item, negb (bool_decide (item ∈ previous))) current.

(** ** The snapshot *)
Definition non_bot_authors (reviews : PrReviews) : gset string :=
  list_to_set ((λ r, login_of (nr_author r))
    <$> List.filter (λ r, is_some_and (nr_author_type r) (λ kind, kind !=? "Bot"))
          (current_head_reviews reviews ++ stale_reviews reviews)).

Definition shown (policy : ReviewConvergencePolicy) (review : NativeReview) : bool :=
  (nr_author_type review ==? Some "User") || review_is_observed_bot (cp_bots policy) review.

Section convergence.
Context `{HS : !Hasher, JT : !JsonText}.

Definition build_snapshot (policy : ReviewConvergencePolicy) (reviews : PrReviews)
    (threads : PrThreads) (waited_ms : N) : ConvergenceSnapshot :=
  let bots := cp_bots policy in
  let authors := non_bot_authors reviews in
  let observed_reviews := List.filter (shown policy) (current_head_reviews reviews) in
  let semantic_activity :=
    combined_activity_fingerprint observed_reviews (pt_threads threads) bots authors in
  let nonempty_times l := List.filter (λ t, negb (is_empty t)) l in
  let review_times := nonempty_times (nr_submitted_at
    <$> List.filter review_is_semantic (List.filter (review_is_observed_bot bots) observed_reviews)) in
  let thread_times := nonempty_times (tc_created_at
    <$> concat (meaningful_comments bots authors <$> List.filter open_thread (pt_threads threads))) in
  {| cv_required := cp_require policy;
     cv_head_sha := pv_head_sha reviews;
     cv_observed_reviews := observed_reviews;
     cv_stale_reviews := List.filter (shown policy) (stale_reviews reviews);
     cv_semantic_activity := semantic_activity;
     cv_semantic_digest :=
       sha256_digest (value_display (JArray (JString <$> semantic_activity)));
     cv_unresolved_threads := N.of_nat (length (List.filter open_thread (pt_threads threads)));
     cv_changes_requested_by := effective_changes_requested_by (current_head_reviews reviews);
     cv_missing_reviewers := [];
     cv_latest_activity_at := smax (option_list (smax review_times) ++ option_list (smax thread_times));
     cv_quiet_until := None;
     cv_quiet_period_ms := duration_ms (cp_quiet_period policy);
     cv_timeout_ms := duration_ms (cp_timeout policy);
     cv_waited_ms := waited_ms;
     cv_bots := bots |}.

Definition with_wait (s : ConvergenceSnapshot) (latest quiet_until : option string) (waited_ms : N)
    : ConvergenceSnapshot :=
  mk_ConvergenceSnapshot (cv_required s) (cv_head_sha s) (cv_observed_reviews s)
    (cv_stale_reviews s) (cv_semantic_activity s) (cv_semantic_digest s) (cv_unresolved_threads s)
    (cv_changes_requested_by s) (cv_missing_reviewers s) latest quiet_until
    (cv_quiet_period_ms s) (cv_timeout_ms s) waited_ms (cv_bots s).

Context {W : Type} `{BE : !Backend W, CK : !Clock W, WC : !WallClock W}.

(** ** Reading with a time limit *)

(** [pr_reviews::remaining_timeout] of a snapshot started at [started]. *)
Definition remaining_timeout (timeout started : N) : io W unit :=
  time ← now;
  if (timeout - (time - started) =? 0)%N then
    lift (throw (unavailable error_schema "backend_timeout"
      "native review snapshot exceeded its provider-call timeout"
      (Some ("timeout_ms=" +:+ dec (as_millis timeout)))))
  else mret tt.

Definition reviews_within (timeout : N) (number : N) (url : string) : io W PrReviews :=
  started ← now;
  compute_for_pr_with_timeout (remaining_timeout timeout started) GitHub number url.

(** The reviews and the threads at one head, the expected one where the caller names it. *)
Definition read_activity (policy : ReviewConvergencePolicy) (thread_fuel : nat)
    (number : N) (pr_url : string) (expected_head_sha : option string) (also : option string)
    (timeout : N) : io W (PrReviews * PrThreads) :=
  outcome ← attempt (reviews_within timeout number pr_url);
  reviews ← lift (map_err (map_provider_timeout policy expected_head_sha) outcome);
  _ ← lift (ensure_expected_head expected_head_sha reviews);
  _ ← lift (ensure_expected_head also reviews);
  threads ← compute_github_threads thread_fuel GitHub pr_url number;
  _ ← lift (ensure_thread_head reviews threads);
  mret (reviews, threads).

Definition wall_clock_quiet_until (duration : N) : io W (option string) := λ w,
  (Ok (if (as_millis duration <=? 9223372036854775807)%N
       then wall_clock_after (as_millis duration) w else None), w).

(** ** [converge]

    [quiet] is when the activity was first seen as it is now, with its label, and the activity
    last seen. *)
Definition Quiet : Type := option (N * option string * list string).

Section loop.
Context (policy : ReviewConvergencePolicy) (thread_fuel : nat) (number : N) (pr_url : string)
        (expected_head_sha : option string).

Definition timed_out {A} (head : option string) : io W A := lift (throw (timeout_error policy head)).

(** When the activity has been as it is: since before, unless something is new. *)
Definition quiet_since (quiet : Quiet) (activity : list string) (time : N)
    : io W (N * option string) :=
  match quiet with
  | Some (since, label, previous) =>
      if has_new_activity previous activity
      then label ← wall_clock_quiet_until (cp_quiet_period policy); mret (time, label)
      else mret (since, label)
  | None => label ← wall_clock_quiet_until (cp_quiet_period policy); mret (time, label)
  end.

Fixpoint converge_from (fuel : nat) (started deadline : N) (quiet : Quiet)
    : io W ConvergenceSnapshot :=
  match fuel with
  | 0 => lift (Err OutOfFuel)
  | S fuel =>
      time ← now;
      if (deadline - time =? 0)%N then timed_out expected_head_sha
      else
      '(reviews, threads) ←
        read_activity policy thread_fuel number pr_url expected_head_sha None (deadline - time);
      time ← now;
      let snapshot := build_snapshot policy reviews threads (duration_ms (time - started)) in
      time ← now;
      if (deadline <=? time)%N then timed_out (Some (cv_head_sha snapshot))
      else if negb (bool_decide (length (cv_changes_requested_by snapshot) = 0)) then
        lift (throw (changes_requested_error snapshot))
      else if bool_decide (length (cv_semantic_activity snapshot) = 0)
              || (cp_quiet_period policy =? 0)%N then mret snapshot
      else
      time ← now;
      '(since, label) ← quiet_since quiet (cv_semantic_activity snapshot) time;
      if (cp_quiet_period policy <=? time - since)%N then
        mret (with_wait snapshot (cv_latest_activity_at snapshot) label (duration_ms (time - started)))
      else if (deadline <=? time)%N then timed_out (Some (cv_head_sha snapshot))
      else
      _ ← sleep (N.min (N.min POLL_INTERVAL (cp_quiet_period policy - (time - since)))
                   (deadline - time));
      converge_from fuel started deadline (Some (since, label, cv_semantic_activity snapshot))
  end.

Definition converge (fuel : nat) : io W ConvergenceSnapshot :=
  started ← now;
  converge_from fuel started (default started (instant_checked_add started (cp_timeout policy))) None.

(** ** [recheck_before_merge_with_thread_override] *)
Definition recheck_before_merge (previous : ConvergenceSnapshot) (allow_unresolved_threads : bool)
    : io W ConvergenceSnapshot :=
  '(reviews, threads) ← read_activity policy thread_fuel number pr_url expected_head_sha
     (Some (cv_head_sha previous)) (cp_timeout policy);
  let thread_gate :=
    if allow_unresolved_threads then Ok tt else ensure_payload_resolved threads in
  let snapshot := build_snapshot policy reviews threads (cv_waited_ms previous) in
  if negb (bool_decide (length (cv_changes_requested_by snapshot) = 0)) then
    lift (throw (changes_requested_error snapshot))
  else
  _ ← lift thread_gate;
  if cv_semantic_digest previous !=? cv_semantic_digest snapshot then
    lift (throw (validation error_schema "review_convergence_activity_changed"
      "the combined semantic review/thread snapshot changed after convergence and before merge"
      (Some ("head_sha=" +:+ cv_head_sha snapshot +:+ "; previous_digest="
        +:+ cv_semantic_digest previous +:+ "; current_digest=" +:+ cv_semantic_digest snapshot))))
  else
  mret (with_wait snapshot (cv_latest_activity_at previous) (cv_quiet_until previous)
          (cv_waited_ms snapshot)).
End loop.
End convergence.
