(* ===== verification/Checks.v ===== *)
(** * Required checks

    The check rows of [crates/forge-cli/src/ops/pr_checks.rs] and their aggregate, the snapshot
    the merge gate takes on GitHub ([ops/pr_checks/github_gate.rs]): the rows of the exact head
    against the configured requirements; and the gate itself ([ops/required_check_gate.rs]). *)
From S2P Require Import Prelude RStr Collections Error Types Markers ReviewLoop Provider Hosts.
From S2P Require Import Append Report.
From stdpp Require Import options.

(** ** pr_checks.rs *)
Inductive CheckState : Type :=
  CSuccess | CFailure | CPending | CCancelled | CNeutral | CSkipped | CTimedOut.

Definition check_as_str (s : CheckState) : string :=
  match s with
  | CSuccess => "success" | CFailure => "failure" | CPending => "pending"
  | CCancelled => "cancelled" | CNeutral => "neutral" | CSkipped => "skipped"
  | CTimedOut => "timed_out"
  end.

Record CheckItem := mk_CheckItem {
  ck_name : string; ck_state : string; ck_url : option string; ck_conclusion : option string;
  ck_workflow : option string; ck_required : bool; ck_started_at : option string;
  ck_completed_at : option string;
}.

Record FailedCheck := mk_FailedCheck {
  fc_name : string; fc_url : option string; fc_conclusion : option string }.
Record PendingCheck := mk_PendingCheck { pc_name : string; pc_url : option string }.

Record PrChecks := mk_PrChecks {
  pk_provider : string; pk_state : string; pk_gate_scope : string; pk_required_count : N;
  pk_success_count : N; pk_failed : list FailedCheck; pk_pending : list PendingCheck;
  pk_checks : list CheckItem; pk_duration_ms : option N; pk_warnings : list string;
}.

(** The first of these keys whose value is a non-empty string. *)
Definition first_string (value : JsonValue) (keys : list string) : option string :=
  find_map (λ key, nonempty (get_str key value)) keys.

Definition nested_string (value : JsonValue) (path : list string) : option string :=
  nonempty (pointer path value ≫= as_str).

Definition checks_missing (key : string) : ForgeError :=
  software error_schema ("missing required field '" +:+ key +:+ "' in pr checks JSON") None.

Definition total_count_exceeds (value : JsonValue) (rows : nat) : bool :=
  is_some_and (get "total_count" value ≫= as_u64) (λ count, N.of_nat rows <? count)%N.

Definition KNOWN_CONCLUSIONS : list (string * CheckState) :=
  [("success", CSuccess); ("failure", CFailure); ("action_required", CFailure);
   ("stale", CFailure); ("startup_failure", CFailure); ("cancelled", CCancelled);
   ("skipped", CSkipped); ("neutral", CNeutral); ("timed_out", CTimedOut)].
Definition BUCKETS : list (string * CheckState) :=
  [("pass", CSuccess); ("fail", CFailure); ("pending", CPending); ("skipping", CSkipped);
   ("cancel", CCancelled)].
Definition RAW_STATES : list (string * CheckState) :=
  [("success", CSuccess); ("pass", CSuccess); ("completed", CSuccess);
   ("failure", CFailure); ("failed", CFailure); ("error", CFailure);
   ("action_required", CFailure); ("stale", CFailure); ("startup_failure", CFailure);
   ("pending", CPending); ("queued", CPending); ("in_progress", CPending);
   ("waiting", CPending); ("requested", CPending); ("expected", CPending);
   ("cancelled", CCancelled); ("canceled", CCancelled); ("skipped", CSkipped);
   ("skipping", CSkipped); ("neutral", CNeutral); ("timed_out", CTimedOut);
   ("timeout", CTimedOut)].

(** The arm of a [match] on the lower-cased text. *)
Definition arm (table : list (string * CheckState)) (text : option string) : option CheckState :=
  text ≫= λ text, snd <$> find_first (λ row, row.1 ==? to_ascii_lowercase text) table.

Definition normalize_github_state (bucket conclusion raw_state : option string) : CheckState :=
  match arm KNOWN_CONCLUSIONS conclusion with
  | Some state => state
  | None =>
      match arm BUCKETS bucket with
      | Some state => state
      | None => default CPending (arm RAW_STATES raw_state)
      end
  end.

Definition is_known_github_conclusion (conclusion : option string) : bool :=
  is_some (arm KNOWN_CONCLUSIONS conclusion).

(** A completed check run without a known conclusion is still pending. *)
Definition normalize_github_rollup_state (kind conclusion raw_state : option string) : CheckState :=
  if (kind ==? Some "CheckRun") && (to_ascii_lowercase <$> raw_state ==? Some "completed")
     && negb (is_known_github_conclusion conclusion)
  then CPending
  else normalize_github_state None conclusion raw_state.

Definition parse_github_rest_check_run (value : JsonValue) (force_required : bool)
    : exec CheckItem :=
  name ← ok_or (Fail (checks_missing "name")) (first_string value ["name"]);
  let conclusion := first_string value ["conclusion"] in
  let raw_state := first_string value ["status"] in
  let workflow :=
    match nested_string value ["check_suite"; "workflow_run"; "name"] with
    | Some workflow => Some workflow
    | None =>
        match first_string value ["workflow_name"; "workflowName"; "workflow"] with
        | Some workflow => Some workflow
        | None => nested_string value ["app"; "name"]
        end
    end in
  Ok {| ck_name := name;
        ck_state := check_as_str (normalize_github_rollup_state (Some "CheckRun") conclusion raw_state);
        ck_url := first_string value ["details_url"; "detailsUrl"; "html_url"; "htmlUrl"];
        ck_conclusion := conclusion; ck_workflow := workflow; ck_required := force_required;
        ck_started_at := first_string value ["started_at"; "startedAt"];
        ck_completed_at := first_string value ["completed_at"; "completedAt"] |}.

Definition parse_github_rest_status (value : JsonValue) (force_required : bool) : exec CheckItem :=
  name ← ok_or (Fail (checks_missing "context")) (first_string value ["context"]);
  Ok {| ck_name := name;
        ck_state := check_as_str (normalize_github_state None None (first_string value ["state"]));
        ck_url := first_string value ["target_url"; "targetUrl"]; ck_conclusion := None;
        ck_workflow := None; ck_required := force_required;
        ck_started_at := first_string value ["created_at"; "createdAt"];
        ck_completed_at := first_string value ["updated_at"; "updatedAt"] |}.

(** *** The aggregate *)
Definition in_state (states : list string) (c : CheckItem) : bool := bool_decide (ck_state c ∈ states).

Definition failed_check (c : CheckItem) : FailedCheck :=
  mk_FailedCheck (ck_name c) (ck_url c) (ck_conclusion c).
Definition pending_check (c : CheckItem) : PendingCheck := mk_PendingCheck (ck_name c) (ck_url c).

Definition aggregate (provider : Provider) (checks : list CheckItem) (required_only : bool)
    (duration_ms : option N) : PrChecks :=
  let gate_scope :=
    if negb required_only then "visible"
    else if (provider ==? GitHub) && negb (existsb ck_required checks) then "visible_fallback"
    else "required" in
  let gating := if required_only then List.filter ck_required checks else checks in
  let has state := existsb (in_state [state]) gating in
  {| pk_provider := provider_as_str provider;
     pk_state := if has "failure" then "failure"
                 else if has "timed_out" then "timed_out"
                 else if has "cancelled" then "cancelled"
                 else if has "pending" then "pending" else "success";
     pk_gate_scope := gate_scope; pk_required_count := N.of_nat (length gating);
     pk_success_count := count_if (in_state ["success"]) gating;
     pk_failed := failed_check <$> List.filter (in_state ["failure"; "cancelled"; "timed_out"]) gating;
     pk_pending := pending_check <$> List.filter (in_state ["pending"]) gating;
     pk_checks := checks; pk_duration_ms := duration_ms; pk_warnings := [] |}.

(** ** github_gate.rs *)

(** [url::form_urlencoded::byte_serialize], of a third-party crate. *)
Class UrlEncode := byte_serialize : string → string.

Record Head := mk_Head { hd_sha : string; hd_base : string; hd_repo : string }.
#[export] Instance Head_eq_dec : EqDecision Head.
Proof. solve_decision. Defined.

Record Requirement := mk_Requirement { rq_name : string; rq_app : option Z }.
#[export] Instance Requirement_eq_dec : EqDecision Requirement.
Proof. solve_decision. Defined.

(** A row of the head: the check, the app that ran it, and whether it is a commit status. *)
Record Row := mk_Row { rw_check : CheckItem; rw_app : option Z; rw_is_status : bool }.

Definition invalid_checks (surface : string) : ForgeError :=
  validation error_schema "checks_snapshot_incomplete"
    ("cannot establish complete " +:+ surface +:+ " for the current head") None.

Definition or_invalid {A} (surface : string) (o : option A) : exec A :=
  ok_or (Fail (invalid_checks surface)) o.

Definition pending_row (name : string) : CheckItem :=
  {| ck_name := name; ck_state := "pending"; ck_url := None; ck_conclusion := None;
     ck_workflow := None; ck_required := true; ck_started_at := None; ck_completed_at := None |}.

Definition requirement (value : JsonValue) (app_key : string) : exec Requirement :=
  name ← or_invalid "required check configuration" (nonempty (get_str "context" value));
  app ← match get app_key value with
        | None | Some JNull => Ok None
        | Some v => n ← or_invalid "required check application" (as_i64 v); Ok (Some n)
        end;
  Ok (mk_Requirement name (app ≫= λ id, if (0 <? id)%Z then Some id else None)).

(** A row of the branch protection names its app under [app.databaseId]. *)
Definition protection_requirement (row : JsonValue) : exec Requirement :=
  item ← requirement row "app_id";
  app ← match pointer ["app"; "databaseId"] row with
        | None | Some JNull => Ok None
        | Some v => n ← or_invalid "required check application" (as_i64 v); Ok (Some n)
        end;
  Ok (mk_Requirement (rq_name item) app).

Definition protection_requirements (value : JsonValue) : exec (list Requirement) :=
  if is_some_and (get "errors" value)
       (λ errors, is_none_or (as_array errors) (λ l, negb (bool_decide (length l = 0))))
  then throw (invalid_checks "branch protection")
  else
  branch ← or_invalid "base branch protection"
    (v ← pointer ["data"; "repository"; "ref"] value; if is_object v then Some v else None);
  protection ← or_invalid "base branch protection" (get "branchProtectionRule" branch);
  if is_null protection then Ok []
  else
  rows ← or_invalid "required check configuration"
    (get "requiredStatusChecks" protection ≫= as_array);
  mapR protection_requirement rows.

(** [if !required.contains(&item) { required.push(item) }] over the rows of one rule. *)
Definition add_rule (required : list Requirement) (rule : JsonValue) : exec (list Requirement) :=
  if get_str "type" rule ==? Some "workflows" then throw (invalid_checks "ruleset required workflows")
  else if get_str "type" rule ==? Some "required_status_checks" then
    rows ← or_invalid "ruleset required checks"
      (pointer ["parameters"; "required_status_checks"] rule ≫= as_array);
    foldM (λ required row,
      item ← requirement row "integration_id";
      Ok (if bool_decide (item ∈ required) then required else required ++ [item])) required rows
  else Ok required.

Definition is_free_plan_rules_limitation (error : ForgeError) : bool :=
  (kind error ==? "backend_error")
  && is_some_and (detail error) (λ detail,
       contains "(HTTP 403)" detail
       && contains "Upgrade to GitHub Pro or make this repository public to enable this feature."
            detail).

(** One requirement against the rows: those of its name it makes required, and whether a row of
    the configured app is among them. *)
Definition matches_app (requirement : Requirement) (row : Row) : bool :=
  is_none_or (rq_app requirement) (λ id, rw_app row ==? Some id).

Definition with_required (check : CheckItem) (required : bool) : CheckItem :=
  {| ck_name := ck_name check; ck_state := ck_state check; ck_url := ck_url check;
     ck_conclusion := ck_conclusion check; ck_workflow := ck_workflow check;
     ck_required := required; ck_started_at := ck_started_at check;
     ck_completed_at := ck_completed_at check |}.

Definition mark_row (requirement : Requirement) (row : Row) : Row :=
  if ck_name (rw_check row) ==? rq_name requirement then
    mk_Row (with_required (rw_check row)
              (ck_required (rw_check row) || matches_app requirement row || rw_is_status row))
      (rw_app row) (rw_is_status row)
  else row.

Definition found_row (requirement : Requirement) (row : Row) : bool :=
  (ck_name (rw_check row) ==? rq_name requirement) && matches_app requirement row.

Definition mark_requirement (acc : list Row * list CheckItem) (requirement : Requirement)
    : list Row * list CheckItem :=
  (mark_row requirement <$> acc.1,
   if existsb (found_row requirement) acc.1 then acc.2
   else acc.2 ++ [pending_row (rq_name requirement)]).

Section gate.
Context `{JT : !JsonText, UP : !UrlParse, UE : !UrlEncode} {W : Type} `{BE : !Backend W}.
(** The host and the repository of the context. *)
Context (host : string) (repo : option string).

Definition checks_json (surface stdout : string) : exec JsonValue :=
  map_err (λ _ : string, Fail (invalid_checks surface)) (value_from_str stdout).

Definition parse_head (value : JsonValue) : exec Head :=
  sha ← or_invalid "PR head SHA" (first_string value ["headRefOid"]);
  base ← or_invalid "PR base branch" (first_string value ["baseRefName"]);
  pr_url ← or_invalid "PR repository URL" (first_string value ["url"]);
  url ← or_invalid "PR repository URL" (url_parse pr_url);
  url_host ← or_invalid "PR repository authority" (url_host url);
  let authority := from_option (λ port, url_host +:+ ":" +:+ dec port) url_host (url_port url) in
  if negb (bool_decide (url_scheme url ∈ ["https"; "http"]))
     || negb (authorities_equal GitHub authority host)
  then throw (invalid_checks "PR repository authority")
  else
  path ← or_invalid "PR repository URL" (strip_prefix "/" (url_path url));
  match split_char "/" path with
  | [owner; name; kind; _] =>
      if (kind !=? "pull") || is_empty owner || is_empty name
      then throw (invalid_checks "PR head metadata")
      else
      let slug := owner +:+ "/" +:+ name in
      if is_some_and repo (λ expected, negb (eq_ignore_ascii_case expected slug))
      then throw (invalid_checks "PR repository binding")
      else Ok (mk_Head sha base slug)
  | _ => throw (invalid_checks "PR head metadata")
  end.

Definition read_head (id : string) : io W Head :=
  stdout ← call (PrHead id);
  value ← lift (checks_json "PR head metadata" stdout);
  lift (parse_head value).

Definition api (endpoint : string) : io W JsonValue :=
  stdout ← call (ApiGet endpoint);
  lift (checks_json "GitHub checks response" stdout).

Definition requirements (head : Head) : io W (list Requirement) :=
  '(owner, name) ← lift (or_invalid "repository" (split_once "/" (hd_repo head)));
  stdout ← call (BranchProtectionQuery owner name ("refs/heads/" +:+ hd_base head));
  value ← lift (checks_json "branch protection" stdout);
  required ← lift (protection_requirements value);
  rules ← attempt (api ("repos/" +:+ hd_repo head +:+ "/rules/branches/"
                        +:+ byte_serialize (hd_base head) +:+ "?per_page=100"));
  match rules with
  | Err (Fail error) =>
      if is_free_plan_rules_limitation error then mret required else lift (throw error)
  | Err e => lift (Err e)
  | Ok rules =>
      rules ← lift (or_invalid "base branch rules" (as_array rules));
      if (100 <=? length rules)%nat then lift (throw (invalid_checks "base branch rules pagination"))
      else lift (foldM add_rule required rules)
  end.

Definition parse_rows (runs statuses : list JsonValue) : exec (list Row) :=
  runs ← mapR (λ row, check ← parse_github_rest_check_run row false;
                      Ok (mk_Row check (pointer ["app"; "id"] row ≫= as_i64) false)) runs;
  statuses ← mapR (λ row, check ← parse_github_rest_status row false;
                          Ok (mk_Row check None true)) statuses;
  Ok (runs ++ statuses).

Definition gate_rows (rows : list Row) (required : list Requirement) (truncated head_changed : bool)
    : list CheckItem :=
  let '(rows, missing) := fold_left mark_requirement required (rows, []) in
  let checks := (rw_check <$> rows) ++ missing in
  let checks := if truncated then checks ++ [pending_row "github-checks-pagination-truncated"]
                else checks in
  if head_changed then [pending_row "github-pr-head-changed"] else checks.

(** [github_gate::snapshot]: the gate's snapshot on GitHub. *)
Definition gate_snapshot (id : string) (required_only : bool) : io W PrChecks :=
  head ← read_head id;
  let commit := "repos/" +:+ hd_repo head +:+ "/commits/" +:+ hd_sha head in
  runs ← api (commit +:+ "/check-runs?per_page=100");
  statuses ← api (commit +:+ "/status?per_page=100");
  runs_rows ← lift (or_invalid "head check runs" (get "check_runs" runs ≫= as_array));
  status_rows ← lift (or_invalid "head statuses" (get "statuses" statuses ≫= as_array));
  rows ← lift (parse_rows runs_rows status_rows);
  required ← requirements head;
  let truncated := total_count_exceeds runs (length runs_rows)
                   || total_count_exceeds statuses (length status_rows) in
  again ← read_head id;
  mret (aggregate GitHub (gate_rows rows required truncated (again !=? head)) required_only None).
End gate.

(** ** required_check_gate.rs *)
Inductive CheckPresence : Type := PresenceRequired | PresenceOptional.
#[export] Instance CheckPresence_eq_dec : EqDecision CheckPresence.
Proof. solve_decision. Defined.

Definition from_allow_no_checks (allow_no_checks : bool) : CheckPresence :=
  if allow_no_checks then PresenceOptional else PresenceRequired.

Definition nothing_was_checked (snapshot : PrChecks) : bool :=
  (pk_required_count snapshot =? 0)%N && bool_decide (length (pk_checks snapshot) = 0).

Definition checks_schema : string := "cli.forge-cli.pr.checks.v1".

Definition NOT_REGISTERED_HINT : string :=
  "if this repository genuinely configures no CI, land `[checks] none = true` with a `none_reason` in .forge-cli.toml on the base branch, or pass --allow-no-checks".

Definition classify (snapshot : PrChecks) (presence : CheckPresence) : exec PrChecks :=
  if negb (bool_decide (length (pk_failed snapshot) = 0)) then
    throw (runtime_failure checks_schema "checks_failed"
      (dec (N.of_nat (length (pk_failed snapshot))) +:+ " required check(s) failed: "
        +:+ join ", " (fc_name <$> pk_failed snapshot)) None)
  else if negb (bool_decide (length (pk_pending snapshot) = 0)) then
    throw (validation checks_schema "checks_pending"
      (dec (N.of_nat (length (pk_pending snapshot))) +:+ " required check(s) still pending: "
        +:+ join ", " (pc_name <$> pk_pending snapshot)) None)
  else if (presence ==? PresenceRequired) && nothing_was_checked snapshot then
    throw (validation checks_schema "checks_not_registered"
      ("no required checks are registered for this head, so nothing proves it was checked; wait for the provider to register them, or "
        +:+ NOT_REGISTERED_HINT) None)
  else Ok snapshot.

Definition ensure_required_checks_green `{!JsonText, !UrlParse, !UrlEncode} {W : Type} `{!Backend W}
    (host : string) (repo : option string) (pr_id : string) (presence : CheckPresence)
    : io W PrChecks :=
  snapshot ← gate_snapshot host repo pr_id true;
  lift (classify snapshot presence).
