(* ===== verification/Tasks.v ===== *)
(** * Task lists of a description

    [crates/forge-cli/src/ops/pr_tasks.rs]: the task-list items of a Markdown description, and
    the merge rule that none of them is unchecked. *)
From S2P Require Import Prelude RStr Collections Error Types Provider PrView.
From stdpp Require Import options.

Record PrTaskItem := mk_TaskItem {
  ti_checked : bool; ti_marker : ascii; ti_text : string; ti_line : N }.

(** ** One line *)

(** The digits at the front of a text, and how many. *)
Fixpoint digit_prefix (s : string) : nat * string :=
  match s with
  | String c rest =>
      if is_ascii_digit c then let '(n, rest) := digit_prefix rest in (S n, rest) else (0, s)
  | EmptyString => (0, EmptyString)
  end.

Definition strip_list_marker (trimmed : string) : option string :=
  match find_map (λ bullet, strip_prefix bullet trimmed) ["- "; "* "; "+ "] with
  | Some rest => Some rest
  | None =>
      let '(digits, after) := digit_prefix trimmed in
      if (digits =? 0)%nat || (9 <? digits)%nat then None
      else
      after ← match strip_prefix "." after with
              | Some after => Some after
              | None => strip_prefix ")" after
              end;
      strip_prefix " " after
  end.

Definition TASK_MARKERS : list ascii := [" "%char; "x"%char; "X"%char; "~"%char].

(** Whether the box is checked, its marker and the text after it. *)
Definition parse_task_line (trimmed : string) : option (bool * ascii * string) :=
  after_marker ← strip_list_marker trimmed;
  match trim_start after_marker with
  | String open (String marker (String close tail)) =>
      if negb (bool_decide (open = "["%char)) || negb (bool_decide (close = "]"%char))
         || negb (bool_decide (marker ∈ TASK_MARKERS))
      then None
      else
      match tail with
      | EmptyString => Some (negb (bool_decide (marker = " "%char)), marker, EmptyString)
      | String c _ =>
          if bool_decide (c ∈ [" "%char; "009"%char])
          then Some (negb (bool_decide (marker = " "%char)), marker, trim tail) else None
      end
  | _ => None
  end.

(** ** The whole description

    The state of the scan: the items, the fence that is open, and the column where the content
    of the innermost open list item starts. *)
Record Scan := mk_Scan {
  sc_items : list PrTaskItem; sc_fence : option ascii; sc_list_content_indent : option N }.

Definition fence_text (open : ascii) : string :=
  if bool_decide (open = "`"%char) then "```" else "~~~".

Definition scan_line (s : Scan) (numbered : N * string) : Scan :=
  let '(number, line) := numbered in
  let trimmed := trim_start line in
  match sc_fence s with
  | Some open =>
      if starts_with (fence_text open) trimmed
      then mk_Scan (sc_items s) None (sc_list_content_indent s) else s
  | None =>
      if starts_with "```" trimmed then mk_Scan (sc_items s) (Some "`"%char) (sc_list_content_indent s)
      else if starts_with "~~~" trimmed then mk_Scan (sc_items s) (Some "~"%char) (sc_list_content_indent s)
      else if is_empty trimmed then s
      else
      let indent := (len line - len trimmed)%N in
      let code_threshold := from_option (λ content, content + 4)%N 4%N (sc_list_content_indent s) in
      if (code_threshold <=? indent)%N then s
      else
      match parse_task_line trimmed with
      | Some (checked, marker, text) =>
          mk_Scan (sc_items s ++ [mk_TaskItem checked marker text number]) None (Some (indent + 2)%N)
      | None =>
          if is_some (strip_list_marker trimmed) then mk_Scan (sc_items s) None (Some (indent + 2)%N)
          else if (indent <? 4)%N then mk_Scan (sc_items s) None None
          else s
      end
  end.

Definition numbered_lines (body : string) : list (N * string) :=
  imap (λ idx line, (N.of_nat idx + 1, line)%N) (lines body).

Definition scan_lines (s : Scan) (l : list (N * string)) : Scan := fold_left scan_line l s.

Definition parse_task_items (body : string) : list PrTaskItem :=
  sc_items (scan_lines (mk_Scan [] None None) (numbered_lines body)).

(** ** Merge rule 14 *)
Definition unchecked_items (body : string) : list PrTaskItem :=
  List.filter (λ i, negb (ti_checked i)) (parse_task_items body).

Definition ensure_tasklist_complete (body : string) : exec unit :=
  let unchecked := unchecked_items body in
  if bool_decide (length unchecked = 0) then Ok tt
  else throw (validation error_schema "unchecked_task_items"
    (dec (N.of_nat (length unchecked)) +:+ " unchecked task-list item(s) in the PR/MR description; disposition each (complete and check it off, or rewrite it as deferred with a follow-up ref) or pass --allow-unchecked-tasks with --allow-unchecked-tasks-reason to bypass")
    (Some (join nl ((λ i, "- line " +:+ dec (ti_line i) +:+ ": " +:+ ti_text i) <$> unchecked)))).

(** ** The [pr tasks] view *)
Record TasksView := mk_TasksView { tv_number : N; tv_url : string; tv_body : string }.

Definition parse_tasks_view `{!JsonText} (provider : Provider) (stdout : string) : exec TasksView :=
  value ← map_err (λ e, Fail (software error_schema "pr view returned invalid JSON" (Some e)))
    (value_from_str (trim stdout));
  let '(number_key, url_key, body_key) :=
    match provider with
    | GitHub | Local => ("number", "url", "body")
    | GitLab => ("iid", "web_url", "description")
    end in
  number ← ok_or (Fail (software error_schema "pr view response is missing the PR/MR number"
      (Some ("stdout=" +:+ debug_str stdout)))) (get number_key value ≫= as_u64);
  Ok (mk_TasksView number (default EmptyString (get_str url_key value))
        (default EmptyString (get_str body_key value))).
