(* ===== verification/Branches.v ===== *)
(** * Stacked branches

    [crates/forge-cli/src/ops/stacked_branch.rs] on GitHub: a source branch that open pull
    requests still target is kept when its own pull request merges. *)
From S2P Require Import Prelude RStr Collections Error Types Provider Append Report.
From stdpp Require Import options.

(** [gitlab_api::percent_encode]: the unreserved bytes of a URL stand for themselves. *)
Definition unreserved (c : ascii) : bool :=
  is_ascii_alphanumeric c || bool_decide (c ∈ ["-"%char; "."%char; "_"%char; "~"%char]).

Definition upper_hex (n : N) : ascii := ascii_of_N (if (n <? 10)%N then 48 + n else 55 + n).

Fixpoint percent_encode (value : string) : string :=
  match value with
  | EmptyString => EmptyString
  | String c value =>
      if unreserved c then String c (percent_encode value)
      else String "%" (String (upper_hex (N_of_ascii c / 16))
             (String (upper_hex (N_of_ascii c mod 16)) (percent_encode value)))
  end.

Record DependentPr := mk_DependentPr { dp_number : N; dp_url : string }.
#[export] Instance DependentPr_eq_dec : EqDecision DependentPr.
Proof. solve_decision. Defined.

Record BranchCleanup := mk_BranchCleanup {
  bc_branch : string; bc_dependents : list DependentPr; bc_overridden : bool; bc_message : string }.

Definition dependencies_unavailable : ForgeError :=
  unavailable error_schema "branch_dependencies_unavailable"
    "could not verify open PR/MR branch dependencies; merge and branch deletion deferred" None.

Definition or_unavailable {A} (o : option A) : exec A := ok_or (Fail dependencies_unavailable) o.
(** [map_err(|_| unavailable())]. *)
Definition any_unavailable {E A} (m : result E A) : exec A :=
  map_err (λ _, Fail dependencies_unavailable) m.

(** One row of the list of open pull requests: a dependent, unless it is the merging one. *)
Definition dependent_row (branch : string) (merging : option N) (row : JsonValue)
    : exec (option DependentPr) :=
  number ← or_unavailable (get "number" row ≫= as_u64);
  state ← or_unavailable (get "state" row ≫= as_str);
  base ← or_unavailable (pointer ["base"; "ref"] row ≫= as_str);
  url ← or_unavailable (nonempty (get "html_url" row ≫= as_str));
  Ok (if (Some number !=? merging) && (state ==? "open") && (base ==? branch)
      then Some (mk_DependentPr number url) else None).

Definition collect_rows (branch : string) (merging : option N) (rows : JsonValue)
    : exec (list DependentPr) :=
  rows ← or_unavailable (as_array rows);
  found ← mapR (dependent_row branch merging) rows;
  Ok (omap (M:=list) (λ o, o) found).

Definition collect_pages (branch : string) (merging : option N) (pages : JsonValue)
    : exec (list DependentPr) :=
  pages ← or_unavailable (as_array pages);
  found ← mapR (collect_rows branch merging) pages;
  Ok (concat found).

(** [sort_by_key(|pr| pr.number)], which is stable, and [dedup_by_key(|pr| pr.number)]. *)
Definition by_number (a b : DependentPr) : Prop := (dp_number a ≤ dp_number b)%N.
#[export] Instance by_number_dec : RelDecision by_number := λ a b, decide (dp_number a ≤ dp_number b)%N.

Fixpoint dedup_numbers (l : list DependentPr) : list DependentPr :=
  match l with
  | x :: l =>
      match dedup_numbers l with
      | y :: r => if dp_number x ==? dp_number y then x :: r else x :: y :: r
      | [] => [x]
      end
  | [] => []
  end.

Definition numbers_text (l : list DependentPr) : string :=
  join ", " ((λ p, "#" +:+ dec (dp_number p)) <$> l).

Section branches.
Context `{JT : !JsonText} {W : Type} `{BE : !Backend W}.

Definition open_pulls (source branch : string) : string :=
  "repos/" +:+ source +:+ "/pulls?state=open&base=" +:+ percent_encode branch +:+ "&per_page=100".

(** GitHub can delete a branch even when it is not asked to. *)
Definition refuse_auto_delete (target_repo numbers : string) : io W unit :=
  output ← attempt (call (ApiGet ("repos/" +:+ target_repo)));
  stdout ← lift (any_unavailable output);
  repo ← lift (any_unavailable (value_from_str stdout));
  auto_delete ← lift (or_unavailable (get "delete_branch_on_merge" repo ≫= as_bool));
  if auto_delete : bool then
    lift (throw (validation error_schema "stacked_branch_auto_delete"
      ("merge deferred: automatic branch deletion could close dependent PRs " +:+ numbers
       +:+ "; retarget them or disable automatic deletion before merging") None))
  else mret tt.

Definition check (target_repo : string) (source_repo : option string) (branch : string)
    (merging : N) (overridden : bool) : io W (option BranchCleanup) :=
  source ← lift (or_unavailable source_repo);
  let same_repository := eq_ignore_ascii_case source target_repo in
  let merging := if same_repository then Some merging else None in
  output ← attempt (call (ApiPages (open_pulls source branch)));
  stdout ← lift (any_unavailable output);
  pages ← lift (any_unavailable (value_from_str stdout));
  found ← lift (collect_pages branch merging pages);
  if bool_decide (length found = 0) then mret None
  else
  let dependents := dedup_numbers (merge_sort by_number found) in
  let numbers := numbers_text dependents in
  _ ← if negb overridden && same_repository then refuse_auto_delete target_repo numbers else mret tt;
  let message :=
    if overridden then
      "branch deletion override: '" +:+ branch +:+ "' is the base of open PRs/MRs " +:+ numbers
      +:+ "; deletion may close them"
    else
      "branch deletion skipped: '" +:+ branch +:+ "' is the base of open PRs/MRs " +:+ numbers
      +:+ "; retarget them before cleanup or explicitly use --delete-branch-even-if-stacked" in
  mret (Some (mk_BranchCleanup branch dependents overridden message)).
End branches.
