(* ===== verification/Provenance.v ===== *)
(** * The comparison of a pull request, file by file

    [crates/forge-cli/src/ops/pr_review_handoff/test_integrity/provenance.rs] with
    [provenance/declaration.rs], [provenance/ordinary.rs] and [provenance/residual.rs]: the
    complete list of changed files, the patches of those that are inspected, and the imports
    whose files are verified against a pinned upstream tree instead. *)
From S2P Require Import Prelude RStr Collections Error Types Markers Identity Handoff Provider.
From S2P Require Import Checks TestDiff.
From stdpp Require Import options.

(** ** Third-party code: base64, SHA-1, and [git diff --no-index] over two texts *)
Class Base64Decode := base64_decode : string → option string.
Class Sha1Hex := sha1_hex : string → string.

Inductive ProcessFailure : Type := OutputLimit | OtherFailure.
(** The exit code and the output of the process, in a directory of its own. *)
Class TextDiff (W : Type) :=
  no_index_diff : string → string → W → result ProcessFailure (option Z * string) * W.

(** ** Records *)
Record Subject := mk_Subject {
  sj_head : string; sj_base : string; sj_author : string; sj_body : string;
  sj_changed_files : option N }.
#[export] Instance Subject_eq_dec : EqDecision Subject.
Proof. solve_decision. Defined.

Record ChangedFile := mk_ChangedFile {
  cf_filename : string; cf_status : string; cf_sha : string; cf_additions : N; cf_deletions : N;
  cf_previous_filename : option string; cf_patch : option string }.
#[export] Instance ChangedFile_eq_dec : EqDecision ChangedFile.
Proof. solve_decision. Defined.

Record Mapping := mk_Mapping { mp_destination : string; mp_source : string }.
Record Declaration := mk_Declaration {
  dc_repository : string; dc_commit : string; dc_mappings : list Mapping;
  dc_adaptations : list string; dc_additions : list string }.

Record GitCommit := mk_GitCommit { gc_sha : string; gc_tree : string }.
Record Entry := mk_Entry { en_path : string; en_sha : string; en_mode : string; en_kind : string }.
Record Tree := mk_Tree { tr_sha : string; tr_truncated : bool; tr_tree : list Entry }.
Record Content := mk_Content { ct_sha : string; ct_size : N; ct_kind : string }.
Record Blob := mk_Blob { bb_sha : string; bb_size : N; bb_encoding : string; bb_content : string }.
Record Object := mk_Object { ob_sha : string }.

(** The serde derives of these records. *)
Class ChangeSerde := {
  subject_serde :: Deserialize Subject;
  files_serde :: Deserialize (list ChangedFile);
  declaration_serde :: Deserialize Declaration;
  commit_serde :: Deserialize GitCommit;
  tree_serde :: Deserialize Tree;
  content_serde :: Deserialize Content;
  blob_serde :: Deserialize Blob;
  object_serde :: Deserialize Object;
  manifest_bytes :: Serialize (list (string * string * string));
  files_bytes :: Serialize (list ChangedFile);
}.

(** [json!] of a record. *)
Definition opt_json (o : option string) : JsonValue := from_option JString JNull o.
Definition strings_json (l : list string) : JsonValue := JArray (JString <$> l).
Definition changed_file_json (f : ChangedFile) : JsonValue :=
  JObject [("filename", JString (cf_filename f)); ("status", JString (cf_status f));
    ("sha", JString (cf_sha f)); ("additions", JNumber (cf_additions f));
    ("deletions", JNumber (cf_deletions f));
    ("previous_filename", opt_json (cf_previous_filename f)); ("patch", opt_json (cf_patch f))].
Definition mapping_json (m : Mapping) : JsonValue :=
  JObject [("destination", JString (mp_destination m)); ("source", JString (mp_source m))].

Definition with_patch (f : ChangedFile) (patch : option string) : ChangedFile :=
  mk_ChangedFile (cf_filename f) (cf_status f) (cf_sha f) (cf_additions f) (cf_deletions f)
    (cf_previous_filename f) patch.

(** ** Errors *)
Definition PREFIX : string := "provenance-import-v1" +:+ nl.

Section errors.
Context `{JT : !JsonText}.

Definition refusal (kind message recovery : string) : ForgeError :=
  let again := kind ==? "provenance_import_incomplete" in
  validation_with_details handoff_schema kind message
    (JObject [("next_action", JString (if again then "retry_complete_upstream"
                                       else "correct_provenance_declaration"));
              ("retryable", JBool again); ("recovery", JString recovery)]).

Definition upstream_incomplete : ForgeError :=
  refusal "provenance_import_incomplete" "cannot read the complete pinned upstream tree"
    "Retry with readable, non-truncated upstream commit/tree evidence. The complete upstream tree must fit provider and backend capture limits; splitting the downstream PR alone cannot repair an oversized upstream tree. No partial tree is admitted.".

Definition mismatch : ForgeError :=
  refusal "provenance_import_mismatch" "import does not match the declared upstream provenance"
    "Correct the upstream repository, full commit SHA and path mapping. Restore identical additions or list each changed mapped addition in adaptations, then declare and review its import-adaptation finding. List exact newly added mapped paths in additions; missing upstream blobs cannot be adapted.".

Definition invalid_declaration : ForgeError :=
  refusal "provenance_import_invalid" "invalid provenance import declaration"
    "Use one ## Provenance import section with repository owner/name, a full commit SHA, non-overlapping directory mappings and exact adaptation/addition paths. See crates/forge-cli/docs/specs/test-change-admission-v1.md#provenance-imports.".

(** [identity::api_read_scope], with the conversion of an identity error that carries no
    details, as those of [Target::new] (identity.rs). *)
Definition identity_failure (e : identity_stop) : stop :=
  match e with
  | Refused e =>
      let text := ie_code e +:+ from_option (λ d, ": " +:+ d) EmptyString (ie_detail e) in
      Fail (if bool_decide (ie_code e ∈ ["identity_probe_timeout"; "identity_probe_output_limit"])
            then unavailable "cli.forge-cli.identity.v1" (ie_code e) text None
            else validation "cli.forge-cli.identity.v1" (ie_code e) text None)
  | Crashed reason => Panicked reason
  end.

Definition api_read_scope `{!SecretPattern} (host repo : string) : exec Target :=
  map_err identity_failure (Target_new host repo).
End errors.

(** ** declaration.rs *)
Definition valid_path (path : string) : bool :=
  negb (is_empty path)
  && all_bytes (λ b, negb (bad_path_byte b || bool_decide (b = "\"%char))) path
  && forallb (λ p, negb (bool_decide (p ∈ [""; "."; ".."]))) (split_char "/" path).

Definition valid_prefix (path : string) : bool := is_some_and (strip_suffix "/" path) valid_path.

Definition repository_part (p : string) : bool :=
  negb (is_empty p) && negb (bool_decide (p ∈ ["."; ".."]))
  && all_bytes (λ b, is_ascii_alphanumeric b || bool_decide (b ∈ ["-"%char; "_"%char; "."%char])) p.

(** The marker of a line that opens or closes a code fence. *)
Definition fence_marker (trimmed : string) : option string :=
  if starts_with "```" trimmed then Some "```"
  else if starts_with "~~~" trimmed then Some "~~~" else None.

Definition toggle_fence (fence : option string) (marker : string) : option string :=
  if fence ==? Some marker then None else if is_none fence then Some marker else fence.

(** The scan for the section: active, found, the open fence and the section's lines. *)
Record ImportScan := mk_ImportScan {
  is_active : bool; is_found : bool; is_fence : option string; is_lines : list string }.

Definition section_line `{!JsonText} (st : ImportScan) (line : string) : exec ImportScan :=
  let trimmed := trim line in
  if is_none (is_fence st) && starts_with "## " line then
    let active := trimmed ==? "## Provenance import" in
    if active && is_found st then throw invalid_declaration
    else Ok (mk_ImportScan active (is_found st || active) (is_fence st) (is_lines st))
  else
  Ok (mk_ImportScan (is_active st) (is_found st)
        (from_option (toggle_fence (is_fence st)) (is_fence st) (fence_marker trimmed))
        (if is_active st then is_lines st ++ [line] else is_lines st)).

(** Two directory mappings of which one contains the other. *)
Definition overlaps (m m' : Mapping) : bool :=
  starts_with (mp_destination m) (mp_destination m')
  || starts_with (mp_destination m') (mp_destination m).

Fixpoint overlapping (l : list Mapping) : bool :=
  match l with [] => false | m :: l => existsb (overlaps m) l || overlapping l end.

Definition has_duplicates (l : list string) : bool :=
  negb (bool_decide (size (list_to_set l : gset string) = length l)).

Definition valid_declaration (d : Declaration) : bool :=
  let parts := split_char "/" (dc_repository d) in
  (length parts =? 2)%nat && forallb repository_part parts && valid_sha (dc_commit d)
  && negb (bool_decide (length (dc_mappings d) = 0))
  && forallb (λ m, valid_prefix (mp_destination m)
                   && (is_empty (mp_source m) || valid_prefix (mp_source m))) (dc_mappings d)
  && forallb valid_path (dc_adaptations d)
  && forallb (λ p, valid_path p && negb (bool_decide (p ∈ dc_adaptations d))
                   && existsb (λ m, starts_with (mp_destination m) p) (dc_mappings d))
       (dc_additions d)
  && negb (overlapping (dc_mappings d))
  && negb (has_duplicates (dc_adaptations d)) && negb (has_duplicates (dc_additions d)).

Section declaration.
Context `{JT : !JsonText, CS : !ChangeSerde}.

(** The text of a section that may be one JSON code fence. *)
Definition unfenced (text : string) : exec string :=
  match find_map (λ p, strip_prefix p text) ["```json" +:+ nl; "```" +:+ nl] with
  | Some rest => rest ← ok_or (Fail invalid_declaration) (strip_suffix "```" rest); Ok (trim rest)
  | None => Ok text
  end.

Definition parse_declaration (body : string) : exec (option Declaration) :=
  st ← foldM section_line (mk_ImportScan false false None []) (lines body);
  if negb (is_found st) then Ok None
  else
  text ← unfenced (trim (join nl (is_lines st)));
  d ← map_err (λ _ : string, Fail invalid_declaration) (from_str text);
  if valid_declaration d then Ok (Some d) else throw invalid_declaration.
End declaration.

(** ** provenance.rs: the changed files *)

(** The text of a patch in a diff of its own. *)
Definition residual_patch `{!JsonText} (file : ChangedFile) : exec string :=
  patch ← or_incomplete (cf_patch file);
  let starting c := N.of_nat (length (List.filter (starts_with c) (lines patch))) in
  if negb (starting "+" =? cf_additions file)%N || negb (starting "-" =? cf_deletions file)%N
     || existsb (λ l, negb (existsb (λ c, starts_with c l) ["@"; "+"; "-"; " "; "\"])) (lines patch)
  then throw change_incomplete
  else
  let old := default (cf_filename file) (cf_previous_filename file) in
  Ok ("diff --git a/" +:+ old +:+ " b/" +:+ cf_filename file +:+ nl
      +:+ (if cf_status file ==? "removed" then "deleted file mode 100644" +:+ nl else EmptyString)
      +:+ (if cf_status file ==? "renamed"
           then "rename from " +:+ old +:+ nl +:+ "rename to " +:+ cf_filename file +:+ nl
           else EmptyString)
      +:+ patch +:+ nl).

Definition CHANGE_STATUSES : list string := ["added"; "modified"; "removed"; "renamed"; "changed"].

(** One file of a page: the files so far, and their paths. *)
Definition note_changed_file `{!JsonText} (acc : list ChangedFile * gset string)
    (file : ChangedFile) : exec (list ChangedFile * gset string) :=
  if negb (valid_path (cf_filename file))
     || is_some_and (cf_previous_filename file) (λ p, negb (valid_path p))
  then throw (change_limit "path_bytes" "provenance comparison contains unsupported paths")
  else if bool_decide (cf_filename file ∈ acc.2) || negb (valid_sha (cf_sha file))
          || negb (bool_decide (cf_status file ∈ CHANGE_STATUSES))
          || negb (Bool.eqb (cf_status file ==? "renamed") (is_some (cf_previous_filename file)))
  then throw change_incomplete
  else Ok (acc.1 ++ [file], acc.2 ∪ {[ cf_filename file ]}).

Definition filename_le (a b : ChangedFile) : Prop := String.le (cf_filename a) (cf_filename b).
#[export] Instance filename_le_dec a b : Decision (filename_le a b) :=
  decide (String.le (cf_filename a) (cf_filename b)).

(** [iter.skip_while(|x| !p(x))]. *)
Fixpoint skip_until {A} (p : A → bool) (l : list A) : list A :=
  match l with
  | [] => []
  | x :: l' => if p x then l else skip_until p l'
  end.

Definition div_ceil (a b : N) : N := (a + (b - 1)) / b.

Section comparison.
Context `{HS : !Hasher, JT : !JsonText, SP : !SecretPattern, UE : !UrlEncode, CS : !ChangeSerde, WA : !WideAlphanumeric,
          B64 : !Base64Decode, SH : !Sha1Hex} {W : Type} `{BE : !Backend W, TD : !TextDiff W}.
(** The host and the repository of the context, and the pull request. *)
Context (host : string) (repo : option string) (number : N).

(** [read] of provenance.rs, and the deserialization of a response. *)
Definition parsed {T} `{!Deserialize T} (failure : ForgeError) (stdout : string) : exec T :=
  map_err (λ _ : string, Fail failure) (from_str stdout).

Definition read {T} `{!Deserialize T} (failure : ForgeError) (c : BackendCall) : io W T :=
  stdout ← call c; lift (parsed failure stdout).

Fixpoint file_pages (metadata_only : bool) (endpoint : string) (count : N)
    (pages : list nat) (acc : list ChangedFile * gset string) : io W (list ChangedFile) :=
  match pages with
  | [] => mret acc.1
  | page :: pages =>
      let url := endpoint +:+ "/files?per_page=100&page=" +:+ dec (N.of_nat page) in
      batch ← read (T := list ChangedFile) change_incomplete
        (if metadata_only then ApiJq url "map(del(.patch))" else ApiGet url);
      if negb (N.of_nat (length batch) =? N.min (count - N.of_nat (length acc.1)) 100)%N
      then lift (throw change_incomplete)
      else
      acc ← lift (foldM note_changed_file acc batch);
      file_pages metadata_only endpoint count pages acc
  end.

Definition pull_endpoint (repo : string) : string := "repos/" +:+ repo +:+ "/pulls/" +:+ dec number.

(** The complete list of changed files. *)
Definition files (subject : Subject) (metadata_only : bool) : io W (list ChangedFile) :=
  count ← lift (or_incomplete (sj_changed_files subject));
  if (3000 <=? count)%N then
    lift (throw (change_limit "provider_file_count"
                   "complete comparisons require fewer than 3,000 files"))
  else
  repo ← lift (or_incomplete repo);
  files ← file_pages metadata_only (pull_endpoint repo) count
            (seq 1 (N.to_nat (div_ceil count 100))) ([], ∅);
  mret (if metadata_only then files else merge_sort filename_le files).

(** *** The pinned upstream tree *)
Definition add_entry (entries : gmap string Entry) (entry : Entry) : exec (gmap string Entry) :=
  if negb (valid_sha (en_sha entry)) || contains_key (en_path entry) entries
  then throw upstream_incomplete
  else Ok (<[en_path entry := entry]> entries).

Definition upstream (d : Declaration) : io W (gmap string Entry) :=
  scope ← lift (api_read_scope host (dc_repository d));
  let root := "repos/" +:+ dc_repository d in
  commit ← read (T := GitCommit) upstream_incomplete
    (InScope scope (ApiGet (root +:+ "/git/commits/" +:+ dc_commit d)));
  if (gc_sha commit !=? dc_commit d) || negb (valid_sha (gc_tree commit)) then lift (throw mismatch)
  else
  tree ← read (T := Tree) upstream_incomplete
    (InScope scope (ApiGet (root +:+ "/git/trees/" +:+ gc_tree commit +:+ "?recursive=1")));
  if tr_truncated tree then lift (throw upstream_incomplete)
  else if tr_sha tree !=? gc_tree commit then lift (throw mismatch)
  else lift (foldM add_entry ∅ (tr_tree tree)).

(** *** residual.rs: the blobs *)
(** Everything but ASCII whitespace. *)
Definition ascii_whitespace (b : ascii) : bool :=
  bool_decide (b ∈ [" "%char; "009"%char; "010"%char; "012"%char; "013"%char]).

Fixpoint filter_bytes (p : ascii → bool) (s : string) : string :=
  match s with
  | EmptyString => EmptyString
  | String c s => if p c then String c (filter_bytes p s) else filter_bytes p s
  end.

Definition encoded_path (path : string) : string := join "/" (byte_serialize <$> split_char "/" path).

(** The object identifier of a blob. *)
Definition blob_id (bytes : string) : string :=
  sha1_hex ("blob " +:+ dec (len bytes) +:+ String "000" bytes).

(** The bytes of a file at a commit, verified by their identifier. *)
Definition file_bytes (path commit : string) (expected : option string) : io W string :=
  repo ← lift (or_incomplete repo);
  content ← read (T := Content) change_incomplete
    (ApiGet ("repos/" +:+ repo +:+ "/contents/" +:+ encoded_path path +:+ "?ref=" +:+ commit));
  if (ct_kind content !=? "file") || negb (valid_sha (ct_sha content))
     || is_some_and expected (λ sha, sha !=? ct_sha content)
  then lift (throw change_incomplete)
  else
  blob ← read (T := Blob) change_incomplete
    (ApiGet ("repos/" +:+ repo +:+ "/git/blobs/" +:+ ct_sha content));
  if (bb_sha blob !=? ct_sha content) || negb (bb_size blob =? ct_size content)%N
     || (bb_encoding blob !=? "base64")
  then lift (throw change_incomplete)
  else
  bytes ← lift (or_incomplete
    (base64_decode (filter_bytes (λ b, negb (ascii_whitespace b)) (bb_content blob))));
  if negb (len bytes =? ct_size content)%N || (blob_id bytes !=? ct_sha content)
  then lift (throw change_incomplete)
  else mret bytes.

(** The calls of a computation under a scope. *)
Definition scoped_backend (scope : Target) : Backend W := {|
  run_call := λ c w, run_call (InScope scope c) w |}.
End comparison.

Section patches.
Context `{HS : !Hasher, JT : !JsonText, SP : !SecretPattern, UE : !UrlEncode, CS : !ChangeSerde,
          WA : !WideAlphanumeric, B64 : !Base64Decode, SH : !Sha1Hex}
  {W : Type} `{BE : !Backend W, TD : !TextDiff W}.
Context (host : string) (repo : option string) (number : N).

(** The commit a comparison starts from. *)
Definition merge_base (subject : Subject) : io W string :=
  repo ← lift (or_incomplete repo);
  scope ← lift (api_read_scope host repo);
  stdout ← call (InScope scope (ApiJq ("repos/" +:+ repo +:+ "/compare/" +:+ sj_base subject
                   +:+ "..." +:+ sj_head subject) "{sha: .merge_base_commit.sha}"));
  base ← lift (parsed (T := Object) change_incomplete stdout);
  if negb (valid_sha (ob_sha base)) then lift (throw change_incomplete) else mret (ob_sha base).

Definition binary_residual (path : string) : ForgeError :=
  validation_with_details handoff_schema "test_changes_incomplete"
    "provider omitted the residual binary patch; map identical upstream assets"
    (JObject [("cause", JObject [("code", JString "residual_binary_patch_unavailable");
                                 ("path", JString path)]);
              ("next_action", JString "correct_provenance_declaration");
              ("retryable", JBool false);
              ("recovery", JString "Keep upstream-identical binary additions mapped to their pinned blobs. A residual binary file without an inspectable provider patch is not admitted.")]).

Definition inspectable (bytes : string) : bool :=
  all_bytes (λ b, negb (bool_decide (b = "000"%char))) bytes && is_none (utf8_error 0 bytes).

(** The hunks of the difference of two texts. *)
Definition text_hunks (before after : string) : io W string := λ w,
  let '(outcome, w') := no_index_diff before after w in
  (match outcome with
   | Err OutputLimit => throw (change_limit "diff_bytes" "reconstructed diff exceeds 4 MiB")
   | Err OtherFailure => throw change_incomplete
   | Ok (code, stdout) =>
       if negb (bool_decide (code ∈ [Some 0; Some 1]%Z)) || is_some (utf8_error 0 stdout)
       then throw change_incomplete
       else
       let hunks := join nl (skip_until (starts_with "@@ ") (lines stdout)) in
       if (before !=? after) && is_empty hunks then throw change_incomplete else Ok hunks
   end, w').

(** [patch] of residual.rs: the patch of a file the provider left out, from its two blobs. *)
Definition reconstructed_patch (subject : Subject) (comparison_base : string) (file : ChangedFile)
    : io W string :=
  repo' ← lift (or_incomplete repo);
  scope ← lift (api_read_scope host repo');
  let bytes := file_bytes (BE := scoped_backend scope) repo in
  before ← (if cf_status file ==? "added" then mret EmptyString
            else bytes (default (cf_filename file) (cf_previous_filename file)) comparison_base
                   (if cf_status file ==? "removed" then Some (cf_sha file) else None));
  after ← (if cf_status file ==? "removed" then mret EmptyString
           else bytes (cf_filename file) (sj_head subject) (Some (cf_sha file)));
  if negb (inspectable before && inspectable after)
  then lift (throw (binary_residual (cf_filename file)))
  else
  hunks ← text_hunks before after;
  let starting c := N.of_nat (length (List.filter (starts_with c) (lines hunks))) in
  lift (residual_patch (mk_ChangedFile (cf_filename file) (cf_status file) (cf_sha file)
    (starting "+") (starting "-") (cf_previous_filename file) (Some hunks))).

(** *** Imports *)

(** What the loop over the files has gathered: the verified files with their upstream paths, the
    residual diff, and the mapped paths that were adapted and added. *)
Record Import := mk_Import {
  im_manifest : list (string * string * string); im_residual : string;
  im_adaptations : gset string; im_additions : gset string }.

Definition upstream_path (m : Mapping) (path : string) : option string :=
  (λ rest, mp_source m +:+ rest) <$> strip_prefix (mp_destination m) path.

(** A mapped addition: verified, adapted or added; [None] when it is none of these. *)
Inductive Origin : Type := Verified (upstream_path sha : string) | Adapted | Added.

Definition origin (d : Declaration) (tree : gmap string Entry) (path : string) (file : ChangedFile)
    : exec Origin :=
  if bool_decide (cf_filename file ∈ dc_additions d) then
    if contains_key path tree then throw mismatch else Ok Added
  else
  blob ← ok_or (Fail mismatch) (tree !! path);
  if (en_kind blob !=? "blob") || negb (bool_decide (en_mode blob ∈ ["100644"; "100755"]))
  then throw mismatch
  else if en_sha blob ==? cf_sha file then Ok (Verified path (en_sha blob))
  else if bool_decide (cf_filename file ∈ dc_adaptations d) then Ok Adapted
  else throw mismatch.

Definition file_origin (d : Declaration) (tree : gmap string Entry) (file : ChangedFile)
    : exec (option Origin) :=
  if cf_status file ==? "added" then
    match find_map (λ m, upstream_path m (cf_filename file)) (dc_mappings d) with
    | Some path => o ← origin d tree path file; Ok (Some o)
    | None => Ok None
    end
  else Ok None.

Definition add_residual (st : Import) (text : string) : Import :=
  mk_Import (im_manifest st) (im_residual st +:+ text) (im_adaptations st) (im_additions st).

Definition note_origin (st : Import) (file : ChangedFile) (o : option Origin) : Import :=
  match o with
  | Some (Verified path sha) =>
      mk_Import (im_manifest st ++ [(cf_filename file, path, sha)]) (im_residual st)
        (im_adaptations st) (im_additions st)
  | Some Adapted =>
      mk_Import (im_manifest st) (im_residual st) (im_adaptations st ∪ {[ cf_filename file ]})
        (im_additions st)
  | Some Added =>
      mk_Import (im_manifest st) (im_residual st) (im_adaptations st)
        (im_additions st ∪ {[ cf_filename file ]})
  | None => st
  end.

(** A file the import does not verify leaves its patch in the residual diff. *)
Definition file_patch (subject : Subject) (base : option string) (file : ChangedFile) : io W string :=
  if is_some (cf_patch file) then lift (residual_patch file)
  else reconstructed_patch subject (default (sj_base subject) base) file.

Fixpoint import_files (subject : Subject) (d : Declaration) (tree : gmap string Entry)
    (base : option string) (files : list ChangedFile) (st : Import) : io W Import :=
  match files with
  | [] => mret st
  | file :: files =>
      o ← lift (file_origin d tree file);
      let st := note_origin st file o in
      match o with
      | Some (Verified _ _) => import_files subject d tree base files st
      | _ =>
          text ← file_patch subject base file;
          import_files subject d tree base files (add_residual st text)
      end
  end.

Definition import_binding (subject : Subject) (d : Declaration) (files : list ChangedFile)
    (manifest : list (string * string * string)) (base : option string) : exec JsonValue :=
  manifest_text ← expect "to_vec" (ok (to_vec manifest));
  files_text ← expect "to_vec" (ok (to_vec files));
  Ok (JObject ([("repository", JString (dc_repository d)); ("commit", JString (dc_commit d));
    ("file_count", JNumber (N.of_nat (length files)));
    ("verified_files", JNumber (N.of_nat (length manifest)));
    ("manifest_digest", JString (sha256_digest manifest_text));
    ("comparison_digest", JString (sha256_digest files_text));
    ("mappings", JArray (mapping_json <$> dc_mappings d));
    ("adaptations", strings_json (dc_adaptations d));
    ("additions", strings_json (dc_additions d));
    ("declaration_digest", JString (sha256_digest (sj_body subject)))]
    ++ match base with Some base => [("merge_base", JString base)] | None => [] end)).

(** [comparison] of provenance.rs. *)
Definition import_comparison (subject : Subject) (d : Declaration) : io W (string * list Finding) :=
  files ← files repo number subject false;
  tree ← upstream host d;
  base ← (if existsb (λ file, is_none (cf_patch file) && (cf_status file !=? "added")) files
          then base ← merge_base subject; mret (Some base) else mret None);
  import ← import_files subject d tree base files (mk_Import [] EmptyString ∅ ∅);
  if (im_adaptations import !=? list_to_set (dc_adaptations d))
     || (im_additions import !=? list_to_set (dc_additions d))
  then lift (throw mismatch)
  else
  findings ← lift (detect (im_residual import));
  let findings := sort_findings (findings
    ++ ((λ path, mk_Finding path "import-adaptation") <$> sorted_elements (im_adaptations import))
    ++ ((λ path, mk_Finding path "import-addition") <$> sorted_elements (im_additions import))) in
  binding ← lift (import_binding subject d files (im_manifest import) base);
  mret (PREFIX +:+ value_display binding, findings).

Definition summary (binding : string) : option JsonValue :=
  text ← strip_prefix PREFIX binding; ok (value_from_str text).

(** ** ordinary.rs *)

(** A file whose patch is inspected: its path or the path it had is source code. *)
Definition selected (file : ChangedFile) : bool :=
  source (cf_filename file) || is_some_and (cf_previous_filename file) source.

Definition capture_limit (path : string) (error : ForgeError) : ForgeError :=
  if kind error ==? "backend_output_limit" then
    change_limit "diff_bytes" ("test inspection patch exceeds capture limits: " +:+ path)
  else error.

Definition patch_limit (path : string) (error : ForgeError) : ForgeError :=
  if bool_decide (kind error ∈ ["test_changes_limit_exceeded"; "backend_output_limit"]) then
    change_limit "diff_bytes" ("test inspection patch exceeds 4 MiB or capture limits: " +:+ path)
  else error.

Definition map_stop (f : ForgeError → ForgeError) (s : stop) : stop :=
  match s with Fail e => Fail (f e) | s => s end.
Definition map_failure {A} (f : ForgeError → ForgeError) (m : io W A) : io W A := λ w,
  let '(r, w') := m w in (map_err (map_stop f) r, w').

(** The patch of one selected file, from a page of its own. *)
Definition selected_patch (repo' : string) (index : nat) (metadata : ChangedFile) : io W ChangedFile :=
  stdout ← map_failure (capture_limit (cf_filename metadata))
    (call (ApiJq (pull_endpoint number repo' +:+ "/files?per_page=1&page="
                    +:+ dec (N.of_nat (S index)))
             "map(.patch |= if . == null then null else .[:4194305] end)"));
  batch ← lift (parsed (T := list ChangedFile) change_incomplete stdout);
  match batch with
  | [file] =>
      if with_patch file None !=? metadata then lift (throw change_incomplete)
      else if is_some_and (cf_patch file) (λ text, DIFF_BYTES <? len text)%N then
        lift (throw (change_limit "diff_bytes"
                       ("test inspection patch exceeds 4 MiB: " +:+ cf_filename file)))
      else mret file
  | _ => lift (throw change_incomplete)
  end.

(** The merge base, read once and only where a patch has to be reconstructed. *)
Definition needed_base (subject : Subject) (file : ChangedFile) (base : option string)
    : io W (option string) :=
  if is_none (cf_patch file) && (cf_status file !=? "added") && is_none base
  then base ← merge_base subject; mret (Some base) else mret base.

Fixpoint ordinary_patches (subject : Subject) (repo' paths : string)
    (selected : list (nat * ChangedFile)) (base : option string) (patch : string)
    : io W (string * option string) :=
  match selected with
  | [] => mret (patch, base)
  | (index, metadata) :: selected =>
      file ← selected_patch repo' index metadata;
      base ← needed_base subject file base;
      next ← map_failure (patch_limit (cf_filename file)) (file_patch subject base file);
      if (DIFF_BYTES <? len patch + len next)%N then
        lift (throw (change_limit "diff_bytes" ("test inspection diff exceeds 4 MiB at "
          +:+ cf_filename file +:+ "; inspected paths: " +:+ paths)))
      else ordinary_patches subject repo' paths selected base (patch +:+ next)
  end.

Definition ordinary_binding (files : list ChangedFile) (patch : string) (base : option string)
    : JsonValue :=
  JObject [("files", JArray (changed_file_json <$> files)); ("patch", JString patch);
           ("merge_base", opt_json base)].

(** [comparison] of ordinary.rs. *)
Definition ordinary_comparison (subject : Subject) : io W (string * list Finding) :=
  files ← files repo number subject true;
  let selected := List.filter (λ p, selected p.2) (imap pair files) in
  let paths := join ", " ((λ p, cf_filename p.2) <$> selected) in
  if (300 <=? length selected)%nat then
    lift (throw (change_limit "file_count"
      ("300 or more source paths require test inspection: " +:+ paths)))
  else
  repo' ← lift (or_incomplete repo);
  '(patch, base) ← ordinary_patches subject repo' paths selected None EmptyString;
  findings ← lift (detect patch);
  mret (value_display (ordinary_binding files patch base), findings).
End patches.
