(* ===== verification/WaitChecks.v ===== *)
(** * Waiting for the required checks

    [crates/forge-cli/src/ops/pr_wait_checks/poll.rs] with the outcomes and helpers of
    [pr_wait_checks.rs], on GitHub: the gate's snapshot is read again and again under one
    deadline until nothing in it is pending. *)
From S2P Require Import Prelude RStr Collections Error Types Provider Report Paths Config.
From S2P Require Import Detect Checks.
From stdpp Require Import options.

Definition NO_CI_GRACE_PERIOD : N := secs 60.

Inductive NotRegisteredCause : Type := BudgetExpired | NoWorkflows.
#[export] Instance NotRegisteredCause_eq_dec : EqDecision NotRegisteredCause.
Proof. solve_decision. Defined.

Definition cause_message (cause : NotRegisteredCause) (subject : string) : string :=
  match cause with
  | BudgetExpired => "no checks registered for " +:+ subject +:+ " within the timeout"
  | NoWorkflows =>
      "no checks registered for " +:+ subject +:+ " and the repository has no GitHub Actions workflows"
  end.

Inductive WaitOutcome : Type :=
  | WaitSuccess (snapshot : PrChecks)
  | WaitFailed (snapshot : PrChecks)
  | WaitTimedOut (snapshot : PrChecks)
  | WaitNotRegistered (snapshot : PrChecks) (cause : NotRegisteredCause).

Record PrWaitChecksArgs := mk_PrWaitChecksArgs {
  wc_id : string;
  wc_timeout : N;
  wc_interval : N;
  wc_allow_no_checks : bool;
  wc_required_only : bool;
}.

(** ** Snapshots *)

(** [u128 as u64]. *)
Definition ms_between (start finish : N) : N := as_millis (finish - start) mod 2 ^ 64.

Definition with_duration (s : PrChecks) (duration_ms : N) : PrChecks :=
  {| pk_provider := pk_provider s; pk_state := pk_state s; pk_gate_scope := pk_gate_scope s;
     pk_required_count := pk_required_count s; pk_success_count := pk_success_count s;
     pk_failed := pk_failed s; pk_pending := pk_pending s; pk_checks := pk_checks s;
     pk_duration_ms := Some duration_ms; pk_warnings := pk_warnings s |}.

(** [last.state = "pending"]. *)
Definition with_state (s : PrChecks) (state : string) : PrChecks :=
  {| pk_provider := pk_provider s; pk_state := state; pk_gate_scope := pk_gate_scope s;
     pk_required_count := pk_required_count s; pk_success_count := pk_success_count s;
     pk_failed := pk_failed s; pk_pending := pk_pending s; pk_checks := pk_checks s;
     pk_duration_ms := pk_duration_ms s; pk_warnings := pk_warnings s |}.

(** A head with visible checks but no required ones is gated on the visible ones. *)
Definition gate_visible_checks_when_none_required (required_only : bool) (snapshot : PrChecks)
    : PrChecks :=
  if negb required_only || negb (pk_required_count snapshot =? 0)%N
     || bool_decide (length (pk_checks snapshot) = 0)
  then snapshot
  else
  let visible := aggregate GitHub (pk_checks snapshot) false (pk_duration_ms snapshot) in
  {| pk_provider := pk_provider visible; pk_state := pk_state visible;
     pk_gate_scope := "visible_fallback"; pk_required_count := pk_required_count visible;
     pk_success_count := pk_success_count visible; pk_failed := pk_failed visible;
     pk_pending := pk_pending visible; pk_checks := pk_checks visible;
     pk_duration_ms := pk_duration_ms visible; pk_warnings := pk_warnings snapshot |}.

(** Nothing in the gating set is pending, and there is a gating set. *)
Definition is_terminal (snapshot : PrChecks) (presence : CheckPresence) : bool :=
  if (presence ==? PresenceRequired) && nothing_was_checked snapshot then false
  else bool_decide (length (pk_pending snapshot) = 0).

Definition expired (snapshot : PrChecks) (start now : N) (ever_saw_a_check : bool) : WaitOutcome :=
  let snapshot := with_duration snapshot (ms_between start now) in
  if negb ever_saw_a_check then WaitNotRegistered snapshot BudgetExpired else WaitTimedOut snapshot.

(** [build_github_workflows_call]: the endpoint, where the context names a repository. *)
Definition workflows_endpoint (repo : option string) : option string :=
  repo ← repo;
  '(owner, name) ← split_once "/" repo;
  if is_empty owner || is_empty name || contains "/" name then None
  else Some ("repos/" +:+ repo +:+ "/actions/workflows?per_page=1").

(** ** The deadline follows every call *)
Definition budget_exhausted : ForgeError :=
  unavailable error_schema "backend_timeout" "checks operation exhausted its timeout budget" None.

(** [DeadlineRunner]: a call needs time before it, and its answer counts only in time.  The
    timeout it hands to the process is one more way for the call to fail. *)
Definition deadline_backend {W : Type} `{!Backend W, !Clock W} (deadline : N) : Backend W := {|
  run_call := λ c w,
    if (deadline <=? clock_now w)%N then (Err budget_exhausted, w)
    else
    let '(r, w') := run_call c w in
    match r with
    | Err e => (Err e, w')
    | Ok output => if (deadline <=? clock_now w')%N then (Err budget_exhausted, w') else (Ok output, w')
    end |}.

Section wait.
Context `{JT : !JsonText, UP : !UrlParse, UE : !UrlEncode} {W : Type}
  `{BE : !Backend W, CK : !Clock W}.
(** The host and the repository of the context, and the arguments. *)
Context (host : string) (repo : option string) (args : PrWaitChecksArgs).

Definition github_repo_has_no_workflows (deadline : N) : io W bool :=
  match workflows_endpoint repo with
  | None => mret false
  | Some endpoint =>
      output ← attempt (call (BE := deadline_backend deadline) (ApiGet endpoint));
      mret (match output with
            | Ok stdout =>
                (body ← ok (value_from_str stdout); get "total_count" body ≫= as_u64) ==? Some 0%N
            | Err _ => false
            end)
  end.

Definition presence : CheckPresence := from_allow_no_checks (wc_allow_no_checks args).

(** Past the grace period a head without any check is asked, once, whether its repository has
    workflows at all: the outcome, or whether the question is settled. *)
Definition probe_workflows (start deadline : N) (last : PrChecks) (ever probed : bool)
    : io W (WaitOutcome + bool) :=
  time ← now;
  if negb ever && negb probed && (presence ==? PresenceRequired)
     && (NO_CI_GRACE_PERIOD <=? time - start)%N then
    no_workflows ← github_repo_has_no_workflows deadline;
    time ← now;
    if (deadline <=? time)%N then mret (inl (expired last start time ever))
    else if no_workflows : bool then
      mret (inl (WaitNotRegistered (with_duration last (ms_between start time)) NoWorkflows))
    else mret (inr true)
  else mret (inr probed).

(** One reading of the gate, admitted only before the deadline: the outcome without one, or the
    snapshot and when it was admitted. *)
Definition read_gate (start deadline : N) (last : PrChecks) (ever : bool)
    : io W (WaitOutcome + PrChecks * N) :=
  reading ← attempt (gate_snapshot (BE := deadline_backend deadline) host repo (wc_id args)
                       (wc_required_only args));
  time ← now;
  match reading with
  | Err (Fail error) =>
      if (kind error ==? "backend_timeout") || (deadline <=? time)%N
      then mret (inl (expired last start time ever))
      else lift (throw error)
  | Err stop => lift (Err stop)
  | Ok snapshot =>
      if (deadline <=? time)%N then mret (inl (expired last start time ever))
      else mret (inr (gate_visible_checks_when_none_required (wc_required_only args) snapshot, time))
  end.

(** The polling loop; [last] is the last admitted snapshot. *)
Fixpoint poll_until_terminal (fuel : nat) (start deadline : N) (last : PrChecks)
    (ever probed : bool) : io W WaitOutcome :=
  match fuel with
  | 0 => lift (Err OutOfFuel)
  | S fuel =>
      reading ← read_gate start deadline last ever;
      match reading with
      | inl outcome => mret outcome
      | inr (snapshot, admitted_at) =>
          let last := with_duration snapshot (ms_between start admitted_at) in
          let ever := ever || negb (nothing_was_checked last) in
          if is_terminal last presence then
            mret (if pk_state last ==? "success" then WaitSuccess last else WaitFailed last)
          else
          probe ← probe_workflows start deadline last ever probed;
          match probe with
          | inl outcome => mret outcome
          | inr probed =>
              time ← now;
              _ ← sleep (N.min (wc_interval args) (deadline - time));
              time ← now;
              if (deadline <=? time)%N then mret (expired last start time ever)
              else poll_until_terminal fuel start deadline last ever probed
          end
      end
  end.

(** [start + args.timeout] is computed even where the command's budget is taken instead. *)
Definition wait_deadline (budget : option (N * N)) (start : N) : exec N :=
  fallback ← expect "overflow when adding duration to instant"
    (instant_checked_add start (wc_timeout args));
  Ok (from_option snd fallback budget).

(** [budget] is the start and the deadline of the command, where one was set before the
    repository was looked up. *)
Definition wait_for_checks (fuel : nat) (budget : option (N * N)) : io W WaitOutcome :=
  time ← now;
  let start := from_option fst time budget in
  deadline ← lift (wait_deadline budget start);
  poll_until_terminal fuel start deadline
    (with_state (aggregate GitHub [] (wc_required_only args) None) "pending") false false.
End wait.

(** ** The command around the loop *)

(** The budget of a live wait, set before anything else is looked up ([discovery.rs]). *)
Definition command_budget (start timeout : N) : exec (N * N) :=
  deadline ← expect "overflow when adding duration to instant" (instant_checked_add start timeout);
  Ok (start, deadline).

(** The exit code each outcome is reported with. *)
Definition outcome_exit (outcome : WaitOutcome) : N :=
  match outcome with
  | WaitSuccess _ => exit.SUCCESS
  | WaitFailed _ => exit.RUNTIME
  | WaitTimedOut _ => exit.UNAVAILABLE
  | WaitNotRegistered _ _ => exit.DATA
  end.

(** The working tree's declaration speaks only for its own repository. *)
Definition targets_this_checkout (target_repo remote_url : option string) : bool :=
  is_none_or target_repo (λ target,
    is_some_and (remote_url ≫= parse_slug) (λ slug, eq_ignore_ascii_case slug target)).

Definition effective_allow_no_checks `{!SecretPattern, !TomlText} {W : Type} `{!LocalFiles W}
    (args : PrWaitChecksArgs) (target_repo remote_url workdir : option string) (w : W) : bool :=
  wc_allow_no_checks args
  || targets_this_checkout target_repo remote_url
     && is_some_and workdir (λ workdir,
          is_some (declared_no_checks_reason
            (load_layered workdir (git_toplevel workdir w) w))).
