(* ===== verification/RepoView.v ===== *)
(** * The repository: its view and its holds

    [crates/forge-cli/src/ops/repo_view.rs] and [ops/pr_hold.rs]. *)
From S2P Require Import Prelude RStr Collections Error Types Identity Provider Hosts Paths Config Append.
From S2P Require Import Report Detect.
From stdpp Require Import options.

(** ** The view of a repository

    [crates/forge-cli/src/ops/repo_view.rs]: the two providers' answers in one shape, with the
    merge methods the repository allows. *)

Record RepoView := mk_RepoView {
  rv_provider : string;
  rv_owner : string;
  rv_name : string;
  rv_url : string;
  rv_default_branch : string;
  rv_default_branch_head_sha : option string;
  rv_merge_methods_allowed : list string;
}.

Definition missing_field (field : string) : ForgeError :=
  software error_schema ("repo view JSON missing required field: " +:+ field) None.
Definition required_field (value : JsonValue) (path : list string) (field : string) : exec string :=
  ok_or (Fail (missing_field field)) (pointer path value ≫= as_str).

Definition allowed_flag (value : JsonValue) (key : string) : bool :=
  default false (get key value ≫= as_bool).

Definition github_methods (value : JsonValue) : list string :=
  (if allowed_flag value "squashMergeAllowed" then ["squash"] else [])
  ++ (if allowed_flag value "mergeCommitAllowed" then ["merge"] else [])
  ++ (if allowed_flag value "rebaseMergeAllowed" then ["rebase"] else []).

(** [merge_method] and [squash_option] as the same three methods. *)
Definition gitlab_methods (value : JsonValue) : list string :=
  let squash_option := default "default_on" (get_str "squash_option" value) in
  let merge_method := default "merge" (get_str "merge_method" value) in
  (if squash_option !=? "never" then ["squash"] else [])
  ++ (if merge_method ==? "merge" then ["merge"] else [])
  ++ (if contains "rebase" merge_method || (merge_method ==? "ff") then ["rebase"] else []).

Definition parse_github_repo (provider : Provider) (value : JsonValue) : exec RepoView :=
  owner ← required_field value ["owner"; "login"] "owner.login";
  name ← required_field value ["name"] "name";
  url ← required_field value ["url"] "url";
  default_branch ← required_field value ["defaultBranchRef"; "name"] "defaultBranchRef.name";
  Ok (mk_RepoView (provider_as_str provider) owner name url default_branch None
        (github_methods value)).

Definition gitlab_owner (value : JsonValue) : option string :=
  namespace ← get "namespace" value;
  owner ← match get "full_path" namespace with Some v => Some v | None => get "path" namespace end;
  as_str owner.

Definition parse_gitlab_repo (provider : Provider) (value : JsonValue) : exec RepoView :=
  owner ← ok_or (Fail (missing_field "namespace.full_path")) (gitlab_owner value);
  name ← required_field value ["path"] "path";
  url ← required_field value ["web_url"] "web_url";
  default_branch ← required_field value ["default_branch"] "default_branch";
  Ok (mk_RepoView (provider_as_str provider) owner name url default_branch None
        (gitlab_methods value)).

Definition parse_backend_output `{!JsonText} (provider : Provider) (stdout : string) : exec RepoView :=
  let what := match provider with
              | GitLab => "glab repo view -F json output is not valid JSON"
              | _ => "gh repo view --json output is not valid JSON" end in
  value ← map_err (λ error, Fail (software error_schema what (Some error)))
            (value_from_str (trim stdout));
  match provider with
  | GitLab => parse_gitlab_repo provider value
  | _ => parse_github_repo provider value
  end.

(** [compute] of the context's provider. *)
Definition repo_view_compute `{!JsonText} {W : Type} `{!Backend W} (provider : Provider)
    : io W RepoView :=
  stdout ← call RepoViewCall;
  lift (parse_backend_output provider stdout).

(** ** Holds on a pull request

    [crates/forge-cli/src/ops/pr_hold.rs] on GitHub: a label of the configuration, of the
    checkout's or of the one committed on the base branch, holds the merge back.  Reads that
    fail or are incomplete hold it back as well. *)
Definition hold_schema : string := "cli.forge-cli.pr.merge.v1".

Definition invalid_hold_config (message : string) : ForgeError :=
  validation hold_schema "invalid_hold_labels_config" message None.

Definition validate_config (cfg : ForgeConfig) : exec unit :=
  if existsb (starts_with "invalid-config-value:merge.hold_labels") (warnings cfg) then
    throw (invalid_hold_config
      "merge.hold_labels must be an array of non-empty label names (at most 128 bytes each, without control characters)")
  else Ok tt.

Definition validate_provider_base_config (cfg : ForgeConfig) : exec unit :=
  _ ← validate_config cfg;
  if existsb (λ warning, warning ==? "invalid-config-value:merge:not_a_table") (warnings cfg) then
    throw (invalid_hold_config
      "the current base [merge] section must be a table with valid hold-label settings")
  else Ok tt.

Definition hold_unavailable : ForgeError :=
  unavailable hold_schema "pr_hold_labels_unavailable"
    "cannot verify the current base hold policy and complete PR/MR labels; refresh provider access and retry before merging or enqueueing"
    None.

Definition or_hold_unavailable {A} (o : option A) : exec A := ok_or (Fail hold_unavailable) o.
(** [map_err(|_| unavailable())]. *)
Definition hold_readable {E A} (m : result E A) : exec A := map_err (λ _, Fail hold_unavailable) m.

(** [parse_labels] of the pages of labels. *)
Definition page_labels (page : JsonValue) : exec (list string) :=
  labels ← or_hold_unavailable (as_array page);
  mapR (λ label, or_hold_unavailable (get_str "name" label)) labels.

Definition parse_labels (value : JsonValue) : exec (list string) :=
  pages ← or_hold_unavailable (as_array value);
  if bool_decide (length pages = 0) then throw hold_unavailable
  else
  found ← mapR page_labels pages;
  Ok (concat found).

(** The text of the base branch's file; [None] when it has none. *)
Definition base_contents (value : JsonValue) : exec (option string) :=
  if is_some_and (get "errors" value) (λ errors,
       is_none_or (as_array errors) (λ errors, negb (bool_decide (length errors = 0))))
  then throw hold_unavailable
  else
  repository ← or_hold_unavailable (pointer ["data"; "repository"] value);
  if negb (is_object repository) then throw hold_unavailable
  else
  object ← or_hold_unavailable (get "object" repository);
  if is_null object then Ok None
  else Some <$> or_hold_unavailable (get_str "text" object).

Definition add_label (labels : list string) (label : string) : list string :=
  if bool_decide (label ∈ labels) then labels else labels ++ [label].

Definition hold_active (label : string) : ForgeError :=
  validation hold_schema "pr_hold_active"
    ("PR/MR is held by label " +:+ debug_str label
      +:+ "; ask the maintainer or authorized hold owner to remove this label after the hold's release conditions are met, then retry. Head changes do not lift a hold.")
    (Some label).

Section holds.
Context `{SP : !SecretPattern, TT : !TomlText, JT : !JsonText} {W : Type} `{BE : !Backend W}.
Context (repo : option string).

Definition read_base_config (repo base : string) : io W ForgeConfig :=
  '(owner, name) ← lift (or_hold_unavailable (split_once "/" repo));
  output ← attempt (call (HoldConfigQuery owner name base));
  stdout ← lift (hold_readable output);
  value ← lift (hold_readable (value_from_str stdout));
  contents ← lift (base_contents value);
  cfg ← match contents with
        | Some contents => lift (map_err (λ _, Fail (invalid_hold_config
            "the current base .forge-cli.toml cannot be parsed; ask the maintainer to repair it before merging"))
            (parse_content contents))
        | None => mret ForgeConfig_default
        end;
  _ ← lift (validate_provider_base_config cfg);
  mret cfg.

Definition ensure_clear (id : N) (base : string) (hold_labels : list string) : io W unit :=
  repo ← lift (or_hold_unavailable repo);
  cfg ← read_base_config repo base;
  let hold_labels := fold_left add_label (resolve_hold_labels cfg) hold_labels in
  output ← attempt (call (ApiPages ("repos/" +:+ repo +:+ "/issues/" +:+ dec id
                                    +:+ "/labels?per_page=100")));
  stdout ← lift (hold_readable output);
  value ← lift (hold_readable (value_from_str stdout));
  labels ← lift (parse_labels value);
  match find_first (λ label, bool_decide (label ∈ labels)) hold_labels with
  | Some label => lift (throw (hold_active label))
  | None => mret tt
  end.
End holds.
