(* ===== verification/Publish.v ===== *)
(** * Admitting the designated review

    [admit_published] of [crates/forge-cli/src/ops/pr_review_handoff.rs] and the gates around
    it: which published report counts as the designated PASS for a head, when a PASS at the
    reviewed head carries over to a base-sync merge of it, and the approval policy.  The
    test-change rules ([test_integrity]) are one answer here. *)
From S2P Require Import Prelude RStr Collections Error Types Markers ReviewLoop Identity Record.
From S2P Require Import Handoff Correction Chain Provider PrView PrReviews Append Report.
From stdpp Require Import options.

(** [test_integrity::ensure]. *)
Class ReviewReads (W : Type) := {
  test_integrity_ensure : N → string → string → string → io W unit;
}.

Record Admission := mk_Admission {
  approval : option PublishedApproval;
  sync_carry_over : option SyncCarryOver;
}.

(** ** The order of the candidates: newest first *)
Definition id_le (a b : option N) : bool :=
  match a, b with
  | None, _ => true
  | Some _, None => false
  | Some a, Some b => (a <=? b)%N
  end.

Definition newer_first (a b : NativeReview) : bool :=
  if nr_submitted_at a ==? nr_submitted_at b then id_le (nr_database_id b) (nr_database_id a)
  else bool_decide (String.le (nr_submitted_at b) (nr_submitted_at a)).

Section publish.
Context `{HS : !Hasher, JT : !JsonText, TP : !TimestampParse, SB : !Serialize SessionBinding} {W : Type}
  `{BE : !Backend W, RR : !ReviewReads W}.
(** The environment, the repository of the context, and the local git object store. *)
Context (env : Env) (repo : option string) (open_objects : result string Objects).

Definition reviews_for (number : N) (url : string) : io W PrReviews :=
  compute_for_pr GitHub number url.
Definition ensure_test_changes (number : N) (head author report : string) : io W unit :=
  test_integrity_ensure number head author report.

Definition awaiting (message : string) : ForgeError := fail "awaiting_designated_review" message.

(** ** The state the interval must be in *)
Definition blocked_state (state : ReviewLoopState) : bool :=
  is_some (s_hard_stop state)
  || existsb (λ f, f_blocking f && (f_status f ==? Open)) (values (s_findings state)).

Definition refused (reason : string) : ForgeError :=
  validation handoff_schema "awaiting_designated_review"
    "awaiting designated review: ledger is stale or has unresolved findings"
    (Some ("sync_carry_over=" +:+ reason
      +:+ "; recovery=return control to the coordinator; do not self-review")).

Definition or_refused {A} (r : result string A) : exec A :=
  map_err (λ reason, Fail (refused reason)) r.

(** The merge that brings the reviewed head to [head], when they differ. *)
Definition sync_merge (reviewed_head head : string) : exec (option (Objects * SyncMerge)) :=
  if reviewed_head ==? head then Ok None
  else
  objects ← or_refused open_objects;
  merge ← or_refused (verify_merge objects reviewed_head head);
  Ok (Some (objects, merge)).

(** The provider's base is still the assigned one, or has moved forward under a sync. *)
Definition check_base (number : N) (handoff : ReviewHandoff)
    (sync : option (Objects * SyncMerge)) : io W unit :=
  match sync with
  | Some (objects, merge) =>
      '(base, branch) ← provider_base_scope repo number;
      if base_ref handoff !=? branch then lift (throw (refused "base-ref-changed"))
      else
      _ ← lift (map_err (λ reason, Fail (refused
              (if reason ==? "base-not-on-target" then "assigned-base-not-on-target" else reason)))
            (verify_on_target objects (base_sha handoff) base));
      lift (or_refused (verify_on_target objects (sm_base_commit merge) base))
  | None =>
      base ← provider_base repo number;
      if base !=? base_sha handoff then
        lift (throw (fail "review_scope_changed"
          "provider base changed since designated review assignment"))
      else mret tt
  end.

(** ** The report that owns the verdict *)
Definition candidate (handoff : ReviewHandoff) (head reviewed_head : string) (synced : bool)
    (r : NativeReview) : bool :=
  matches_designated_author r (review_author handoff)
  && ((nr_commit_sha r ==? head) || (synced && (nr_commit_sha r ==? reviewed_head))).

Definition candidates (handoff : ReviewHandoff) (head reviewed_head : string) (synced : bool)
    (reviews : PrReviews) : list NativeReview :=
  merge_sort (λ a b, Is_true (newer_first a b))
    (List.filter (candidate handoff head reviewed_head synced)
       (current_head_reviews reviews ++ stale_reviews reviews)).

Definition report_body (number : N) (handoff : ReviewHandoff) (r : NativeReview) : io W string :=
  if nr_summary_truncated r || (nr_author_type r ==? Some "Bot")
     || ((nr_state r ==? "COMMENTED") && is_empty (trim (nr_summary r)))
  then read_complete_report number r (review_author handoff)
  else mret (nr_summary r).

Definition verdict_line (line : string) : bool :=
  (trim line ==? "- Lens verdict: pass") || (trim line ==? "- Lens verdict: follow-up-pass").

Definition passes (after : Z) (r : NativeReview) (body : string) : bool :=
  is_ok (validate_specialist_review_report body)
  && ((nr_state r ==? "APPROVED") || (nr_state r ==? "COMMENTED"))
  && is_some_and (ok (timestamp_parse (nr_submitted_at r))) (λ t, (after <? t)%Z)
  && existsb verdict_line (lines body).

Definition invalid_reviewable (r : NativeReview) (error : ForgeError) : ForgeError :=
  validation handoff_schema "awaiting_designated_review"
    ("awaiting designated review: published review " +:+ nr_id r +:+ " has an invalid Reviewable field")
    (Some ("review_id=" +:+ nr_id r +:+ "; field=Reviewable; cause=" +:+ kind error)).

(** The loop over the candidates: the first report of this interval decides. *)
Fixpoint owning_report (number : N) (url : string) (chain : ReviewStateChain)
    (handoff : ReviewHandoff) (after : Z) (l : list NativeReview)
    : io W (option (NativeReview * string)) :=
  match l with
  | [] => mret None
  | r :: l =>
      body ← report_body number handoff r;
      replies ← (if (nr_state r ==? "COMMENTED") && is_empty (trim body)
                 then native_review_contains_only_replies repo number r else mret false);
      if replies || publication_is_known_other_interval chain body then
        owning_report number url chain handoff after l
      else
      _ ← lift (match validate_reviewable body repo number url (Some (nr_commit_sha r)) with
                | Err (Fail error) => throw (invalid_reviewable r error)
                | other => other
                end);
      if negb (publication_matches_interval chain body) then
        lift (throw (awaiting "published review requires exactly one current handoff binding; the designated reviewer must republish through the current forge-cli"))
      else mret (if passes after r body then Some (r, body) else None)
  end.

(** ** Admission *)
Definition admit_published (number : N) (url head : string) (chain : ReviewStateChain)
    (handoff_created_at : option string) : io W Admission :=
  handoff ← lift (assigned env chain);
  match handoff with
  | None => mret (mk_Admission None None)
  | Some handoff =>
      state ← lift (ok_or (Fail (awaiting
        "awaiting designated review: reviewed-head ledger observation is missing"))
        (owned_state chain));
      if blocked_state state then
        lift (throw (awaiting
          "awaiting designated review: ledger is stale or has unresolved findings"))
      else
      sync ← lift (sync_merge (s_head_sha state) head);
      _ ← check_base number handoff sync;
      reviews ← reviews_for number url;
      if pv_head_sha reviews !=? head then
        lift (throw (fail "review_convergence_head_changed"
          "provider head changed during designated review admission"))
      else
      after ← lift (ok_or (Fail (fail "review_snapshot_incomplete"
        "handoff publication timestamp is missing or invalid"))
        (created ← handoff_created_at; ok (timestamp_parse created)));
      passing ← owning_report number url chain handoff after
        (candidates handoff head (s_head_sha state) (is_some sync) reviews);
      '(selected, body) ← lift (ok_or (Fail (awaiting
        "awaiting designated review: published passing review for the current head is missing"))
        passing);
      _ ← ensure_test_changes number head (nr_author selected) body;
      mret (mk_Admission (Some (from_review selected head))
        ((λ '(_, merge), {| review_url := nr_url selected; reviewed_head := s_head_sha state;
                            co_head := head; base_commit := sm_base_commit merge;
                            merge_tree := sm_merge_tree merge |}) <$> sync))
  end.

Definition unrecorded (number : N) (head : string) : ForgeError :=
  validation handoff_schema "awaiting_designated_review"
    "awaiting designated review: the base-sync carry-over is not recorded"
    (Some ("recovery=run `forge-cli pr review-handoff check " +:+ dec number +:+ " --expected-head "
      +:+ head +:+ "` to verify and record it")).

Definition published_admission (number : N) (url head : string) (chain : ReviewStateChain)
    (handoff_created_at : option string) : io W Admission :=
  admission ← admit_published number url head chain handoff_created_at;
  _ ← lift (require_policy (approval admission)
              (from_option approval_policy SourcePass (latest chain)));
  if is_some_and (sync_carry_over admission) (λ c, recorded_carry_over chain head !=? Some c)
  then lift (throw (unrecorded number head))
  else mret admission.

Definition ensure_published (number : N) (url head : string) (chain : ReviewStateChain)
    (handoff_created_at : option string) : io W (option SyncCarryOver) :=
  admission ← published_admission number url head chain handoff_created_at;
  mret (sync_carry_over admission).

Definition ensure_published_pass_time (number : N) (url head : string) (chain : ReviewStateChain)
    (handoff_created_at : option string) : io W (option string) :=
  admission ← published_admission number url head chain handoff_created_at;
  mret (pa_submitted_at <$> approval admission).
End publish.

(** ** The delivery gate *)
Section delivery.
Context `{HS : !Hasher, LS : !LedgerSerde, JT : !JsonText, UP : !UrlParse, SP : !SecretPattern,
          TP : !TimestampParse, SB : !Serialize SessionBinding} {W : Type}
  `{BE : !Backend W, RR : !ReviewReads W}.
Context (env : Env) (repo : option string) (open_objects : result string Objects).

Definition ensure_delivery_ready (v : PrView) : io W unit :=
  repository ← lift (ok_or (Fail (fail "repo_required" "delivery review requires a repository"))
    (github_repo_slug_from_url (v_url v)));
  state ← read_review_loop_state_view repository (v_number v);
  if negb (is_assigned env (sv_chain state)) then mret tt
  else
  head ← lift (ok_or (Fail (awaiting "provider head is missing")) (v_head_sha v));
  _ ← ensure_published env repo open_objects (v_number v) (v_url v) head (sv_chain state)
        (sv_handoff_created_at state);
  mret tt.
End delivery.
