(* ===== verification/TestChanges.v ===== *)
(** * The test-change gate

    [crates/forge-cli/src/ops/pr_review_handoff/test_integrity.rs]: a pull request that changes
    tests declares every finding in its description, and the designated reviewer confirms the
    declaration for exactly this comparison.  The gate is the [ReviewReads] of [Publish]. *)
From S2P Require Import Prelude RStr Collections Error Types Markers Identity Handoff Provider.
From S2P Require Import Report Checks TestDiff Provenance Publish.
From stdpp Require Import options.

(** ** Declarations in the description *)

(** The section of declarations: whether it is active, the open fence, and its lines. *)
Record DeclScan := mk_DeclScan {
  dl_active : bool; dl_fence : option string; dl_lines : list string }.

Definition declaration_line (st : DeclScan) (line : string) : DeclScan :=
  let trimmed := trim line in
  match fence_marker trimmed with
  | Some marker => mk_DeclScan (dl_active st) (toggle_fence (dl_fence st) marker) (dl_lines st)
  | None =>
      if is_some (dl_fence st) then st
      else if starts_with "## " line then
        mk_DeclScan (trimmed ==? "## Test changes") (dl_fence st) (dl_lines st)
      else if dl_active st then mk_DeclScan (dl_active st) (dl_fence st) (dl_lines st ++ [line])
      else st
  end.

Definition declarations (body : string) : string :=
  join nl (dl_lines (fold_left declaration_line (lines body) (mk_DeclScan false None []))).

(** A row: [- <path> | <kind> | <reason>], with a reason of at least twelve bytes. *)
Definition declaration_row (line : string) : option (string * string) :=
  row ← strip_prefix "- " (trim line);
  '(path, rest) ← split_once " | " row;
  '(kind, reason) ← split_once " | " rest;
  if (12 <=? len (trim reason))%N then Some (default path (strip_prefix "allow " path), kind)
  else None.

Definition declared_rows (declarations : string) : list (string * string) :=
  omap declaration_row (lines declarations).

Definition is_declared (rows : list (string * string)) (f : Finding) : bool :=
  bool_decide ((fd_path f, fd_kind f) ∈ rows).

Section test_changes.
Context `{HS : !Hasher, JT : !JsonText, SP : !SecretPattern, UE : !UrlEncode, CS : !ChangeSerde,
          WA : !WideAlphanumeric, B64 : !Base64Decode, SH : !Sha1Hex}
  {W : Type} `{BE : !Backend W, TD : !TextDiff W}.
(** The host and the repository of the context. *)
Context (host : string) (repo : option string).

Definition SUBJECT_JQ : string :=
  "{head: .head.sha, base: .base.sha, author: .user.login, body: (.body // " +:+ String dquote
  (String dquote "), changed_files: .changed_files}").

(** A failed call and an unreadable answer are the same here. *)
Definition read_subject (repo : string) (number : N) : io W Subject :=
  stdout ← attempt (call (ApiJq (pull_endpoint number repo) SUBJECT_JQ));
  match stdout with
  | Ok stdout => lift (parsed change_incomplete stdout)
  | Err (Fail _) => lift (throw change_incomplete)
  | Err stop => lift (Err stop)
  end.

(** The subject is read again after everything else. *)
Definition comparison (number : N) (head : string) : io W (Subject * string * list Finding) :=
  repo' ← lift (or_incomplete repo);
  subject ← read_subject repo' number;
  if (sj_head subject !=? head) || negb (valid_sha head) || negb (valid_sha (sj_base subject))
     || is_empty (sj_author subject)
  then lift (throw change_incomplete)
  else
  declaration ← lift (parse_declaration (sj_body subject));
  '(patch, findings) ← match declaration with
                       | Some d => import_comparison host repo number subject d
                       | None => ordinary_comparison host repo number subject
                       end;
  again ← read_subject repo' number;
  if again !=? subject then
    lift (throw (change_error "test_changes_incomplete"
      "PR head, base, author or declaration changed during test-change admission" None))
  else mret (subject, patch, findings).

(** [digest]: what is hashed, and its digest. *)
Definition change_text (subject : Subject) (patch : string) : string :=
  sj_base subject +:+ nl +:+ sj_head subject +:+ nl +:+ patch +:+ nl
  +:+ declarations (sj_body subject).

Definition change_digest (subject : Subject) (patch : string) : string :=
  sha256_digest (change_text subject patch).

Definition confirmation (digest : string) : string := "Test changes confirmed: " +:+ digest.

Definition finding_json (f : Finding) : JsonValue :=
  JObject [("path", JString (fd_path f)); ("kind", JString (fd_kind f))].

(** [preview]: the payload it prints. *)
Definition preview (number : N) (head : string) : io W JsonValue :=
  '(subject, patch, findings) ← comparison number head;
  let digest := change_digest subject patch in
  mret (JObject [("number", JNumber number); ("head_sha", JString head);
    ("base_sha", JString (sj_base subject)); ("findings", JArray (finding_json <$> findings));
    ("digest", JString digest); ("confirmation", JString (confirmation digest));
    ("provenance_import", default JNull (summary patch))]).

Definition row_text (f : Finding) : string :=
  "- " +:+ fd_path f +:+ " | " +:+ fd_kind f +:+ " | <reason and retained coverage>".

Definition preview_command (number : N) (head : string) : string :=
  "`forge-cli pr review-handoff test-changes " +:+ dec number +:+ " --expected-head " +:+ head +:+ "`".

Definition undeclared (number : N) (head : string) (findings : list Finding) : ForgeError :=
  change_error "test_changes_undeclared"
    "test changes require explicit PR-body declarations under ## Test changes"
    (Some ("Before requesting review, run " +:+ preview_command number head
      +:+ " to print findings and the digest without an existing review. Add the following rows to ## Test changes with a concrete reason (at least 12 characters), then rerun that preview for the updated digest. Intentional removals/false positives may use '- allow <path> | <kind> | <reason>'; exact entries only, no globs. All entries still need independent reviewer confirmation."
      +:+ nl +:+ join nl (row_text <$> findings))).

Definition unconfirmed (number : N) (head confirmation : string) : ForgeError :=
  change_error "test_changes_unconfirmed"
    "the designated independent reviewer must confirm the declared test changes in the published passing report"
    (Some (confirmation +:+ nl +:+ "Read-only pre-review preview: " +:+ preview_command number head
      +:+ ". Review every declared/allowlisted change and publish that exact line in the designated review report. Confirmation expires when the head, base, diff or declaration changes.")).

(** [ensure]: after identity, interval and pass of the review were checked. *)
Definition ensure (number : N) (head review_author report : string) : io W unit :=
  '(subject, patch, findings) ← comparison number head;
  if bool_decide (length findings = 0) && is_none (summary patch) then mret tt
  else
  let rows := declared_rows (declarations (sj_body subject)) in
  if negb (forallb (is_declared rows) findings)
  then lift (throw (undeclared number head findings))
  else
  let confirmation := confirmation (change_digest subject patch) in
  if eq_ignore_ascii_case (sj_author subject) review_author
     || negb (existsb (λ line, trim line ==? confirmation) (lines report))
  then lift (throw (unconfirmed number head confirmation))
  else mret tt.

(** The gate that a published pass goes through. *)
Definition test_gate : ReviewReads W := {| test_integrity_ensure := ensure |}.
End test_changes.
