(* ===== verification/Retire.v ===== *)
(** * The retirement of a coordinator

    [crates/forge-cli/src/ops/pr_review_handoff.rs] ([prove_coordinator_retired]) with
    [pr_review_handoff/diagnostics.rs] and [pr_review_handoff/policy.rs]: the evidence of the
    session board, and the policy of the base branch as the checkout has it.  Together they are
    the [Authority] of a takeover. *)
From S2P Require Import Prelude RStr Collections Error Types Markers Identity Handoff Provider.
From S2P Require Import Hosts Paths Config PrReviews Report Detect.
From stdpp Require Import options.

(** ** Third-party code: the session board and the printing of a timestamp *)
Class SessionBoard (W : Type) := {
  (** [agent-session board --state all --format json]: whether it succeeded and what it printed;
      [None] when it did not start, took too long or printed too much. *)
  board_run : W → option (bool * string);
  (** [jiff::Timestamp::now], in nanoseconds. *)
  board_now : W → Z;
}.
(** [jiff::Timestamp]'s [Display]. *)
Class TimestampText := timestamp_text : Z → string.

(** [Timestamp::as_second]. *)
Definition as_second (t : Z) : Z := Z.quot t 1000000000.

(** ** diagnostics.rs *)
Section diagnostics.
Context `{JT : !JsonText}.

Definition unproven (prerequisite : string) (retryable : bool) (next_action message : string)
    : ForgeError :=
  validation_with_details handoff_schema "review_coordinator_unproven" message
    (JObject [("retryable", JBool retryable); ("next_action", JString next_action);
      ("prerequisite", JString prerequisite);
      ("recovery", JObject [("reason", JString "coordinator-retired");
        ("route", JString "forge-cli pr review-handoff recover");
        ("requires_repository_supervisor", JBool true);
        ("requires_stale_terminal_activity", JBool true);
        ("requires_exact_head_base_tip", JBool true)])]).

Definition board_unavailable : ForgeError :=
  unproven "session_board_unavailable" true "refresh_session_evidence"
    "the session board could not be read (agent-session board failed, timed out or returned an unrecognized response); check that agent-session is installed (FORGE_CLI_AGENT_SESSION_BIN) and retry".

Definition board_incomplete : ForgeError :=
  unproven "session_board_incomplete" true "refresh_session_evidence"
    "the session board snapshot is truncated or older than 60 seconds; retry for a complete, fresh board".

Definition coordinator_not_on_board : ForgeError :=
  unproven "coordinator_not_on_board" false "request_lifecycle_evidence"
    "the recorded coordinator has no row on the session board, so its retirement cannot be proven; `agent-session board --state all --format json` must return a retained stopped or closed row for it, which only the session-board operator can supply".

Definition coordinator_source_ambiguous : ForgeError :=
  unproven "coordinator_source_ambiguous" false "request_lifecycle_evidence"
    "the recorded coordinator does not resolve to exactly one selected source machine on the session board; the session-board operator must remove the ambiguity".

Definition coordinator_source_selector_mismatch : ForgeError :=
  unproven "coordinator_source_selector_mismatch" false "correct_coordinator_selector"
    "the session board has exactly one source machine for the recorded coordinator, and the explicit @machine selector does not name it; correct the selector or omit it".

Definition lifecycle_source_unavailable : ForgeError :=
  unproven "lifecycle_source_unavailable" true "refresh_session_evidence"
    "the source machine that hosts the recorded coordinator is offline or was not seen recently; retry once it reports to the session board".

Definition coordinator_not_terminal : ForgeError :=
  unproven "coordinator_not_terminal" false "request_lifecycle_evidence"
    "the recorded coordinator's board row is neither a proven stop (stopped with runtime_status stopped) nor closed as deleted or archived, so its retirement cannot be proven; authoritative lifecycle evidence for that row is required, and a closed coordinator cannot receive a return".

Definition terminal_activity_missing : ForgeError :=
  unproven "terminal_activity_missing" false "request_lifecycle_evidence"
    "the coordinator's retained board row has no last_terminal_activity_at, so staleness cannot be proven; waiting cannot create it and no substitute or caller-supplied timestamp is accepted. `agent-session board --state all --format json` must return that field for this row, which only the session-board operator can supply".

Definition coordinator_not_stale (stale_after_seconds : N) : ForgeError :=
  unproven "coordinator_not_stale" true "refresh_session_evidence"
    ("the recorded coordinator's last terminal activity is more recent than the configured stale_after ("
     +:+ dec stale_after_seconds +:+ "s); retry after that interval has elapsed").

Definition checkout_unavailable : ForgeError :=
  unproven "checkout_unavailable" false "run_from_repository_checkout"
    "the handoff policy cannot be read: run the command from a checkout of this repository".

Definition remote_unavailable (remote : string) : ForgeError :=
  unproven "remote_unavailable" false "select_matching_remote"
    ("the handoff policy cannot be read: git remote " +:+ remote
     +:+ " is not configured or has an unreadable URL; pass --remote naming this repository's remote").

Definition remote_repository_mismatch (remote : string) : ForgeError :=
  unproven "remote_repository_mismatch" false "select_matching_remote"
    ("git remote " +:+ remote +:+ " of the current checkout does not point at this pull request's repository and host; run from a checkout of this repository or pass --remote naming its remote").

Definition base_ref_missing (remote base_ref : string) : ForgeError :=
  unproven "base_ref_missing" true "fetch_base_ref"
    ("the provider base branch is not cached as refs/remotes/" +:+ remote +:+ "/" +:+ base_ref
     +:+ "; run `git fetch " +:+ remote +:+ " " +:+ base_ref +:+ "` and retry").

(** [sha.get(..12).unwrap_or(sha)]. *)
Definition short (sha : string) : string :=
  if (12 <=? len sha)%N && is_char_boundary sha 12 then String.substring 0 12 sha else sha.

Definition base_ref_stale (remote base_ref provider_base : string) : ForgeError :=
  unproven "base_ref_stale" true "fetch_base_ref"
    ("cached refs/remotes/" +:+ remote +:+ "/" +:+ base_ref
     +:+ " does not match the provider base " +:+ short provider_base +:+ "; run `git fetch "
     +:+ remote +:+ " " +:+ base_ref +:+ "` and retry").

Definition provider_base_behind_cache (remote base_ref provider_base : string) : ForgeError :=
  unproven "provider_base_behind_cache" true "update_pr_branch"
    ("the provider reports base " +:+ short provider_base
     +:+ ", which is older than the cached tip of refs/remotes/" +:+ remote +:+ "/" +:+ base_ref
     +:+ "; update the pull request branch onto the current base so the provider base advances, then retry").

Definition policy_config_invalid : ForgeError :=
  unproven "policy_config_invalid" false "fix_handoff_policy_config"
    "[review_handoff].stale_after is invalid at the cached base ref; correct it on the base branch and retry".
End diagnostics.

(** ** The session board *)
Section board.
Context `{HS : !Hasher, JT : !JsonText, TP : !TimestampParse, TT : !TimestampText}.
(** The instant of the reading, and the coordinator. *)
Context (now : Z) (coordinator : string).

(** A timestamp of the last minute. *)
Definition fresh (v : JsonValue) : bool :=
  is_some_and (as_str v ≫= λ s, ok (timestamp_parse s)) (λ t,
    bool_decide (0 ≤ as_second now - as_second t ≤ 60)%Z).

Definition is_text (key text : string) (row : JsonValue) : bool :=
  as_str (index key row) ==? Some text.
Definition is_true (key : string) (row : JsonValue) : bool := as_bool (index key row) ==? Some true.

(** The rows of the coordinator: those whose session identity has its digest. *)
Definition of_coordinator (row : JsonValue) : bool :=
  (as_str (index "session_id" row) ≫= λ id, ok (session_digest id)) ==? Some coordinator.

Definition live (row : JsonValue) : bool :=
  is_text "state" "live" row || is_text "runtime_status" "running" row.

Definition row_machine (row : JsonValue) : option string := as_str (index "machine" row).

Definition is_deleted (row : JsonValue) : bool :=
  is_text "state" "closed" row && is_null (index "runtime_status" row)
  && (is_text "close_reason" "deleted" row || is_text "close_reason" "archived" row).
Definition is_stopped (row : JsonValue) : bool :=
  is_text "state" "stopped" row && is_text "runtime_status" "stopped" row.

(** One row of the coordinator: its machine is available, it is terminal, and stale. *)
Definition row_evidence (machines : list JsonValue) (source_digest : string) (stale_after : N)
    (row : JsonValue) : exec CoordinatorRetirementEvidence :=
  machine ← ok_or (Fail coordinator_source_ambiguous) (row_machine row);
  match List.filter (λ m, row_machine m ==? Some machine) machines with
  | [source] =>
      if negb (is_true "available" source) || negb (fresh (index "last_seen_at" source))
      then throw lifecycle_source_unavailable
      else if negb (is_deleted row) && negb (is_stopped row) then throw coordinator_not_terminal
      else
      activity ← ok_or (Fail terminal_activity_missing)
        (as_str (index "last_terminal_activity_at" row) ≫= λ s, ok (timestamp_parse s));
      let age := (as_second now - as_second activity)%Z in
      if bool_decide (age < 0)%Z || (Z.to_N age <? stale_after)%N
      then throw (coordinator_not_stale stale_after)
      else Ok {| machine_digest := source_digest;
                 session_status := if is_deleted row then "deleted" else "stopped";
                 last_activity_at := timestamp_text activity;
                 stale_after_seconds := stale_after |}
  | _ => throw lifecycle_source_unavailable
  end.

(** The decision on the board's text. *)
Definition board_evidence (text : string) (expected_source : option string) (stale_after : N)
    : exec CoordinatorRetirementEvidence :=
  value ← map_err (λ _, Fail board_unavailable) (value_from_str text);
  let board := index "board" (index "data" value) in
  if negb (is_true "ok" value) || negb (is_text "schema_version" "agent-session.board-view.v1" board)
  then throw board_unavailable
  else if (as_bool (index "truncated" board) !=? Some false) || negb (fresh (index "generated_at" board))
  then throw board_incomplete
  else
  machines ← ok_or (Fail board_unavailable) (as_array (index "machines" board));
  records ← ok_or (Fail board_unavailable) (as_array (index "records" board));
  let matching := List.filter of_coordinator records in
  if existsb live matching
  then throw (fail "review_coordinator_live" "the recorded coordinator is still live")
  else if bool_decide (length matching = 0) then throw coordinator_not_on_board
  else
  match elements (list_to_set (omap row_machine matching) : gset string) with
  | [source] =>
      let source_digest := sha256_digest source in
      if is_some_and expected_source (λ expected, expected !=? source_digest)
      then throw coordinator_source_selector_mismatch
      else
      evidence ← foldM (λ _ row, e ← row_evidence machines source_digest stale_after row; Ok (Some e))
                   None matching;
      ok_or (Fail coordinator_not_on_board) evidence
  | _ => throw coordinator_source_ambiguous
  end.
End board.

(** ** The policy of the base branch *)
Section policy.
Context `{HS : !Hasher, JT : !JsonText, TP : !TimestampParse, TT : !TimestampText,
          SP : !SecretPattern, TX : !TomlText} {W : Type} `{LF : !LocalFiles W, BR : !SessionBoard W}.
(** The working directory, and the provider, host and remote of the context. *)
Context (workdir : option string) (provider : Provider) (provider_host remote : string).

Definition prove_retired (old : ReviewHandoff) (expected_source : option string) (stale_after : N)
    (w : W) : exec CoordinatorRetirementEvidence :=
  match board_run w with
  | Some (true, stdout) =>
      board_evidence (board_now w) (coordinator_digest old) stdout expected_source stale_after
  | _ => throw board_unavailable
  end.

(** [git remote get-url]. *)
Definition git_remote_url (dir : string) (w : W) : option string :=
  stdout ← git_stdout (local_git dir ["remote"; "get-url"; remote] w);
  if is_some (utf8_error 0 stdout) then None
  else let url := trim stdout in if is_empty url then None else Some url.

Definition git_success (toplevel : string) (args : list string) (w : W) : bool :=
  is_some (git_stdout (local_git toplevel args w)).

Definition DEFAULT_STALE_AFTER : N := secs (2 * 60 * 60).

(** What the configuration of the base branch says; the bound in whole seconds. *)
Definition policy_of (config : ForgeConfig) : exec (list string * N) :=
  if existsb (starts_with "invalid-config-value:review_handoff.stale_after") (warnings config)
  then throw policy_config_invalid
  else Ok (default [] (review_handoff_supervisors (cfg_handoff config)),
           as_secs (default DEFAULT_STALE_AFTER (review_handoff_stale_after (cfg_handoff config)))).

Definition supervisor_policy (repository provider_base_sha base_ref : string) (w : W)
    : exec (list string * N) :=
  workdir ← ok_or (Fail checkout_unavailable) workdir;
  toplevel ← ok_or (Fail checkout_unavailable) (git_toplevel workdir w);
  remote_url ← ok_or (Fail (remote_unavailable remote)) (git_remote_url workdir w);
  remote_repository ← ok_or (Fail (remote_unavailable remote)) (parse_slug remote_url);
  remote_host ← ok_or (Fail (remote_unavailable remote)) (parse_host remote_url);
  let repository_matches :=
    if provider ==? GitHub then eq_ignore_ascii_case remote_repository repository
    else remote_repository ==? repository in
  if negb repository_matches || negb (authorities_equal provider provider_host remote_host)
  then throw (remote_repository_mismatch remote)
  else
  let git_ref := "refs/remotes/" +:+ remote +:+ "/" +:+ base_ref in
  match local_git toplevel ["rev-parse"; "--verify"; git_ref +:+ "^{commit}"] w with
  | NotSpawned _ => throw checkout_unavailable
  | Exited false _ _ => throw (base_ref_missing remote base_ref)
  | Exited true stdout _ =>
      let cached := trim stdout in
      if cached !=? provider_base_sha then
        if git_success toplevel ["merge-base"; "--is-ancestor"; provider_base_sha; cached] w
        then throw (provider_base_behind_cache remote base_ref provider_base_sha)
        else throw (base_ref_stale remote base_ref provider_base_sha)
      else policy_of (load_from_git_ref workdir toplevel git_ref w)
  end.

(** The authority of a takeover, as the checkout and the board are at one instant. *)
Definition local_authority (session : option SessionBinding) (w : W) : Authority := {|
  trusted_supervisor_policy := λ repository base_sha base_ref,
    supervisor_policy repository base_sha base_ref w;
  prove_coordinator_retired := λ old expected_source stale_after,
    prove_retired old expected_source stale_after w;
  session_current := session;
|}.
End policy.
