(* ===== verification/HandoffRun.v ===== *)
(** * The [pr review-handoff] command

    [run] of [crates/forge-cli/src/ops/pr_review_handoff.rs] with [inspection.rs]: what each
    subcommand reads, what it proposes, and the one record it appends.  [test-changes], which
    only previews the test-change gate, is left out; the context is on the detected provider. *)
From S2P Require Import Prelude RStr Collections Error Types Markers Identity Record Handoff.
From S2P Require Import Chain Provider PrView PrReviews Append Report Publish.
From stdpp Require Import options.

Inductive HandoffCommand : Type :=
  | Inspect (expected_head review_author : option string)
  | CheckReview (expected_head : string) (policy : option ApprovalPolicy)
  | Assign (a : AssignArgs)
  | Surrender (expected_head expected_state : string)
  | Recover (a : RecoverArgs).

Record HandoffPayload := mk_HandoffPayload {
  hp_provider : string;
  hp_number : N;
  hp_url : string;
  hp_head_sha : string;
  hp_base_sha : string;
  hp_handoff_digest : option string;
  hp_ignored_stale_records : list string;
  hp_state_tip_digest : option string;
  hp_handoff : option ReviewHandoff;
  hp_sync_carry_over : option SyncCarryOver;
  hp_status : string;
  hp_approval_policy : ApprovalPolicy;
  hp_approval : option PublishedApproval;
}.

(** What a command leaves to be reported. *)
Record Progress := mk_Progress {
  pg_chain : ReviewStateChain;
  pg_status : string;
  pg_sync_carry_over : option SyncCarryOver;
  pg_approval_policy : ApprovalPolicy;
  pg_approval : option PublishedApproval;
}.

Definition chain_policy (chain : ReviewStateChain) : ApprovalPolicy :=
  from_option approval_policy SourcePass (latest chain).

(** The status an ownership record is reported with. *)
Definition handoff_status (h : ReviewHandoff) : string :=
  if is_some (returned_reason h) then "returned-to-coordinator"
  else if surrendered h then "surrendered"
  else "awaiting-designated-review".

(** The status of an inspected chain; the reviewer and author the caller is configured with
    must be those of the handoff. *)
Definition inspect_status `{!Hasher} (env : Env) (review_author_flag : option string)
    (base : string) (chain : ReviewStateChain) : exec string :=
  match latest chain with
  | None => Ok "unassigned"
  | Some h =>
      digest ← assignment_digest env;
      if is_some_and digest (λ digest, digest !=? reviewer_digest h)
         || is_some_and review_author_flag (λ v, negb (eq_ignore_ascii_case v (review_author h)))
      then throw (fail "review_assignment_conflict"
        "configured reviewer or author differs from the persisted handoff")
      else Ok (if base_sha h !=? base then "review-scope-changed" else handoff_status h)
  end.

(** [chain.records.push(record)]. *)
Definition push_record (chain : ReviewStateChain) (record : ReviewStateRecord) : ReviewStateChain :=
  mk_ReviewStateChain (c_records chain ++ [record]) (c_tip_digest chain)
    (c_ignored_stale_records chain).

Section run.
Context `{HS : !Hasher, LS : !LedgerSerde, JT : !JsonText, UP : !UrlParse, SP : !SecretPattern,
          TP : !TimestampParse, UU : !UuidParse, SB : !Serialize SessionBinding}
  {W : Type} `{BE : !Backend W, RR : !ReviewReads W}.
Context (env : Env) (auth : Authority) (repo : option string)
  (open_objects : result string Objects).
(** The pull request as the command found it. *)
Context (repository : string) (number : N) (url head : string).

(** inspection.rs: an admission that is only pending is no error of an inspection. *)
Definition pending_admission (error : ForgeError) : bool :=
  bool_decide (kind error ∈ ["awaiting_designated_review"; "designated_final_approval_required"]).

Definition published (chain : ReviewStateChain) (handoff_created_at : option string)
    : io W (option PublishedApproval) :=
  admission ← attempt
    (admission ← admit_published env repo open_objects number url head chain handoff_created_at;
     _ ← lift (require_policy (approval admission) (chain_policy chain));
     mret admission);
  match admission with
  | Ok admission => mret (approval admission)
  | Err (Fail error) => if pending_admission error then mret None else lift (throw error)
  | Err stop => lift (Err stop)
  end.

Definition run_inspect (expected_head review_author_flag : option string) (base : string)
    (state : ReviewLoopStateView) : io W Progress :=
  let chain := sv_chain state in
  _ ← lift (match expected_head with
            | Some expected => require_head head expected
            | None => Ok tt
            end);
  status ← lift (inspect_status env review_author_flag base chain);
  approval ← (if status ==? "awaiting-designated-review"
              then published chain (sv_handoff_created_at state) else mret None);
  mret (mk_Progress chain (if is_some approval then "reviewed" else status)
          (recorded_carry_over chain head) (chain_policy chain) approval).

Definition carry_append (chain : ReviewStateChain) (c : SyncCarryOver) : ReviewStateAppend := {|
  ap_repository := repository; ap_number := number; ap_expected_head := head;
  ap_expected_tip := c_tip_digest chain; ap_payload := P_ReviewSyncCarryOver c;
  ap_visible_outcome := None |}.

Definition run_check (dry_run : bool) (expected_head : string) (policy : option ApprovalPolicy)
    (state : ReviewLoopStateView) : io W Progress :=
  let chain := sv_chain state in
  _ ← lift (require_head head expected_head);
  requested ← lift (if is_none (latest chain) then assignment_digest env
                    else Ok (Some EmptyString));
  if is_none requested then
    lift (throw (fail "review_assignment_missing" "no designated reviewer handoff exists"))
  else
  admission ← admit_published env repo open_objects number url head chain
                (sv_handoff_created_at state);
  let policy := requiring (chain_policy chain) policy in
  _ ← lift (require_policy (approval admission) policy);
  let carry := sync_carry_over admission in
  chain ←
    match carry with
    | Some c =>
        if (recorded_carry_over chain head !=? Some c) && negb dry_run then
          res ← append_review_state_payload env auth repo (carry_append chain c);
          mret (al_chain res)
        else mret chain
    | None => mret chain
    end;
  mret (mk_Progress chain "reviewed" carry policy (approval admission)).

Definition handoff_append (chain : ReviewStateChain) (handoff : ReviewHandoff)
    : ReviewStateAppend := {|
  ap_repository := repository; ap_number := number; ap_expected_head := head;
  ap_expected_tip := c_tip_digest chain; ap_payload := P_ReviewHandoff handoff;
  ap_visible_outcome := None |}.

(** The proposed ownership record: appended, or shown on top of the chain in a dry run. *)
Definition record_handoff (dry_run : bool) (chain : ReviewStateChain) (handoff : ReviewHandoff)
    : io W Progress :=
  _ ← lift (validate_handoff handoff);
  chain ←
    (if negb dry_run then
       res ← append_review_state_payload env auth repo (handoff_append chain handoff);
       mret (al_chain res)
     else
       record ← lift (ReviewStateRecord_new repository number head
                        (N.of_nat (length (c_records chain))) (c_tip_digest chain)
                        (P_ReviewHandoff handoff));
       mret (push_record chain record));
  mret (mk_Progress chain (handoff_status handoff) None (chain_policy chain) None).

Definition run_command (dry_run : bool) (command : HandoffCommand) (view_base base : string)
    (base_branch : option string) (state : ReviewLoopStateView) : io W Progress :=
  let chain := sv_chain state in
  match command with
  | Inspect expected_head review_author => run_inspect expected_head review_author base state
  | CheckReview expected_head policy => run_check dry_run expected_head policy state
  | Assign a =>
      handoff ← lift (propose_assign env chain head base (default EmptyString base_branch) a);
      record_handoff dry_run chain handoff
  | Surrender expected_head expected_state =>
      handoff ← lift (propose_surrender env chain head expected_head expected_state);
      record_handoff dry_run chain handoff
  | Recover a =>
      handoff ← lift (propose_recover env auth chain repository head base view_base a);
      record_handoff dry_run chain handoff
  end.

Definition handoff_payload (base : string) (p : Progress) : HandoffPayload :=
  let chain := pg_chain p in
  {| hp_provider := provider_as_str GitHub; hp_number := number; hp_url := url;
     hp_head_sha := head; hp_base_sha := base; hp_handoff_digest := latest_handoff_digest chain;
     hp_ignored_stale_records := c_ignored_stale_records chain;
     hp_state_tip_digest := c_tip_digest chain; hp_handoff := latest chain;
     hp_sync_carry_over := pg_sync_carry_over p; hp_status := pg_status p;
     hp_approval_policy := pg_approval_policy p; hp_approval := pg_approval p |}.
End run.

Section command.
Context `{HS : !Hasher, LS : !LedgerSerde, JT : !JsonText, UP : !UrlParse, SP : !SecretPattern,
          TP : !TimestampParse, UU : !UuidParse, SB : !Serialize SessionBinding}
  {W : Type} `{BE : !Backend W, RR : !ReviewReads W}.
Context (env : Env) (auth : Authority) (repo : option string)
  (open_objects : result string Objects).

(** The provider's base: an assignment also records its branch. *)
Definition command_base (command : HandoffCommand) (number : N) : io W (string * option string) :=
  match command with
  | Assign _ => '(sha, name) ← provider_base_scope repo number; mret (sha, Some name)
  | _ => sha ← provider_base repo number; mret (sha, None)
  end.

Definition handoff_run (provider : Provider) (dry_run : bool) (command : HandoffCommand) (id : N)
    : io W HandoffPayload :=
  if provider !=? GitHub then
    lift (throw (fail "designated_review_provider_unsupported"
      "designated review requires the GitHub provider ledger"))
  else
  v ← view id;
  repository ← lift (ok_or (Fail (fail "review_assignment_invalid"
      "reviewable repository is missing")) (github_repo_slug_from_url (v_url v)));
  head ← lift (ok_or (Fail (fail "review_assignment_invalid" "provider head is missing"))
    (v_head_sha v));
  state ← read_review_loop_state_view repository id;
  '(base, base_branch) ← command_base command id;
  p ← run_command env auth repo open_objects repository id (v_url v) head dry_run command
        (v_base v) base base_branch state;
  mret (handoff_payload id (v_url v) head base p).
End command.
