(* ===== verification/LoopInput.v ===== *)
(** * The input of the review-loop commands

    The findings file of [pr review-loop observe] and [validate]
    ([crates/forge-cli/src/ops/pr_review_loop.rs] and its [correction_input.rs]): an array of
    observations, a merge envelope, or an envelope that carries an acceptance, a
    supersession or a correction.  Deserialising an envelope is generated code, so it is a
    parameter; everything decided afterwards is here, and so is the approval comment. *)
From S2P Require Import Prelude RStr Collections Error Types Markers ReviewLoop Identity Record.
From S2P Require Import Handoff Correction Supersession Acceptance Chain Provider PrView.
From S2P Require Import PrReviews.
From stdpp Require Import options.

Definition CORRECTION_INPUT_SCHEMA : string := "forge-cli.review-loop-correction.v1".

(** [serde_json::from_value] of the three envelopes, which refuse unknown fields, and
    [serde_json::to_value] of parsed rows. *)
Class EnvelopeSerde := {
  acceptance_envelope : JsonValue → option (string * AcceptanceRequest * JsonValue);
  supersession_envelope : JsonValue → option (string * SupersessionRequest * JsonValue);
  correction_envelope : JsonValue → option (string * CorrectionRequest * JsonValue);
  observations_to_value : list ReviewFindingObservation → option JsonValue;
}.

(** ** Rows *)
Definition findings_invalid (message : string) (detail : option string) : ForgeError :=
  validation error_schema "review_findings_invalid" message detail.

Definition parse_finding_status (value : string) : exec ReviewFindingStatus :=
  ok_or (Fail (findings_invalid "review finding disposition is not supported"
      (Some ("status=" +:+ value +:+ "; supported="
        +:+ join " | " (status_as_str <$> ReviewFindingStatus_ALL)))))
    (find_first (λ status, status_as_str status ==? value) ReviewFindingStatus_ALL).

(** [Option::or_else]. *)
Definition or_else {A} (o o' : option A) : option A := match o with Some a => Some a | None => o' end.

Definition observation_from_value (value : JsonValue) : exec ReviewFindingObservation :=
  let primary := default value (get "primary" value) in
  fingerprint ← ok_or (Fail (validation error_schema "review_fingerprint_required"
      "each review-loop observation requires a lifecycle fingerprint" None))
    (nonempty (or_else (get "lifecycle_fingerprint" value) (get "fingerprint" value) ≫= as_str));
  let root_cause_fingerprint :=
    or_else (get "root_cause_fingerprint" primary) (get "root_cause_fingerprint" value) ≫= as_str in
  let blocking := default (get_str "severity" primary !=? Some "info")
                    (get "blocking" value ≫= as_bool) in
  status ← match or_else (get "disposition" value) (get "status" value) ≫= as_str with
           | Some status => parse_finding_status status
           | None => Ok Open
           end;
  let threads := from_option (omap as_str) [] (get "threads" value ≫= as_array) in
  Ok {| o_fingerprint := fingerprint; o_root_cause_fingerprint := root_cause_fingerprint;
        o_blocking := blocking; o_status := status; o_threads := threads |}.

Definition observations_from_value (value : JsonValue) : exec (list ReviewFindingObservation) :=
  let value := default value (get "data" value) in
  rows ← ok_or (Fail (findings_invalid
      "findings input must be an array or a review-specialists merge envelope" None))
    (as_array (default value (get "findings" value)));
  mapR observation_from_value rows.

(** ** Envelopes *)
Record ObservationInput := mk_ObservationInput {
  in_observations : list ReviewFindingObservation;
  in_acceptance : option AcceptanceRequest;
  in_correction : option CorrectionRequest;
  in_supersession : option SupersessionRequest;
}.

(** [get_mut] along two keys, and the value stored there. *)
Definition replace_key (key : string) (f : JsonValue → JsonValue) (v : JsonValue) : JsonValue :=
  match v with
  | JObject l => JObject ((λ kv, if kv.1 ==? key then (kv.1, f kv.2) else kv) <$> l)
  | _ => v
  end.

Definition schema_is (schema : string) (value : JsonValue) : bool :=
  get_str "schema_version" value ==? Some schema.

Section input.
Context `{JT : !JsonText, ES : !EnvelopeSerde}.

(** The rows below [outer]'s [attempted_findings], normalised in place. *)
Definition normalise_rows (outer : string) (skip_null : bool) (cannot_encode : ForgeError)
    (value : JsonValue) : exec JsonValue :=
  match get outer value ≫= get "attempted_findings" with
  | None => Ok value
  | Some rows =>
      match rows, skip_null with
      | JNull, true => Ok value
      | _, _ =>
          observations ← observations_from_value rows;
          encoded ← ok_or (Fail cannot_encode) (observations_to_value observations);
          Ok (replace_key outer (replace_key "attempted_findings" (λ _, encoded)) value)
      end
  end.

(** acceptance_input.rs *)
Definition parse_acceptance (value : JsonValue)
    : exec (AcceptanceRequest * list ReviewFindingObservation) :=
  value ← normalise_rows "acceptance" false (invalid_acceptance "cannot encode attempted inventory")
            value;
  '(schema_version, request, findings) ← ok_or
    (Fail (invalid_acceptance "invalid acceptance envelope fields")) (acceptance_envelope value);
  if schema_version !=? ACCEPTANCE_INPUT_SCHEMA then
    throw (invalid_acceptance "unsupported acceptance input schema")
  else
  _ ← AcceptanceRequest_validate request;
  observations ← observations_from_value findings;
  Ok (request, observations).

Definition parse_supersession (value : JsonValue) : exec ObservationInput :=
  '(schema_version, request, findings) ← ok_or
    (Fail (invalid_supersession "invalid supersession envelope fields"))
    (supersession_envelope value);
  if schema_version !=? SUPERSESSION_INPUT_SCHEMA then
    throw (invalid_supersession "unsupported supersession input schema")
  else
  _ ← SupersessionRequest_validate request;
  observations ← observations_from_value findings;
  Ok (mk_ObservationInput observations None None (Some request)).

Definition parse_correction (value : JsonValue) : exec ObservationInput :=
  value ← normalise_rows "correction" true
            (invalid_correction "cannot encode attempted findings proof") value;
  '(schema_version, request, findings) ← ok_or
    (Fail (invalid_correction "invalid correction envelope fields")) (correction_envelope value);
  if schema_version !=? CORRECTION_INPUT_SCHEMA then
    throw (invalid_correction "unsupported correction input schema")
  else
  _ ← CorrectionRequest_validate request;
  observations ← observations_from_value findings;
  Ok (mk_ObservationInput observations None (Some request) None).

Definition ObservationInput_parse (value : JsonValue) : exec ObservationInput :=
  if is_some (get "acceptance" value) || schema_is ACCEPTANCE_INPUT_SCHEMA value then
    '(request, observations) ← parse_acceptance value;
    Ok (mk_ObservationInput observations (Some request) None None)
  else if is_some (get "supersession" value) || schema_is SUPERSESSION_INPUT_SCHEMA value then
    parse_supersession value
  else if is_some (get "correction" value) || schema_is CORRECTION_INPUT_SCHEMA value then
    parse_correction value
  else
    observations ← observations_from_value value;
    Ok (mk_ObservationInput observations None None None).

(** ** [pr review-loop validate] *)
Definition detect_findings_shape (value : JsonValue) : string :=
  if schema_is ACCEPTANCE_INPUT_SCHEMA value then "acceptance-envelope"
  else if schema_is CORRECTION_INPUT_SCHEMA value then "correction-envelope"
  else if schema_is SUPERSESSION_INPUT_SCHEMA value then "supersession-envelope"
  else if is_some (get "findings" (default value (get "data" value))) then "merge-envelope"
  else "observation-array".

(** Identities with more than one row, in the order they first repeat. *)
Definition collapse_step (acc : list string * list string) (observation : ReviewFindingObservation)
    : list string * list string :=
  let '(seen, collapsed) := acc in
  let identity := lifecycle_key observation in
  if bool_decide (identity ∈ seen) then
    (seen, if bool_decide (identity ∈ collapsed) then collapsed else collapsed ++ [identity])
  else (seen ++ [identity], collapsed).

Definition collapsed_identities (observations : list ReviewFindingObservation) : list string :=
  (foldl collapse_step ([], []) observations).2.

Record ValidatePayload := mk_ValidatePayload {
  vp_shape : string;
  vp_row_count : nat;
  vp_identity_count : nat;
  vp_dispositions : list (string * N);
  vp_blocking_count : N;
  vp_duplicate_identities : list string;
}.

(** [counts.iter_mut().find(..).expect(..).count += 1]. *)
Fixpoint bump (label : string) (counts : list (string * N)) : exec (list (string * N)) :=
  match counts with
  | [] => panic "ReviewFindingStatus::ALL covers every status"
  | (d, n) :: counts =>
      if d ==? label then Ok ((d, (n + 1)%N) :: counts)
      else counts ← bump label counts; Ok ((d, n) :: counts)
  end.

Definition validate_payload (raw : JsonValue) : exec ValidatePayload :=
  let shape := detect_findings_shape raw in
  input ← ObservationInput_parse raw;
  let observations := in_observations input in
  canonical ← canonical_observations observations;
  counts ← foldM (λ counts observation, bump (status_as_str (o_status observation)) counts)
             ((λ status, (status_as_str status, 0%N)) <$> ReviewFindingStatus_ALL)
             (values canonical);
  let duplicate_identities :=
    if (size canonical <? length observations)%nat then collapsed_identities observations else [] in
  Ok (mk_ValidatePayload shape (length observations) (size canonical) counts
        (count_if o_blocking (values canonical)) duplicate_identities).
End input.

(** ** The approval comment of an extension or an acceptance *)
Record ApprovalComment := mk_ApprovalComment {
  ac_url : string;
  ac_issue_url : string;
  ac_author : string;
  ac_association : string;
  ac_created_at : string;
  ac_body : string;
}.

Definition approval_invalid (message : string) (detail : option string) : ForgeError :=
  validation error_schema "review_extension_approval_invalid" message detail.

Definition ensure_approval_targets_pr (approval : ApprovalComment) (repository : string)
    (pr_number : N) : exec unit :=
  let expected_suffix := "/repos/" +:+ repository +:+ "/issues/" +:+ dec pr_number in
  if negb (ends_with expected_suffix (ac_issue_url approval)) then
    throw (approval_invalid "the approval comment does not belong to the target pull request"
      (Some ("expected_issue_suffix=" +:+ expected_suffix +:+ "; provider_issue_url="
        +:+ ac_issue_url approval)))
  else Ok tt.

Definition maintainer_association (association : string) : bool :=
  (association ==? "OWNER") || (association ==? "MEMBER") || (association ==? "COLLABORATOR").

Section approval.
Context `{TP : !TimestampParse}.

Definition parse_time (message s : string) : exec Z :=
  map_err (λ error, Fail (approval_invalid message (Some error))) (timestamp_parse s).

Definition validate_marker_approval (approval : ApprovalComment) (state_created_at : option string)
    (marker : string) : exec unit :=
  if negb (maintainer_association (ac_association approval)) then
    throw (approval_invalid "the approval comment author is not a maintainer or collaborator"
      (Some ("author=" +:+ ac_author approval +:+ "; association=" +:+ ac_association approval)))
  else
  state_created_at ← ok_or (Fail (approval_invalid
      "the current state tip has no provider creation timestamp" None)) state_created_at;
  state_time ← parse_time "the current state timestamp is invalid" state_created_at;
  approval_time ← parse_time "the approval timestamp is invalid" (ac_created_at approval);
  if (approval_time <=? state_time)%Z then
    throw (approval_invalid "the approval comment must be authored after the current state tip"
      (Some ("state_created_at=" +:+ state_created_at +:+ "; approval_created_at="
        +:+ ac_created_at approval)))
  else if negb (existsb (λ line, trim line ==? marker) (lines (ac_body approval))) then
    throw (approval_invalid "the approval comment does not contain the exact approval marker"
      (Some ("required_marker=" +:+ marker)))
  else Ok tt.

Definition validate_approval (approval : ApprovalComment) (state_created_at : option string)
    (proposal budget_field : string) (increment : N) : exec unit :=
  validate_marker_approval approval state_created_at
    (extension_approval_marker proposal budget_field increment).
End approval.

Section read_approval.
Context `{JT : !JsonText} {W : Type} `{BE : !Backend W}.

Definition required_field (value : JsonValue) (path : list string) : exec string :=
  ok_or (Fail (approval_invalid "provider approval comment is missing required metadata"
      (Some ("field=/" +:+ join "/" path))))
    (nonempty (pointer path value ≫= as_str)).

Definition approval_from_value (value : JsonValue) : exec ApprovalComment :=
  url ← required_field value ["html_url"];
  issue_url ← required_field value ["issue_url"];
  author ← required_field value ["user"; "login"];
  association ← required_field value ["author_association"];
  created_at ← required_field value ["created_at"];
  body ← required_field value ["body"];
  Ok (mk_ApprovalComment url issue_url author association created_at body).

Definition read_approval_comment (repository : string) (pr_number comment_id : N)
    : io W ApprovalComment :=
  stdout ← call (GetComment repository comment_id);
  value ← lift (map_err (λ error, Fail (software error_schema
      "provider approval comment response is invalid JSON" (Some error)))
    (value_from_str (trim stdout)));
  approval ← lift (approval_from_value value);
  _ ← lift (ensure_approval_targets_pr approval repository pr_number);
  mret approval.
End read_approval.
