(* ===== verification/LoopCommand.v ===== *)
(** * The review-loop commands

    [crates/forge-cli/src/ops/pr_review_loop.rs]: what the commands read and decide, then the runs
    that write. *)
From S2P Require Import Prelude RStr Collections Payload Error Types Validations Markers ReviewLoop Identity.
From S2P Require Import Record Handoff Correction Supersession Acceptance Chain Provider PrView PrReviews.
From S2P Require Import Append LoopInput.
From stdpp Require Import options.

(** ** The review-loop commands

    [pr review-loop inspect], [observe] (live, [--preflight] and [--dry-run]), [extend] and
    the merge gate of [crates/forge-cli/src/ops/pr_review_loop.rs], after the provider
    context has been resolved.  Local files are fields of the arguments. *)

Record ObserveArgs := mk_ObserveArgs {
  oa_id : N;
  oa_expected_head : string;
  oa_expected_state : option string;
  oa_auto_state : bool;
  oa_preflight : bool;
  oa_body : option string;
  oa_body_file : option string;
  (** What [read_findings_value] and [read_body_with_file_flag] return. *)
  oa_findings : exec JsonValue;
  oa_body_text : exec string;
}.

Record ExtendArgs := mk_ExtendArgs {
  ea_id : N;
  ea_expected_head : string;
  ea_expected_state : string;
  ea_stop_code : string;
  ea_budget_field : string;
  ea_increment : N;
  ea_proposal_digest : string;
  ea_approval_comment : N;
}.

(** [PrReviewLoopPayload], without the provider's name. *)
Record LoopPayload := mk_LoopPayload {
  lp_number : N;
  lp_url : string;
  lp_state_tip_digest : option string;
  lp_generation : option N;
  lp_state : option ReviewLoopState;
  lp_appended : bool;
  lp_outcome_posted : bool;
  lp_ceiling_proposal : option CeilingProposal;
  lp_accepted_risks : list AcceptanceReceipt;
  lp_ignored_stale_records : list string;
}.

Record ObserveEvaluation := mk_ObserveEvaluation {
  oe_ok : bool;
  oe_verdicts : list RuleVerdict;
  oe_would_append : option bool;
  oe_planned_comment : option PlannedStateComment;
  oe_observed_tip : option string;
}.

Record ReviewLoopMergeGate := mk_ReviewLoopMergeGate {
  mg_state_tip_digest : string;
  mg_head_sha : string;
  mg_round : N;
  mg_no_progress_rounds : N;
  mg_open_blocking_findings : list string;
}.

(** The typed outcome of a computation; a panic is not a value the code sees. *)
Definition caught {A} (m : exec A) : exec (result ForgeError A) :=
  match m with
  | Ok a => Ok (Ok a)
  | Err (Fail e) => Ok (Err e)
  | Err s => Err s
  end.

Definition try_io {W A} (m : io W A) : io W (result ForgeError A) := λ w,
  let '(r, w') := m w in (caught r, w').

Definition or_missing (s : option string) : string := default "<missing>" s.

(** ** Compare-and-swap inputs *)
Definition ensure_expected_head (provider_head : option string) (expected : string) : exec unit :=
  if provider_head ==? Some expected then Ok tt
  else throw (state_conflict "the provider pull-request head differs from --expected-head"
    (Some ("expected_head=" +:+ expected +:+ "; provider_head=" +:+ or_missing provider_head))).

Definition ensure_expected_tip (provider expected : option string) : exec unit :=
  if provider ==? expected then Ok tt
  else throw (state_conflict "the provider review-state tip differs from --expected-state"
    (Some ("expected_state=" +:+ or_genesis expected +:+ "; provider_state=" +:+ or_genesis provider))).

Definition resolved_expected_state (args : ObserveArgs) (provider_tip : option string)
    : option string :=
  if oa_auto_state args then provider_tip else oa_expected_state args.

Definition tip_moved (observed provider : option string) : ForgeError :=
  validation error_schema "review_state_tip_moved"
    "the review-state tip moved between the --preflight sweep and the --auto-state append"
    (Some ("observed_state=" +:+ or_genesis observed +:+ "; provider_state=" +:+ or_genesis provider
      +:+ "; recovery=re-run the observation so it is evaluated against the current chain")).

Definition preflight_failed (verdicts : list RuleVerdict) : ForgeError :=
  validation error_schema "review_preflight_failed"
    "the --preflight sweep rejected this observation, so nothing was appended"
    (Some (join "; " ((λ verdict, match rv_message verdict with
                                  | Some message => rv_rule verdict +:+ ": " +:+ message
                                  | None => rv_rule verdict
                                  end) <$> List.filter (λ verdict, negb (rv_ok verdict)) verdicts))).

Definition durable_hard_stop_error (error : ForgeError) (stop : ReviewLoopHardStop)
    (stopped_tip : option string) : ForgeError :=
  let code :=
    if kind error ==? "review_round_limit_exceeded" then "review_round_limit_exceeded"
    else if kind error ==? "review_no_progress" then "review_no_progress"
    else if kind error ==? "review_finding_reopened" then "review_finding_reopened"
    else "review_state_conflict" in
  validation error_schema code (message error)
    (Some (default EmptyString (detail error) +:+ "; stopped_state=" +:+ or_missing stopped_tip
      +:+ "; attempted_head=" +:+ hs_attempted_head_sha stop
      +:+ "; observation_digest=" +:+ hs_observation_digest stop
      +:+ "; proposal_digest=" +:+ hs_proposal_digest stop
      +:+ "; budget_field=" +:+ hs_budget_field stop
      +:+ "; increment=" +:+ dec (hs_increment stop)
      +:+ "; approval_marker="
      +:+ extension_approval_marker (hs_proposal_digest stop) (hs_budget_field stop)
            (hs_increment stop))).

(** ** The outcome body *)
Definition read_outcome_body `{!PayloadEnv} (args : ObserveArgs) : exec (option string) :=
  if is_none (oa_body args) && is_none (oa_body_file args) then Ok None
  else
  body ← oa_body_text args;
  body ← validate_outcome_body body;
  _ ← fails (no_local_path body "review-loop outcome body");
  _ ← fails (no_escaped_control_markdown body);
  Ok (Some body).

Section commands.
Context `{HS : !Hasher, LS : !LedgerSerde, JT : !JsonText, UP : !UrlParse,
          SP : !SecretPattern, TP : !TimestampParse, SB : !Serialize SessionBinding,
          ES : !EnvelopeSerde, PE : !PayloadEnv} {W : Type} `{BE : !Backend W}.
Context (env : Env) (auth : Authority) (repo : option string).

Definition resolve_pr (id : N) : io W (PrView * string) :=
  v ← view id;
  repository ← lift (ok_or (Fail (software error_schema
      "unable to derive GitHub owner/repo from pull-request URL" (Some ("url=" +:+ v_url v))))
    (github_repo_slug_from_url (v_url v)));
  mret (v, repository).

Definition ensure_outcome_already_posted (state_view : ReviewLoopStateView) (outcome expected_head : string)
    : exec unit :=
  tip ← ok_or (Fail (state_conflict
      "an unchanged observation requires an existing review-loop chain tip" None))
    (last (c_records (sv_chain state_view)));
  marker ← marker tip;
  if existsb (λ body, comment_carries_outcome body marker outcome)
       (sv_trusted_comment_bodies state_view)
  then Ok tt
  else throw (validation error_schema "review_outcome_not_posted"
    "the review-loop ledger is already current, so the supplied delivery outcome was not posted"
    (Some ("expected_head=" +:+ expected_head +:+ "; state_tip_digest=" +:+ r_record_digest tip
      +:+ "; recovery=this observation appends nothing, so post the outcome separately or observe a new reviewed head"))).

(** [emit_state]: the payload of a command that succeeded. *)
Definition emit_state (number : N) (url : string) (chain : ReviewStateChain)
    (appended outcome_posted inspecting : bool) : exec LoopPayload :=
  let state := latest_review_loop_state chain in
  ceiling ← match inspecting, state, c_tip_digest chain with
            | true, Some state, Some tip => ceiling_proposal state tip
            | _, _, _ => Ok None
            end;
  Ok {| lp_number := number; lp_url := url; lp_state_tip_digest := c_tip_digest chain;
        lp_generation := r_generation <$> last (c_records chain); lp_state := state;
        lp_appended := appended; lp_outcome_posted := outcome_posted;
        lp_ceiling_proposal := ceiling;
        lp_accepted_risks := omap (λ r, match r_payload r with
          | P_ReviewLoopAcceptance _ acceptance => Some acceptance | _ => None end)
          (c_records chain);
        lp_ignored_stale_records := c_ignored_stale_records chain |}.

Definition run_inspect (id : N) : io W LoopPayload :=
  '(v, repository) ← resolve_pr id;
  state_view ← read_review_loop_state_view repository (v_number v);
  lift (emit_state (v_number v) (v_url v) (sv_chain state_view) false false true).

(** ** acceptance_input.rs: the transition of an acceptance *)
Definition acceptance_approval_error (message marker : string) : ForgeError :=
  validation_with_details error_schema "review_acceptance_approval_invalid" message
    (JObject [("retryable", JBool false); ("next_action", JString "obtain-maintainer-approval");
              ("recovery", JObject [("approval_marker", JString marker);
                                    ("requires_exact_acceptance_marker", JBool true);
                                    ("requires_post_stop_approval", JBool true)])]).

Definition map_approval_error (marker : string) (error : ForgeError) : ForgeError :=
  match error with
  | Validation _ _ message detail =>
      acceptance_approval_error
        (match detail with Some detail => message +:+ "; " +:+ detail | None => message end) marker
  | other => other
  end.

(** [map_err] on a computation. *)
Definition map_fail_io {A} (f : ForgeError → ForgeError) (m : io W A) : io W A := λ w,
  let '(r, w') := m w in (map_fail f r, w').

(** The acceptance the chain already ends with. *)
Definition recorded_acceptance (chain : ReviewStateChain) : option AcceptanceReceipt :=
  record ← latest_state_record (c_records chain);
  match r_payload record with P_ReviewLoopAcceptance _ acceptance => Some acceptance | _ => None end.

Definition acceptance_transition (repository : string) (chain : ReviewStateChain)
    (args : ObserveArgs) (request : AcceptanceRequest) (findings : list ReviewFindingObservation)
    : io W ReviewLoopTransition :=
  if is_none (oa_expected_state args) || (oa_expected_state args !=? c_tip_digest chain) then
    lift (throw (invalid_acceptance "acceptance requires the explicit current state tip"))
  else
  match recorded_acceptance chain with
  | Some acceptance =>
      lift (apply_acceptance chain (oa_expected_head args) (oa_expected_state args) request findings
              (ar_approval_reference acceptance))
  | None =>
      proposal ← lift (acceptance_proposal_digest request (oa_expected_head args) findings);
      let marker := approval_marker proposal in
      id ← lift (ok_or (Fail (acceptance_approval_error
          ("acceptance requires a maintainer approval comment; required_marker=" +:+ marker) marker))
        (id ← aq_approval_comment request; if (0 <? id)%N then Some id else None));
      first ← lift (ok_or (Fail (invalid_acceptance "acceptance requires an existing stopped state"))
        (head (c_records chain)));
      approval ← map_fail_io (map_approval_error marker)
        (read_approval_comment repository (r_pr first) id);
      state_view ← read_review_loop_state_view repository (r_pr first);
      _ ← lift (ensure_expected_tip (c_tip_digest (sv_chain state_view)) (c_tip_digest chain));
      _ ← lift (map_fail (map_approval_error marker)
        (validate_marker_approval approval (sv_tip_created_at state_view) marker));
      lift (apply_acceptance chain (oa_expected_head args) (oa_expected_state args) request findings
              (ac_url approval))
  end.

(** ** supersession_input.rs: the provider's proof of a signed fast-forward *)
Definition verified_commit (row : JsonValue) : bool :=
  (pointer ["commit"; "verification"; "verified"] row ≫= as_bool ==? Some true)
  && (pointer ["commit"; "verification"; "reason"] row ≫= as_str ==? Some "valid").

Definition verify_commit (from : string) (commits : list string) (row : JsonValue)
    : exec (list string) :=
  if negb (verified_commit row) then
    throw (invalid_supersession "every fast-forward commit requires a verified valid signature")
  else
  sha ← ok_or (Fail (invalid_supersession "provider fast-forward commit ID is invalid"))
    (sha ← get_str "sha" row; if full_commit_id sha then Some sha else None);
  if (sha ==? from) || bool_decide (sha ∈ commits) then
    throw (invalid_supersession "provider fast-forward proof repeats a commit")
  else Ok (commits ++ [sha]).

(** What one page of the comparison says: the total and its commits. *)
Definition verify_page (from : string) (expected_total : option N) (commits : list string)
    (value : JsonValue) : exec (N * list JsonValue * list string) :=
  total ← ok_or (Fail (invalid_supersession
      "signed fast-forward must contain between 1 and 100 commits"))
    (n ← get "total_commits" value ≫= as_u64;
     if (0 <? n)%N && (n <=? N.of_nat MAX_VERIFIED_COMMITS)%N then Some n else None);
  if (get_str "status" value !=? Some "ahead")
     || (get "behind_by" value ≫= as_u64 !=? Some 0%N)
     || (get "ahead_by" value ≫= as_u64 !=? Some total)
     || (pointer ["base_commit"; "sha"] value ≫= as_str !=? Some from)
     || (pointer ["merge_base_commit"; "sha"] value ≫= as_str !=? Some from)
     || is_some_and expected_total (λ expected, negb (expected =? total)%N)
  then throw (invalid_supersession
    "provider comparison does not prove the stopped head is an ancestor")
  else
  rows ← ok_or (Fail (invalid_supersession "provider fast-forward commit page is incomplete"))
    (rows ← get "commits" value ≫= as_array;
     if negb (bool_decide (length rows = 0)) && (length rows <=? 100)%nat then Some rows else None);
  commits ← foldM (verify_commit from) commits rows;
  Ok (total, rows, commits).

(** The loop over [1..=MAX_VERIFIED_COMMITS.div_ceil(100)]. *)
Fixpoint fast_forward_pages (pages : list N) (repository from to : string)
    (expected_total : option N) (commits : list string) : io W (list string) :=
  match pages with
  | [] => lift (throw (invalid_supersession
            "provider fast-forward proof exceeds its bounded limit"))
  | page :: pages =>
      stdout ← call (Compare repository from to page);
      value ← lift (map_err (λ _ : string, Fail (invalid_supersession
          "provider fast-forward response is not valid JSON")) (value_from_str (trim stdout)));
      '(total, rows, commits) ← lift (verify_page from expected_total commits value);
      if (total <? N.of_nat (length commits))%N then
        lift (throw (invalid_supersession "provider fast-forward proof exceeds its count"))
      else if (N.of_nat (length commits) =? total)%N then
        if last commits !=? Some to then
          lift (throw (invalid_supersession
            "provider fast-forward proof does not end at the expected head"))
        else mret commits
      else if negb (length rows =? 100)%nat then
        lift (throw (invalid_supersession "provider fast-forward proof is truncated"))
      else fast_forward_pages pages repository from to (Some total) commits
  end.

Definition verified_fast_forward (repository from to : string) : io W (list string) :=
  fast_forward_pages [1%N] repository from to None [].

Definition supersession_transition (repository : string) (chain : ReviewStateChain)
    (args : ObserveArgs) (request : SupersessionRequest)
    (findings : list ReviewFindingObservation) : io W ReviewLoopTransition :=
  if is_none (oa_expected_state args) || (oa_expected_state args !=? c_tip_digest chain) then
    lift (throw (invalid_supersession "supersession requires the explicit current state tip"))
  else
  source ← lift (source_head chain request);
  if negb (full_commit_id source) || negb (full_commit_id (oa_expected_head args))
     || (source ==? oa_expected_head args)
  then lift (throw (invalid_supersession "supersession requires distinct full commit IDs"))
  else
  commits ← verified_fast_forward repository source (oa_expected_head args);
  lift (apply_supersession chain (oa_expected_head args) (oa_expected_state args) request findings
          commits).

(** [ObservationInput::transition]. *)
Definition input_transition (input : ObservationInput) (repository : string)
    (chain : ReviewStateChain) (args : ObserveArgs) : io W ReviewLoopTransition :=
  match in_acceptance input with
  | Some request => acceptance_transition repository chain args request (in_observations input)
  | None =>
      match in_supersession input with
      | Some request =>
          if is_some (oa_body args) || is_some (oa_body_file args) then
            lift (throw (invalid_supersession
              "supersession is a stop receipt and cannot carry a delivery outcome"))
          else supersession_transition repository chain args request (in_observations input)
      | None =>
          match in_correction input with
          | Some request =>
              lift (apply_correction chain (oa_expected_head args) (oa_expected_state args) request
                      (in_observations input))
          | None =>
              lift (observe_review_loop (latest_review_loop_state chain) (oa_expected_head args)
                      (in_observations input))
          end
      end
  end.

(** A new assignment interval records its first observation even when it changes nothing. *)
Definition with_interval_change (chain : ReviewStateChain) (t : ReviewLoopTransition)
    : ReviewLoopTransition :=
  mk_ReviewLoopTransition (tr_state t)
    (tr_changed t || (is_some (latest chain) && is_none (owned_state chain)))
    (tr_correction t) (tr_supersession t) (tr_acceptance t).

(** ** The sweep of [--preflight] and [--dry-run] *)
Definition plan_hard_stop_comment (repository : string) (number : N) (expected_head : string)
    (chain : ReviewStateChain) (previous : option ReviewLoopState)
    (observations : list ReviewFindingObservation) (error : ForgeError)
    : exec (option PlannedStateComment) :=
  match previous, c_tip_digest chain with
  | Some previous, Some tip =>
      stopped ← caught (record_review_loop_hard_stop previous expected_head observations tip error);
      match stopped with
      | Err _ => Ok None
      | Ok stopped =>
          planned ← caught (plan_state_comment repository number expected_head chain
                              (P_ReviewLoop stopped) None);
          Ok (ok planned)
      end
  | _, _ => Ok None
  end.

Definition active_stop (state : option ReviewLoopState) : option ReviewLoopHardStop :=
  stop ← state ≫= s_hard_stop; if hs_extension_applied stop then None else Some stop.

(** Verdicts, whether the run would append, and the comment it would post. *)
Abbreviation sweep := (list RuleVerdict * option bool * option PlannedStateComment)%type.

(** What the sweep reports of the transition itself. *)
Definition evaluate_transition (repository : string) (number : N) (chain : ReviewStateChain)
    (args : ObserveArgs) (input : ObservationInput) (outcome_body : option string)
    (transition : result ForgeError ReviewLoopTransition) : exec sweep :=
  let previous := latest_review_loop_state chain in
  match transition with
  | Ok transition =>
      let transition := with_interval_change chain transition in
      let verdict := from_result "observation_transition" (@Ok ForgeError unit tt) in
      if tr_changed transition then
        planned ← caught (plan_state_comment repository number (oa_expected_head args) chain
                            (into_payload transition) outcome_body);
        Ok ([verdict; from_result "state_comment_body" planned], Some true, ok planned)
      else Ok ([verdict], Some false, None)
  | Err error =>
      let verdict := from_result "observation_transition" (@Err ForgeError unit error) in
      if is_some (stop_budget_field (kind error)) then
        let stop_already_durable := is_some (active_stop previous) in
        planned ← (if negb stop_already_durable then
                     plan_hard_stop_comment repository number (oa_expected_head args) chain previous
                       (in_observations input) error
                   else Ok None);
        Ok ([verdict], Some (negb stop_already_durable), planned)
      else Ok ([verdict], None, None)
  end.

(** What it reports of a chain that could be read. *)
Definition evaluate_chain (repository : string) (number : N) (state_view : ReviewLoopStateView)
    (args : ObserveArgs) (input : result ForgeError ObservationInput) (outcome_body : option string)
    : io W sweep :=
  let chain := sv_chain state_view in
  writer ← lift (if is_assigned env chain then
                   v ← caught (ensure_observation env chain (oa_expected_head args));
                   Ok [from_result "designated_review_writer" v]
                 else Ok []);
  tip ← lift (caught (ensure_expected_tip (c_tip_digest chain)
                        (resolved_expected_state args (c_tip_digest chain))));
  let verdicts := [from_result "review_state_chain" (@Ok ForgeError unit tt)] ++ writer
                  ++ [from_result "expected_state_tip" tip] in
  match input with
  | Err _ =>
      mret (verdicts ++ [not_evaluated "observation_transition" "the findings file could not be read"],
            None, None)
  | Ok input =>
      transition ← try_io (input_transition input repository chain args);
      '(vs, would_append, planned) ← lift (evaluate_transition repository number chain args input
                                             outcome_body transition);
      mret (verdicts ++ vs, would_append, planned)
  end.

(** What it reports of a pull request that could be read, and the tip it saw. *)
Definition evaluate_pr (v : PrView) (repository : string) (args : ObserveArgs)
    (input : result ForgeError ObservationInput) (outcome_body : option string)
    : io W (sweep * option string) :=
  head ← lift (caught (ensure_expected_head (v_head_sha v) (oa_expected_head args)));
  let verdicts := [from_result "provider_pull_request" (@Ok ForgeError unit tt);
                   from_result "expected_head" head] in
  state_view ← try_io (read_review_loop_state_view repository (v_number v));
  match state_view with
  | Ok state_view =>
      '(vs, would_append, planned) ← evaluate_chain repository (v_number v) state_view args input
                                       outcome_body;
      mret ((verdicts ++ vs, would_append, planned), c_tip_digest (sv_chain state_view))
  | Err error =>
      let why := "the review-state chain could not be read" in
      mret ((verdicts ++ [from_result "review_state_chain" (@Err ForgeError unit error);
                          not_evaluated "expected_state_tip" why;
                          not_evaluated "observation_transition" why], None, None), None)
  end.

Definition evaluate_observe (args : ObserveArgs) : io W ObserveEvaluation :=
  input ← lift (caught (value ← oa_findings args; ObservationInput_parse value));
  body ← lift (caught (read_outcome_body args));
  let local := [from_result "findings_file" input] ++
    (if is_ok body && is_none (oa_body args) && is_none (oa_body_file args) then []
     else [from_result "outcome_body" body]) in
  let outcome_body := default None (ok body) in
  pr ← try_io (resolve_pr (oa_id args));
  '((vs, would_append, planned), observed_tip) ← match pr with
    | Ok (v, repository) => evaluate_pr v repository args input outcome_body
    | Err error =>
        let why := "the provider pull request could not be read" in
        mret (([from_result "provider_pull_request" (@Err ForgeError unit error);
                not_evaluated "expected_head" why; not_evaluated "review_state_chain" why;
                not_evaluated "expected_state_tip" why;
                not_evaluated "observation_transition" why], None, None), None)
    end;
  let verdicts := local ++ vs in
  mret {| oe_ok := forallb rv_ok verdicts; oe_verdicts := verdicts;
          oe_would_append := would_append; oe_planned_comment := planned;
          oe_observed_tip := observed_tip |}.
End commands.

(** ** The runs that write: observe and extend

    [run_observe_with] and [run_extend_with] of
    [crates/forge-cli/src/ops/pr_review_loop.rs], after the provider context is resolved. *)
Section runs.
Context `{HS : !Hasher, LS : !LedgerSerde, JT : !JsonText, UP : !UrlParse,
          SP : !SecretPattern, TP : !TimestampParse, SB : !Serialize SessionBinding,
          ES : !EnvelopeSerde, PE : !PayloadEnv} {W : Type} `{BE : !Backend W}.
Context (env : Env) (auth : Authority) (repo : option string).

(** ** Observe *)

(** The tip the sweep saw, when the sweep was asked for. *)
Definition run_preflight (args : ObserveArgs) : io W (option (option string)) :=
  if negb (oa_preflight args) then mret None
  else if oa_body_file args ==? Some "-" then
    lift (throw (validation error_schema "review_preflight_body_not_replayable"
      "--preflight and --body-file - cannot be combined, because the sweep and the append each read the body once"
      (Some "recovery=pass the outcome body as a file path, or drop --preflight and run the --dry-run sweep separately")))
  else
  evaluation ← evaluate_observe env args;
  if negb (oe_ok evaluation) then lift (throw (preflight_failed (oe_verdicts evaluation)))
  else mret (Some (oe_observed_tip evaluation)).

Definition check_preflight_tip (args : ObserveArgs) (preflight_tip : option (option string))
    (provider : option string) : exec unit :=
  match preflight_tip with
  | Some observed =>
      if oa_auto_state args && (observed !=? provider) then throw (tip_moved observed provider)
      else Ok tt
  | None => Ok tt
  end.

(** The branch of a refused transition: a budget refusal is made durable, then reported. *)
Definition record_stop (repository : string) (number : N) (chain : ReviewStateChain)
    (args : ObserveArgs) (input : ObservationInput) (error : ForgeError) : io W LoopPayload :=
  if is_none (stop_budget_field (kind error)) then lift (throw error)
  else
  let previous := latest_review_loop_state chain in
  match active_stop previous with
  | Some stop => lift (throw (durable_hard_stop_error error stop (c_tip_digest chain)))
  | None =>
      previous ← lift (ok_or (Fail error) previous);
      tip ← lift (ok_or (Fail (validation error_schema "review_state_conflict"
        "a hard stop requires an existing review-loop chain tip" None)) (c_tip_digest chain));
      stopped ← lift (record_review_loop_hard_stop previous (oa_expected_head args)
                        (in_observations input) tip error);
      stop ← lift (expect "recorded hard stop exists" (s_hard_stop stopped));
      appended ← append_review_loop_state env auth repo repository number (oa_expected_head args)
                   (c_tip_digest chain) stopped None;
      lift (throw (durable_hard_stop_error error stop (c_tip_digest (al_chain appended))))
  end.

(** The branch of an accepted transition. *)
Definition commit_transition (v : PrView) (repository : string) (state_view : ReviewLoopStateView)
    (args : ObserveArgs) (outcome_body : option string) (transition : ReviewLoopTransition)
    : io W LoopPayload :=
  let chain := sv_chain state_view in
  let transition := with_interval_change chain transition in
  if negb (tr_changed transition) then
    outcome_posted ← lift (match outcome_body with
      | None => Ok false
      | Some outcome =>
          _ ← ensure_outcome_already_posted state_view outcome (oa_expected_head args); Ok true
      end);
    lift (emit_state (v_number v) (v_url v) chain false outcome_posted false)
  else
  appended ← append_review_state_payload env auth repo {|
    ap_repository := repository; ap_number := v_number v; ap_expected_head := oa_expected_head args;
    ap_expected_tip := c_tip_digest chain; ap_payload := into_payload transition;
    ap_visible_outcome := outcome_body |};
  lift (emit_state (v_number v) (v_url v) (al_chain appended) true (al_outcome_posted appended) false).

Definition observe_live (args : ObserveArgs) (preflight_tip : option (option string))
    : io W LoopPayload :=
  value ← lift (oa_findings args);
  input ← lift (ObservationInput_parse value);
  outcome_body ← lift (read_outcome_body args);
  '(v, repository) ← resolve_pr (oa_id args);
  _ ← lift (ensure_expected_head (v_head_sha v) (oa_expected_head args));
  state_view ← read_review_loop_state_view repository (v_number v);
  let chain := sv_chain state_view in
  _ ← lift (ensure_observation env chain (oa_expected_head args));
  _ ← lift (check_preflight_tip args preflight_tip (c_tip_digest chain));
  _ ← lift (ensure_expected_tip (c_tip_digest chain)
              (resolved_expected_state args (c_tip_digest chain)));
  transition ← try_io (input_transition input repository chain args);
  match transition with
  | Ok transition => commit_transition v repository state_view args outcome_body transition
  | Err error => record_stop repository (v_number v) chain args input error
  end.

(** [run_observe_with]: [--dry-run] answers with the sweep, a live run with the state. *)
Definition run_observe (dry_run : bool) (args : ObserveArgs) : io W (ObserveEvaluation + LoopPayload) :=
  if dry_run then evaluation ← evaluate_observe env args; mret (inl evaluation)
  else
  preflight_tip ← run_preflight args;
  payload ← observe_live args preflight_tip;
  mret (inr payload).

(** ** Extend *)
Definition extension_invalid (message : string) (detail : option string) : ForgeError :=
  validation error_schema "review_extension_invalid" message detail.

(** The state whose no-progress budget grows by one, before any stop. *)
Definition extend_ceiling (previous : ReviewLoopState) (proposal : CeilingProposal)
    (approval_reference : string) : exec ReviewLoopState :=
  rounds ← ok_or (Fail (extension_invalid "review budget extension overflowed" None))
    (checked_add u32_max (max_no_progress_rounds (s_budget previous)) 1);
  Ok {| s_head_sha := s_head_sha previous; s_round := s_round previous;
        s_no_progress_rounds := s_no_progress_rounds previous;
        s_budget := mk_ReviewLoopBudget (max_repair_rounds (s_budget previous)) rounds
                      (max_auto_reopens_per_fingerprint (s_budget previous));
        s_findings := s_findings previous;
        s_extensions := s_extensions previous ++ [
          {| x_proposal_digest := cp_proposal_digest proposal;
             x_approval_reference := approval_reference;
             x_budget_field := cp_budget_field proposal; x_increment := cp_increment proposal |}];
        s_hard_stop := s_hard_stop previous |}.

(** The state a ceiling extension appends, once its approval is read and valid. *)
Definition ceiling_extension (args : ExtendArgs) (repository : string) (number : N)
    (state_view : ReviewLoopStateView) (previous : ReviewLoopState) : io W ReviewLoopState :=
  proposal ← lift (ceiling_proposal previous (ea_expected_state args));
  proposal ← lift (ok_or (Fail (extension_invalid
      "the current state is not at the no-progress ceiling" None)) proposal);
  if (ea_stop_code args !=? cp_stop_code proposal) || (ea_budget_field args !=? cp_budget_field proposal)
     || negb (ea_increment args =? cp_increment proposal)%N
     || (ea_proposal_digest args !=? cp_proposal_digest proposal)
  then lift (throw (extension_invalid "the extension does not match the current ceiling proposal" None))
  else
  approval ← read_approval_comment repository number (ea_approval_comment args);
  _ ← lift (validate_approval approval (sv_tip_created_at state_view) (cp_proposal_digest proposal)
              (cp_budget_field proposal) (cp_increment proposal));
  lift (extend_ceiling previous proposal (ac_url approval)).

(** The state a stop's extension appends. *)
Definition stop_extension (args : ExtendArgs) (repository : string) (number : N)
    (state_view : ReviewLoopStateView) (previous : ReviewLoopState) (hard_stop : ReviewLoopHardStop)
    : io W ReviewLoopState :=
  if hs_extension_applied hard_stop || (hs_code hard_stop !=? ea_stop_code args)
     || (hs_budget_field hard_stop !=? ea_budget_field args)
     || negb (hs_increment hard_stop =? ea_increment args)%N
     || (hs_proposal_digest hard_stop !=? ea_proposal_digest args)
     || (stop_budget_field (ea_stop_code args) !=? Some (ea_budget_field args))
  then lift (throw (extension_invalid
    "the extension request does not match the current durable hard stop"
    (Some ("expected_code=" +:+ hs_code hard_stop +:+ "; expected_field=" +:+ hs_budget_field hard_stop
      +:+ "; expected_increment=" +:+ dec (hs_increment hard_stop)
      +:+ "; expected_proposal=" +:+ hs_proposal_digest hard_stop))))
  else
  approval ← read_approval_comment repository number (ea_approval_comment args);
  _ ← lift (validate_approval approval (sv_tip_created_at state_view) (ea_proposal_digest args)
              (ea_budget_field args) (ea_increment args));
  lift (apply_review_loop_extension previous (ea_proposal_digest args) (ac_url approval)
          (ea_stop_code args) (ea_budget_field args) (ea_increment args)).

Definition extended_state (args : ExtendArgs) (repository : string) (number : N)
    (state_view : ReviewLoopStateView) (previous : ReviewLoopState) : io W ReviewLoopState :=
  let stopped_head_matches := is_some_and (s_hard_stop previous)
    (λ stop, hs_attempted_head_sha stop ==? ea_expected_head args) in
  if (s_head_sha previous !=? ea_expected_head args) && negb stopped_head_matches then
    lift (throw (validation error_schema "review_state_conflict"
      "the review-loop state is bound to a different head"
      (Some ("state_head=" +:+ s_head_sha previous +:+ "; expected_head=" +:+ ea_expected_head args))))
  else
  match s_hard_stop previous with
  | None => ceiling_extension args repository number state_view previous
  | Some hard_stop => stop_extension args repository number state_view previous hard_stop
  end.

Definition run_extend (args : ExtendArgs) : io W LoopPayload :=
  '(v, repository) ← resolve_pr (ea_id args);
  _ ← lift (ensure_expected_head (v_head_sha v) (ea_expected_head args));
  state_view ← read_review_loop_state_view repository (v_number v);
  let chain := sv_chain state_view in
  _ ← lift (ensure_expected_tip (c_tip_digest chain) (Some (ea_expected_state args)));
  previous ← lift (ok_or (Fail (extension_invalid
      "a review-loop state must exist before extending its budget" None))
    (latest_review_loop_state chain));
  extended ← extended_state args repository (v_number v) state_view previous;
  appended ← append_review_loop_state env auth repo repository (v_number v) (ea_expected_head args)
               (c_tip_digest chain) extended None;
  lift (emit_state (v_number v) (v_url v) (al_chain appended) true false false).
End runs.
