(* ===== verification/MergeGate.v ===== *)
(** * The review gate of a merge

    [ensure_merge_ready] and [recheck_merge_ready] of
    [crates/forge-cli/src/ops/pr_review_loop.rs]. *)
From S2P Require Import Prelude RStr Collections Error Types Markers ReviewLoop Identity Record.
From S2P Require Import Handoff Correction Chain Provider PrView PrReviews Append Report.
From S2P Require Import Publish LoopInput LoopCommand.
From stdpp Require Import options.

Definition known_stop_code (code : string) : string :=
  if code ==? "review_round_limit_exceeded" then "review_round_limit_exceeded"
  else if code ==? "review_no_progress" then "review_no_progress"
  else if code ==? "review_finding_reopened" then "review_finding_reopened"
  else "review_state_conflict".

Definition stop_blocks_merge (stop : ReviewLoopHardStop) : ForgeError :=
  validation error_schema (known_stop_code (hs_code stop))
    "the durable review-loop hard stop blocks merge; clear it with `forge-cli pr review-loop extend` once a provider-visible approval comment carries the approval_marker reported in this detail"
    None.

Definition genesis_required (number : N) (expected_head : string) : ForgeError :=
  validation error_schema "review_state_conflict"
    "bounded review delivery requires an explicit genesis ledger observation; record the reviewed head with `forge-cli pr review-loop observe <id> --expected-head <sha> --findings-file <path>` (a bare `[]` array records a clean review), or pass --review-convergence=false to deliver without the enforced review policy"
    (Some ("pr=" +:+ dec number +:+ "; expected_head=" +:+ expected_head
      +:+ "; required_by=[review_convergence].require")).

Definition not_bound (state : ReviewLoopState) (expected_head : string) : ForgeError :=
  validation error_schema "review_state_conflict"
    "the latest review-loop observation is not bound to the merge head; re-review the current head and record it with `forge-cli pr review-loop observe <id> --expected-head <merge_head> --findings-file <path>`"
    (Some ("merge_head=" +:+ expected_head +:+ "; review_loop_head=" +:+ s_head_sha state)).

Definition findings_open (open_blocking_findings : list string) : ForgeError :=
  validation error_schema "review_findings_open"
    "the durable review-loop ledger still contains blocking open findings; repair them, push, then record the repaired head with `forge-cli pr review-loop observe <id> --expected-head <sha> --findings-file <path>` carrying disposition `fixed` (use `accepted`, `preference`, or `follow-up` when no repair is warranted)"
    (Some ("findings=" +:+ join "," open_blocking_findings)).

Definition open_blocking (state : ReviewLoopState) : list string :=
  (List.filter (λ '(_, finding), open_finding finding && f_blocking finding)
     (entries (s_findings state))).*1.

(** The decision on the latest state, given the carry-over that was admitted. *)
Definition merge_gate (chain : ReviewStateChain) (state : ReviewLoopState)
    (carried : option SyncCarryOver) (expected_head : string) : exec ReviewLoopMergeGate :=
  match s_hard_stop state with
  | Some stop => throw (durable_hard_stop_error (stop_blocks_merge stop) stop (c_tip_digest chain))
  | None =>
      if (s_head_sha state !=? expected_head)
         && is_none_or carried (λ c, reviewed_head c !=? s_head_sha state)
      then throw (not_bound state expected_head)
      else
      let findings := open_blocking state in
      if negb (bool_decide (findings = [])) then throw (findings_open findings)
      else
      tip ← ok_or (Fail (validation error_schema "review_state_conflict"
        "review-loop state exists without a chain tip" None)) (c_tip_digest chain);
      Ok {| mg_state_tip_digest := tip; mg_head_sha := s_head_sha state; mg_round := s_round state;
            mg_no_progress_rounds := s_no_progress_rounds state;
            mg_open_blocking_findings := findings |}
  end.

Section gate.
Context `{HS : !Hasher, LS : !LedgerSerde, JT : !JsonText, UP : !UrlParse, SP : !SecretPattern,
          TP : !TimestampParse, SB : !Serialize SessionBinding} {W : Type}
  `{BE : !Backend W, RR : !ReviewReads W}.
Context (env : Env) (repo : option string) (open_objects : result string Objects).

Definition ensure_merge_ready (pr_url : string) (number : N) (expected_head : string)
    (require_ledger : bool) : io W (option ReviewLoopMergeGate) :=
  repository ← lift (ok_or (Fail (software error_schema
      "unable to derive GitHub owner/repo from pull-request URL" (Some ("url=" +:+ pr_url))))
    (github_repo_slug_from_url pr_url));
  state_view ← read_review_loop_state_view repository number;
  carried ← ensure_published env repo open_objects number pr_url expected_head (sv_chain state_view)
              (sv_handoff_created_at state_view);
  match latest_review_loop_state (sv_chain state_view) with
  | None => if require_ledger then lift (throw (genesis_required number expected_head)) else mret None
  | Some state => lift (Some <$> merge_gate (sv_chain state_view) state carried expected_head)
  end.

Definition recheck_merge_ready (pr_url : string) (number : N) (expected_head : string)
    (previous : ReviewLoopMergeGate) : io W ReviewLoopMergeGate :=
  current ← ensure_merge_ready pr_url number expected_head true;
  current ← lift (ok_or (Fail (validation error_schema "review_state_conflict"
      "the review-loop state disappeared before merge; a concurrent ledger write raced this delivery, so re-run it to re-read the chain"
      None)) current);
  if mg_state_tip_digest current !=? mg_state_tip_digest previous then
    lift (throw (validation error_schema "review_state_conflict"
      "the review-loop state changed after merge gates and before provider merge; a concurrent ledger write raced this delivery, so re-run it to re-read the chain"
      (Some ("expected_tip=" +:+ mg_state_tip_digest previous +:+ "; provider_tip="
        +:+ mg_state_tip_digest current))))
  else mret current.
End gate.
