(* ===== verification/PrMerge.v ===== *)
(** * Merging a pull request

    The review gate under an explicit opt-out, and the lock-down chain with its one write. *)
From S2P Require Import Prelude RStr Collections Error Types Validations Markers ReviewLoop Identity Record.
From S2P Require Import Handoff Correction Chain Provider Hosts Paths Config PrView PrReviews Threads.
From S2P Require Import Append Report Detect MergePolicy Convergence Checks Tasks Branches RepoView.
From S2P Require Import Publish LoopInput LoopCommand MergeGate.
From stdpp Require Import options.

(** ** The review gate under an explicit opt-out

    [crates/forge-cli/src/ops/pr_merge_review.rs]: a merge that opts out of convergence may go
    on without an observation, but an existing one still goes through the whole gate, and the
    tip that was seen is read again before the merge. *)

Inductive MergeReviewGate : Type :=
  | Observed (gate : ReviewLoopMergeGate)
  | Unobserved (state_tip_digest : option string).

Definition into_observation (gate : MergeReviewGate) : option ReviewLoopMergeGate :=
  match gate with Observed gate => Some gate | Unobserved _ => None end.

Definition merge_schema : string := "cli.forge-cli.pr.merge.v1".

Definition slug_of_url (pr_url : string) : exec string :=
  ok_or (Fail (software merge_schema "unable to derive GitHub owner/repo from pull-request URL"
    (Some ("url=" +:+ pr_url)))) (github_repo_slug_from_url pr_url).

(** The chain has an observation, or a handoff whose policy wants one. *)
Definition wants_observation (chain : ReviewStateChain) : bool :=
  is_some (latest_review_loop_state chain)
  || is_some_and (latest chain) (λ h, bool_decide (approval_policy h = FinalApproval)).

Definition chain_changed (expected provider : option string) : ForgeError :=
  validation merge_schema "review_state_conflict"
    "the review chain changed after merge gates and before provider merge; re-run the merge to re-read the chain"
    (Some ("expected_tip=" +:+ debug_option debug_str expected +:+ "; provider_tip=" +:+ debug_option debug_str provider)).

Section gate.
Context `{HS : !Hasher, LS : !LedgerSerde, JT : !JsonText, UP : !UrlParse, SP : !SecretPattern,
          TP : !TimestampParse, SB : !Serialize SessionBinding} {W : Type}
  `{BE : !Backend W, RR : !ReviewReads W}.
Context (env : Env) (repo : option string) (open_objects : result string Objects).

(** [ensure_merge_ready] where the caller did not opt out, or the chain wants an observation. *)
Definition observed_merge_ready (pr_url : string) (number : N) (expected_head : string)
    (require_ledger : bool) : io W (option MergeReviewGate) :=
  gate ← ensure_merge_ready env repo open_objects pr_url number expected_head require_ledger;
  mret (Observed <$> gate).

Definition review_ready (pr_url : string) (number : N) (expected_head : string)
    (require_ledger : bool) (explicit_convergence : option bool) : io W (option MergeReviewGate) :=
  if explicit_convergence ==? Some false then
    repository ← lift (slug_of_url pr_url);
    view ← read_review_loop_state_view repository number;
    if negb (wants_observation (sv_chain view))
    then mret (Some (Unobserved (c_tip_digest (sv_chain view))))
    else observed_merge_ready pr_url number expected_head true
  else observed_merge_ready pr_url number expected_head require_ledger.

Definition review_recheck (pr_url : string) (number : N) (expected_head : string)
    (previous : MergeReviewGate) : io W MergeReviewGate :=
  match previous with
  | Observed gate =>
      gate ← recheck_merge_ready env repo open_objects pr_url number expected_head gate;
      mret (Observed gate)
  | Unobserved state_tip_digest =>
      repository ← lift (slug_of_url pr_url);
      view ← read_review_loop_state_view repository number;
      let tip := c_tip_digest (sv_chain view) in
      if (tip !=? state_tip_digest) || is_some (latest_review_loop_state (sv_chain view))
      then lift (throw (chain_changed state_tip_digest tip))
      else mret (Unobserved tip)
  end.
End gate.

(** ** [pr merge]

    The lock-down chain of [crates/forge-cli/src/ops/pr_merge.rs] on GitHub: every gate a pull
    request goes through, in the order of the code, and the one write at its end, a merge that
    names the verified head or an enqueue that does. *)
(** ** Arguments and settings ([cli/merge.rs]) *)
Record PrMergeArgs := mk_PrMergeArgs {
  ma_id : N;
  ma_expected_head_sha : option string;
  ma_expected_base : option string;
  ma_method : option MergeMethod;
  ma_keep_branch : bool;
  ma_delete_branch_even_if_stacked : bool;
  ma_allow_non_default_base : bool;
  ma_allow_unresolved_threads : bool;
  ma_allow_unresolved_threads_reason : option string;
  ma_review_convergence : option bool;
  ma_allow_no_checks : bool;
  ma_allow_no_checks_reason : option string;
  ma_allow_unchecked_tasks : bool;
  ma_allow_unchecked_tasks_reason : option string;
  ma_allow_merge_freeze : list N;
  ma_allow_merge_freeze_reason : option string;
  ma_queue_timeout : option N;
}.

Record MergeSettings := mk_MergeSettings {
  ms_method : MergeMethod;
  ms_delete_branch : bool;
  ms_review_policy : ReviewConvergencePolicy;
  ms_hold_labels : list string;
}.

Definition ensure_review_convergence_config_valid (cfg : ForgeConfig)
    (policy : ReviewConvergencePolicy) : exec unit :=
  let invalid := invalid_review_convergence_warnings cfg in
  if negb (cp_require policy) || bool_decide (length invalid = 0) then Ok tt
  else throw (validation error_schema "invalid_review_convergence_config"
    "enabled review convergence has invalid configuration" (Some (join "," invalid))).

Definition resolve_review_convergence_policy (cfg : ForgeConfig) (explicit_required : option bool)
    : exec ReviewConvergencePolicy :=
  let policy := resolve_review_convergence cfg explicit_required in
  _ ← ensure_review_convergence_config_valid cfg policy;
  Ok policy.

Definition ensure_review_convergence_provider (provider : Provider)
    (policy : ReviewConvergencePolicy) : exec unit :=
  if negb (cp_require policy) || (provider ==? GitHub) then Ok tt
  else throw (provider_unsupported error_schema
    ("review convergence is GitHub-only in v1 (provider: " +:+ provider_as_str provider +:+ ")") None).

Definition enforce_keep_branch_conflict (keep_branch : bool) (repo_delete_branch : option bool)
    : exec unit :=
  if keep_branch && (repo_delete_branch ==? Some true) then
    throw (validation error_schema "keep_branch_conflict"
      "--keep-branch conflicts with [merge].delete_branch = true in .forge-cli.toml" None)
  else Ok tt.

Definition enforce_method_supported (method : MergeMethod) (repo : RepoView) : exec unit :=
  let allowed := rv_merge_methods_allowed repo in
  if bool_decide (length allowed = 0) || bool_decide (method_as_str method ∈ allowed) then Ok tt
  else throw (validation error_schema "merge_method_unsupported"
    ("merge method " +:+ debug_str (method_as_str method) +:+ " is not enabled on the repo (allowed: ["
      +:+ join ", " (debug_str <$> allowed) +:+ "])") None).

(** ** The local side *)
Section local.
Context `{SP : !SecretPattern, TT : !TomlText} {W : Type} `{LF : !LocalFiles W}.
Context (workdir : string).

Definition git_status_porcelain (w : W) : exec string :=
  match local_git workdir ["status"; "--porcelain=v1"] w with
  | NotSpawned error =>
      throw (software error_schema "git status --porcelain failed to spawn" (Some error))
  | Exited false _ stderr =>
      throw (software error_schema "git status --porcelain exited non-zero" (Some stderr))
  | Exited true stdout _ => Ok stdout
  end.

(** The layered settings, and the [delete_branch] of the checkout's own file. *)
Definition load_merge_config (w : W) : ForgeConfig * option bool :=
  let repo := load_from workdir (find_git_toplevel workdir w) w in
  (overlaid_by (load_global w) repo, merge_delete_branch (cfg_merge repo)).

(** The settings of a merge, as [compute_with_clock] resolves them. *)
Definition resolve_merge_settings (provider : Provider) (args : PrMergeArgs) (w : W)
    : exec MergeSettings :=
  let '(cfg, repo_delete_branch) := load_merge_config w in
  _ ← enforce_keep_branch_conflict (ma_keep_branch args) repo_delete_branch;
  let delete_branch := if ma_keep_branch args then false else resolve_delete_branch cfg None in
  _ ← validate_config cfg;
  policy ← resolve_review_convergence_policy cfg (ma_review_convergence args);
  _ ← ensure_review_convergence_provider provider policy;
  Ok {| ms_method := resolve_merge_method cfg (ma_method args); ms_delete_branch := delete_branch;
        ms_review_policy := policy; ms_hold_labels := resolve_hold_labels cfg |}.

Definition remote_slug (remote : string) (w : W) : option string :=
  stdout ← git_stdout (local_git workdir ["remote"; "get-url"; remote] w);
  parse_slug (trim stdout).

(** The reason the base branch declares for having no checks. *)
Definition declared_no_checks_reason_on_base (target_repo : option string) (remote base : string)
    (w : W) : option string :=
  remote_repo ← remote_slug remote w;
  if is_some_and target_repo (λ target, negb (eq_ignore_ascii_case target remote_repo)) then None
  else
  toplevel ← find_git_toplevel workdir w;
  let base_ref := "refs/remotes/" +:+ remote +:+ "/" +:+ base in
  declared_no_checks_reason
    (overlaid_by (load_global w) (load_from_git_ref workdir toplevel base_ref w)).

(** [NoChecksAllowance::resolve]: whether a head without checks may pass, and why. *)
Definition no_checks_allowance (args : PrMergeArgs) (target_repo : option string)
    (remote base : string) (w : W) : bool * option string :=
  if ma_allow_no_checks args then (true, ma_allow_no_checks_reason args)
  else
  let reason := declared_no_checks_reason_on_base target_repo remote base w in
  (is_some reason, reason).
End local.

(** ** The pull request as the chain reads it *)
Record MergeView := mk_MergeView {
  mv_number : N; mv_url : string; mv_draft : bool; mv_base : string; mv_head : string;
  mv_state : string; mv_head_sha : option string; mv_head_repository : option string;
  mv_body : string;
}.

Definition body_key (provider : Provider) : string :=
  match provider with GitLab => "description" | _ => "body" end.

Section view.
Context `{JT : !JsonText}.

Definition extract_body (provider : Provider) (stdout : string) : string :=
  match value_from_str (trim stdout) with
  | Ok value => default EmptyString (get_str (body_key provider) value)
  | Err _ => EmptyString
  end.

Definition extract_merge_sha (provider : Provider) (stdout : string) : exec string :=
  value ← map_err (λ error, Fail (software error_schema "post-merge view returned invalid JSON"
            (Some error))) (value_from_str (trim stdout));
  ok_or (Fail (software error_schema
      "merge succeeded but merge_sha was missing from post-merge view"
      (Some ("stdout=" +:+ debug_str stdout))))
    match provider with
    | GitLab => nonempty (get_str "merge_commit_sha" value)
    | _ => pointer ["mergeCommit"; "oid"] value ≫= as_str
    end.

Context {W : Type} `{BE : !Backend W}.

Definition fetch_pr_view (provider : Provider) (id : N) : io W MergeView :=
  stdout ← call (ViewPr id);
  payload ← lift (parse_view_output provider stdout);
  mret {| mv_number := v_number payload; mv_url := v_url payload; mv_draft := v_draft payload;
          mv_base := v_base payload; mv_head := v_head payload; mv_state := v_state payload;
          mv_head_sha := v_head_sha payload; mv_head_repository := v_head_repository payload;
          mv_body := extract_body provider stdout |}.

Definition fetch_merge_sha (provider : Provider) (id : N) : io W string :=
  stdout ← call (MergeCommitView id);
  lift (extract_merge_sha provider stdout).

(** ** The merge call *)

(** [build_live_merge_call] on GitHub. *)
Definition build_live_merge_call (id : N) (pr : MergeView) (method : MergeMethod)
    (delete_branch : bool) : BackendCall :=
  MergePr id (method_as_str method) delete_branch (nonempty (mv_head_sha pr)).

Definition merged_state (pr : MergeView) : bool := eq_ignore_ascii_case (mv_state pr) "merged".

Definition merged_elsewhere (expected : option string) (pr : MergeView) : ForgeError :=
  validation error_schema "test_first_evidence_provider_head_mismatch"
    "the provider merged a different head after the guarded merge failed"
    (Some ("expected_head=" +:+ or_missing expected +:+ " provider_head="
      +:+ or_missing (mv_head_sha pr))).

(** A failed call that the provider nevertheless carried out is a merge, if of the same head. *)
Definition invoke_merge_with_idempotency_check (provider : Provider) (pr_id : N)
    (merge_call : BackendCall) (expected_head_sha : option string) : io W unit :=
  outcome ← attempt (call merge_call);
  match outcome with
  | Ok _ => mret tt
  | Err (Fail (BackendError _ _ _) as err) =>
      view ← attempt (fetch_pr_view provider pr_id);
      match view with
      | Ok post =>
          if negb (merged_state post) then lift (Err err)
          else if is_none_or expected_head_sha (λ expected, mv_head_sha post ==? Some expected)
          then mret tt
          else lift (throw (merged_elsewhere expected_head_sha post))
      | Err _ => lift (Err err)
      end
  | Err err => lift (Err err)
  end.
End view.

(** ** The chain *)
Record PrMergePayload := mk_PrMergePayload {
  mr_provider : string; mr_number : N; mr_url : string; mr_merge_sha : string; mr_method : string;
  mr_deleted_branch : bool; mr_branch_cleanup : option BranchCleanup; mr_merge_queue : bool;
  mr_merge_freeze_override : option FreezeOverride; mr_base : string; mr_head : string;
  mr_unchecked_tasks_override_reason : option string;
  mr_unresolved_threads_override_reason : option string;
  mr_no_checks_override_reason : option string;
  mr_stale_thread_dispositions : list StaleThreadDisposition;
  mr_review_convergence : option ConvergenceSnapshot;
  mr_review_loop : option ReviewLoopMergeGate;
}.

(** What the gates leave for the merge. *)
Record Cleared := mk_Cleared {
  cl_pr : MergeView; cl_repo : RepoView; cl_policy : MergePolicy;
  cl_freeze : option FreezeOverride; cl_method : MergeMethod; cl_delete_branch : bool;
  cl_cleanup : option BranchCleanup; cl_no_checks : option string;
  cl_stale : list StaleThreadDisposition; cl_snapshot : option ConvergenceSnapshot;
  cl_review : option MergeReviewGate;
}.

Definition head_mismatch (expected : string) (head : option string) : ForgeError :=
  validation error_schema "test_first_evidence_provider_head_mismatch"
    "the provider PR/MR head changed after subject verification"
    (Some ("attested_head=" +:+ expected +:+ " provider_head=" +:+ or_missing head)).

(** The view against what the caller expects; the head convergence is to be read at. *)
Definition check_view (args : PrMergeArgs) (policy : ReviewConvergencePolicy) (pr : MergeView)
    : exec (option string) :=
  _ ← match ma_expected_base args with
      | Some expected => fails (delivery_base_matches expected (mv_base pr))
      | None => Ok tt
      end;
  _ ← match ma_expected_head_sha args with
      | Some expected => if mv_head_sha pr !=? Some expected
                         then throw (head_mismatch expected (mv_head_sha pr)) else Ok tt
      | None => Ok tt
      end;
  convergence_head ←
    (if cp_require policy then
      Some <$> ok_or (Fail (validation error_schema "review_convergence_head_missing"
          "enabled review convergence requires a non-empty initial provider head"
          (Some ("pr=" +:+ dec (mv_number pr) +:+ "; url=" +:+ mv_url pr))))
        (nonempty (mv_head_sha pr))
     else Ok (mv_head_sha pr));
  if mv_draft pr then
    throw (validation error_schema "draft_merge_refused"
      "PR is still a draft; mark ready before merging" None)
  else Ok convergence_head.

Definition check_base_branch (args : PrMergeArgs) (pr : MergeView) (repo : RepoView) : exec unit :=
  if negb (ma_allow_non_default_base args) && (mv_base pr !=? rv_default_branch repo) then
    throw (validation error_schema "default_branch_protected"
      ("PR base " +:+ debug_str (mv_base pr) +:+ " differs from repo default "
        +:+ debug_str (rv_default_branch repo) +:+ "; pass --allow-non-default-base to override") None)
  else Ok tt.

Definition conflict (message : string) : ForgeError :=
  validation error_schema "review_state_conflict" message None.

(** [snapshot.unresolved_threads = ..]. *)
Definition with_unresolved (s : ConvergenceSnapshot) (unresolved : N) : ConvergenceSnapshot :=
  mk_ConvergenceSnapshot (cv_required s) (cv_head_sha s) (cv_observed_reviews s)
    (cv_stale_reviews s) (cv_semantic_activity s) (cv_semantic_digest s) unresolved
    (cv_changes_requested_by s) (cv_missing_reviewers s) (cv_latest_activity_at s)
    (cv_quiet_until s) (cv_quiet_period_ms s) (cv_timeout_ms s) (cv_waited_ms s) (cv_bots s).

Section chain.
Context `{HS : !Hasher, LS : !LedgerSerde, JT : !JsonText, UP : !UrlParse, SP : !SecretPattern,
          TP : !TimestampParse, SB : !Serialize SessionBinding, UE : !UrlEncode, TT : !TomlText}
  {W : Type} `{BE : !Backend W, RR : !ReviewReads W, CK : !Clock W, WC : !WallClock W,
               LF : !LocalFiles W}.
(** The environment, the context's host and repository, the object store, the checkout and its
    remote; [fuel] bounds the loops over pages and polls. *)
Context (env : Env) (host : string) (repo : option string) (open_objects : result string Objects)
        (workdir remote : string) (fuel : nat).

Definition apply_merge_policy (args : PrMergeArgs) (rv : RepoView) (pr : MergeView)
    (configured : MergeMethod) : io W (MergePolicy * option FreezeOverride * MergeMethod) :=
  policy ← read_policy (rv_owner rv) (rv_name rv) (mv_base pr) (ma_id args);
  freeze_override ← lift (enforce_freeze (mp_freezes policy) (ma_allow_merge_freeze args)
                            (ma_allow_merge_freeze_reason args));
  method ← match mp_queue policy with
           | Some queue => lift (resolve_queue_method queue (ma_method args) configured)
           | None => mret configured
           end;
  mret (policy, freeze_override, method).

(** The durable review-loop gate. *)
Definition review_gate (args : PrMergeArgs) (policy : ReviewConvergencePolicy) (pr : MergeView)
    : io W (option MergeReviewGate) :=
  if is_some (mv_head_sha pr) || cp_require policy then
    head ← lift (ok_or (Fail (conflict
        "a bounded GitHub merge requires a provider head for review-loop CAS")) (mv_head_sha pr));
    review_ready env repo open_objects (mv_url pr) (ma_id args) head (cp_require policy)
      (ma_review_convergence args)
  else mret None.

(** Rule 13: one read of the threads for the gate, the stale ones and the snapshot. *)
Definition thread_gate (args : PrMergeArgs) (pr : MergeView) (snapshot : option ConvergenceSnapshot)
    : io W (option ConvergenceSnapshot * list StaleThreadDisposition) :=
  if is_some snapshot || negb (ma_allow_unresolved_threads args) then
    payload ← compute_github_threads fuel GitHub (mv_url pr) (ma_id args);
    _ ← (if ma_allow_unresolved_threads args then mret tt
         else lift (ensure_payload_resolved payload));
    mret ((λ s, with_unresolved s (pt_unresolved payload)) <$> snapshot, stale_dispositions payload)
  else mret (snapshot, []).

(** Rules 8, 12, 13 and 14 and the final read of the reviews. *)
Definition evidence_gates (args : PrMergeArgs) (settings : MergeSettings) (pr : MergeView)
    (convergence_head : option string) (no_checks : bool)
    : io W (option MergeReviewGate * option ConvergenceSnapshot * list StaleThreadDisposition) :=
  let policy := ms_review_policy settings in
  _ ← ensure_required_checks_green host repo (dec (ma_id args)) (from_allow_no_checks no_checks);
  review_loop ← review_gate args policy pr;
  review_snapshot ←
    (if cp_require policy
     then s ← converge policy fuel (ma_id args) (mv_url pr) convergence_head fuel; mret (Some s)
     else mret None);
  '(review_snapshot, stale) ← thread_gate args pr review_snapshot;
  _ ← (if ma_allow_unchecked_tasks args then mret tt
       else lift (ensure_tasklist_complete (mv_body pr)));
  review_snapshot ←
    match review_snapshot with
    | Some previous =>
        s ← recheck_before_merge policy fuel (ma_id args) (mv_url pr) convergence_head previous
              (ma_allow_unresolved_threads args);
        mret (Some s)
    | None => mret None
    end;
  mret (review_loop, review_snapshot, stale).

(** Whether the source branch may go, and whether it may be left to the provider. *)
Definition branch_gate (args : PrMergeArgs) (settings : MergeSettings) (pr : MergeView)
    (rv : RepoView) : io W (option BranchCleanup) :=
  let target_repository := rv_owner rv +:+ "/" +:+ rv_name rv in
  let github_auto_delete :=
    is_none_or (mv_head_repository pr) (λ source, eq_ignore_ascii_case source target_repository) in
  if ms_delete_branch settings || github_auto_delete then
    Branches.check target_repository (mv_head_repository pr) (mv_head pr) (ma_id args)
      (ma_delete_branch_even_if_stacked args)
  else mret None.

Definition review_still (args : PrMergeArgs) (pr : MergeView) (review_loop : option MergeReviewGate)
    : io W (option MergeReviewGate) :=
  match review_loop with
  | Some previous =>
      head ← lift (ok_or (Fail (conflict
          "the provider head disappeared before review-loop recheck")) (mv_head_sha pr));
      gate ← review_recheck env repo open_objects (mv_url pr) (ma_id args) head previous;
      mret (Some gate)
  | None => mret None
  end.

(** Every gate before the merge; none of them writes. *)
Definition lockdown_gates (args : PrMergeArgs) (settings : MergeSettings) : io W Cleared :=
  porcelain ← (λ w, (git_status_porcelain workdir w, w));
  _ ← lift (fails (worktree_clean (Ok porcelain)));
  pr ← fetch_pr_view GitHub (ma_id args);
  convergence_head ← lift (check_view args (ms_review_policy settings) pr);
  _ ← ensure_clear repo (ma_id args) (mv_base pr) (ms_hold_labels settings);
  rv ← repo_view_compute GitHub;
  _ ← lift (check_base_branch args pr rv);
  '(_, _, method) ← apply_merge_policy args rv pr (ms_method settings);
  no_checks ← local (no_checks_allowance workdir args repo remote (mv_base pr));
  _ ← lift (enforce_method_supported method rv);
  '(review_loop, review_snapshot, stale) ←
    evidence_gates args settings pr convergence_head no_checks.1;
  '(policy, freeze_override, method) ← apply_merge_policy args rv pr (ms_method settings);
  _ ← lift (enforce_method_supported method rv);
  _ ← ensure_clear repo (ma_id args) (mv_base pr) (ms_hold_labels settings);
  branch_cleanup ← branch_gate args settings pr rv;
  let delete_branch := ms_delete_branch settings && is_none_or branch_cleanup bc_overridden in
  review_loop ← review_still args pr review_loop;
  mret (mk_Cleared pr rv policy freeze_override method delete_branch branch_cleanup no_checks.2
          stale review_snapshot review_loop).

(** The merge of a cleared pull request, through the queue where the base has one. *)
Definition enqueue_once (policy : MergePolicy) (head : string) : io W unit :=
  if mp_in_queue policy || mp_merged policy then mret tt
  else
  node_id ← lift (ok_or (Fail (unavailable error_schema "merge_policy_unavailable"
      "the merge policy read did not return the pull request id" None)) (mp_pr_node_id policy));
  enqueue node_id head.

Definition await_queue (args : PrMergeArgs) (cl : Cleared) : io W string :=
  let timeout := from_option secs DEFAULT_QUEUE_TIMEOUT (ma_queue_timeout args) in
  sha ← wait_for_merge host (rv_owner (cl_repo cl)) (rv_name (cl_repo cl)) (ma_id args) fuel timeout;
  match sha with
  | Some sha => mret sha
  | None => fetch_merge_sha GitHub (ma_id args)
  end.

Definition land (args : PrMergeArgs) (cl : Cleared) : io W string :=
  let pr := cl_pr cl in
  match mp_queue (cl_policy cl) with
  | Some _ =>
      head ← lift (ok_or (Fail (conflict
          "a merge-queue merge requires a provider head to enqueue")) (nonempty (mv_head_sha pr)));
      _ ← enqueue_once (cl_policy cl) head;
      await_queue args cl
  | None =>
      _ ← invoke_merge_with_idempotency_check GitHub (ma_id args)
            (build_live_merge_call (ma_id args) pr (cl_method cl) (cl_delete_branch cl))
            (mv_head_sha pr);
      fetch_merge_sha GitHub (ma_id args)
  end.

Definition merge_payload (args : PrMergeArgs) (cl : Cleared) (merge_sha : string) : PrMergePayload :=
  let pr := cl_pr cl in
  let queue := mp_queue (cl_policy cl) in
  {| mr_provider := provider_as_str GitHub; mr_number := mv_number pr; mr_url := mv_url pr;
     mr_merge_sha := merge_sha; mr_method := method_as_str (cl_method cl);
     mr_deleted_branch := is_none queue && cl_delete_branch cl;
     mr_branch_cleanup := cl_cleanup cl; mr_merge_queue := is_some queue;
     mr_merge_freeze_override := cl_freeze cl; mr_base := mv_base pr; mr_head := mv_head pr;
     mr_unchecked_tasks_override_reason :=
       if ma_allow_unchecked_tasks args then ma_allow_unchecked_tasks_reason args else None;
     mr_unresolved_threads_override_reason :=
       if ma_allow_unresolved_threads args then ma_allow_unresolved_threads_reason args else None;
     mr_no_checks_override_reason := cl_no_checks cl;
     mr_stale_thread_dispositions := cl_stale cl;
     mr_review_convergence := cl_snapshot cl;
     mr_review_loop := cl_review cl ≫= into_observation |}.

Definition run_lockdown_chain (dry_run : bool) (args : PrMergeArgs) (settings : MergeSettings)
    : io W PrMergePayload :=
  _ ← lift (assignment_digest env);
  if dry_run then
    lift (throw (software error_schema
      "merge compute invoked with --dry-run; caller must use the preview path" None))
  else
  cl ← lockdown_gates args settings;
  merge_sha ← land args cl;
  mret (merge_payload args cl merge_sha).

(** [compute_with_clock] of a context on GitHub. *)
Definition merge_compute (dry_run : bool) (args : PrMergeArgs) : io W PrMergePayload :=
  settings ← (λ w, (resolve_merge_settings workdir GitHub args w, w));
  run_lockdown_chain dry_run args settings.
End chain.
