(* ===== verification/World.v ===== *)
(** * Stand-ins

    Executable instances of the parameters, and a provider to run the commands against. *)
From S2P Require Import Prelude RStr Collections Error Types Markers ReviewLoop Identity Record Handoff Chain.
From S2P Require Import Provider PrView PrReviews Append Report Publish.
From stdpp Require Import options.

(** ** Stand-ins for the third-party parameters

    SHA-256 and the serde_json derives are parameters of the development.  This
    file instantiates them with small executable functions, so that the theorems
    can be applied to concrete ledgers by evaluation. *)

(** A hash of 32 bytes: the first 32 bytes of the input, padded. *)
Fixpoint pad (n : nat) (s : string) : string :=
  match n with
  | 0 => EmptyString
  | S n => match s with
           | EmptyString => String "-" (pad n EmptyString)
           | String c s => String c (pad n s)
           end
  end.

Definition demo_hasher : Hasher := λ b, pad 32 b.

Lemma length_pad n s : String.length (pad n s) = n.
Proof. revert s. induction n as [|n IH]; intros [|c s]; cbn; auto. Qed.

Lemma demo_hasher_laws : @HasherLaws demo_hasher.
Proof. constructor. intros b. apply length_pad. Qed.

(** Text that tells the payloads of one ledger apart. *)
Definition demo_findings (m : gmap string ReviewFindingObservation) : string :=
  join "," ((λ kv, kv.1 +:+ "=" +:+ status_as_str (o_status kv.2)) <$> entries m).

(** The record text is its digest; only the records of [known] read back. *)
Definition demo_serde (known : list ReviewStateRecord) : LedgerSerde := {|
  serialize_preimage := λ p,
    Ok (dec (pre_generation p) +:+ "/" +:+ pre_expected_head p +:+ "/"
        +:+ default EmptyString (pre_previous_digest p));
  serialize_record := λ r, Ok (dec (r_generation r) +:+ r_record_digest r);
  deserialize_record := λ s,
    match find_first (λ r, (dec (r_generation r) +:+ r_record_digest r) ==? s) known with
    | Some r => Ok r
    | None => Err "unknown record"
    end;
  serialize_extension := λ '(_, tip, code, field, n),
    Ok (tip +:+ "/" +:+ code +:+ "/" +:+ field +:+ "/" +:+ dec n);
  serialize_observations := λ '(_, head, m), Ok (head +:+ "/" +:+ demo_findings m);
  serialize_run_id := λ r, Ok (rip_repository r +:+ rip_expected_head r);
  serialize_acceptance := λ '(_, tip, stop, stopped, attempted),
    Ok (tip +:+ "/" +:+ stop +:+ "/" +:+ demo_findings attempted);
  serialize_supersession := λ '(_, tip, head), Ok (default EmptyString tip +:+ "/" +:+ head);
|}.

(** Texts of JSON values, and the addresses of approval comments. *)
Definition demo_json : JsonText := {| value_display := λ _, "{}"; value_from_str := λ _, Ok (JObject []) |}.
Definition demo_url : UrlParse := λ _, 
  Some (mk_Url "https" (Some "host") None "/o/r/pull/1" (Some "issuecomment-7")).

Definition demo_secrets : SecretPattern := λ _, false.
Definition demo_time : TimestampParse := λ s,
  if is_empty s then Err "empty" else Ok (Z.of_nat (String.length s)).

Definition demo_uuid : UuidParse := λ s, if is_empty s then None else Some s.
Definition demo_binding : Serialize SessionBinding := λ b, Ok (sb_session_id b).
(** No supervisor is configured and no coordinator is provably gone. *)
Definition demo_authority : Authority := {|
  trusted_supervisor_policy := λ _ _ _, Ok ([], 3600%N);
  prove_coordinator_retired := λ _ _ _, throw (fail "review_coordinator_live" "still live");
  session_current := None;
|}.

(** A digest in canonical form, and a record that carries it. *)
Definition demo_digest (n : N) : string := @sha256_digest demo_hasher (dec n).
Definition demo_record (n : N) (head : string) (payload : ReviewStatePayload)
    : ReviewStateRecord :=
  {| r_schema := REVIEW_STATE_SCHEMA; r_repository := "o/r"; r_pr := 1;
     r_expected_head := head; r_generation := n;
     r_previous_digest := if (n =? 0)%N then None else Some (demo_digest (n - 1));
     r_payload := payload; r_assignment_generation := None; r_record_digest := demo_digest n |}.
Definition demo_chain (l : list ReviewStateRecord) : ReviewStateChain :=
  {| c_records := l; c_tip_digest := r_record_digest <$> last l; c_ignored_stale_records := [] |}.

(** A full commit id: one digit, forty times. *)
Definition demo_sha (c : ascii) : string := Nat.iter 40 (String c) EmptyString.

(** ** A small loop to apply the theorems to *)
Definition demo_row (fp : string) (st : ReviewFindingStatus) : ReviewFindingObservation :=
  {| o_fingerprint := fp; o_root_cause_fingerprint := None; o_blocking := true;
     o_status := st; o_threads := ["t2"; "t1"; "t2"] |}.

Definition F1 : string := "correctness:parser:bounds".
Definition F2 : string := "docs:readme:typo".

(** ** A provider to run the commands against

    A small executable world: the comments of one pull request, which posting extends, and
    fixed answers to every other call.  The theorems about commands are applied to it. *)
(** The bytes between two comments of a page's text. *)
Definition separator : ascii := "001".

Definition node_json (body : string) : JsonValue :=
  JObject [("author", JObject [("login", JString "reviewer")]); ("body", JString body);
           ("createdAt", JString "t")].

Definition page_json (bodies : list string) : JsonValue :=
  JObject [("data", JObject [
    ("viewer", JObject [("login", JString "reviewer")]);
    ("repository", JObject [("pullRequest", JObject [("comments", JObject [
      ("nodes", JArray (node_json <$> bodies));
      ("pageInfo", JObject [("hasNextPage", JBool false)])])])])])].

Definition page_text (bodies : list string) : string :=
  "[" +:+ join (String separator EmptyString) bodies +:+ "]".

(** The view of pull request 1 at a head. *)
Definition demo_url_of_pr : string := "https://host/o/r/pull/1".

Definition view_json (head : string) : JsonValue :=
  JObject [("number", JNumber 1); ("url", JString demo_url_of_pr); ("state", JString "OPEN");
           ("title", JString "t"); ("headRefName", JString "topic");
           ("headRefOid", JString head); ("baseRefName", JString "main");
           ("headRepository", JObject [("nameWithOwner", JString "o/r")])].

(** The page of native reviews that shows these reviews. *)
Definition opt_json (o : option string) : JsonValue := from_option JString JNull o.

Definition review_json (r : NativeReview) : JsonValue :=
  JObject [("id", JString (nr_id r)); ("databaseId", from_option JNumber JNull (nr_database_id r));
    ("url", JString (nr_url r));
    ("author", JObject [("login", JString (nr_author r));
                        ("__typename", opt_json (nr_author_type r));
                        ("id", opt_json (nr_author_node_id r))]);
    ("state", JString (nr_state r)); ("commit", JObject [("oid", JString (nr_commit_sha r))]);
    ("submittedAt", JString (nr_submitted_at r)); ("body", JString (nr_summary r))].

Definition reviews_json (head : string) (reviews : list NativeReview) : JsonValue :=
  JObject [("data", JObject [
    ("viewer", JObject [("login", JString "reviewer")]);
    ("repository", JObject [("pullRequest", JObject [("headRefOid", JString head);
      ("reviews", JObject [("nodes", JArray (review_json <$> reviews));
        ("pageInfo", JObject [("hasNextPage", JBool false)])])])])])].

(** A page of review threads, and a page of the comments of one thread. *)
Definition comment_json (id body : string) : JsonValue :=
  JObject [("id", JString id); ("author", JObject [("login", JString "reviewer")]);
           ("body", JString body); ("createdAt", JString "t"); ("url", JString "u")].

Definition connection_json (total : N) (next : option string) (nodes : list JsonValue) : JsonValue :=
  JObject [("totalCount", JNumber total); ("nodes", JArray nodes);
    ("pageInfo", JObject [("hasNextPage", JBool (is_some next)); ("endCursor", opt_json next)])].

Definition thread_node_json (id : string) (resolved outdated : bool) (comments : JsonValue)
    : JsonValue :=
  JObject [("id", JString id); ("isResolved", JBool resolved); ("isOutdated", JBool outdated);
    ("path", JString "src/lib.rs"); ("diffSide", JString "RIGHT"); ("line", JNumber 3);
    ("subjectType", JString "LINE"); ("comments", comments)].

Definition threads_json (head : string) (connection : JsonValue) : JsonValue :=
  JObject [("data", JObject [("repository", JObject [("pullRequest", JObject [
    ("headRefOid", JString head); ("reviewThreads", connection)])])])].

Definition thread_comments_json (head id : string) (connection : JsonValue) : JsonValue :=
  JObject [("data", JObject [
    ("repository", JObject [("pullRequest", JObject [("headRefOid", JString head)])]);
    ("node", JObject [("id", JString id); ("comments", connection)])])].

(** The check runs and statuses of a commit, and the protection of a base branch. *)
Definition check_run_json (name conclusion : string) (app : N) : JsonValue :=
  JObject [("name", JString name); ("status", JString "completed");
    ("conclusion", JString conclusion); ("app", JObject [("id", JNumber app)])].

Definition status_json (context state : string) : JsonValue :=
  JObject [("context", JString context); ("state", JString state)].

Definition rows_json (key : string) (rows : list JsonValue) : JsonValue :=
  JObject [("total_count", JNumber (N.of_nat (length rows))); (key, JArray rows)].

Definition protection_json (required : list (string * N)) : JsonValue :=
  JObject [("data", JObject [("repository", JObject [("ref", JObject [("branchProtectionRule",
    JObject [("requiredStatusChecks", JArray ((λ '(name, app),
      JObject [("context", JString name);
               ("app", JObject [("databaseId", JNumber app)])]) <$> required))])])])])].

(** The values of the texts of a table, of every page and of a view. *)
Definition world_json (table : list (string * JsonValue)) : JsonText := {|
  value_display := λ _, "{}";
  value_from_str := λ s,
    match find_first (λ kv, kv.1 ==? s) table with
    | Some kv => Ok kv.2
    | None =>
        match strip_prefix "[" s ≫= strip_suffix "]" with
        | Some body => Ok (page_json (if is_empty body then [] else split_char separator body))
        | None =>
            match strip_prefix "view " s with
            | Some head => Ok (view_json head)
            | None => Err "not a known text"
            end
        end
    end |}.

(** The comments of the pull request; a world answers and posting extends it. *)
Definition World : Type := list string.

Definition demo_backend (head : string) : Backend World := {|
  run_call := λ c w,
    match c with
    | CommentsPage _ _ _ => (Ok (page_text w), w)
    | PostComment _ body => (Ok EmptyString, w ++ [body])
    | GetComment _ _ => (Ok "approval", w)
    | PullField _ jq =>
        (Ok (if contains ".base.ref" jq then demo_sha "c" +:+ " main" else demo_sha "c"), w)
    | Compare _ _ _ _ => (Ok "comparison", w)
    | ReviewComments _ _ => (Ok "replies", w)
    | ReviewLookup _ _ => (Ok "report", w)
    | ViewPr _ => (Ok ("view " +:+ head), w)
    | ReviewsPage _ _ _ _ => (Ok "reviews", w)
    | ThreadsPage _ _ _ _ => (Ok "threads", w)
    | ThreadCommentsPage _ _ _ _ _ => (Ok "comments", w)
    | PrHead _ => (Ok ("view " +:+ head), w)
    | ApiGet endpoint => (Ok endpoint, w)
    | BranchProtectionQuery _ _ _ => (Ok "protection", w)
    | ApiPages endpoint => (Ok endpoint, w)
    | HoldConfigQuery _ _ _ => (Ok "hold configuration", w)
    | MergePolicyQuery _ _ _ _ => (Ok "merge policy", w)
    | RepoViewCall => (Ok "repository", w)
    | MergeCommitView _ => (Ok "merge commit", w)
    | MergePr _ _ _ _ => (Ok EmptyString, w)
    | _ => (Err (fail "unknown" "no answer"), w)
    end |}.

(** Nobody is assigned and the session is anonymous. *)
Definition nobody : Env := mk_Env None None None.
