(* ===== verification/ValidationsFacts.v ===== *)
(** * Theorems on the rules of posted text and the lock-down rules

    The scans judge the prose of a text, no home path passes, and the preflight predicts
    [pr create]. *)
From S2P Require Import Prelude RStr Collections Payload Error Types Validations.
From stdpp Require Import options.

(** ** Theorems on the rules of posted text

    The text that the scans judge is the prose of the posted text, line by line; a text is accepted
    exactly when it has no home path that is not allowed. *)

#[local] Arguments Ascii.eqb : simpl never.

(** ** Whitespace at the end of a line *)
Lemma trim_start_space w c : ws1 c = true →
  trim_start (w +:+ String c EmptyString)
  = if is_empty (trim_start w) then EmptyString else trim_start w +:+ String c EmptyString.
Proof.
  intros Hc. assert (Hno2 : ∀ a, ws2 a c = false ∧ ∀ b, ws3 a b c = false).
  { intros a. unfold ws1 in Hc. apply orb_true_iff in Hc.
    assert (Hn : (N_of_ascii c ≤ 32)%N) by (destruct Hc as [Hc|Hc]; apply byte_in_true in Hc; lia).
    split.
    - unfold ws2. rewrite (proj2 (byte_in_false 133 133 c)), (proj2 (byte_in_false 160 160 c)) by lia.
      by rewrite andb_false_r.
    - intros b. unfold ws3. rewrite !(proj2 (byte_in_false 128 _ c)), (proj2 (byte_in_false 168 169 c)),
        (proj2 (byte_in_false 175 175 c)), (proj2 (byte_in_false 159 159 c)) by lia.
      by rewrite !andb_false_r. }
  unfold trim_start. remember (String.length w) as n eqn:Hn. assert (Hle : String.length w ≤ n) by lia.
  clear Hn. revert w Hle. induction n as [|n IH]; intros w Hle.
  - destruct w; [|cbn in Hle; lia]. rewrite app_empty. cbn [strip_ws]. by rewrite Hc.
  - destruct w as [|a w]; [rewrite app_empty; cbn [strip_ws]; by rewrite Hc|].
    cbn in Hle. rewrite app_cons. cbn [strip_ws].
    destruct (ws1 a); [apply IH; lia|]. destruct w as [|b w].
    { rewrite app_empty. by rewrite (proj1 (Hno2 a)). }
    rewrite app_cons. cbn in Hle. destruct (ws2 a b); [apply IH; lia|]. destruct w as [|d w].
    { rewrite app_empty. by rewrite (proj2 (Hno2 a)). }
    rewrite app_cons. cbn in Hle. destruct (ws3 a b d); [apply IH; lia|done].
Qed.

Lemma take_while_end p s c : p c = false →
  take_bytes_while p (s +:+ String c EmptyString) = take_bytes_while p s.
Proof.
  intros Hc. induction s as [|d s IH]; [rewrite app_empty; cbn; by rewrite Hc|].
  rewrite app_cons. cbn. by rewrite IH.
Qed.

Lemma fence_marker_space w c : ws1 c = true → fence_marker (w +:+ String c EmptyString) = fence_marker w.
Proof.
  intros Hc. unfold fence_marker. rewrite trim_start_space by done.
  destruct (trim_start w) as [|d x]; [done|]. cbn [is_empty]. rewrite app_cons.
  destruct (Ascii.eqb d backtick || Ascii.eqb d "~") eqn:E; [|done].
  rewrite <- app_cons, take_while_end; [done|].
  apply orb_true_iff in E as [->%Ascii.eqb_eq| ->%Ascii.eqb_eq]; apply Ascii.eqb_neq; by intros <-.
Qed.

(** ** Code spans *)
Lemma close_span_app run seen s c : run ≠ 0 → Ascii.eqb c backtick = false →
  close_span run seen (s +:+ String c EmptyString)
  = (λ rest, rest +:+ String c EmptyString) <$> close_span run seen s.
Proof.
  intros Hr Hc. revert seen. induction s as [|d s IH]; intros seen.
  - rewrite app_empty. cbn. rewrite Hc. destruct (seen =? run) eqn:E; cbn; [done|].
    by destruct run.
  - rewrite app_cons. cbn. destruct (Ascii.eqb d backtick); [apply IH|].
    destruct (seen =? run); [by rewrite <- app_cons|]. apply IH.
Qed.

Lemma take_while_length p s : String.length (take_bytes_while p s) ≤ String.length s.
Proof. induction s as [|c s IH]; cbn; [lia|]. destruct (p c); cbn; lia. Qed.

Lemma drop_bytes_app_le n s t : n ≤ String.length s → drop_bytes n (s +:+ t) = drop_bytes n s +:+ t.
Proof.
  revert s. induction n as [|n IH]; intros s Hn; [done|]. destruct s as [|c s]; [cbn in Hn; lia|].
  rewrite app_cons. cbn in *. apply IH. lia.
Qed.

Lemma strip_spans_app n s c :
  n ≤ String.length s → Ascii.eqb c backtick = false →
  strip_spans n (s +:+ String c EmptyString) = strip_spans n s +:+ String c EmptyString.
Proof.
  intros Hn Hc. revert n Hn. induction s as [|d s IH]; intros n Hn.
  - cbn in Hn. replace n with 0 by lia. rewrite app_empty. cbn. by rewrite Hc.
  - cbn in Hn. rewrite app_cons. cbn [strip_spans]. destruct n as [|n]; [|apply IH; lia].
    destruct (Ascii.eqb d backtick) eqn:Ed; [|rewrite IH by lia; by rewrite app_cons].
    rewrite <- app_cons. rewrite take_while_end by (rewrite Ascii.eqb_sym; done).
    set (ticks := take_bytes_while (Ascii.eqb backtick) (String d s)).
    assert (Hlen : String.length ticks ≤ S (String.length s)) by apply (take_while_length _ (String d s)).
    assert (Hpos : String.length ticks ≠ 0)
      by (unfold ticks; cbn [take_bytes_while]; rewrite (Ascii.eqb_sym backtick), Ed; cbn [String.length]; lia).
    rewrite drop_bytes_app_le, close_span_app by (cbn; done || lia).
    destruct (close_span _ _ _) as [rest|]; cbn [fmap option_fmap option_map].
    + rewrite !length_app. cbn [String.length].
      replace (String.length s + 1 - (String.length rest + 1)) with (String.length s - String.length rest) by lia.
      rewrite IH by lia. by rewrite app_cons.
    + rewrite IH by lia. by rewrite app_assoc.
Qed.

Lemma strip_spans_nil s : strip_spans 0 s = EmptyString → s = EmptyString.
Proof.
  destruct s as [|c s]; [done|]. cbn [strip_spans take_bytes_while].
  destruct (Ascii.eqb c backtick) eqn:E; [|done].
  rewrite (Ascii.eqb_sym backtick), E. destruct (close_span _ _ _); [done|]. done.
Qed.

Lemma ends_with_cons p c s : s ≠ EmptyString → ends_with (String p EmptyString) (String c s) = ends_with (String p EmptyString) s.
Proof.
  intros Hs. unfold ends_with. destruct (strip_suffix _ s) as [r|] eqn:E.
  - apply strip_suffix_some in E as ->. rewrite <- app_cons. by rewrite strip_suffix_app.
  - destruct (strip_suffix _ (String c s)) as [r|] eqn:E'; [|done]. apply strip_suffix_some in E'.
    destruct r as [|d r]; [by injection E' as -> ->|]. rewrite app_cons in E'. injection E' as -> ->.
    by rewrite strip_suffix_app in E.
Qed.

Lemma ends_with_app p a s : s ≠ EmptyString → ends_with (String p EmptyString) (a +:+ s) = ends_with (String p EmptyString) s.
Proof.
  intros Hs. induction a as [|c a IH]; [done|]. rewrite app_cons, ends_with_cons; [done|]. by destruct a.
Qed.

Lemma ticks_end c s : c ≠ backtick → ends_with (String c EmptyString) (take_bytes_while (Ascii.eqb backtick) s) = false.
Proof.
  intros Hc. apply not_true_iff_false. unfold ends_with.
  destruct (strip_suffix _ _) as [r|] eqn:E; [|done]. intros _. apply strip_suffix_some in E.
  revert r E. induction s as [|d s IH]; intros r E; cbn in E; [by destruct r|].
  destruct (Ascii.eqb_spec backtick d) as [<-|]; [|by destruct r].
  destruct r as [|e r]; rewrite ?app_empty, ?app_cons in E; injection E as E1 E2; [by subst|by apply (IH r)].
Qed.

Lemma strip_spans_end n s c : c ≠ backtick → c ≠ " "%char →
  ends_with (String c EmptyString) (strip_spans n s) = true → ends_with (String c EmptyString) s = true.
Proof.
  intros Hb Hs. revert n. induction s as [|d s IH]; intros n H; [done|].
  assert (Hstep : ∀ k, ends_with (String c EmptyString) (strip_spans k s) = true →
    ends_with (String c EmptyString) (String d s) = true).
  { intros k Hk%IH. rewrite ends_with_cons; [done|by intros ->]. }
  cbn [strip_spans] in H. destruct n as [|n]; [|by apply Hstep in H].
  destruct (Ascii.eqb d backtick).
  - destruct (close_span _ _ _) as [rest|].
    + destruct (strip_spans _ s) as [|e x] eqn:E.
      * exfalso. revert H. unfold ends_with. destruct (strip_suffix _ _) as [r|] eqn:Er; [|done]. intros _.
        apply strip_suffix_some in Er. destruct r as [|? [|]]; try done. by injection Er as <-.
      * rewrite ends_with_cons in H by done. rewrite <- E in H. by apply Hstep in H.
    + destruct (strip_spans _ s) as [|e x] eqn:E.
      * rewrite app_nil_r in H. change (take_bytes_while _ _) with (take_bytes_while (Ascii.eqb backtick) (String d s)) in H.
        by rewrite ticks_end in H.
      * rewrite ends_with_app in H by done. rewrite <- E in H. by apply Hstep in H.
  - destruct (strip_spans 0 s) as [|e x] eqn:E.
    + apply strip_spans_nil in E as ->. done.
    + rewrite ends_with_cons in H by done. rewrite <- E in H. by apply Hstep in H.
Qed.

(** ** The prose of a text *)

(** The lines of a text outside its code blocks, without their code spans; the lines of the blocks
    and their delimiters are empty. *)
Definition prose_line (open_fence : option (ascii * nat)) (line : string) : string :=
  if is_some (fence_marker line) || is_some open_fence then EmptyString else strip_inline_code line.

Fixpoint prose (open_fence : option (ascii * nat)) (ls : list string) : list string :=
  match ls with
  | [] => []
  | line :: ls => prose_line open_fence line :: prose (strip_line open_fence line).1 ls
  end.

(** The pieces of a text between line feeds, with what ends them. *)
Fixpoint inclusive (segments : list string) : list string :=
  match segments with
  | [] => []
  | [w] => if is_empty w then [] else [w]
  | w :: ws => (w +:+ nl) :: inclusive ws
  end.

Lemma split_inclusive_eq s : split_inclusive newline s = inclusive (split_char newline s).
Proof.
  induction s as [|c s IH]; [done|]. cbn [split_inclusive split_char].
  destruct (Ascii.eqb_spec c newline) as [->|].
  - rewrite IH. pose proof (split_char_nil newline s) as Hn. by destruct (split_char newline s).
  - rewrite IH. destruct (split_char newline s) as [|w ws]; [done|].
    destruct ws as [|w' ws]; [by destruct w|]. done.
Qed.

Definition drop_cr (w : string) : string := default w (strip_suffix (String carriage_return EmptyString) w).

Lemma lines_cons w s : one_line w = true → lines (w +:+ nl +:+ s) = drop_cr w :: lines s.
Proof.
  intros Hw. unfold lines, nl. rewrite app_cons, app_empty, split_char_app by done.
  pose proof (split_char_nil newline s) as Hn. by destruct (split_char newline s).
Qed.

Lemma lines_last w : one_line w = true → lines w = if is_empty w then [] else [w].
Proof. intros Hw. unfold lines. by rewrite split_char_none. Qed.

Lemma drop_cr_cases w : (∃ v, w = v +:+ String carriage_return EmptyString ∧ drop_cr w = v)
  ∨ ends_with (String carriage_return EmptyString) w = false ∧ drop_cr w = w.
Proof.
  unfold drop_cr, ends_with. destruct (strip_suffix _ w) as [v|] eqn:E; [left|by right].
  exists v. split; [by apply strip_suffix_some|done].
Qed.

Lemma strip_line_space open w c : ws1 c = true →
  (strip_line open (w +:+ String c EmptyString)).1 = (strip_line open w).1.
Proof.
  intros Hc. unfold strip_line. rewrite fence_marker_space by done.
  destruct (fence_marker w) as [[f n]|]; [|by destruct open].
  destruct open as [[f' n']|]; [|done]. by destruct (_ && _).
Qed.

Lemma strip_line_cr open w : (strip_line open (drop_cr w)).1 = (strip_line open w).1.
Proof.
  destruct (drop_cr_cases w) as [(v & -> & ->)|[_ ->]]; [|done]. by rewrite strip_line_space.
Qed.

Lemma fence_marker_cr w : fence_marker (drop_cr w) = fence_marker w.
Proof. destruct (drop_cr_cases w) as [(v & -> & ->)|[_ ->]]; [|done]. by rewrite fence_marker_space. Qed.

Lemma strip_inline_cr w : drop_cr (strip_inline_code w) = strip_inline_code (drop_cr w).
Proof.
  unfold strip_inline_code. destruct (drop_cr_cases w) as [(v & -> & ->)|[Hw ->]].
  - rewrite strip_spans_app by (done || lia). unfold drop_cr. by rewrite strip_suffix_app.
  - destruct (drop_cr_cases (strip_spans 0 w)) as [(v & Hv & _)|[_ ->]]; [|done]. exfalso.
    apply not_true_iff_false in Hw. apply Hw, (strip_spans_end 0); [done|done|]. rewrite Hv.
    unfold ends_with. by rewrite strip_suffix_app.
Qed.

Lemma take_while_one_line p s : one_line s = true → one_line (take_bytes_while p s) = true.
Proof.
  unfold one_line. induction s as [|c s IH]; [done|]. cbn. intros [Hc Hs]%andb_true_iff.
  destruct (p c); [|done]. cbn. rewrite Hc. by apply IH.
Qed.

Lemma strip_spans_one_line n s : one_line s = true → one_line (strip_spans n s) = true.
Proof.
  revert n. induction s as [|c s IH]; intros n Hs; [done|]. cbn [strip_spans].
  pose proof Hs as Hs'. cbn in Hs'. apply andb_true_iff in Hs' as [Hc Hs'].
  destruct n as [|n]; [|by apply IH]. destruct (Ascii.eqb c backtick).
  - destruct (close_span _ _ _); [by apply IH|]. apply app_one_line; [by apply take_while_one_line|by apply IH].
  - unfold one_line. cbn [all_bytes]. rewrite Hc. by apply (IH 0).
Qed.

Lemma strip_line_terminated open w rest : one_line w = true →
  lines ((strip_line open (w +:+ nl)).2 +:+ rest) = prose_line open (drop_cr w) :: lines rest.
Proof.
  intros Hw. assert (Hnl : ∀ r, lines (nl +:+ r) = EmptyString :: lines r)
    by (intros r; by apply (lines_cons EmptyString)).
  unfold prose_line, nl at 1. rewrite fence_marker_cr. unfold strip_line. rewrite fence_marker_space by done.
  destruct (fence_marker w) as [[f n]|]; [destruct open as [[f' n']|]; [destruct (_ && _)|]; cbn [snd is_some orb]; apply Hnl|].
  destruct open as [o|]; cbn [snd is_some orb]; [apply Hnl|].
  unfold strip_inline_code at 1. rewrite strip_spans_app by (done || lia). fold nl. fold (strip_inline_code w).
  rewrite app_assoc, lines_cons by by apply strip_spans_one_line. by rewrite strip_inline_cr.
Qed.

Lemma strip_line_last open w : one_line w = true → w ≠ EmptyString →
  lines (strip_line open w).2 = [prose_line open w].
Proof.
  intros Hw Hne. unfold strip_line, prose_line.
  destruct (fence_marker w) as [[f n]|]; [destruct open as [[f' n']|]; [destruct (_ && _)|]; done|].
  destruct open as [o|]; [done|]. cbn [snd is_some orb]. unfold strip_inline_code.
  rewrite lines_last by by apply strip_spans_one_line.
  destruct (strip_spans 0 w) eqn:E; [by apply strip_spans_nil in E|done].
Qed.

Lemma strip_lines_prose segments open :
  Forall (λ w, one_line w = true) segments →
  lines (strip_lines open (inclusive segments)) = prose open (lines_of segments).
Proof.
  intros Hall. revert open. induction Hall as [|w ws Hw Hws IH]; intros open; [done|].
  destruct ws as [|w' ws].
  - cbn [inclusive lines_of]. destruct (is_empty w) eqn:E; [done|]. cbn [strip_lines prose].
    pose proof (strip_line_last open w Hw (proj1 (is_empty_false w) E)) as Hl.
    destruct (strip_line open w) as [o out]. cbn [snd fst] in *. rewrite app_nil_r. exact Hl.
  - change (inclusive (w :: w' :: ws)) with ((w +:+ nl) :: inclusive (w' :: ws)).
    change (lines_of (w :: w' :: ws)) with (drop_cr w :: lines_of (w' :: ws)).
    cbn [strip_lines prose]. rewrite strip_line_cr.
    pose proof (strip_line_terminated open w (strip_lines (strip_line open (w +:+ nl)).1 (inclusive (w' :: ws))) Hw) as Ht.
    rewrite IH in Ht. unfold nl in Ht at 3. rewrite strip_line_space in Ht by done. rewrite <- Ht.
    by destruct (strip_line open (w +:+ nl)).
Qed.

Lemma stripped_lines markdown : lines (strip_code_segments markdown) = prose None (lines markdown).
Proof.
  unfold strip_code_segments. rewrite split_inclusive_eq. apply strip_lines_prose.
  apply Forall_forall. intros w. apply split_char_free.
Qed.

(** ** What the lines of a text contain *)
Definition inline_pattern (p : string) : bool :=
  negb (is_empty p) && all_bytes (λ d, negb (Ascii.eqb d newline)) p
  && all_bytes (λ d, negb (Ascii.eqb d carriage_return)) p.

Lemma contains_drop_cr p w : inline_pattern p = true → contains p (drop_cr w) = contains p w.
Proof.
  intros [[Hne%negb_true_iff%is_empty_false _]%andb_true_iff Hcr]%andb_true_iff.
  destruct (drop_cr_cases w) as [(v & -> & ->)|[_ ->]]; [|done].
  rewrite contains_across by done. destruct p; [done|]. by rewrite orb_false_r.
Qed.

Lemma contains_empty p : p ≠ EmptyString → contains p EmptyString = false.
Proof.
  intros Hp. apply not_true_iff_false. intros (a & b & H)%contains_true. by destruct a, p.
Qed.

Lemma contains_segments p segments : inline_pattern p = true → segments ≠ [] →
  contains p (join nl segments) = existsb (contains p) (lines_of segments).
Proof.
  intros Hp. pose proof Hp as [[Hne%negb_true_iff%is_empty_false Hnl]%andb_true_iff _]%andb_true_iff.
  induction segments as [|w ws IH]; [done|]. intros _. destruct ws as [|w' ws].
  - cbn. destruct (is_empty w) eqn:E; cbn; [|by rewrite orb_false_r].
    apply is_empty_true in E as ->. by apply contains_empty.
  - rewrite join_cons. unfold nl at 1. rewrite app_cons, app_empty, contains_across by done.
    change (lines_of (w :: w' :: ws)) with (drop_cr w :: lines_of (w' :: ws)). cbn [existsb].
    by rewrite IH, contains_drop_cr.
Qed.

Lemma contains_lines p s : inline_pattern p = true → contains p s = existsb (contains p) (lines s).
Proof.
  intros Hp. unfold lines. rewrite <- contains_segments; [|done|apply split_char_nil].
  unfold nl. by rewrite join_split.
Qed.

(** ** The rules on prose *)
Lemma literal_patterns seq : seq ∈ LITERAL_ESCAPED_CONTROLS → inline_pattern seq = true.
Proof. intros [->|[->|[->|H%elem_of_nil]%elem_of_cons]%elem_of_cons]%elem_of_cons; done. Qed.

Lemma no_violations markdown :
  markdown_payload_violations markdown = []
  ↔ ∀ seq, seq ∈ LITERAL_ESCAPED_CONTROLS → contains seq (strip_code_segments markdown) = false.
Proof.
  unfold markdown_payload_violations. generalize (strip_code_segments markdown). intros s.
  assert (Hseq : ∀ seq, seq ∈ LITERAL_ESCAPED_CONTROLS →
    (0 <? length (match_indices seq s)) = contains seq s).
  { intros seq Hin%literal_patterns. apply andb_true_iff in Hin as [[Hne%negb_true_iff%is_empty_false _]%andb_true_iff _].
    destruct (contains seq s) eqn:E.
    - apply Nat.ltb_lt. destruct (match_indices seq s) eqn:Em; [|cbn; lia].
      apply match_indices_none in Em; [congruence|done].
    - apply match_indices_none in E as ->; done. }
  revert Hseq. generalize LITERAL_ESCAPED_CONTROLS. intros l. induction l as [|seq l IH]; intros Hseq.
  - split; [intros _ seq H%elem_of_nil; done|done].
  - cbn [omap list_omap]. rewrite (Hseq seq) by by left. destruct (contains seq s) eqn:E.
    + split; [done|]. intros H. rewrite (H seq) in E by by left. done.
    + rewrite IH by (intros x Hx; apply Hseq; by right). split.
      * intros H x [->|Hx]%elem_of_cons; [done|by apply H].
      * intros H x Hx. apply H. by right.
Qed.

Lemma scan_lines_hits text n m :
  mk_AttributionHit n m ∈ scan_lines text
  ↔ ∃ i line, n = S i ∧ lines text !! i = Some line ∧ classify_line line = Some m.
Proof.
  unfold scan_lines. rewrite list_elem_of_omap. split.
  - intros ([i line] & Hin & H). apply elem_of_lookup_imap in Hin as (j & x & [= -> ->] & Hl). cbn in H.
    destruct (classify_line x) as [m'|] eqn:E; [|done]. injection H as <- <-. by exists j, x.
  - intros (i & line & -> & Hl & Hc). exists (i, line). split; [|cbn; by rewrite Hc].
    apply elem_of_lookup_imap. by exists i, line.
Qed.

Section rules.
Context `{PE : !PayloadEnv}.

End rules.

(** ** Home paths *)

(** The path that an occurrence of a root begins, by what follows the root, without trailing
    punctuation. *)
Definition owner_of (after : string) : string := take_bytes_while owner_byte after.
Definition home_path (root after : string) : string :=
  let rest := drop_bytes (String.length (owner_of after)) after in
  trim_end_bytes trailing_punct
    (root +:+ owner_of after +:+ (if starts_with "/" rest then path_tail rest else EmptyString)).

Definition is_home_path (root after : string) : bool :=
  negb (is_empty (owner_of after)) && negb (is_allowed_local_path (home_path root after)).

Lemma root_kept root x : root ∈ LOCAL_PATH_ROOTS → ∃ y, trim_end_bytes trailing_punct (root +:+ x) = root +:+ y.
Proof.
  intros Hroot. exists (trim_end_bytes trailing_punct x).
  assert (Hr : trim_end_bytes trailing_punct root = root ∧ root ≠ EmptyString).
  { revert Hroot. intros [->|[->|H%elem_of_nil]%elem_of_cons]%elem_of_cons; [by vm_compute|by vm_compute|done]. }
  destruct Hr as [Hr Hne]. destruct (trim_end_bytes trailing_punct x) eqn:E.
  - destruct (trim_end_split trailing_punct x) as (b & Hb & Hx). rewrite E, app_empty in Hx. subst b.
    by rewrite trim_end_app, app_nil_r.
  - by rewrite trim_end_keep; rewrite E.
Qed.

Lemma path_at_eq root before after : root ∈ LOCAL_PATH_ROOTS →
  path_at root (before +:+ root +:+ after) (String.length before)
  = if is_home_path root after
    then Some (home_path root after, String.length root + String.length (owner_of after)) else None.
Proof.
  intros Hroot. unfold path_at, is_home_path. rewrite drop_bytes_plus, !drop_bytes_app. fold (owner_of after).
  destruct (is_empty (owner_of after)); [done|]. cbn [negb andb]. fold (home_path root after).
  replace (is_empty (home_path root after)) with false; [by destruct (is_allowed_local_path _)|].
  unfold home_path. match goal with |- context [root +:+ ?x] => destruct (root_kept root x Hroot) as [y ->] end.
  revert Hroot. by intros [->|[->|H%elem_of_nil]%elem_of_cons]%elem_of_cons.
Qed.

(** An occurrence that begins inside another one follows a path of its own root, which is not
    allowed. *)
Lemma overlap_name root after m after' :
  root ∈ LOCAL_PATH_ROOTS → root +:+ after = m +:+ root +:+ after' →
  0 < String.length m < String.length root →
  ∃ name x, name ∈ ["Users"; "home"] ∧ root = "/" +:+ name +:+ "/" ∧ after = name +:+ "/" +:+ x.
Proof.
  intros [->|[->|Hn%elem_of_nil]%elem_of_cons]%elem_of_cons H Hlen; [| |done].
  - exists "Users", after'. split; [by left|]. split; [done|]. rewrite !app_cons, !app_empty in H.
    destruct m as [|? m]; [cbn in Hlen; lia|]. rewrite !app_cons in H. injection H as _ H.
    do 6 (destruct m as [|? m];
      [rewrite app_empty in H; first [discriminate H|injection H as ->; reflexivity]
      |rewrite app_cons in H; injection H as _ H]).
    cbn in Hlen. lia.
  - exists "home", after'. split; [by right; left|]. split; [done|]. rewrite !app_cons, !app_empty in H.
    destruct m as [|? m]; [cbn in Hlen; lia|]. rewrite !app_cons in H. injection H as _ H.
    do 5 (destruct m as [|? m];
      [rewrite app_empty in H; first [discriminate H|injection H as ->; reflexivity]
      |rewrite app_cons in H; injection H as _ H]).
    cbn in Hlen. lia.
Qed.

Lemma owner_of_name name x : name ∈ ["Users"; "home"] → owner_of (name +:+ "/" +:+ x) = name.
Proof. by intros [->|[->|Hn%elem_of_nil]%elem_of_cons]%elem_of_cons. Qed.

Lemma overlap_flagged root after m after' :
  root ∈ LOCAL_PATH_ROOTS → root +:+ after = m +:+ root +:+ after' →
  0 < String.length m < String.length root → is_home_path root after = true.
Proof.
  intros Hroot H Hlen. destruct (overlap_name root after m after' Hroot H Hlen) as (name & x & Hname & Hr & ->).
  unfold is_home_path. rewrite owner_of_name by done.
  assert (Hend : ∃ y, home_path root (name +:+ "/" +:+ x) = root +:+ name +:+ y).
  { unfold home_path. rewrite owner_of_name by done.
    match goal with |- context [root +:+ name +:+ ?t] => generalize t end. intros t.
    destruct (trim_end_split trailing_punct t) as (b & Hb & Ht).
    exists (trim_end_bytes trailing_punct t). rewrite <- !app_assoc.
    destruct (trim_end_bytes trailing_punct t) eqn:E.
    - rewrite app_empty in Ht. subst t. rewrite trim_end_app, app_nil_r by done. subst root.
      revert Hname. by intros [->|[->|Hn%elem_of_nil]%elem_of_cons]%elem_of_cons.
    - rewrite trim_end_keep; by rewrite E. }
  destruct Hend as [y ->]. subst root.
  revert Hname. by intros [->|[->|Hn%elem_of_nil]%elem_of_cons]%elem_of_cons.
Qed.

(** ** The scan of a text *)
Lemma dedupe_nil hits seen : dedupe hits seen = [] → (∀ h, h ∈ hits → (lh_line h.2, lh_sample h.2) ∈ seen).
Proof.
  revert seen. induction hits as [|[k hit] hits IH]; intros seen H h Hh; [by apply elem_of_nil in Hh|].
  cbn in H. destruct k as [? ?]. case_bool_decide as E; [|done].
  apply elem_of_cons in Hh as [->|Hh]; [done|by apply (IH seen)].
Qed.

Lemma dedupe_sub hits seen h : h ∈ dedupe hits seen → ∃ k, (k, h) ∈ hits.
Proof.
  revert seen. induction hits as [|[k hit] hits IH]; intros seen H; [by apply elem_of_nil in H|].
  cbn in H. destruct k as [n m]. destruct (bool_decide _).
  - apply IH in H as [k Hk]. exists k. by right.
  - apply elem_of_cons in H as [->|H]; [exists (n, m); by left|]. apply IH in H as [k Hk]. exists k. by right.
Qed.

Lemma elem_of_concat_iff {A} (x : A) ls : x ∈ concat ls ↔ ∃ l, l ∈ ls ∧ x ∈ l.
Proof. rewrite list_elem_of_In, in_concat. by setoid_rewrite list_elem_of_In. Qed.

Lemma elem_of_found text k h :
  (k, h) ∈ concat (imap (λ idx line, line_hits (S idx) line) (lines text))
  ↔ ∃ i line root start, lines text !! i = Some line ∧ root ∈ LOCAL_PATH_ROOTS
      ∧ start ∈ match_indices root line ∧ path_hit (S i) line root start = Some (k, h).
Proof.
  rewrite elem_of_concat_iff. split.
  - intros (hs & Hin & Hh). apply elem_of_lookup_imap in Hin as (i & line & -> & Hl).
    unfold line_hits in Hh. apply elem_of_concat_iff in Hh as (rs & Hin & Hr).
    apply list_elem_of_fmap in Hin as (root & -> & Hroot). apply list_elem_of_omap in Hr as (start & Hs & Hp).
    by exists i, line, root, start.
  - intros (i & line & root & start & Hl & Hroot & Hs & Hp). exists (line_hits (S i) line). split.
    + apply elem_of_lookup_imap. by exists i, line.
    + unfold line_hits. apply elem_of_concat_iff. eexists. split; [apply list_elem_of_fmap; by exists root|].
      apply list_elem_of_omap. by exists start.
Qed.

Lemma no_hits text :
  scan_local_paths text = []
  ↔ ∀ line root before after, line ∈ lines text → root ∈ LOCAL_PATH_ROOTS →
      line = before +:+ root +:+ after → is_home_path root after = false.
Proof.
  unfold scan_local_paths. set (found := concat _).
  pose proof (merge_sort_Permutation hit_le found) as Hperm. split.
  - intros Hnil line root before after Hline Hroot ->. apply not_true_iff_false. intros Hpath.
    apply list_elem_of_lookup in Hline as [i Hi].
    assert (Hnone : ∀ k h, (k, h) ∉ found).
    { intros k h Hin. rewrite <- Hperm in Hin. by apply (dedupe_nil _ _ Hnil), elem_of_nil in Hin. }
    assert (Hmatch : ∀ b a, before +:+ root +:+ after = b +:+ root +:+ a →
      String.length b ∈ match_indices root (before +:+ root +:+ after) → is_home_path root a = false).
    { intros b a Heq Hin. apply not_true_iff_false. intros Ha. eapply (Hnone (_, _)), elem_of_found.
      exists i, (before +:+ root +:+ after), root, (String.length b). split; [exact Hi|]. split; [done|]. split; [done|].
      unfold path_hit. rewrite Heq, path_at_eq by done. rewrite Ha. done. }
    assert (Hne : root ≠ EmptyString).
    { revert Hroot. by intros [->|[->|Hn%elem_of_nil]%elem_of_cons]%elem_of_cons. }
    destruct (match_from_complete root 0 0 before after Hne) as [Hl|[Hl|(j & Hj & Hlt)]]; [lia| |].
    + rewrite (Hmatch before after) in Hpath; done.
    + pose proof (match_from_sound _ _ _ _ _ Hj) as (b & a & Heq & ->). cbn in Hlt.
      specialize (Hmatch b a Heq Hj). apply split_cases in Heq as [(m & -> & H)|(m & Hb & H)].
      * rewrite length_app in Hlt. apply not_true_iff_false in Hmatch. apply Hmatch.
        by apply (overlap_flagged root a m after); [| |lia].
      * subst b. rewrite length_app in Hlt. lia.
  - intros Hall. assert (Hf : found = []).
    { destruct found as [|[k h] l] eqn:E; [done|]. exfalso.
      assert (Hin : (k, h) ∈ found) by (rewrite E; left). apply elem_of_found in Hin as (i & line & root & start & Hl & Hroot & Hs & Hp).
      apply (match_from_sound root 0 0) in Hs as (b & a & -> & ->). unfold path_hit in Hp. cbn in Hp.
      rewrite path_at_eq, (Hall (b +:+ root +:+ a) root b a) in Hp;
        [done|by eapply list_elem_of_lookup_2|done|done|done]. }
    rewrite Hf in *. apply Permutation_nil_r in Hperm. by rewrite Hperm.
Qed.

(** C22: Every home path is found: a text passes, unless the environment disables the rule, exactly when
    no line has a root of the two that a name follows, whatever the matches before it passed over,
    other than the paths that are allowed; and each hit names its line, a path of that line, and the
    path with its root and owner replaced by [$HOME]. *)
Theorem home_paths_are_refused `{PE : !PayloadEnv} text field :
  (no_local_path text field = Ok tt
     ↔ env_allow_local_path = Some "1"
       ∨ ∀ line root before after, line ∈ lines text → root ∈ ["/Users/"; "/home/"] →
           line = before +:+ root +:+ after → is_home_path root after = false)
  ∧ ∀ hit, hit ∈ scan_local_paths text →
      ∃ line root before after,
        lines text !! pred (lh_line hit) = Some line ∧ line = before +:+ root +:+ after
        ∧ is_home_path root after = true ∧ lh_sample hit = home_path root after
        ∧ lh_suggestion hit
          = "$HOME" +:+ drop_bytes (String.length root + String.length (owner_of after)) (lh_sample hit).
Proof.
  split.
  - unfold no_local_path, validate_no_local_paths, local_path_scan_disabled.
    destruct (_ ==? Some "1") eqn:E; [apply bool_decide_eq_true in E; split; [by left|done]|].
    apply bool_decide_eq_false in E. pose proof (no_hits text) as Hn.
    destruct (scan_local_paths text) as [|h hs].
    + split; [intros _; right; by apply Hn|done].
    + split; [done|]. intros [?|H]; [done|]. by apply Hn in H.
  - intros hit H. unfold scan_local_paths in H. apply dedupe_sub in H as [k H].
    rewrite merge_sort_Permutation in H. apply elem_of_found in H as (i & line & root & start & Hl & Hroot & Hs & Hp).
    apply (match_from_sound root 0 0) in Hs as (b & a & -> & ->). unfold path_hit in Hp. cbn in Hp.
    rewrite path_at_eq in Hp by done. destruct (is_home_path root a) eqn:Eh; [|done].
    injection Hp as _ <-. by exists (b +:+ root +:+ a), root, b, a.
Qed.

(** ** Theorems on the lock-down rules

    The branch and the sections a body needs are what the rules say, and the local preflight is
    green exactly when the rules of [pr create] pass. *)
(** ** Branches *)
Lemma prefix_of_spec text p : prefix_of text = Some p ↔ text = prefix_as_str p.
Proof.
  unfold prefix_of. split.
  - repeat (destruct (_ ==? _) eqn:E; [apply bool_decide_eq_true in E as ->; by intros [= <-]|clear E]). done.
  - intros ->. by destruct p.
Qed.

Definition slug_ok (slug : string) : Prop :=
  ∃ first tail, slug = String first tail ∧ (len slug ≤ 64)%N ∧ slug_first first = true ∧ all_bytes slug_byte tail = true.

Lemma check_slug_ok branch slug : check_slug branch slug = Ok tt ↔ slug_ok slug.
Proof.
  unfold check_slug, slug_ok. destruct slug as [|first tail].
  - split; [done|by intros (? & ? & ? & _)].
  - destruct (64 <? len (String first tail))%N eqn:El.
    { split; [done|]. intros (? & ? & [= <- <-] & Hl & _). apply N.ltb_lt in El. lia. }
    apply N.ltb_ge in El. destruct (slug_first first) eqn:Ef; cbn [negb].
    2:{ split; [done|]. intros (? & ? & [= <- <-] & _ & H & _). congruence. }
    destruct (all_bytes slug_byte tail) eqn:Et; cbn [negb].
    2:{ split; [done|]. intros (? & ? & [= <- <-] & _ & _ & H). congruence. }
    split; [intros _; by exists first, tail|done].
Qed.

Lemma split_at_prefix p slug : split_once "/" (prefix_as_str p +:+ "/" +:+ slug) = Some (prefix_as_str p, slug).
Proof.
  rewrite split_once_skip by by destruct p. rewrite split_once_here. cbn. by rewrite app_nil_r.
Qed.

(** The branches that a command accepts are those of a prefix and a slug of one to 64 bytes, and
    each of them is one kind's. *)
Theorem branches_have_one_kind branch prefix :
  (branch_name branch = Ok prefix
     ↔ ∃ slug, branch = prefix_as_str prefix +:+ "/" +:+ slug ∧ slug_ok slug)
  ∧ (∃ kind, branch_kind_matches prefix kind = Ok tt
       ∧ ∀ other, branch_kind_matches prefix other = Ok tt → other = kind).
Proof.
  split.
  - unfold branch_name. split.
    + destruct (split_once "/" branch) as [[p slug]|] eqn:E; [|done]. apply split_once_eq in E as ->.
      destruct (prefix_of p) as [q|] eqn:Ep; [|done]. apply prefix_of_spec in Ep as ->.
      destruct (check_slug _ slug) as [[]|] eqn:Ec; [|done]. intros [= <-]. exists slug.
      split; [done|]. by apply check_slug_ok in Ec.
    + intros (slug & -> & Hs). rewrite split_at_prefix.
      rewrite (proj2 (prefix_of_spec _ prefix) eq_refl). by rewrite (proj2 (check_slug_ok _ slug) Hs).
  - exists (match prefix with Feat => KFeature | Fix => KBug | Chore => KChore | Docs => KDocs | Ci => KCi
              | Refactor => KRefactor | Test => KTest end).
    split; [by destruct prefix|]. intros other. destruct prefix, other; done.
Qed.

(** ** Sections *)
Lemma section_scan_inside heading saw ls :
  section_scan heading true saw ls = true
  ↔ ∃ content rest, trim <$> ls = content ++ rest
      ∧ Forall (λ l, is_h2_heading l = false) content
      ∧ (rest = [] ∨ ∃ l r, rest = l :: r ∧ is_h2_heading l = true)
      ∧ (saw = true ∨ ∃ l, l ∈ content ∧ l ≠ EmptyString).
Proof.
  revert saw. induction ls as [|line ls IH]; intros saw; cbn [section_scan].
  - rewrite andb_true_l. split.
    + intros ->. exists [], []. auto.
    + intros (content & rest & H & _ & _ & Hs). symmetry in H. apply app_eq_nil in H as [-> ->].
      destruct Hs as [?|(l & Hl & _)]; [done|by apply elem_of_nil in Hl].
  - destruct (is_h2_heading (trim line)) eqn:Eh; cbn [andb].
    + split.
      * intros ->. exists [], (trim line :: (trim <$> ls)). split; [done|]. split; [constructor|].
        split; [right; by exists (trim line), (trim <$> ls)|by left].
      * intros ([|l content] & rest & H & Hc & _ & Hs).
        -- destruct Hs as [?|(l & Hl & _)]; [done|by apply elem_of_nil in Hl].
        -- injection H as <- _. inversion Hc; subst. congruence.
    + rewrite IH. split.
      * intros (content & rest & H & Hc & Hr & Hs). exists (trim line :: content), rest.
        split; [cbn; by rewrite H|]. split; [by constructor|]. split; [done|].
        destruct (is_empty (trim line)) eqn:Ee; cbn [negb] in Hs.
        -- destruct Hs as [?|(l & Hl & Hne)]; [by left|right]. exists l. split; [by right|done].
        -- right. exists (trim line). split; [by left|]. by apply is_empty_false.
      * intros ([|l content] & rest & H & Hc & Hr & Hs).
        { cbn in H. destruct Hr as [->|(l & r & -> & Hl)]; [done|]. injection H as <- _. congruence. }
        injection H as <- H. inversion Hc as [|? ? _ Hc']; subst. exists content, rest.
        split; [done|]. split; [done|]. split; [done|].
        destruct (is_empty (trim line)) eqn:Ee; cbn [negb].
        -- destruct Hs as [?|(l & [->|Hl]%elem_of_cons & Hne)]; [by left| |right; by exists l].
           by apply is_empty_true in Ee.
        -- by left.
Qed.

Lemma section_scan_before heading ls :
  section_scan heading false false ls = true
  ↔ is_h2_heading heading = true
    ∧ ∃ before after, ls = before ++ after
      ∧ Forall (λ l, trim l ≠ heading) before
      ∧ ∃ line rest, after = line :: rest ∧ trim line = heading ∧ section_scan heading true false rest = true.
Proof.
  induction ls as [|line ls IH]; cbn [section_scan].
  - split; [done|]. intros (_ & before & after & H & _ & line & rest & -> & _). by destruct before.
  - rewrite andb_false_r. cbn [andb]. destruct (is_h2_heading (trim line) && (trim line ==? heading)) eqn:E.
    + apply andb_true_iff in E as [Eh Et]. apply bool_decide_eq_true in Et. split.
      * intros H. split; [by rewrite <- Et|]. exists [], (line :: ls). split; [done|]. split; [constructor|].
        by exists line, ls.
      * intros (_ & [|b before] & after & H & Hb & l & rest & -> & Hl & Hs).
        -- by injection H as -> ->.
        -- injection H as -> H. inversion Hb; subst. done.
    + rewrite IH. split.
      * intros (Hh & before & after & -> & Hb & l & rest & Hr). split; [done|]. exists (line :: before), after.
        split; [done|]. split; [|by exists l, rest]. constructor; [|done]. intros Ht. rewrite Ht, Hh in E.
        by rewrite bool_decide_eq_true_2 in E.
      * intros (Hh & [|b before] & after & H & Hb & l & rest & -> & Hl & Hs).
        -- injection H as -> ->. rewrite Hl, Hh in E. by rewrite bool_decide_eq_true_2 in E.
        -- injection H as -> ->. inversion Hb; subst. split; [done|]. exists before, (l :: rest).
           split; [done|]. split; [done|]. by exists l, rest.
Qed.

(** C24: A body has a non-empty section when its first line that is the heading is followed, before the
    next heading of its level, by a line that is not blank; a heading that is configured at another
    level is never found. *)
Theorem sections_are_what_follows_the_heading body headings :
  let filled heading :=
    is_h2_heading heading = true
    ∧ (∃ before content rest,
        trim <$> lines body = before ++ heading :: content ++ rest
        ∧ (heading ∉ before) ∧ Forall (λ l, is_h2_heading l = false) content
        ∧ (rest = [] ∨ ∃ l r, rest = l :: r ∧ is_h2_heading l = true)
        ∧ (∃ l, l ∈ content ∧ l ≠ EmptyString)) in
  (body_sections body headings = Ok tt ↔ filled (bh_summary headings) ∧ filled (bh_test_plan headings))
  ∧ (body_summary body headings = Ok tt ↔ filled (bh_summary headings))
  ∧ (body_test_plan body headings = Ok tt ↔ filled (bh_test_plan headings)).
Proof.
  intros filled.
  assert (Hfilled : ∀ heading, has_non_empty_section body heading = true ↔ filled heading).
  { intros heading. unfold has_non_empty_section. rewrite section_scan_before. apply and_iff_compat_l. split.
    - intros (before & after & Hl & Hb & line & rest & -> & Ht & Hs).
      apply section_scan_inside in Hs as (content & r & Hr & Hc & Hrest & [?|Hne]); [done|].
      exists (trim <$> before), content, r. rewrite Hl, fmap_app. cbn. rewrite Ht, Hr. split; [done|].
      split; [|done]. intros (x & Hx & Hin)%list_elem_of_fmap. rewrite Forall_forall in Hb. by apply (Hb x).
    - intros (before & content & rest & Hl & Hb & Hc & Hrest & Hne).
      apply fmap_app_inv in Hl as (l1 & l2 & Hl1 & Hl2 & Hl).
      apply eq_sym, fmap_cons_inv in Hl2 as (line & l3 & Hline & Hl3 & ->).
      exists l1, (line :: l3). split; [done|]. split.
      + apply Forall_forall. intros x Hx Ht. apply Hb. rewrite Hl1, <- Ht. by apply list_elem_of_fmap_2.
      + exists line, l3. split; [done|]. split; [done|]. apply section_scan_inside.
        exists content, rest. split; [done|]. split; [done|]. split; [done|]. by right. }
  unfold body_sections, body_summary, body_test_plan. rewrite <- !Hfilled.
  destruct (has_non_empty_section body (bh_summary headings)),
    (has_non_empty_section body (bh_test_plan headings)); naive_solver.
Qed.

(** ** The preflight *)
Section preflight.
Context `{PE : !PayloadEnv}.

Lemma sections_ok body headings :
  body_sections body headings = Ok tt
  ↔ body_summary body headings = Ok tt ∧ body_test_plan body headings = Ok tt.
Proof.
  unfold body_sections. destruct (body_summary _ _) as [[]|], (body_test_plan _ _) as [[]|]; naive_solver.
Qed.

Lemma sections_error body headings e :
  body_sections body headings = Err e →
  body_summary body headings = Err e ∨ body_test_plan body headings = Err e
  ∨ (kind e = "body_missing_sections"
     ∧ ∃ e1 e2, body_summary body headings = Err e1 ∧ body_test_plan body headings = Err e2).
Proof.
  unfold body_sections. destruct (body_summary _ _) as [[]|], (body_test_plan _ _) as [[]|]; try naive_solver.
Qed.

Lemma seq_ok (m k : result ForgeError unit) : (_ ← m; k) = Ok tt ↔ m = Ok tt ∧ k = Ok tt.
Proof. destruct m as [[]|]; cbn; naive_solver. Qed.
Lemma seq_err (m k : result ForgeError unit) e : (_ ← m; k) = Err e → m = Err e ∨ k = Err e.
Proof. destruct m as [[]|]; cbn; naive_solver. Qed.

Lemma from_result_ok rule (r : result ForgeError unit) : rv_ok (from_result rule r) = true ↔ r = Ok tt.
Proof. destruct r as [[]|]; cbn; naive_solver. Qed.

(** A rule that fails shows in a list of verdicts that holds its own. *)
Definition shown (e : ForgeError) (verdicts : list RuleVerdict) : Prop :=
  ∃ v, v ∈ verdicts ∧ rv_ok v = false ∧ rv_code v = Some (kind e) ∧ rv_message v = Some (message e).

Lemma failure_shown {A} rule (r : result ForgeError A) e verdicts :
  r = Err e → from_result rule r ∈ verdicts → shown e verdicts.
Proof. intros -> H. by eexists. Qed.

Ltac by_member := repeat first [by left|right].
Ltac shown_by H := by eapply (failure_shown _ _ _ _ H); by_member.

(** C23: The preflight is green exactly when the rules of [pr create] pass, the labels aside; a rule that
    stops [pr create] is red in the preflight with the same code, except that two missing sections
    are one error there and two verdicts here. *)
Theorem preflight_predicts_create inputs labels status head :
  let verdicts := run_local_preflight inputs status head in
  (create_validations inputs labels status head = Ok tt
     ↔ forallb rv_ok verdicts = true ∧ labels = Ok tt)
  ∧ ∀ e, create_validations inputs labels status head = Err e →
      labels = Err e
      ∨ shown e verdicts
      ∨ (kind e = "body_missing_sections"
         ∧ ∃ v w, v ∈ verdicts ∧ rv_rule v = "body_summary" ∧ rv_ok v = false
             ∧ w ∈ verdicts ∧ rv_rule w = "body_test_plan" ∧ rv_ok w = false).
Proof.
  intros verdicts. subst verdicts. unfold create_validations, run_local_preflight. split.
  - destruct (branch_name (pf_branch inputs)) as [prefix|e] eqn:Eb.
    2:{ split; [done|]. intros [H _]. done. }
    change (mbind ?f (Ok prefix)) with (f prefix). cbn [ok forallb].
    rewrite !andb_true_iff, !from_result_ok, !seq_ok, sections_ok. naive_solver.
  - intros e. destruct (branch_name (pf_branch inputs)) as [prefix|e'] eqn:Eb.
    2:{ intros [= <-]. right. left. eexists. by split; [left|]. }
    change (mbind ?f (Ok prefix)) with (f prefix). cbn [ok]. set (verdicts := _ :: _).
    intros H.
    repeat (apply seq_err in H as [H|H]; [first [by left|right; left; shown_by H|apply sections_error in H]|]).
    + destruct H as [H|[H|(Hk & e1 & e2 & H1 & H2)]]; [right; left; shown_by H..|].
      right. right. split; [done|].
      exists (from_result "body_summary" (Err (A := unit) e1)), (from_result "body_test_plan" (Err (A := unit) e2)).
      repeat split; [rewrite <- H1; by_member|rewrite <- H2; by_member].
    + right. left. shown_by H.
Qed.
End preflight.
