(* ===== verification/ErrorFacts.v ===== *)
(** * Theorems on typed errors

    Every failure reaches the caller as the envelope and exit code of its kind, and the
    structured details of a validation error survive their textual carrier. *)
From S2P Require Import Prelude RStr Error World.
From stdpp Require Import options.

Section errors.
Context `{JT : !JsonText}.

(** The kinds whose recovery hint replaces the details of the error. *)
Definition has_fixed_recovery (e : ForgeError) : bool :=
  (((kind e ==? "review_coordinator_live") || (kind e ==? "review_coordinator_unproven"))
   && is_none (structured_details e))
  || (kind e ==? "pr_hold_active") || (kind e ==? "pr_hold_labels_unavailable")
  || (kind e ==? "invalid_hold_labels_config").

Lemma render_json_error e :
  ∃ d, env_error (render_json e) = Some (mk_EnvelopeError (kind e) (message e) None d).
Proof.
  unfold render_json, Envelope_failure. cbn [env_error]. repeat case_match; eexists; reflexivity.
Qed.

(** A failure is reported as one: its envelope has [ok = false], carries no data and no
    warning, names the schema, the kind and the message of the error, and the exit code is
    one of the documented non-zero codes, fixed by the variant alone. *)
Theorem failure_envelope_faithful e :
  env_ok (render_json e) = false ∧ env_data (render_json e) = None
  ∧ env_warnings (render_json e) = [] ∧ env_schema_version (render_json e) = schema_version e
  ∧ (∃ d, env_error (render_json e) = Some (mk_EnvelopeError (kind e) (message e) None d))
  ∧ exit_code e ∈ [exit.RUNTIME; exit.USAGE; exit.DATA; exit.UNAVAILABLE; exit.SOFTWARE]
  ∧ exit_code e ≠ exit.SUCCESS.
Proof.
  do 4 (split; [done|]). split; [apply render_json_error|]. destruct e; cbn; split; set_solver.
Qed.

Lemma structured_details_validation s k m d :
  value_from_str (value_display d) = Ok d →
  structured_details (validation_with_details s k m d) = Some d.
Proof.
  intros Hd. unfold structured_details, validation_with_details. cbn [mbind option_bind].
  rewrite strip_prefix_app. cbn [mbind option_bind]. by rewrite Hd.
Qed.

(** Structured details survive: a validation error built with details gives them back to
    the envelope, exposes no raw detail text, and exits with the data error code; only the
    three hold-label kinds replace the details by their own recovery hint. *)
Theorem structured_details_round_trip s k m d :
  value_from_str (value_display d) = Ok d →
  let e := validation_with_details s k m d in
  structured_details e = Some d ∧ detail e = None ∧ exit_code e = exit.DATA ∧ kind e = k
  ∧ (has_fixed_recovery e = false →
     env_error (render_json e) = Some (mk_EnvelopeError k m None (Some d))).
Proof.
  intros Hd e. assert (Hs : structured_details e = Some d) by by apply structured_details_validation.
  split; [done|]. split.
  { unfold e, detail, validation_with_details. cbn [mbind option_bind]. unfold starts_with.
    by rewrite strip_prefix_app. }
  do 2 (split; [done|]). intros Hfix. unfold has_fixed_recovery in Hfix.
  rewrite Hs in Hfix. cbn [is_none] in Hfix. rewrite andb_false_r in Hfix. cbn [orb] in Hfix.
  apply orb_false_iff in Hfix as [Hfix H3]. apply orb_false_iff in Hfix as [H1 H2].
  unfold render_json. rewrite Hs. cbn [is_none]. by rewrite andb_false_r, H1, H2, H3.
Qed.
End errors.

Lemma structured_details_round_trip_witness :
  @structured_details demo_json
    (@validation_with_details demo_json "s" "review_acceptance_invalid" "m" (JObject []))
  = Some (JObject []).
Proof.
  exact (proj1 (@structured_details_round_trip demo_json "s" "review_acceptance_invalid" "m"
                  (JObject []) eq_refl)).
Defined.
