(* ===== verification/TestDiffFacts.v ===== *)
(** * Theorems on the findings of a diff

    The diff is read as it was written: lines of a hunk are never taken for headers; and the
    bracket depth of an assertion stays within its machine integer. *)
From S2P Require Import Prelude RStr Collections Error Types Provider TestDiff Provenance.
From S2P Require Import World.
From stdpp Require Import options.

(** ** Machine integers: the bracket depth is an [i32] *)
Fixpoint total_length (lines : list string) : Z :=
  match lines with [] => 0 | l :: lines => Z.of_nat (String.length l) + total_length lines end.

Lemma count_bytes_bounds set s : (0 ≤ count_bytes set s ≤ Z.of_nat (String.length s))%Z.
Proof. induction s as [|c s IH]; cbn -[Z.of_nat]; [lia|]. case_bool_decide; lia. Qed.

Lemma join_empty_cons x l : join EmptyString (x :: l) = x +:+ join EmptyString l.
Proof. unfold join. destruct l; cbn; [by rewrite app_nil_r|done]. Qed.

(** The code points of a text make it up. *)
Lemma join_chars s : join EmptyString (chars s) = s.
Proof.
  induction s as [|a s IH]; [done|]. cbn [chars].
  destruct (chars s) as [|[|b r] cs]; [by rewrite <- IH..|].
  rewrite join_empty_cons in IH. destruct (continuation b); rewrite !join_empty_cons; by rewrite <- IH.
Qed.

Lemma filter_length (p : string → bool) l :
  String.length (join EmptyString (List.filter p l)) ≤ String.length (join EmptyString l).
Proof.
  induction l as [|x l IH]; [done|]. cbn [List.filter]. rewrite (join_empty_cons x l), length_app.
  destruct (p x); [rewrite join_empty_cons, length_app|]; lia.
Qed.

Lemma without_whitespace_length s : String.length (without_whitespace s) ≤ String.length s.
Proof. unfold without_whitespace. etrans; [apply filter_length|]. by rewrite join_chars. Qed.

Lemma strip_ws_length w2 w3 s : String.length (strip_ws w2 w3 s) ≤ String.length s.
Proof.
  induction s as [s IH] using (induction_ltof1 _ String.length). unfold ltof in IH.
  destruct s as [|a [|b [|c s]]]; cbn [strip_ws]; repeat case_match; cbn [String.length];
    first [lia | etrans; [apply IH; cbn; lia|cbn; lia]].
Qed.

Lemma rev_length s : String.length (String.rev s) = String.length s.
Proof.
  induction s as [|c s IH]; [done|]. rewrite rev_cons, length_app, IH. cbn. lia.
Qed.

Lemma trim_length s : String.length (trim s) ≤ String.length s.
Proof.
  unfold trim, trim_end, trim_start. rewrite rev_length. etrans; [apply strip_ws_length|].
  rewrite rev_length. apply strip_ws_length.
Qed.

(** The depth after some lines is at most the bytes of the lines. *)
Section depth.
Context `{WA : !WideAlphanumeric}.

Lemma signal_line_depth tp st raw :
  (0 ≤ sg_depth st)%Z →
  (0 ≤ sg_depth (signal_line tp st raw) ≤ sg_depth st + Z.of_nat (String.length raw))%Z.
Proof.
  intros Hd. unfold signal_line. destruct (is_comment _); [lia|]. cbv zeta.
  unfold note_skips. destruct (is_skip _ _); cbn [sg_depth]; unfold note_assertion;
    (destruct (_ || _); [|cbn; lia]); cbv zeta; (destruct (_ <=? 0)%Z eqn:E; cbn in *; [lia|]);
    apply Z.leb_gt in E;
    pose proof (without_whitespace_length (trim raw)); pose proof (trim_length raw);
    pose proof (count_bytes_bounds ["("%char; "["%char; "{"%char] (without_whitespace (trim raw)));
    pose proof (count_bytes_bounds [")"%char; "]"%char; "}"%char] (without_whitespace (trim raw)));
    lia.
Qed.

Lemma signals_depth tp lines st :
  (0 ≤ sg_depth st)%Z →
  (0 ≤ sg_depth (fold_left (signal_line tp) lines st) ≤ sg_depth st + total_length lines)%Z.
Proof.
  revert st. induction lines as [|l lines IH]; intros st Hd; cbn -[Z.of_nat]; [lia|].
  pose proof (signal_line_depth tp st l Hd). pose proof (IH (signal_line tp st l)). lia.
Qed.

Lemma total_length_app l1 l2 : total_length (l1 ++ l2) = (total_length l1 + total_length l2)%Z.
Proof. induction l1 as [|l l1 IH]; cbn -[Z.of_nat]; lia. Qed.
End depth.

Lemma split_char_total c s : (total_length (split_char c s) ≤ Z.of_nat (String.length s))%Z.
Proof.
  induction s as [|d s IH]; [done|]. cbn [split_char]. destruct (Ascii.eqb d c).
  - cbn [total_length String.length]. lia.
  - destruct (split_char c s) as [|w ws] eqn:E; [by apply split_char_nil in E|].
    cbn [total_length String.length] in *. lia.
Qed.

Lemma lines_of_total segments : (total_length (lines_of segments) ≤ total_length segments)%Z.
Proof.
  induction segments as [|w ws IH]; [done|]. cbn [lines_of]. destruct ws as [|w' ws].
  - destruct (is_empty w); cbn -[Z.of_nat]; lia.
  - cbn [total_length]. cbn [total_length] in IH.
    destruct (strip_suffix _ w) as [r|] eqn:E; cbn [default from_option id]; [|lia].
    apply strip_suffix_some in E as ->. rewrite length_app. unfold id. lia.
Qed.

Lemma lines_total s : (total_length (lines s) ≤ Z.of_nat (String.length s))%Z.
Proof. unfold lines. etrans; [apply lines_of_total|apply split_char_total]. Qed.

(** ** The scan of a diff *)
Section scan.
Context `{JT : !JsonText, WA : !WideAlphanumeric}.

Definition scan_start : DiffScan := mk_DiffScan ∅ File_default (0, 0)%N 0.

(** The file a scan is at after some lines of a diff. *)
Definition scanned (consumed : list string) (st : DiffScan) : Prop :=
  foldM diff_line scan_start consumed = Ok st.

Definition gathered (f : File) : Z := Z.max (total_length (fl_before f)) (total_length (fl_after f)).

Lemma total_length_nonneg lines : (0 ≤ total_length lines)%Z.
Proof. induction lines; cbn -[Z.of_nat]; lia. Qed.

Lemma gathered_nonneg f : (0 ≤ gathered f)%Z.
Proof. unfold gathered. pose proof (total_length_nonneg (fl_before f)). lia. Qed.

Lemma diff_line_gathered st line st' :
  diff_line st line = Ok st' →
  (gathered (ds_file st') ≤ gathered (ds_file st) + Z.of_nat (String.length line))%Z.
Proof.
  unfold diff_line. destruct (starts_with "diff --git " line).
  { unfold file_header. destruct (_ !=? _); [done|]. destruct (contains _ _); [done|].
    intros H. inv_ok; repeat (case_match; try done; inv_ok). pose proof (gathered_nonneg (ds_file st)).
    unfold gathered in *. cbn -[Z.of_nat] in *. lia. }
  destruct (_ !=? _).
  { unfold hunk_line. destruct (ds_remaining st) as [o n]. intros H.
    repeat case_match; try done; simplify_eq; unfold gathered; cbn [ds_file fl_before fl_after push_lines];
      rewrite ?total_length_app; cbn [total_length String.length]; lia. }
  unfold meta_line. intros H.
  repeat (case_match; try done); inv_ok; unfold gathered; cbn -[Z.of_nat]; simplify_eq; cbn; lia.
Qed.

Lemma scanned_gathered consumed st :
  scanned consumed st → (gathered (ds_file st) ≤ total_length consumed)%Z.
Proof.
  unfold scanned. intros H.
  assert (Hgen : ∀ st0, foldM diff_line st0 consumed = Ok st →
    (gathered (ds_file st) ≤ gathered (ds_file st0) + total_length consumed)%Z).
  { clear H. induction consumed as [|l consumed IH]; intros st0 H; cbn -[Z.of_nat] in *.
    - injection H as ->. lia.
    - apply bind_ok in H as (st1 & Hl%diff_line_gathered & H%IH). lia. }
  apply Hgen in H. unfold gathered in *. cbn -[Z.of_nat] in *. lia.
Qed.

Definition fits_i32 (n : Z) : Prop := (- 2 ^ 31 ≤ n < 2 ^ 31)%Z.

(** C30: The bracket depth of an assertion is an [i32] that never overflows: for every diff that is
    not refused for its size, and every line of either side of any of its files, the depth
    before the line, the brackets the line opens and closes, and every sum the code makes of
    them fit. *)
Theorem assertion_depth_fits_i32 patch consumed rest st side earlier raw later test :
  (len patch ≤ DIFF_BYTES)%N →
  lines patch = consumed ++ rest → scanned consumed st →
  side ∈ [fl_before (ds_file st); fl_after (ds_file st)] → side = earlier ++ raw :: later →
  let depth := sg_depth (fold_left (signal_line test) earlier Signals_new) in
  let compact := without_whitespace (trim raw) in
  let opened := count_bytes ["("%char; "["%char; "{"%char] compact in
  let closed := count_bytes [")"%char; "]"%char; "}"%char] compact in
  fits_i32 depth ∧ fits_i32 opened ∧ fits_i32 closed
  ∧ fits_i32 (depth + opened) ∧ fits_i32 (depth + opened - closed).
Proof.
  intros Hlen Hlines Hscan Hside Heq. cbv zeta.
  assert (Htotal : (total_length side ≤ 4194304)%Z).
  { apply scanned_gathered in Hscan. pose proof (lines_total patch) as Hl.
    rewrite Hlines, total_length_app in Hl. pose proof (total_length_nonneg rest).
    assert (Z.of_nat (String.length patch) ≤ 4194304)%Z by (unfold len, DIFF_BYTES in Hlen; lia).
    unfold gathered in Hscan. apply elem_of_cons in Hside as [->|Hside%list_elem_of_singleton]; subst; lia. }
  rewrite Heq, total_length_app in Htotal. cbn [total_length] in Htotal.
  pose proof (total_length_nonneg later).
  pose proof (signals_depth test earlier Signals_new ltac:(done)) as Hd. cbn [sg_depth Signals_new] in Hd.
  pose proof (without_whitespace_length (trim raw)). pose proof (trim_length raw).
  pose proof (count_bytes_bounds ["("%char; "["%char; "{"%char] (without_whitespace (trim raw))).
  pose proof (count_bytes_bounds [")"%char; "]"%char; "}"%char] (without_whitespace (trim raw))).
  unfold fits_i32. lia.
Qed.
End scan.

(** ** Diffs as they are written *)
Lemma elem_of_concat {A} (x : A) ls : x ∈ concat ls → ∃ l, x ∈ l ∧ l ∈ ls.
Proof.
  rewrite list_elem_of_In, in_concat. intros (l & Hl & Hx). exists l. by rewrite !list_elem_of_In.
Qed.

(** *** Texts *)

(** A byte of ASCII that is neither a space nor a control. *)
Definition word_ok (w : string) : bool := negb (is_empty w) && all_bytes solid w.

Lemma chars_cons a s :
  match s with String b _ => continuation b = false | EmptyString => True end →
  chars (String a s) = String a EmptyString :: chars s.
Proof.
  cbn [chars]. destruct s as [|b s]; [done|]. intros Hb. cbn [chars].
  destruct (chars s) as [|[|c r] cs]; try by rewrite ?Hb.
  destruct (continuation c); by rewrite Hb.
Qed.

Lemma solid_continuation b : solid b = true → continuation b = false.
Proof. intros Hb. apply (solid_not_high 128 191); [done|lia]. Qed.

(** The first word of a text. *)
Lemma words_word w c s current :
  all_bytes solid w = true → ws1 c = true → byte_in 0 127 c = true →
  match s with String b _ => continuation b = false | EmptyString => True end →
  current +:+ w ≠ EmptyString →
  words current (chars (w +:+ String c s)) = (current +:+ w) :: words EmptyString (chars s).
Proof.
  intros Hw Hc Hc7 Hs. revert current. induction w as [|a w IH]; intros current Hne.
  - rewrite app_empty, chars_cons by done. cbn [words is_whitespace]. rewrite Hc.
    rewrite app_nil_r in Hne |- *. destruct (is_empty current) eqn:E; [|done].
    by apply is_empty_true in E.
  - cbn in Hw. apply andb_true_iff in Hw as [Ha Hw]. rewrite app_cons, chars_cons.
    2:{ destruct w as [|b w]; cbn.
        - apply (byte_in_false 128 191). apply byte_in_true in Hc7. lia.
        - cbn in Hw. apply andb_true_iff in Hw as [Hb _]. by apply solid_continuation. }
    cbn [words is_whitespace]. rewrite (solid_ws1 _ Ha), IH; [|done|].
    + by rewrite app_assoc.
    + rewrite app_assoc. destruct current; done.
Qed.

Lemma all_bytes_contains c s :
  all_bytes (λ b, negb (Ascii.eqb b c)) s = true → contains (String c EmptyString) s = false.
Proof.
  intros H. apply not_true_iff_false. rewrite contains_true. intros (a & b & ->).
  rewrite !all_bytes_app in H. cbn in H. by rewrite Ascii.eqb_refl, andb_false_r in H.
Qed.

(** Lines, each ended by a line feed. *)
Definition unlines (ls : list string) : string := join EmptyString ((λ l, l +:+ nl) <$> ls).

Lemma unlines_cons l ls : unlines (l :: ls) = l +:+ nl +:+ unlines ls.
Proof. unfold unlines. cbn [fmap list_fmap]. by rewrite join_empty_cons, app_assoc. Qed.

Lemma unlines_app l1 l2 : unlines (l1 ++ l2) = unlines l1 +:+ unlines l2.
Proof.
  induction l1 as [|l l1 IH]; [done|]. cbn [app]. by rewrite !unlines_cons, IH, !app_assoc.
Qed.

Lemma unlines_join ls : ls ≠ [] → unlines ls = join nl ls +:+ nl.
Proof.
  induction ls as [|l [|l' ls] IH]; intros Hne; [done|by rewrite unlines_cons, app_nil_r|].
  rewrite unlines_cons, IH by done. by rewrite join_cons, !app_assoc.
Qed.

Lemma lines_unlines ls : (∀ l, l ∈ ls → line_ok l = true) → lines (unlines ls) = ls.
Proof.
  unfold lines. intros Hok.
  assert (Hsplit : split_char newline (unlines ls) = ls ++ [EmptyString]).
  { induction ls as [|l ls IH]; [done|]. rewrite unlines_cons. unfold nl.
    rewrite app_cons, app_empty, split_char_app.
    - cbn. f_equal. apply IH. intros w Hw. apply Hok. by right.
    - specialize (Hok l (list_elem_of_here _ _)). by apply andb_true_iff in Hok as [? _]. }
  rewrite Hsplit. clear Hsplit. induction ls as [|l ls IH]; [done|].
  assert (Hl : line_ok l = true) by (apply Hok; by left).
  apply andb_true_iff in Hl as [_ Hl]. apply negb_true_iff in Hl. unfold ends_with in Hl.
  cbn [app lines_of]. destruct (ls ++ [EmptyString]) as [|x xs] eqn:E; [by destruct ls|].
  destruct (strip_suffix _ l); [done|]. cbn [default from_option id]. f_equal.
  apply IH. intros w Hw. apply Hok. by right.
Qed.

(** *** Hunks *)
Inductive DiffLine : Type :=
  | Kept (s : string) | Dropped (s : string) | Inserted (s : string) | NoNewline (s : string).

Record Hunk := mk_Hunk {
  hk_old_start : N; hk_new_start : N; hk_section : string; hk_lines : list DiffLine }.

Definition content (l : DiffLine) : string :=
  match l with Kept s | Dropped s | Inserted s | NoNewline s => s end.
Definition line_text (l : DiffLine) : string :=
  match l with
  | Kept s => String " " s | Dropped s => String "-" s
  | Inserted s => String "+" s | NoNewline s => String "\" s
  end.

(** The two sides of a hunk. *)
Definition old_side (ls : list DiffLine) : list string :=
  omap (λ l, match l with Kept s | Dropped s => Some s | _ => None end) ls.
Definition new_side (ls : list DiffLine) : list string :=
  omap (λ l, match l with Kept s | Inserted s => Some s | _ => None end) ls.

Definition count (l : list string) : N := N.of_nat (length l).

Definition hunk_header (h : Hunk) : string :=
  "@@ -" +:+ dec (hk_old_start h) +:+ "," +:+ dec (count (old_side (hk_lines h)))
  +:+ " +" +:+ dec (hk_new_start h) +:+ "," +:+ dec (count (new_side (hk_lines h)))
  +:+ " @@" +:+ hk_section h.

Definition hunk_texts (h : Hunk) : list string := hunk_header h :: (line_text <$> hk_lines h).

(** Everything a hunk is written with fits on its line, and the numbers fit [usize]. *)
Record written_hunk (h : Hunk) : Prop := {
  wh_lines : ∀ l, l ∈ hk_lines h → line_ok (content l) = true;
  wh_section : line_ok (hk_section h) = true;
  wh_old : (hk_old_start h ≤ u64_max)%N;
  wh_new : (hk_new_start h ≤ u64_max)%N;
  wh_old_count : (count (old_side (hk_lines h)) ≤ u64_max)%N;
  wh_new_count : (count (new_side (hk_lines h)) ≤ u64_max)%N;
}.

Section hunks.
Context `{JT : !JsonText, WA : !WideAlphanumeric}.

Lemma range_ok p start n :
  (start ≤ u64_max)%N → (n ≤ u64_max)%N →
  range (Some (p +:+ dec start +:+ "," +:+ dec n)) p = Ok n.
Proof.
  intros Hs Hn. unfold range, or_incomplete. cbn [mbind option_bind]. rewrite strip_prefix_app.
  assert (Hskip : split_once "," (dec start +:+ "," +:+ dec n) = Some (dec start, dec n)).
  { rewrite split_once_skip, split_once_here; [cbn; by rewrite app_nil_r|].
    eapply all_bytes_impl, dec_digits. intros d Hd. apply negb_true_iff, Ascii.eqb_neq. by intros ->. }
  cbn [ok_or mbind result_bind default from_option]. unfold id. rewrite Hskip. cbn [default from_option id].
  unfold parse_u64. by rewrite !parse_unsigned_dec.
Qed.

Definition ranges (h : Hunk) : string * string :=
  ("-" +:+ dec (hk_old_start h) +:+ "," +:+ dec (count (old_side (hk_lines h))),
   "+" +:+ dec (hk_new_start h) +:+ "," +:+ dec (count (new_side (hk_lines h)))).

Lemma hunk_header_words h :
  ∃ rest, split_whitespace (hunk_header h) = "@@" :: (ranges h).1 :: (ranges h).2 :: rest.
Proof.
  assert (Heq : hunk_header h = "@@" +:+ String " " ((ranges h).1 +:+ String " " ((ranges h).2
    +:+ String " " ("@@" +:+ hk_section h)))).
  { unfold hunk_header, ranges. cbn [fst snd]. by rewrite !app_assoc. }
  assert (Hsolid : ∀ n, all_bytes solid (dec n) = true).
  { intros n. eapply all_bytes_impl, dec_digits. apply digit_solid. }
  unfold split_whitespace. rewrite Heq, words_word by done.
  rewrite words_word; [|cbn; by rewrite !all_bytes_app, !Hsolid|done..].
  rewrite words_word; [|cbn; by rewrite !all_bytes_app, !Hsolid|done..].
  by eexists.
Qed.

Lemma hunk_header_ok st h :
  written_hunk h → ds_remaining st = (0, 0)%N →
  diff_line st (hunk_header h)
  = Ok (mk_DiffScan (ds_findings st) (ds_file st)
          (count (old_side (hk_lines h)), count (new_side (hk_lines h))) (ds_count st)).
Proof.
  intros Hh Hr. unfold diff_line, meta_line.
  change (starts_with "diff --git " (hunk_header h)) with false. rewrite Hr, bool_decide_true by done.
  cbn [negb]. change (strip_prefix "--- " (hunk_header h)) with (@None string).
  change (strip_prefix "+++ " (hunk_header h)) with (@None string). cbv iota.
  change (starts_with "deleted file mode " (hunk_header h)) with false. cbv iota.
  change (starts_with "@@ " (hunk_header h)) with true. cbv iota zeta.
  destruct (hunk_header_words h) as (rest & ->). cbn [lookup list_lookup ranges fst snd].
  rewrite !range_ok by apply Hh. done.
Qed.

Lemma push_lines_app f b1 a1 b2 a2 :
  push_lines (push_lines f b1 a1) b2 a2 = push_lines f (b1 ++ b2) (a1 ++ a2).
Proof. unfold push_lines. cbn. by rewrite <- !List.app_assoc. Qed.

Lemma push_lines_nil f : push_lines f [] [] = f.
Proof. destruct f. unfold push_lines. cbn. by rewrite !List.app_nil_r. Qed.

Lemma count_pred n : (N.of_nat (S n) - 1)%N = N.of_nat n.
Proof. lia. Qed.

(** A side of a hunk takes a line: it was not complete. *)
Ltac side_takes c s :=
  change (starts_with "diff --git " (String c s)) with false;
  rewrite bool_decide_false by (cbn; unfold count; cbn; intros [= ? ?]; lia);
  unfold hunk_line, count; cbn [negb ds_remaining old_side new_side omap list_omap length];
  rewrite !(proj2 (N.ltb_lt _ _)), !count_pred by lia; reflexivity.

(** One line of a hunk that is not yet complete. *)
Lemma hunk_line_ok st l ls :
  ds_remaining st = (count (old_side (l :: ls)), count (new_side (l :: ls))) →
  diff_line st (line_text l)
  = Ok (mk_DiffScan (ds_findings st) (push_lines (ds_file st) (old_side [l]) (new_side [l]))
          (count (old_side ls), count (new_side ls)) (ds_count st)).
Proof.
  intros Hr. destruct st as [findings file remaining n]. cbn [ds_remaining] in Hr. subst remaining.
  unfold diff_line. cbn [ds_remaining ds_findings ds_file ds_count].
  destruct l as [s|s|s|s]; cbn [line_text].
  - side_takes " "%char s.
  - side_takes "-"%char s.
  - side_takes "+"%char s.
  - change (starts_with "diff --git " (String "\" s)) with false. cbn [old_side new_side omap list_omap].
    rewrite push_lines_nil. by case_bool_decide.
Qed.

Lemma hunk_lines_ok ls st :
  ds_remaining st = (count (old_side ls), count (new_side ls)) →
  foldM diff_line st (line_text <$> ls)
  = Ok (mk_DiffScan (ds_findings st) (push_lines (ds_file st) (old_side ls) (new_side ls))
          (0, 0)%N (ds_count st)).
Proof.
  revert st. induction ls as [|l ls IH]; intros st Hr; cbn [fmap list_fmap foldM].
  - destruct st as [findings file remaining n]. cbn in *. by rewrite Hr, push_lines_nil.
  - rewrite (hunk_line_ok _ _ _ Hr). cbn [mbind result_bind]. rewrite IH by done.
    cbn [ds_findings ds_file ds_count]. rewrite push_lines_app. by destruct l.
Qed.
End hunks.

(** *** Files *)

(** A byte that neither ends a line nor is dropped at its end. *)
Definition inline (c : ascii) : bool :=
  negb (Ascii.eqb c newline) && negb (Ascii.eqb c carriage_return).

Lemma line_ok_cons c s : inline c = true → line_ok (String c s) = line_ok s.
Proof.
  unfold inline, line_ok. intros [Hn Hr]%andb_true_iff. cbn [all_bytes]. rewrite Hn. cbn [andb].
  f_equal. f_equal. unfold ends_with. cbn [strip_suffix].
  destruct (String.eqb_spec (String c s) (String carriage_return EmptyString)) as [Heq|_].
  { injection Heq as -> ->. done. }
  by destruct (strip_suffix _ s).
Qed.

Lemma line_ok_app a b : all_bytes inline a = true → line_ok b = true → line_ok (a +:+ b) = true.
Proof.
  induction a as [|c a IH]; [done|]. cbn [all_bytes]. intros [Hc Ha]%andb_true_iff Hb.
  rewrite app_cons, line_ok_cons by done. by apply IH.
Qed.

Lemma line_ok_inline s : all_bytes inline s = true → line_ok s = true.
Proof. intros H. rewrite <- (app_nil_r s). by apply line_ok_app. Qed.

Lemma valid_path_bytes path :
  valid_path path = true → all_bytes (λ b, negb (bad_path_byte b)) path = true.
Proof.
  unfold valid_path. intros [[_ H]%andb_true_iff _]%andb_true_iff.
  eapply all_bytes_impl, H. intros b Hb%negb_true_iff%orb_false_iff. apply negb_true_iff, Hb.
Qed.

Lemma valid_path_avoids path c :
  valid_path path = true → bad_path_byte c = true →
  all_bytes (λ b, negb (Ascii.eqb b c)) path = true.
Proof.
  intros H%valid_path_bytes Hc. eapply all_bytes_impl, H. intros b Hb%negb_true_iff.
  apply negb_true_iff, Ascii.eqb_neq. congruence.
Qed.

Lemma valid_path_inline path : valid_path path = true → all_bytes inline path = true.
Proof.
  intros H%valid_path_bytes. eapply all_bytes_impl, H. intros b Hb%negb_true_iff. unfold inline.
  destruct (Ascii.eqb_spec b newline) as [->|]; [done|].
  by destruct (Ascii.eqb_spec b carriage_return) as [->|].
Qed.

Lemma path_name_valid `{JT : !JsonText} path : valid_path path = true → path_name path EmptyString = Ok path.
Proof. intros H%valid_path_bytes. unfold path_name. cbn. unfold id. by rewrite H. Qed.

Definition old_name (f : ChangedFile) : string := default (cf_filename f) (cf_previous_filename f).

(** The lines of one file in a diff. *)
Definition patch_lines (hunks : list Hunk) : list string := concat (hunk_texts <$> hunks).
Definition header_line (f : ChangedFile) : string :=
  "diff --git a/" +:+ old_name f +:+ " b/" +:+ cf_filename f.
Definition file_lines (f : ChangedFile) (hunks : list Hunk) : list string :=
  header_line f
  :: (if cf_status f ==? "removed" then ["deleted file mode 100644"] else [])
  ++ (if cf_status f ==? "renamed"
      then ["rename from " +:+ old_name f; "rename to " +:+ cf_filename f] else [])
  ++ match hunks with [] => [EmptyString] | _ => patch_lines hunks end.

(** The file a scan makes of them. *)
Definition file_of (f : ChangedFile) (hunks : list Hunk) : File :=
  mk_File (old_name f) (cf_filename f) (cf_status f ==? "removed")
    (concat ((λ h, old_side (hk_lines h)) <$> hunks))
    (concat ((λ h, new_side (hk_lines h)) <$> hunks)).

Record written (f : ChangedFile) (hunks : list Hunk) : Prop := {
  wr_patch : cf_patch f = Some (join nl (patch_lines hunks));
  wr_path : valid_path (cf_filename f) = true;
  wr_old : valid_path (old_name f) = true;
  wr_hunks : ∀ h, h ∈ hunks → written_hunk h;
}.

Section files.
Context `{JT : !JsonText, WA : !WideAlphanumeric}.

Lemma residual_text f hunks text :
  written f hunks → residual_patch f = Ok text → text = unlines (file_lines f hunks).
Proof.
  intros Hf. unfold residual_patch. rewrite (wr_patch _ _ Hf). cbn [or_incomplete ok_or mbind result_bind].
  intros H. split_if H. injection H as <-. unfold file_lines, header_line, old_name.
  rewrite unlines_cons, !unlines_app, !app_assoc. do 4 f_equal.
  assert (Hend : unlines match hunks with [] => [EmptyString] | _ => patch_lines hunks end
                 = join nl (patch_lines hunks) +:+ nl).
  { destruct hunks as [|h hunks]; [done|]. by apply unlines_join. }
  rewrite Hend. case_bool_decide; case_bool_decide; rewrite ?unlines_cons;
    change (unlines []) with EmptyString; by rewrite ?app_nil_r, ?app_assoc.
Qed.

Lemma header_line_ok st f hunks :
  written f hunks → ds_remaining st = (0, 0)%N → (ds_count st + 1 < 300)%N →
  diff_line st (header_line f)
  = Ok (mk_DiffScan (ds_findings st ∪ finish (ds_file st))
          (mk_File (old_name f) (cf_filename f) false [] []) (0, 0)%N (ds_count st + 1)).
Proof.
  intros Hf Hr Hc. unfold diff_line. change (starts_with "diff --git " (header_line f)) with true.
  cbv iota. unfold file_header. rewrite Hr, bool_decide_true by done. cbn [negb].
  rewrite all_bytes_contains.
  2:{ unfold header_line. rewrite !all_bytes_app.
      rewrite (valid_path_avoids (old_name f)), (valid_path_avoids (cf_filename f)) by
        (apply Hf || done). done. }
  unfold header_line at 1. rewrite strip_prefix_app. cbn [mbind option_bind].
  rewrite split_once_skip, split_once_here by (apply valid_path_avoids; [apply Hf|done]).
  cbn [fmap option_fmap option_map prod_map or_incomplete ok_or mbind result_bind fst snd].
  rewrite app_nil_r. unfold id. rewrite !path_name_valid by apply Hf. cbn [mbind result_bind].
  by rewrite (proj2 (N.leb_gt _ _)) by lia.
Qed.

Lemma rename_from_ok st path :
  ds_remaining st = (0, 0)%N → valid_path path = true →
  diff_line st ("rename from " +:+ path) = Ok (with_file st (set_old (ds_file st) path)).
Proof.
  intros Hr Hp. unfold diff_line.
  change (starts_with "diff --git " ("rename from " +:+ path)) with false.
  rewrite Hr, bool_decide_true by done. change (negb true) with false. cbv iota.
  transitivity (old ← path_name path EmptyString; Ok (with_file st (set_old (ds_file st) old)));
    [reflexivity|by rewrite path_name_valid].
Qed.

Lemma rename_to_ok st path :
  ds_remaining st = (0, 0)%N → valid_path path = true →
  diff_line st ("rename to " +:+ path) = Ok (with_file st (set_new (ds_file st) path)).
Proof.
  intros Hr Hp. unfold diff_line.
  change (starts_with "diff --git " ("rename to " +:+ path)) with false.
  rewrite Hr, bool_decide_true by done. change (negb true) with false. cbv iota.
  transitivity (new ← path_name path EmptyString; Ok (with_file st (set_new (ds_file st) new)));
    [reflexivity|by rewrite path_name_valid].
Qed.

(** The lines between the header and the hunks change nothing the header did not say, but for
    the mark of a deletion. *)
Lemma mode_lines_ok st f hunks :
  written f hunks → ds_remaining st = (0, 0)%N →
  fl_old (ds_file st) = old_name f → fl_new (ds_file st) = cf_filename f →
  fl_deleted (ds_file st) = false →
  foldM diff_line st ((if cf_status f ==? "removed" then ["deleted file mode 100644"] else [])
    ++ (if cf_status f ==? "renamed"
        then ["rename from " +:+ old_name f; "rename to " +:+ cf_filename f] else []))
  = Ok (with_file st (mk_File (old_name f) (cf_filename f) (cf_status f ==? "removed")
                        (fl_before (ds_file st)) (fl_after (ds_file st)))).
Proof.
  intros Hf Hr Ho Hn Hd. destruct st as [findings [old new deleted before after] remaining n].
  cbn in Hr, Ho, Hn, Hd. subst remaining old new deleted.
  destruct (cf_status f ==? "removed") eqn:E1, (cf_status f ==? "renamed") eqn:E2; bool_facts.
  - congruence.
  - reflexivity.
  - cbn [app foldM]. rewrite rename_from_ok by (done || apply Hf). cbn [mbind result_bind].
    by rewrite rename_to_ok by (done || apply Hf).
  - reflexivity.
Qed.

Lemma hunks_ok hunks st :
  (∀ h, h ∈ hunks → written_hunk h) → ds_remaining st = (0, 0)%N →
  foldM diff_line st (patch_lines hunks)
  = Ok (mk_DiffScan (ds_findings st)
          (push_lines (ds_file st) (concat ((λ h, old_side (hk_lines h)) <$> hunks))
             (concat ((λ h, new_side (hk_lines h)) <$> hunks))) (0, 0)%N (ds_count st)).
Proof.
  unfold patch_lines. revert st. induction hunks as [|h hunks IH]; intros st Hh Hr; cbn [fmap list_fmap concat].
  - destruct st as [findings file remaining n]. cbn in *. by rewrite Hr, push_lines_nil.
  - rewrite foldM_app. change (hunk_texts h) with (hunk_header h :: (line_text <$> hk_lines h)).
    cbn [foldM].
    rewrite hunk_header_ok by (done || apply Hh; by left). cbn [mbind result_bind].
    rewrite hunk_lines_ok by done. cbn [mbind result_bind ds_findings ds_file ds_count].
    rewrite IH; [|intros h' Hh'; apply Hh; by right|done].
    cbn [ds_findings ds_file ds_count]. by rewrite push_lines_app.
Qed.

Lemma file_lines_ok f hunks st :
  written f hunks → ds_remaining st = (0, 0)%N → (ds_count st + 1 < 300)%N →
  foldM diff_line st (file_lines f hunks)
  = Ok (mk_DiffScan (ds_findings st ∪ finish (ds_file st)) (file_of f hunks) (0, 0)%N (ds_count st + 1)).
Proof.
  intros Hf Hr Hc. unfold file_lines. cbn [foldM].
  rewrite (header_line_ok _ _ _ Hf Hr Hc). cbn [mbind result_bind].
  rewrite List.app_assoc, foldM_app, (mode_lines_ok _ f hunks) by done. cbn [mbind result_bind].
  destruct hunks as [|h hunks]; [reflexivity|].
  rewrite hunks_ok; [done|apply Hf|done].
Qed.

Definition diff_lines (files : list (ChangedFile * list Hunk)) : list string :=
  concat ((λ p, file_lines p.1 p.2) <$> files).

Definition findings_of (files : list (ChangedFile * list Hunk)) : gset Finding :=
  ⋃ ((λ p, finish (file_of p.1 p.2)) <$> files).

Lemma diff_lines_ok files st :
  (∀ p, p ∈ files → written p.1 p.2) → ds_remaining st = (0, 0)%N →
  (ds_count st + N.of_nat (length files) < 300)%N →
  ∃ st', foldM diff_line st (diff_lines files) = Ok st' ∧ ds_remaining st' = (0, 0)%N
    ∧ ds_findings st' ∪ finish (ds_file st')
      = ds_findings st ∪ finish (ds_file st) ∪ findings_of files.
Proof.
  unfold diff_lines, findings_of. revert st.
  induction files as [|[f hunks] files IH]; intros st Hf Hr Hc; cbn [fmap list_fmap concat length] in *.
  - exists st. split; [done|]. split; [done|]. cbn. set_solver.
  - rewrite foldM_app, (file_lines_ok f hunks) by (lia || done || apply (Hf (f, hunks)); by left).
    cbn [mbind result_bind]. edestruct IH as (st' & H1 & H2 & H3); [| |..|exists st'; split; [exact H1|]].
    + intros p Hp. apply Hf. by right.
    + done.
    + cbn. lia.
    + split; [done|]. rewrite H3. cbn. set_solver.
Qed.

Lemma hunk_line_ok_text h l :
  written_hunk h → l ∈ hunk_texts h → line_ok l = true.
Proof.
  intros Hh [->|Hl]%elem_of_cons.
  - unfold hunk_header. assert (Hd : ∀ n, all_bytes inline (dec n) = true).
    { intros n. eapply all_bytes_impl, dec_digits. intros c Hc. unfold inline.
      destruct (Ascii.eqb_spec c newline) as [->|]; [done|].
      by destruct (Ascii.eqb_spec c carriage_return) as [->|]. }
    repeat (apply line_ok_app; [done || apply Hd|]). apply (wh_section _ Hh).
  - apply list_elem_of_fmap in Hl as (x & -> & Hx). apply (wh_lines _ Hh) in Hx.
    destruct x; cbn [line_text]; by rewrite line_ok_cons.
Qed.

Lemma file_lines_line_ok f hunks l : written f hunks → l ∈ file_lines f hunks → line_ok l = true.
Proof.
  intros Hf. pose proof (valid_path_inline _ (wr_path _ _ Hf)) as Hn.
  pose proof (valid_path_inline _ (wr_old _ _ Hf)) as Ho. unfold file_lines, header_line.
  intros [->|Hl]%elem_of_cons.
  { apply line_ok_inline. by rewrite !all_bytes_app, Hn, Ho. }
  apply elem_of_app in Hl as [Hl|[Hl|Hl]%elem_of_app].
  - case_bool_decide; [|by apply not_elem_of_nil in Hl]. by apply list_elem_of_singleton in Hl as ->.
  - case_bool_decide; [|by apply not_elem_of_nil in Hl].
    apply elem_of_cons in Hl as [->|Hl%list_elem_of_singleton]; [|subst l]; apply line_ok_inline;
      by rewrite all_bytes_app, ?Hn, ?Ho.
  - destruct hunks as [|h hunks]; [by apply list_elem_of_singleton in Hl as ->|].
    unfold patch_lines in Hl. apply elem_of_concat in Hl as (ls & Hl & Hls).
    apply list_elem_of_fmap in Hls as (h' & -> & Hh). apply (hunk_line_ok_text h'); [by apply Hf|done].
Qed.

(** A text with a printable byte is not all whitespace. *)
Lemma strip_ws_end c r :
  solid c = true →
  strip_ws (λ a b, ws2 b a) (λ a b d, ws3 d b a) (r +:+ String c EmptyString) ≠ EmptyString.
Proof.
  intros Hc. assert (H2 : ∀ a, ws2 c a = false).
  { intros a. unfold ws2. by rewrite (solid_not_high _ _ c). }
  assert (H3 : ∀ a b, ws3 c a b = false).
  { intros a b. unfold ws3. by rewrite !(solid_not_high _ _ c). }
  induction r as [r IH] using (induction_ltof1 _ String.length). unfold ltof in IH.
  destruct r as [|a r]; [rewrite app_empty; cbn [strip_ws]; by rewrite (solid_ws1 _ Hc)|]. rewrite app_cons. cbn [strip_ws].
  destruct (ws1 a); [apply IH; cbn; lia|].
  destruct r as [|b r]; [rewrite app_empty; by rewrite H2|]. rewrite app_cons.
  destruct (ws2 b a); [apply IH; cbn; lia|].
  destruct r as [|d r]; [rewrite app_empty; by rewrite H3|]. rewrite app_cons.
  destruct (ws3 d b a); [apply IH; cbn; lia|done].
Qed.

Lemma trim_keeps_solid c s : solid c = true → is_empty (trim (String c s)) = false.
Proof.
  intros Hc. apply is_empty_false. unfold trim. rewrite trim_start_solid by done. unfold trim_end.
  intros H. apply (f_equal String.rev) in H. rewrite rev_rev, rev_cons in H.
  by apply strip_ws_end in H.
Qed.

Lemma residual_texts files texts :
  (∀ p, p ∈ files → written p.1 p.2) → mapR residual_patch (files.*1) = Ok texts →
  join EmptyString texts = unlines (diff_lines files).
Proof.
  revert texts. induction files as [|[f hunks] files IH]; intros texts Hf H; cbn [fmap list_fmap mapR] in H.
  - by injection H as <-.
  - apply bind_ok in H as (t & Ht & H). apply bind_ok in H as (ts & Hts & [= <-]).
    unfold diff_lines. cbn [fmap list_fmap concat]. rewrite join_empty_cons, unlines_app.
    rewrite (residual_text f hunks t); [|apply (Hf (f, hunks)); by left|done].
    f_equal. apply IH; [|done]. intros p Hp. apply Hf. by right.
Qed.

(** C29: A diff is read as it was written: for fewer than 300 files with valid paths, whose patches
    are hunks of any lines at all, the findings of the whole diff are those of the files with
    the lines their hunks keep, drop and insert.  No content of a line is taken for a header,
    nor the other way around. *)
Theorem diffs_are_read_as_written files texts :
  (∀ p, p ∈ files → written p.1 p.2) → mapR residual_patch (files.*1) = Ok texts →
  files ≠ [] → length files < 300 → (len (join EmptyString texts) ≤ DIFF_BYTES)%N →
  detect (join EmptyString texts) = Ok (sort_findings (elements (findings_of files))).
Proof.
  intros Hf Ht Hne Hlen Hbytes. rewrite (residual_texts _ _ Hf Ht) in *. unfold detect.
  assert (Hstart : ∃ s, unlines (diff_lines files) = "diff --git a/" +:+ s).
  { destruct files as [|[f hunks] files]; [done|]. unfold diff_lines, file_lines, header_line.
    cbn [fmap list_fmap concat app fst snd]. rewrite unlines_cons, !app_assoc. by eexists. }
  destruct Hstart as (s & Hs).
  assert (Htrim : is_empty (trim (unlines (diff_lines files))) = false).
  { rewrite Hs. by apply (trim_keeps_solid "d"). }
  assert (Hgit : starts_with "diff --git " (unlines (diff_lines files)) = true) by by rewrite Hs.
  rewrite Htrim, Hgit, (proj2 (N.ltb_ge _ _)) by done. cbn [negb].
  rewrite lines_unlines.
  2:{ intros l Hl. unfold diff_lines in Hl. apply elem_of_concat in Hl as (ls & Hl & Hls).
      apply list_elem_of_fmap in Hls as ([f hunks] & -> & Hp).
      by apply (file_lines_line_ok f hunks); [apply (Hf (f, hunks))|]. }
  destruct (diff_lines_ok files scan_start Hf) as (st & H1 & H2 & H3); [done|cbn; lia|].
  unfold scan_start in H1. rewrite H1. cbn [mbind result_bind]. rewrite H2, bool_decide_true by done.
  cbn [negb]. rewrite H3. do 3 f_equal. unfold scan_start. cbn [ds_findings ds_file].
  assert (Hfinish : finish File_default = ∅) by reflexivity. rewrite Hfinish. set_solver.
Qed.
End files.

(** ** The theorems at a concrete diff

    A dropped line reads [- /dev/null], which looks like a header once its mark is before it. *)
Module DiffWitness.
#[export] Instance json : JsonText := world_json [].
#[export] Instance wide : WideAlphanumeric := λ _, true.

Definition hunks : list Hunk :=
  [mk_Hunk 3 3 " fn t()" [Kept "fn t() {"; Dropped "  assert_eq!(f(), 1);"; Dropped "-- /dev/null";
                          Inserted "++ b/other.rs"; Kept "}"; NoNewline " No newline"]].
Definition file : ChangedFile :=
  mk_ChangedFile "tests/a.rs" "modified" (demo_sha "a") 1 2 None (Some (join nl (patch_lines hunks))).
Definition text : string := from_option id EmptyString (ok (residual_patch file)).

Lemma text_ok : mapR residual_patch [file] = Ok [text].
Proof. vm_compute. reflexivity. Qed.
Lemma file_written : written file hunks.
Proof.
  split; [reflexivity|vm_compute; reflexivity|vm_compute; reflexivity|].
  intros h ->%list_elem_of_singleton. split; try (vm_compute; done).
  intros l Hl. repeat (apply elem_of_cons in Hl as [->|Hl]; [vm_compute; reflexivity|]).
  by apply not_elem_of_nil in Hl.
Qed.
End DiffWitness.

Section diff_witness.
Import DiffWitness.

Lemma diffs_are_read_as_written_witness :
  detect text = Ok [mk_Finding "tests/a.rs" "assertion-change"].
Proof.
  assert (H : detect (join EmptyString [text])
              = Ok (sort_findings (elements (findings_of [(file, hunks)])))).
  { apply (diffs_are_read_as_written [(file, hunks)] [text]).
    - intros p ->%list_elem_of_singleton. exact file_written.
    - exact text_ok.
    - discriminate.
    - cbn. lia.
    - vm_compute. discriminate. }
  etransitivity; [exact H|]. vm_compute. reflexivity.
Defined.

Lemma assertion_depth_fits_i32_witness :
  fits_i32 (sg_depth (fold_left (signal_line true) ["  assert_eq!(f("] Signals_new)).
Proof.
  set (patch := "diff --git a/t.rs b/t.rs" +:+ nl +:+ "@@ -1,2 +1,2 @@" +:+ nl
                +:+ "   assert_eq!(f(" +:+ nl +:+ "-), 1);").
  set (st := mk_DiffScan ∅ (mk_File "t.rs" "t.rs" false ["  assert_eq!(f("; "), 1);"] ["  assert_eq!(f("])
               (0, 1)%N 1).
  refine (proj1 (assertion_depth_fits_i32 patch (lines patch) [] st (fl_before (ds_file st))
                   ["  assert_eq!(f("] "), 1);" [] true _ _ _ _ _)).
  - vm_compute. discriminate.
  - by rewrite List.app_nil_r.
  - vm_compute. reflexivity.
  - by left.
  - reflexivity.
Defined.
End diff_witness.
