(* ===== verification/TrackerFacts.v ===== *)
(** * Theorems on the phase table of a tracker

    The findings of a table are exactly its defects: a table without findings has unique ids,
    known dependencies and no cycle. *)
From S2P Require Import Prelude RStr Collections Error Report Tracker.
From stdpp Require Import relations sorting options.

(** ** The search *)
Section search.
Context (dependents : list (list nat)).

(** There is an edge from an id to each id that depends on it. *)
Definition edge (a b : nat) : Prop := b ∈ dependents_of dependents a.

Lemma reach_from_ok fuel stack seen res :
  (∀ x y, x ∈ seen → edge x y → y ∈ seen ∨ y ∈ stack) →
  reach_from fuel dependents stack seen = Ok res →
  seen ⊆ res ∧ (∀ x, x ∈ stack → x ∈ res) ∧ (∀ x y, x ∈ res → edge x y → y ∈ res)
  ∧ ∀ x, x ∈ res → x ∈ seen ∨ ∃ s, s ∈ stack ∧ rtc edge s x.
Proof.
  revert stack seen. induction fuel as [|fuel IH]; intros stack seen Hinv H; [done|].
  cbn [reach_from] in H. destruct stack as [|node stack].
  - injection H as <-. split; [done|]. split; [by intros ? ?%not_elem_of_nil|]. split; [|by left].
    intros x y Hx He. destruct (Hinv x y Hx He) as [|?%not_elem_of_nil]; done.
  - case_bool_decide as Hseen.
    + apply IH in H as (H1 & H2 & H3 & H4).
      * split; [done|]. split; [|split; [done|]].
        { intros x [->|Hx]%elem_of_cons; [by apply H1|by apply H2]. }
        intros x Hx. destruct (H4 x Hx) as [|(s & Hs & Hr)]; [by left|right].
        exists s. split; [by right|done].
      * intros x y Hx He. destruct (Hinv x y Hx He) as [|[->|]%elem_of_cons]; auto.
    + apply IH in H as (H1 & H2 & H3 & H4).
      * split; [set_solver|]. split; [|split; [done|]].
        { intros x [->|Hx]%elem_of_cons; [apply H1; set_solver|apply H2]. apply elem_of_app. by right. }
        intros x Hx. destruct (H4 x Hx) as [[Hx'|Hx']%elem_of_union|(s & Hs & Hr)].
        -- by left.
        -- apply elem_of_singleton in Hx' as ->. right. exists node. split; [by left|done].
        -- right. apply elem_of_app in Hs as [Hs|Hs]; [rewrite elem_of_reverse in Hs|].
           ++ exists node. split; [by left|]. apply (rtc_l _ _ s); [exact Hs|done].
           ++ exists s. split; [by right|done].
      * intros x y [Hx|Hx]%elem_of_union He.
        -- destruct (Hinv x y Hx He) as [|[->|]%elem_of_cons]; [set_solver|set_solver|].
           right. apply elem_of_app. by right.
        -- apply elem_of_singleton in Hx as ->. right. apply elem_of_app. left. by apply elem_of_reverse.
Qed.

(** The edges of the nodes not seen yet. *)
Definition weight (seen : gset nat) : nat :=
  sum_list ((λ n, if bool_decide (n ∈ seen) then 0 else length (dependents_of dependents n))
              <$> seq 0 (length dependents)).

Lemma sum_skip (f : nat → nat) (seen : gset nat) n l :
  NoDup l → n ∈ l → n ∉ seen →
  sum_list ((λ m, if bool_decide (m ∈ seen) then 0 else f m) <$> l)
  = sum_list ((λ m, if bool_decide (m ∈ seen ∪ {[ n ]}) then 0 else f m) <$> l) + f n.
Proof.
  intros Hnd Hin Hn. induction l as [|m l IH]; [by apply not_elem_of_nil in Hin|].
  apply NoDup_cons in Hnd as [Hm Hnd]. cbn. apply elem_of_cons in Hin as [<-|Hin].
  - rewrite bool_decide_false, bool_decide_true by set_solver.
    assert (Heq : ((λ m, if bool_decide (m ∈ seen) then 0 else f m) <$> l)
      = ((λ m, if bool_decide (m ∈ seen ∪ {[ n ]}) then 0 else f m) <$> l)); [|rewrite Heq; lia].
    apply list_fmap_ext. intros i x Hx%list_elem_of_lookup_2.
    assert (x ≠ n) by congruence. repeat case_bool_decide; set_solver.
  - rewrite IH by done. assert (m ≠ n) by congruence.
    repeat case_bool_decide; try lia; set_solver.
Qed.

Lemma dependents_of_out n : length dependents ≤ n → dependents_of dependents n = [].
Proof. intros H. unfold dependents_of. by rewrite lookup_ge_None_2. Qed.

Lemma weight_seen n seen :
  n ∉ seen → weight seen = weight (seen ∪ {[ n ]}) + length (dependents_of dependents n).
Proof.
  intros Hn. destruct (decide (n < length dependents)) as [Hlt|Hge].
  - apply (sum_skip (λ m, length (dependents_of dependents m))); [apply NoDup_seq| |done].
    apply elem_of_seq. lia.
  - rewrite (dependents_of_out n) by lia. cbn. rewrite Nat.add_0_r. unfold weight. f_equal.
    apply list_fmap_ext. intros i x Hx%list_elem_of_lookup_2. apply elem_of_seq in Hx.
    assert (x ≠ n) by lia. repeat case_bool_decide; set_solver.
Qed.

Lemma reach_from_total fuel stack seen :
  length stack + weight seen < fuel → ∃ res, reach_from fuel dependents stack seen = Ok res.
Proof.
  revert stack seen. induction fuel as [|fuel IH]; intros stack seen H; [lia|].
  cbn [reach_from]. destruct stack as [|node stack]; [by eexists|]. cbn in H.
  case_bool_decide as Hseen; apply IH; [lia|]. rewrite length_app, length_reverse.
  rewrite (weight_seen node) in H by done. lia.
Qed.

Lemma weight_empty : weight ∅ = length (concat dependents).
Proof.
  unfold weight. rewrite length_concat. f_equal. apply list_eq. intros i.
  rewrite !list_lookup_fmap. destruct (decide (i < length dependents)) as [Hlt|Hge].
  - rewrite lookup_seq_lt by done. cbn. rewrite bool_decide_false by set_solver.
    unfold dependents_of. by destruct (lookup_lt_is_Some_2 _ _ Hlt) as [l ->].
  - rewrite lookup_seq_ge by lia. by rewrite lookup_ge_None_2 by lia.
Qed.

Lemma dependents_of_length n : length (dependents_of dependents n) ≤ length (concat dependents).
Proof.
  rewrite <- weight_empty, (weight_seen n ∅) by set_solver. lia.
Qed.

(** What a node reaches. *)
Lemma reach_one start :
  ∃ res, reach_from (reach_fuel dependents) dependents (reverse (dependents_of dependents start)) ∅ = Ok res
    ∧ ∀ x, x ∈ res ↔ tc edge start x.
Proof.
  destruct (reach_from_total (reach_fuel dependents) (reverse (dependents_of dependents start)) ∅)
    as [res H].
  { rewrite weight_empty, length_reverse. unfold reach_fuel.
    pose proof (dependents_of_length start). lia. }
  exists res. split; [done|]. apply reach_from_ok in H as (_ & H2 & H3 & H4); [|set_solver].
  intros x. split.
  - intros Hx. destruct (H4 x Hx) as [?|(s & Hs & Hr)]; [set_solver|]. rewrite elem_of_reverse in Hs.
    by apply tc_rtc_r with s; [apply tc_once|].
  - intros Ht. revert x Ht. apply tc_ind_r.
    + intros z Hz. apply H2. by apply elem_of_reverse.
    + intros y z _ Hyz Hy. by apply (H3 y).
Qed.

Lemma mapR_total {E A B} (f : A → result E B) (P : A → B → Prop) l :
  (∀ x, ∃ y, f x = Ok y ∧ P x y) → ∃ ys, mapR f l = Ok ys ∧ Forall2 P l ys.
Proof.
  intros H. induction l as [|x l [ys [IH1 IH2]]]; [by exists []|].
  destruct (H x) as (y & Hy & HP). exists (y :: ys). cbn. rewrite Hy. cbn. rewrite IH1.
  split; [done|by constructor].
Qed.

Lemma reach_all_ok :
  ∃ reach, reach_all dependents = Ok reach
    ∧ ∀ a b, a < length dependents → reaches reach a b = true ↔ tc edge a b.
Proof.
  destruct (mapR_total (λ start, reach_from (reach_fuel dependents) dependents
      (reverse (dependents_of dependents start)) ∅) (λ a (res : gset nat), ∀ x, x ∈ res ↔ tc edge a x)
      (seq 0 (length dependents)) reach_one) as (reach & H & Hall).
  exists reach. split; [done|]. intros a b Ha.
  destruct (Forall2_lookup_l _ _ _ a a Hall) as (res & Hres & Hr); [by apply lookup_seq_lt|].
  unfold reaches. rewrite Hres. cbn. by rewrite bool_decide_eq_true.
Qed.

(** Who reaches itself and others both ways. *)
Lemma elem_of_group reach first other :
  (∀ a b, a < length dependents → reaches reach a b = true ↔ tc edge a b) →
  first < length dependents →
  other ∈ group reach (length dependents) first ↔
  other < length dependents ∧ (other = first ∨ tc edge first other ∧ tc edge other first).
Proof.
  intros Hreach Hf. unfold group. rewrite elem_of_list_filter, elem_of_seq, orb_true_iff, Nat.eqb_eq, andb_true_iff.
  split; (intros [Ho H]; split; [lia|]); destruct H as [->|[H1 H2]]; auto; right;
    rewrite !Hreach in * by lia; auto.
Qed.
End search.

(** ** Ids and dependencies *)

(** [a] needs [b]: a row of the one lists the other in its clause. *)
Definition needs (rows : list Row) (a b : string) : Prop :=
  ∃ row, row ∈ rows ∧ row_id row = a ∧ b ∈ row_after row.

Definition ids_of (start : list Finding) (rows : list Row) : Ids :=
  fold_left note_id rows (mk_Ids start ∅ []).

Record ids_ok (start : list Finding) (rows : list Row) (acc : Ids) : Prop := {
  io_index : ∀ id i, id_index acc !! id = Some i ↔ (id_list acc).*1 !! i = Some id;
  io_dom : ∀ id, is_Some (id_index acc !! id) ↔ id ∈ row_id <$> rows;
  io_findings : ∃ extra, id_findings acc = start ++ extra ∧ (extra = [] ↔ NoDup (row_id <$> rows))
    ∧ ∀ f, f ∈ extra → tf_code f = DuplicateId;
}.

Lemma ids_of_ok start rows : ids_ok start rows (ids_of start rows).
Proof.
  induction rows as [|row rows IH] using rev_ind.
  { split; cbn.
    - intros id i. by rewrite lookup_empty, lookup_nil.
    - intros id. rewrite lookup_empty. split; [by intros []|by intros ?%not_elem_of_nil].
    - exists []. rewrite List.app_nil_r. split; [done|]. split; [by split; [intros _; constructor|]|].
      by intros f ?%not_elem_of_nil. }
  unfold ids_of. rewrite fold_left_app. cbn [fold_left]. fold (ids_of start rows).
  destruct IH as [Hindex Hdom (extra & Hf & Hnd & Hcodes)]. unfold note_id.
  destruct (contains_key _ _) eqn:E.
  - apply contains_key_true, Hdom in E. split; [exact Hindex| |].
    + intros id. rewrite Hdom, fmap_app. cbn. set_solver.
    + cbn [id_findings]. exists (extra ++ [mk_Finding DuplicateId (Some (row_line row)) [row_id row]]).
      rewrite Hf, List.app_assoc. split; [done|]. split; [split|].
      * by intros [_ [=]]%app_eq_nil.
      * rewrite fmap_app, NoDup_app. intros (_ & Hd & _). cbn in Hd. destruct (Hd (row_id row)); set_solver.
      * intros f [?|Hx%list_elem_of_singleton]%elem_of_app; [auto|by subst f].
  - apply contains_key_false in E. split; cbn [id_index id_list id_findings].
    + intros id i. rewrite fmap_app, lookup_insert_Some, Hindex. cbn. split.
      * intros [[<- <-]|[Hne Hi]].
        -- rewrite <- (length_fmap fst). by rewrite lookup_app_r, Nat.sub_diag by lia.
        -- by apply lookup_app_l_Some.
      * intros [Hi|[Hge Hi]]%lookup_app_Some.
        -- right. split; [|done]. intros <-. apply Hindex in Hi. congruence.
        -- left. rewrite length_fmap in *. destruct (i - length (id_list (ids_of start rows))) as [|j] eqn:Ej.
           ++ cbn in Hi. injection Hi as ->. split; [done|lia].
           ++ done.
    + intros id. rewrite fmap_app. cbn. rewrite elem_of_app, list_elem_of_singleton, <- Hdom.
      destruct (decide (id = row_id row)) as [->|Hne].
      * rewrite lookup_insert_eq. naive_solver.
      * rewrite lookup_insert_ne by done. naive_solver.
    + exists extra. split; [done|]. split; [|done]. rewrite Hnd, fmap_app, NoDup_app. cbn.
      assert (Hfresh : row_id row ∉ row_id <$> rows) by (rewrite <- Hdom, E; by intros []).
      split; [intros ?; split_and!; [done|set_solver|apply NoDup_singleton]|by intros [? _]].
Qed.

(** The pairs of a row and a dependency, in the order they are visited. *)
Definition dependencies (rows : list Row) : list (Row * string) :=
  concat ((λ row, pair row <$> row_after row) <$> rows).

Lemma elem_of_dependencies rows row d : (row, d) ∈ dependencies rows ↔ row ∈ rows ∧ d ∈ row_after row.
Proof.
  unfold dependencies. rewrite list_elem_of_In, in_concat. setoid_rewrite <- list_elem_of_In.
  setoid_rewrite list_elem_of_fmap. split.
  - intros (l & (r & -> & Hr) & (x & [= <- <-] & Hx)%list_elem_of_fmap). done.
  - intros [Hr Hd]. exists (pair row <$> row_after row). split; [by exists row|]. apply list_elem_of_fmap.
    by exists d.
Qed.

Lemma note_dependencies_pairs index rows acc :
  fold_left (note_dependencies index) rows acc
  = fold_left (λ acc p, note_dependency index p.1 acc p.2) (dependencies rows) acc.
Proof.
  revert acc. induction rows as [|row rows IH]; intros acc; [done|].
  cbn [fold_left]. rewrite IH. unfold dependencies at 2. cbn [fmap list_fmap concat].
  rewrite fold_left_app. f_equal. unfold note_dependencies. generalize (row_after row) as ds. clear.
  intros ds. revert acc. induction ds as [|d ds IH]; intros acc; cbn; auto.
Qed.

Record deps_ok (index : gmap string nat) (n : nat) (start : list Finding) (pairs : list (Row * string))
    (acc : list Finding * list (list nat)) : Prop := {
  do_length : length acc.2 = n;
  do_findings : ∃ extra, acc.1 = start ++ extra ∧ (∀ f, f ∈ extra → tf_code f ≠ Cycle)
    ∧ (extra = [] ↔ ∀ row d, (row, d) ∈ pairs → d ≠ row_id row ∧ is_Some (index !! d));
  do_edges : ∀ a b, edge acc.2 a b ↔ a < n ∧ ∃ row d, (row, d) ∈ pairs ∧ d ≠ row_id row
    ∧ index !! d = Some a ∧ b = default 0 (index !! row_id row);
}.

Lemma edge_alter (D : list (list nat)) p x a b :
  edge (alter (λ l, l ++ [x]) p D) a b ↔ edge D a b ∨ a = p ∧ p < length D ∧ b = x.
Proof.
  unfold edge, dependents_of. destruct (decide (a = p)) as [->|Hne].
  - rewrite list_lookup_alter_eq. destruct (D !! p) as [l|] eqn:E; cbn.
    + apply lookup_lt_Some in E. rewrite elem_of_app, list_elem_of_singleton. naive_solver.
    + apply lookup_ge_None_1 in E. split; [by left|]. intros [?|(_ & ? & _)]; [done|lia].
  - rewrite list_lookup_alter_ne by done. naive_solver.
Qed.

Lemma note_dependency_codes index row acc d :
  ∃ extra, (note_dependency index row acc d).1 = acc.1 ++ extra
    ∧ (∀ f, f ∈ extra → tf_code f ≠ Cycle)
    ∧ (extra = [] ↔ d ≠ row_id row ∧ is_Some (index !! d)).
Proof.
  unfold note_dependency. case_bool_decide as E; [|destruct (index !! d) eqn:Ei]; cbn.
  - eexists. split; [done|]. split; [by intros f ->%list_elem_of_singleton|naive_solver].
  - exists []. rewrite List.app_nil_r. split; [done|]. split; [by intros f ?%not_elem_of_nil|].
    split; [intros _; split; [done|by eexists]|done].
  - eexists. split; [done|]. split; [by intros f ->%list_elem_of_singleton|].
    split; [done|]. intros [_ [i Hi]]. congruence.
Qed.

Lemma deps_of_ok index n start pairs :
  (∀ d i, index !! d = Some i → i < n) →
  deps_ok index n start pairs
    (fold_left (λ acc p, note_dependency index p.1 acc p.2) pairs (start, replicate n [])).
Proof.
  intros Hn. induction pairs as [|[row d] pairs IH] using rev_ind.
  { split; cbn [fold_left fst snd].
    - apply length_replicate.
    - exists []. rewrite List.app_nil_r. split; [done|]. split; [by intros f ?%not_elem_of_nil|].
      split; [by intros _ ? ? ?%not_elem_of_nil|done].
    - intros a b. split.
      + unfold edge, dependents_of. destruct (replicate n [] !! a) as [l|] eqn:E; cbn.
        * apply lookup_replicate in E as [-> _]. by intros ?%not_elem_of_nil.
        * by intros ?%not_elem_of_nil.
      + by intros (_ & row & d & ?%not_elem_of_nil & _). }
  rewrite fold_left_app. cbn [fold_left fst snd]. revert IH.
  generalize (fold_left (λ acc p, note_dependency index p.1 acc p.2) pairs (start, replicate n [])) as acc.
  intros acc [Hlen (extra & Hf & Hcodes & Hnil) Hedges].
  assert (Hin : ∀ r x, (r, x) ∈ pairs ++ [(row, d)] ↔ (r, x) ∈ pairs ∨ r = row ∧ x = d).
  { intros r x. rewrite elem_of_app, list_elem_of_singleton. naive_solver. }
  split.
  - unfold note_dependency. case_bool_decide; [done|]. destruct (index !! d); [|done].
    cbn. by rewrite length_alter.
  - destruct (note_dependency_codes index row acc d) as (more & Hm & Hmc & Hmn).
    exists (extra ++ more). rewrite Hm, Hf, List.app_assoc. split; [done|]. split.
    { intros f [?|?]%elem_of_app; auto. }
    setoid_rewrite Hin. split.
    + intros [He Hmo]%app_eq_nil r x [Hx|[-> ->]]; [by apply Hnil|by apply Hmn].
    + intros H. assert (extra = []) as -> by (apply Hnil; auto).
      assert (more = []) as -> by (apply Hmn; auto). done.
  - intros a b. setoid_rewrite Hin. unfold note_dependency. case_bool_decide as E.
    + cbn. rewrite Hedges. split; [intros (? & r & x & ? & ?); eauto 10|].
      intros (? & r & x & [?|[-> ->]] & ? & ?); [eauto 10|done].
    + destruct (index !! d) as [p|] eqn:Ei; cbn.
      * rewrite edge_alter, Hedges, Hlen. split.
        -- intros [(? & r & x & ? & ?)|(-> & ? & ->)]; [eauto 10|].
           split; [done|]. exists row, d. auto.
        -- intros (? & r & x & [?|[-> ->]] & ? & Hx & ->); [left; eauto 10|right].
           rewrite Ei in Hx. injection Hx as ->. done.
      * rewrite Hedges. split; [intros (? & r & x & ? & ?); eauto 10|].
        intros (? & r & x & [?|[-> ->]] & ? & Hx & ->); [eauto 10|congruence].
Qed.

(** ** Cycles *)

(** The finding of a node's group. *)
Definition cycle_of (ids : list (string * nat)) (reach : list (gset nat)) (first : nat) : Finding :=
  mk_Finding Cycle (snd <$> ids !! first)
    ((λ member, default EmptyString (fst <$> ids !! member)) <$> group reach (length ids) first).

Lemma elem_of_group_self reach n first : first < n → first ∈ group reach n first.
Proof.
  intros H. unfold group. rewrite elem_of_list_filter, elem_of_seq, Nat.eqb_refl. split; [lia|done].
Qed.

Lemma group_NoDup reach n first : NoDup (group reach n first).
Proof. unfold group. apply NoDup_ListNoDup, List.NoDup_filter, NoDup_ListNoDup, NoDup_seq. Qed.

Lemma NoDup_two {A} `{!EqDecision A} (l : list A) x :
  NoDup l → x ∈ l → 1 < length l ↔ ∃ y, y ∈ l ∧ y ≠ x.
Proof.
  intros Hnd Hx. destruct l as [|a [|b l]]; [by apply not_elem_of_nil in Hx| |].
  - apply list_elem_of_singleton in Hx as ->. cbn. split; [lia|].
    by intros (y & ->%list_elem_of_singleton & ?).
  - cbn. split; [intros _|lia]. apply NoDup_cons in Hnd as [Ha _].
    destruct (decide (x = a)) as [->|Hne].
    + exists b. split; [right; left|]. intros ->. apply Ha. by left.
    + exists a. split; [by left|done].
Qed.

(** The fold over the nodes: every group of several nodes gets one finding. *)
Lemma note_cycles_ok ids reach l fs g :
  let r := fold_left (note_cycle ids reach) l (fs, g) in
  ∃ extra, r.1 = fs ++ extra
    ∧ (∀ f, f ∈ extra → ∃ first, first ∈ l ∧ 1 < length (group reach (length ids) first)
         ∧ f = cycle_of ids reach first)
    ∧ g ⊆ r.2
    ∧ (∀ x, x ∈ r.2 → x ∈ g ∨ ∃ first, first ∈ l ∧ cycle_of ids reach first ∈ extra
         ∧ x ∈ group reach (length ids) first)
    ∧ (∀ first, first ∈ l → first < length ids → 1 < length (group reach (length ids) first) → first ∈ r.2).
Proof.
  revert fs g. induction l as [|x l IH]; intros fs g; cbn [fold_left].
  { exists []. cbn. rewrite List.app_nil_r. split; [done|]. split; [by intros ? ?%not_elem_of_nil|].
    split; [done|]. split; [by intros ? ?; left|by intros ? ?%not_elem_of_nil]. }
  remember (note_cycle ids reach (fs, g) x) as acc eqn:Hacc. unfold note_cycle in Hacc.
  cbn [fst snd] in Hacc. revert Hacc.
  case_bool_decide as Hg; [|destruct (1 <? _) eqn:Hlen]; intros ->; cbn [fst snd].
  - destruct (IH fs g) as (extra & He & Hall & Hsub & Hin & Hbig). exists extra. split; [done|].
    split; [intros f Hf; destruct (Hall f Hf) as (y & ? & ?); exists y; split; [by right|done]|].
    split; [done|]. split.
    + intros y Hy. destruct (Hin y Hy) as [|(z & ? & ?)]; [by left|]. right. exists z. split; [by right|done].
    + intros y [->|Hy]%elem_of_cons; [by intros; apply Hsub|by apply Hbig].
  - apply Nat.ltb_lt in Hlen. change (mk_Finding Cycle _ _) with (cycle_of ids reach x).
    destruct (IH (fs ++ [cycle_of ids reach x]) (g ∪ list_to_set (group reach (length ids) x)))
      as (extra & He & Hall & Hsub & Hin & Hbig).
    exists (cycle_of ids reach x :: extra). split; [by rewrite He, <- List.app_assoc|]. split.
    { intros f [->|Hf]%elem_of_cons; [exists x; split; [by left|done]|].
      destruct (Hall f Hf) as (y & ? & ?). exists y. split; [by right|done]. }
    split; [set_solver|]. split.
    + intros y Hy. destruct (Hin y Hy) as [[?|Hy']%elem_of_union|(z & ? & ? & ?)].
      * by left.
      * right. exists x. split; [by left|]. split; [by left|]. by apply elem_of_list_to_set in Hy'.
      * right. exists z. split; [by right|]. split; [by right|done].
    + intros y [->|Hy]%elem_of_cons; [|by apply Hbig]. intros Hlt _. apply Hsub, elem_of_union. right.
      by apply elem_of_list_to_set, elem_of_group_self.
  - apply Nat.ltb_ge in Hlen. destruct (IH fs g) as (extra & He & Hall & Hsub & Hin & Hbig).
    exists extra. split; [done|].
    split; [intros f Hf; destruct (Hall f Hf) as (y & ? & ?); exists y; split; [by right|done]|].
    split; [done|]. split.
    + intros y Hy. destruct (Hin y Hy) as [|(z & ? & ?)]; [by left|]. right. exists z. split; [by right|done].
    + intros y [->|Hy]%elem_of_cons; [intros; lia|by apply Hbig].
Qed.

(** ** The table *)
Record sound_table (t : Table) : Prop := {
  st_bound : length (tb_rows t) + length (tb_malformed t) ≤ MAX_ROWS;
  st_well_formed : tb_malformed t = [];
  st_ids : NoDup (row_id <$> tb_rows t);
  st_known : ∀ a b, needs (tb_rows t) a b → b ∈ row_id <$> tb_rows t;
  st_acyclic : ∀ a, ¬ tc (needs (tb_rows t)) a a;
}.

Section table.
Context (rows : list Row) (start : list Finding) (ids : Ids) (D : list (list nat))
  (fs1 fs2 : list Finding) (reach : list (gset nat)).
Context (Hids : ids_ok start rows ids)
  (Hdeps : deps_ok (id_index ids) (length (id_list ids)) fs1 (dependencies rows) (fs2, D))
  (Hreach : ∀ a b, a < length D → reaches reach a b = true ↔ tc (edge D) a b).

Lemma index_lt id i : id_index ids !! id = Some i → i < length (id_list ids).
Proof using Hids. intros H%(io_index _ _ _ Hids)%lookup_lt_Some. by rewrite length_fmap in H. Qed.

Lemma index_inj a b i : id_index ids !! a = Some i → id_index ids !! b = Some i → a = b.
Proof using Hids. rewrite !(io_index _ _ _ Hids). congruence. Qed.

Lemma needs_row a b : needs rows a b → ∃ i, id_index ids !! a = Some i.
Proof using Hids.
  intros (row & Hr & <- & _). apply (io_dom _ _ _ Hids). apply list_elem_of_fmap. by exists row.
Qed.

Lemma edge_needs i j :
  edge D i j ↔ ∃ a b, id_index ids !! a = Some i ∧ id_index ids !! b = Some j ∧ a ≠ b ∧ needs rows b a.
Proof using Hids Hdeps.
  rewrite (do_edges _ _ _ _ _ Hdeps). setoid_rewrite elem_of_dependencies. split.
  - intros (_ & row & d & [Hr Hd] & Hne & Hi & ->).
    assert (Hn : needs rows (row_id row) d) by by exists row.
    destruct (needs_row _ _ Hn) as [j Hj]. exists d, (row_id row). by rewrite Hj.
  - intros (a & b & Hi & Hj & Hne & (row & Hr & <- & Ha)). split; [by eapply index_lt|].
    exists row, a. by rewrite Hj.
Qed.

Lemma tc_edge_needs i j :
  tc (edge D) i j →
  ∃ a b, id_index ids !! a = Some i ∧ id_index ids !! b = Some j ∧ tc (needs rows) b a.
Proof using Hids Hdeps.
  induction 1 as [i j H|i k j H _ (c & b & Hc & Hb & Ht)].
  - apply edge_needs in H as (a & b & ? & ? & _ & ?). exists a, b. split; [done|]. split; [done|].
    by apply tc_once.
  - apply edge_needs in H as (a & c' & Ha & Hc' & _ & Hn).
    assert (c' = c) as -> by by eapply index_inj. exists a, b. split; [done|]. split; [done|].
    by apply (tc_r b c a).
Qed.

Lemma tc_needs_row a b : tc (needs rows) a b → ∃ i, id_index ids !! a = Some i.
Proof using Hids. by destruct 1; eapply needs_row. Qed.

Lemma tc_needs_edge a b i j :
  tc (needs rows) b a → id_index ids !! a = Some i → id_index ids !! b = Some j → rtc (edge D) i j.
Proof using Hids Hdeps.
  intros H. revert j. induction H as [b a H|b c a H Ht IH]; intros j Hi Hj.
  - destruct (decide (a = b)) as [->|Hne]; [by replace j with i by congruence|].
    apply rtc_once, edge_needs. by exists a, b.
  - destruct (tc_needs_row _ _ Ht) as [k Hk]. specialize (IH k Hi Hk).
    destruct (decide (c = b)) as [->|Hne]; [by replace j with k by congruence|].
    apply (rtc_r i k j); [done|]. apply edge_needs. by exists c, b.
Qed.

Lemma member_id i : i < length (id_list ids) →
  id_index ids !! default EmptyString (fst <$> id_list ids !! i) = Some i.
Proof using Hids.
  intros Hi. apply (io_index _ _ _ Hids). rewrite list_lookup_fmap.
  by destruct (lookup_lt_is_Some_2 _ _ Hi) as [p ->].
Qed.

Lemma group_mutual first x y :
  first < length (id_list ids) → 1 < length (group reach (length (id_list ids)) first) →
  x ∈ group reach (length (id_list ids)) first → y ∈ group reach (length (id_list ids)) first →
  tc (edge D) x y.
Proof using Hids Hdeps Hreach.
  pose proof (do_length _ _ _ _ _ Hdeps) as Hlen. cbn in Hlen. rewrite <- Hlen.
  intros Hf Hbig Hx Hy. apply (NoDup_two _ first) in Hbig as (z & Hz & Hne);
    [|apply group_NoDup|by apply elem_of_group_self].
  apply elem_of_group in Hx as [_ Hx], Hy as [_ Hy], Hz as [_ [?|[Hz1 Hz2]]]; try done.
  assert (Hself : tc (edge D) first first) by by apply tc_trans with z.
  assert (Hx' : tc (edge D) x first) by (destruct Hx as [->|[_ ?]]; done).
  assert (Hy' : tc (edge D) first y) by (destruct Hy as [->|[? _]]; done).
  by apply tc_trans with first.
Qed.

(** A finding of a cycle names ids that need one another. *)
Lemma cycle_of_sound first a b :
  first < length (id_list ids) → 1 < length (group reach (length (id_list ids)) first) →
  a ∈ tf_ids (cycle_of (id_list ids) reach first) → b ∈ tf_ids (cycle_of (id_list ids) reach first) →
  tc (needs rows) a b.
Proof using Hids Hdeps Hreach.
  intros Hf Hbig (x & -> & Hx)%list_elem_of_fmap (y & -> & Hy)%list_elem_of_fmap.
  assert (Hlt : ∀ z, z ∈ group reach (length (id_list ids)) first → z < length (id_list ids)).
  { intros z Hz. unfold group in Hz. apply elem_of_list_filter in Hz as [Hz _].
    apply elem_of_seq in Hz. lia. }
  destruct (tc_edge_needs y x) as (p & q & Hp & Hq & Ht); [by apply (group_mutual first)|].
  assert (p = default EmptyString (fst <$> id_list ids !! y)) as <-
    by (eapply index_inj; [done|]; by apply member_id, Hlt).
  assert (q = default EmptyString (fst <$> id_list ids !! x)) as <-
    by (eapply index_inj; [done|]; by apply member_id, Hlt).
  done.
Qed.

(** Ids that need one another are in one group. *)
Lemma mutual_group a b :
  a ≠ b → tc (needs rows) a b → tc (needs rows) b a →
  ∃ i j, id_index ids !! a = Some i ∧ id_index ids !! b = Some j ∧ i ≠ j
    ∧ tc (edge D) i j ∧ tc (edge D) j i.
Proof using Hids Hdeps.
  intros Hne Hab Hba. destruct (tc_needs_row _ _ Hab) as [i Hi], (tc_needs_row _ _ Hba) as [j Hj].
  exists i, j. split; [done|]. split; [done|].
  assert (Hij : i ≠ j) by (intros ->; apply Hne; by eapply index_inj).
  split; [done|]. split.
  - apply (tc_needs_edge a b i j Hba Hi) in Hj. apply rtc_tc in Hj as [|]; done.
  - pose proof (tc_needs_edge b a j i Hab Hj Hi) as Hr. apply rtc_tc in Hr as [|]; done.
Qed.
(** The cycles of the table as the fold over its nodes reports them. *)
Context (extra : list Finding) (grouped : gset nat)
  (Hcycles : ∀ f, f ∈ extra → ∃ first, first ∈ seq 0 (length (id_list ids))
     ∧ 1 < length (group reach (length (id_list ids)) first) ∧ f = cycle_of (id_list ids) reach first)
  (Hgrouped : ∀ x, x ∈ grouped → x ∈ (∅ : gset nat) ∨ ∃ first, first ∈ seq 0 (length (id_list ids))
     ∧ cycle_of (id_list ids) reach first ∈ extra ∧ x ∈ group reach (length (id_list ids)) first)
  (Hbig : ∀ first, first ∈ seq 0 (length (id_list ids)) → first < length (id_list ids) →
     1 < length (group reach (length (id_list ids)) first) → first ∈ grouped).

Lemma cycles_sound f :
  f ∈ extra → tf_code f = Cycle
  ∧ ∃ a, a ∈ tf_ids f ∧ ∀ a b, a ∈ tf_ids f → b ∈ tf_ids f → tc (needs rows) a b.
Proof using Hids Hdeps Hreach Hcycles.
  intros Hf. destruct (Hcycles f Hf) as (first & Hfs%elem_of_seq & Hg & ->). split; [done|].
  exists (default EmptyString (fst <$> id_list ids !! first)). split.
  - apply list_elem_of_fmap. exists first. split; [done|]. apply elem_of_group_self. lia.
  - intros a b. apply cycle_of_sound; [lia|done].
Qed.

Lemma mutual_reported a b :
  a ≠ b → tc (needs rows) a b → tc (needs rows) b a →
  ∃ f, f ∈ extra ∧ a ∈ tf_ids f ∧ b ∈ tf_ids f.
Proof using Hids Hdeps Hreach Hgrouped Hbig.
  pose proof (do_length _ _ _ _ _ Hdeps) as Hlen. cbn in Hlen. intros Hne Hab Hba.
  destruct (mutual_group _ _ Hne Hab Hba) as (i & j & Hi & Hj & Hij & Hij1 & Hij2).
  pose proof (index_lt _ _ Hi) as Hli. pose proof (index_lt _ _ Hj) as Hlj.
  assert (Hjg : j ∈ group reach (length (id_list ids)) i).
  { rewrite <- Hlen. apply elem_of_group; [done|lia|]. split; [lia|by right]. }
  assert (Hg : 1 < length (group reach (length (id_list ids)) i)).
  { apply (NoDup_two _ i); [apply group_NoDup|by apply elem_of_group_self|by exists j]. }
  destruct (Hgrouped i) as [?|(first & Hfs & Hfe & Hfg)];
    [apply Hbig; [apply elem_of_seq; lia|done|done]|set_solver|]. apply elem_of_seq in Hfs.
  assert (Hfj : j ∈ group reach (length (id_list ids)) first).
  { rewrite <- Hlen in Hfg |- *. apply elem_of_group in Hfg as [_ Hfg]; [|done|lia].
    apply elem_of_group; [done|lia|]. split; [lia|].
    destruct Hfg as [->|[? ?]]; [by right|]. right. split; by apply tc_trans with i. }
  exists (cycle_of (id_list ids) reach first). split; [done|].
  assert (Hid : ∀ x id, id_index ids !! id = Some x → id = default EmptyString (fst <$> id_list ids !! x)).
  { intros x id Hx. eapply index_inj; [done|]. by eapply member_id, index_lt. }
  split; apply list_elem_of_fmap; [exists i|exists j]; split; auto.
Qed.

(** Distinct ids, known dependencies other than the row itself, and no reported cycle. *)
Lemma sound_iff malformed :
  length rows + length malformed ≤ MAX_ROWS →
  sound_table (mk_Table rows malformed) ↔
    malformed = [] ∧ NoDup (row_id <$> rows)
    ∧ (∀ row d, (row, d) ∈ dependencies rows → d ≠ row_id row ∧ is_Some (id_index ids !! d)) ∧ extra = [].
Proof using Hids Hdeps Hreach Hcycles Hgrouped Hbig.
  pose proof (io_dom _ _ _ Hids) as Hdom. intros Hbound. split.
  - intros [_ Hm Hi Hk Hac]. cbn in *. split; [done|]. split; [done|]. split.
    + intros row d [Hr Hd]%elem_of_dependencies.
      assert (Hn : needs rows (row_id row) d) by by exists row.
      split; [|by apply Hdom, (Hk (row_id row))]. intros ->. apply (Hac (row_id row)). by apply tc_once.
    + assert (Hx : extra = [] ∨ ∃ f, f ∈ extra)
        by (clear; destruct extra as [|f l]; [by left|right; exists f; by left]).
      destruct Hx as [|[f Hf]]; [done|]. exfalso.
      destruct (cycles_sound f Hf) as (_ & a & Ha & Hall). by apply (Hac a), Hall.
  - intros (-> & Hd & Hk & Hx).
    assert (Hk' : ∀ a b, needs rows a b → b ≠ a ∧ b ∈ row_id <$> rows).
    { intros a b (row & Hr & <- & Hb). rewrite <- Hdom. apply Hk. by apply elem_of_dependencies. }
    split; cbn; [done|done|done|by intros a b [_ ?]%Hk'|].
    intros a Hc. assert (Hc' : ∃ c, c ≠ a ∧ tc (needs rows) a c ∧ tc (needs rows) c a).
    { inversion Hc as [x y Hs|x c y Hs Ht]; subst; [by apply Hk' in Hs as [? _]|].
      exists c. split; [by apply Hk' in Hs as [? _]|]. split; [by apply tc_once|done]. }
    destruct Hc' as (c & Hne & H1 & H2). destruct (mutual_reported a c) as (f & Hf & _); [done..|].
    rewrite Hx in Hf. by apply not_elem_of_nil in Hf.
Qed.
End table.

Lemma findings_of_table table :
  ∃ findings, row_findings table = Ok findings
    ∧ (findings = [] ↔ sound_table table)
    ∧ (∀ f, f ∈ findings → tf_code f = Cycle →
         ∀ a b, a ∈ tf_ids f → b ∈ tf_ids f → tc (needs (tb_rows table)) a b)
    ∧ (length (tb_rows table) + length (tb_malformed table) ≤ MAX_ROWS → ∀ a b, a ≠ b →
         tc (needs (tb_rows table)) a b → tc (needs (tb_rows table)) b a →
         ∃ f, f ∈ findings ∧ tf_code f = Cycle ∧ a ∈ tf_ids f ∧ b ∈ tf_ids f).
Proof.
  unfold row_findings. destruct (_ <? _) eqn:Hbound.
  { apply Nat.ltb_lt in Hbound. eexists. split; [done|]. split; [split; [done|]|].
    - intros [Hb _ _ _ _]. lia.
    - split; [by intros f ->%list_elem_of_singleton|lia]. }
  apply Nat.ltb_ge in Hbound. cbv zeta. fold (ids_of (malformed_finding <$> tb_malformed table) (tb_rows table)).
  pose proof (ids_of_ok (malformed_finding <$> tb_malformed table) (tb_rows table)) as Hids.
  revert Hids. generalize (ids_of (malformed_finding <$> tb_malformed table) (tb_rows table)) as ids.
  intros ids Hids. rewrite note_dependencies_pairs.
  pose proof (deps_of_ok (id_index ids) (length (id_list ids)) (merge_sort line_le (id_findings ids))
    (dependencies (tb_rows table)) (index_lt _ _ _ Hids)) as Hdeps. revert Hdeps.
  generalize (fold_left (λ acc p, note_dependency (id_index ids) p.1 acc p.2) (dependencies (tb_rows table))
    (merge_sort line_le (id_findings ids), replicate (length (id_list ids)) [])) as acc.
  intros [fs D] Hdeps. destruct (reach_all_ok D) as (reach & Hall & Hreach). rewrite Hall. cbn [mbind result_bind].
  destruct (note_cycles_ok (id_list ids) reach (seq 0 (length (id_list ids))) fs ∅)
    as (extra & He & Hcycles & _ & Hgrouped & Hbig). eexists. split; [done|]. rewrite He.
  pose proof (io_findings _ _ _ Hids) as (dups & Hf1 & Hnd & Hdup).
  pose proof (do_findings _ _ _ _ _ Hdeps) as (more & Hf2 & Hmore & Hknown). cbn in Hf2.
  pose proof (cycles_sound _ _ _ _ _ _ _ Hids Hdeps Hreach _ Hcycles) as Hsound.
  pose proof (mutual_reported _ _ _ _ _ _ _ Hids Hdeps Hreach _ _ Hgrouped Hbig) as Hmutual.
  pose proof (sound_iff _ _ _ _ _ _ _ Hids Hdeps Hreach _ _ Hcycles Hgrouped Hbig _ Hbound) as Hiff.
  assert (Hempty : fs = [] ↔ tb_malformed table = [] ∧ dups = [] ∧ more = []).
  { rewrite Hf2. split.
    - intros [Hs ->]%app_eq_nil.
      pose proof (merge_sort_Permutation line_le (id_findings ids)) as Hp. rewrite Hs, Hf1 in Hp.
      apply Permutation_nil_l in Hp. symmetry in Hp. apply app_eq_nil in Hp as [Hp ->].
      by apply fmap_nil_inv in Hp.
    - intros (Hm & -> & ->). rewrite Hf1, Hm. done. }
  split; [|split].
  - destruct table as [rows malformed]. cbn [tb_rows tb_malformed] in *. rewrite Hiff. split.
    + intros [Hfs Hx]%app_eq_nil. apply Hempty in Hfs as (? & ? & ?).
      split; [done|]. split; [by apply Hnd|]. split; [by apply Hknown|done].
    + intros (Hm & Hd & Hk & ->). rewrite List.app_nil_r. apply Hempty.
      split; [done|]. split; [by apply Hnd|by apply Hknown].
  - intros f [Hf|Hf]%elem_of_app Hcode; [exfalso|by destruct (Hsound f Hf) as (_ & _ & _ & ?)].
    rewrite Hf2 in Hf. apply elem_of_app in Hf as [Hf|Hf]; [|by apply (Hmore f)].
    rewrite merge_sort_Permutation, Hf1 in Hf. apply elem_of_app in Hf as [Hf|Hf].
    + apply list_elem_of_fmap in Hf as (x & -> & _). done.
    + apply Hdup in Hf. congruence.
  - intros _ a b Hne Hab Hba. destruct (Hmutual a b Hne Hab Hba) as (f & Hf & Ha & Hb).
    exists f. split; [apply elem_of_app; by right|]. split; [by apply Hsound|done].
Qed.

(** C19: The findings of a table are its defects.  The analysis always ends; it finds nothing exactly
    when the table is within its bound, every row line is well-formed, the ids are distinct, the
    dependencies are ids of rows, and no id needs itself through the others.  A reported cycle
    consists of ids that all need one another, and in a table within the bound any two ids that
    do are reported together. *)
Theorem table_findings_are_its_defects table :
  ∃ findings, row_findings table = Ok findings
    ∧ (findings = [] ↔ sound_table table)
    ∧ (∀ f, f ∈ findings → tf_code f = Cycle →
         ∀ a b, a ∈ tf_ids f → b ∈ tf_ids f → tc (needs (tb_rows table)) a b)
    ∧ (length (tb_rows table) + length (tb_malformed table) ≤ MAX_ROWS → ∀ a b, a ≠ b →
         tc (needs (tb_rows table)) a b → tc (needs (tb_rows table)) b a →
         ∃ f, f ∈ findings ∧ tf_code f = Cycle ∧ a ∈ tf_ids f ∧ b ∈ tf_ids f).
Proof. apply findings_of_table. Qed.
