(* ===== verification/TrackerEditFacts.v ===== *)
(** * Theorems on the edits of a tracker

    First the row grammar under an edit, then: a tick changes one row, as the grammar reads the body. *)
From S2P Require Import Prelude RStr Collections Error Report Tracker TrackerFacts.
From stdpp Require Import options.

(** ** Lemmas on the rows of a tracker

    Trimmed strings, the last clause marker, the notes of a row, and a row line with its box
    ticked and a reference in its notes, as the grammar reads it. *)

Lemma insert_at_app a text b : insert_at (String.length a) text (a +:+ b) = a +:+ text +:+ b.
Proof. unfold insert_at. by rewrite take_bytes_app, drop_bytes_app. Qed.

(** ** The last marker *)
Section last_index.
Context (p : string → bool).

Lemma last_index_none s : last_index p s = None ↔ ∀ a b, s = a +:+ b → p b = false.
Proof.
  induction s as [|c s IH]; cbn.
  - destruct (p EmptyString) eqn:E; split; try done.
    + intros H. specialize (H EmptyString EmptyString eq_refl). congruence.
    + intros _ [|] [|] [=]. done.
  - destruct (last_index p s) as [i|] eqn:El; [|destruct (p (String c s)) eqn:E]; split; try done.
    + intros H. assert (Hs : ∀ a b, s = a +:+ b → p b = false)
        by (intros a b ->; by apply (H (String c a) b)). by apply IH in Hs.
    + intros H. specialize (H EmptyString (String c s) eq_refl). congruence.
    + intros _ [|d a] b H; rewrite ?app_empty, ?app_cons in H; [by subst|].
      injection H as <- H. by apply (proj1 IH eq_refl a b).
Qed.

Lemma last_index_some s i :
  last_index p s = Some i →
  ∃ a b, s = a +:+ b ∧ String.length a = i ∧ last_index p b = Some 0.
Proof.
  revert i. induction s as [|c s IH]; intros i H.
  - exists EmptyString, EmptyString. cbn in H. destruct (p EmptyString) eqn:E; [|done].
    injection H as <-. cbn. by rewrite E.
  - pose proof H as H'. cbn in H. destruct (last_index p s) as [j|] eqn:E.
    + injection H as <-. destruct (IH j eq_refl) as (a & b & -> & <- & Hb).
      exists (String c a), b. by rewrite app_cons.
    + destruct (p (String c s)); [|done]. injection H as <-. by exists EmptyString, (String c s).
Qed.

Lemma last_index_here b : last_index p b = Some 0 → p b = true.
Proof.
  destruct b as [|c b]; cbn; [by destruct (p EmptyString)|].
  destruct (last_index p b); [done|]. by destruct (p (String c b)).
Qed.

Lemma last_index_app a b i : last_index p b = Some i → last_index p (a +:+ b) = Some (String.length a + i).
Proof.
  intros Hb. induction a as [|c a IH]; [done|]. rewrite app_cons. cbn. by rewrite IH.
Qed.
End last_index.

(** An occurrence of the marker ends before a byte that it does not hold. *)
Lemma mark_before u c v next :
  bool_decide (c ∈ ["("%char; ","%char; ")"%char]) = true ∨ c = " "%char ∧ starts_with "(" v = true →
  strip_prefix AFTER_MARK (u +:+ String c v) = Some next →
  ∃ n, u = AFTER_MARK +:+ n ∧ next = n +:+ String c v.
Proof.
  intros Hc H. apply strip_prefix_some in H.
  assert (Hmark : ∀ t, AFTER_MARK +:+ t = String " " (String "194" (String "183" (String " " (String "a"
    (String "f" (String "t" (String "e" (String "r" t))))))))) by done.
  rewrite Hmark in H. setoid_rewrite Hmark.
  assert (Hhead : ∀ d t, String c v = String d t →
     bool_decide (d ∈ ["("%char; ","%char; ")"%char]) = true ∨ d = " "%char ∧ starts_with "(" t = true)
    by (intros d t [= <- <-]; done).
  repeat match type of H with
  | ?u +:+ String c v = String ?d ?t =>
      destruct u as [|? u]; rewrite ?app_empty, ?app_cons in H;
      [exfalso; apply Hhead in H as [H|[H H']];
        [revert H; by vm_compute|first [discriminate H|revert H'; by vm_compute]]
      |injection H as -> H]
  end.
  by exists u.
Qed.

(** Text in which no clause starts, with what follows it. *)
Fixpoint unmarked (c v : string) : bool :=
  match c with
  | EmptyString => true
  | String _ c' => negb (clause_here (c +:+ v)) && unmarked c' v
  end.

Lemma clause_here_start c s : clause_here (String c s) = true → c = " "%char ∧ ∃ t, s = MIDDLE_DOT +:+ t.
Proof.
  unfold clause_here. destruct (strip_prefix _ _) as [next|] eqn:E; [|done]. intros _.
  apply strip_prefix_some in E. injection E as -> ->. split; [done|]. by eexists.
Qed.

Lemma unmarked_app a b v : unmarked (a +:+ b) v = unmarked a (b +:+ v) && unmarked b v.
Proof.
  induction a as [|c a IH]; [done|]. rewrite app_cons. cbn [unmarked]. rewrite IH, <- andb_assoc.
  by rewrite !app_cons, app_assoc.
Qed.

Lemma unmarked_spaceless a v : all_bytes (λ c, negb (Ascii.eqb c " ")) a = true → unmarked a v = true.
Proof.
  induction a as [|c a IH]; [done|]. cbn. intros [Hc Ha]%andb_true_iff. rewrite IH by done.
  rewrite andb_true_r. apply negb_true_iff, not_true_iff_false. rewrite app_cons.
  intros [-> _]%clause_here_start. done.
Qed.

Lemma unmarked_true c v a b : unmarked c v = true → c = a +:+ b → b ≠ EmptyString → clause_here (b +:+ v) = false.
Proof.
  revert a. induction c as [|d c IH]; intros a H E Hb.
  - destruct a; [|done]. rewrite app_empty in E. by subst.
  - cbn in H. apply andb_true_iff in H as [Hd H]. destruct a as [|d' a]; rewrite ?app_empty, ?app_cons in E.
    + subst b. by apply negb_true_iff in Hd.
    + injection E as -> ->. by apply (IH a).
Qed.

(** An insertion before which no clause ends makes no clause. *)
Lemma no_clause_insert u c c' v :
  bool_decide (c ∈ ["("%char; ","%char; ")"%char]) = true ∨ c = " "%char ∧ starts_with "(" c' = true →
  c ≠ " "%char ∨ v = EmptyString →
  unmarked (String c c') v = true →
  last_index clause_here (u +:+ v) = None →
  last_index clause_here (u +:+ String c c' +:+ v) = None.
Proof.
  intros Hc Hv Hm. rewrite !last_index_none. intros Hold a b [(m & -> & Hb)|(m & -> & Hb)]%split_cases.
  - subst b. apply not_true_iff_false. intros H. unfold clause_here in H.
    destruct (strip_prefix _ _) as [next|] eqn:E; [|done]. rewrite app_cons in E.
    apply mark_before in E as (n & -> & ->);
      [|destruct Hc as [Hc|[-> (r & ->)%starts_with_true]]; [by left|right; split; [done|]];
        apply starts_with_true; by eexists].
    assert (Hn : clause_here (AFTER_MARK +:+ n +:+ v) = true).
    { unfold clause_here. rewrite strip_prefix_app. cbn. destruct n as [|d n].
      - rewrite app_empty in *. destruct Hv as [Hv| ->]; [|done]. exfalso.
        cbn in H. apply starts_with_true in H as (r & [= -> _]). done.
      - cbn in H. apply starts_with_true in H as (r & Hr). rewrite app_cons in Hr. injection Hr as -> _.
        cbn. apply starts_with_true. rewrite app_cons. by eexists. }
    specialize (Hold a (AFTER_MARK +:+ n +:+ v)). rewrite !app_assoc in Hold. rewrite Hold in Hn by done. done.
  - apply split_cases in Hb as [(m' & Ha & ->)|(m' & -> & ->)].
    + destruct m' as [|d m']; [|by apply (unmarked_true (String c c') _ m)].
      rewrite app_empty. by apply (Hold u v).
    + apply (Hold (u +:+ m') b). by rewrite app_assoc.
Qed.

(** ** Recordable references *)

Definition pr_byte (c : ascii) : bool :=
  negb (ws1 c) && negb (Ascii.eqb c "(") && negb (Ascii.eqb c ")") && negb (Ascii.eqb c ",").

Lemma recordable_bytes pr :
  pr_is_recordable pr = true →
  pr ≠ EmptyString ∧ all_bytes pr_byte pr = true ∧ starts_with MIDDLE_DOT pr = false.
Proof.
  unfold pr_is_recordable. rewrite andb_true_iff, !negb_true_iff.
  intros [Hne [[[[[Hw _]%orb_false_iff Ho]%orb_false_iff Hc]%orb_false_iff Hcomma]%orb_false_iff Hdot]%orb_false_iff].
  split; [by apply is_empty_false|]. split.
  - apply has_whitespace_ws1 in Hw. apply contains_byte_false in Ho, Hc, Hcomma.
    revert Hw Ho Hc Hcomma. clear. induction pr as [|c pr IH]; [done|]. cbn. unfold pr_byte at 1.
    rewrite !andb_true_iff. intros [] [] [] []. auto 10.
  - apply not_true_iff_false. intros (r & ->)%starts_with_true. apply not_true_iff_false in Hdot.
    apply Hdot, contains_true. by exists EmptyString, r.
Qed.

Lemma recordable_unmarked pr v :
  pr_is_recordable pr = true → starts_with (String "183" EmptyString) v = false →
  unmarked ("PR " +:+ pr) v = true.
Proof.
  intros (Hne & Hb & Hd)%recordable_bytes Hv. rewrite unmarked_app. apply andb_true_iff. split.
  - cbn. rewrite !app_cons, app_empty. apply andb_true_iff. split; [done|]. apply andb_true_iff. split; [done|].
    rewrite andb_true_r. apply negb_true_iff, not_true_iff_false. intros [_ (t & H)]%clause_here_start.
    destruct pr as [|a [|b pr]]; [done| |].
    + rewrite app_cons, app_empty in H. injection H as -> H. apply not_true_iff_false in Hv. apply Hv.
      apply starts_with_true. by exists t.
    + rewrite !app_cons in H. injection H as -> -> H. by cbn in Hd.
  - apply unmarked_spaceless. revert Hb. apply all_bytes_impl. unfold pr_byte. intros c.
    rewrite !andb_true_iff, !negb_true_iff. intros [[[H _] _] _]. apply Ascii.eqb_neq. intros ->. done.
Qed.

(** ** Notes *)
Definition unparenthesised (c : ascii) : bool := negb (Ascii.eqb c "(") && negb (Ascii.eqb c ")").

Lemma open_scan_app a b i : open_scan b = inr i → open_scan (a +:+ b) = inr (String.length a + i).
Proof. intros H. induction a as [|c a IH]; [done|]. rewrite app_cons. cbn. by rewrite IH. Qed.

Lemma open_scan_same a b b' d :
  open_scan b = inl d → open_scan b' = inl d → open_scan (a +:+ b) = open_scan (a +:+ b').
Proof.
  intros H H'. induction a as [|c a IH]; [by rewrite !app_empty, H, H'|]. rewrite !app_cons. cbn. by rewrite IH.
Qed.

Lemma open_scan_plain c b d :
  all_bytes unparenthesised c = true → open_scan b = inl (S d) → open_scan (c +:+ b) = inl (S d).
Proof.
  intros Hc Hb. induction c as [|a c IH]; [done|]. cbn in Hc. apply andb_true_iff in Hc as [Ha Hc].
  rewrite app_cons. cbn. rewrite IH by done. unfold unparenthesised in Ha.
  apply andb_true_iff in Ha as [Ho%negb_true_iff Hcl%negb_true_iff]. by rewrite Ho, Hcl.
Qed.

Lemma open_scan_closed r d : open_scan (r +:+ ")") = inl d → d ≠ 0.
Proof.
  revert d. induction r as [|c r IH]; intros d; [by intros [= <-]|]. rewrite app_cons. cbn.
  destruct (open_scan _) as [e|]; [|done]. destruct (if Ascii.eqb c ")" then _ else _) eqn:E; cbn; [done|].
  intros [= <-]. done.
Qed.

Lemma open_scan_some r i :
  open_scan (r +:+ ")") = inr i → ∃ a b, r = a +:+ "(" +:+ b ∧ String.length a = i.
Proof.
  revert i. induction r as [|c r IH]; intros i; [done|]. rewrite app_cons. cbn.
  destruct (open_scan (r +:+ ")")) as [d|j] eqn:E.
  - apply open_scan_closed in E. destruct d as [|d]; [done|].
    destruct (Ascii.eqb c ")"); [done|]. destruct (Ascii.eqb_spec c "(") as [->|]; [|done].
    destruct (Nat.eqb _ 0); [|done]. intros [= <-]. by exists EmptyString, r.
  - intros [= <-]. destruct (IH j eq_refl) as (a & b & -> & <-). by exists (String c a), b.
Qed.

Lemma split_notes_eq a b :
  open_scan (a +:+ "(" +:+ b +:+ ")") = inr (String.length a) →
  split_notes (a +:+ "(" +:+ b +:+ ")")
  = if ends_with " " a && negb (is_empty (trim_blank b))
    then Some (String.length a, trim_blank b, trim_blank a) else None.
Proof.
  intros H. unfold split_notes.
  replace (ends_with _ _) with true
    by (unfold ends_with; rewrite <- !app_assoc, strip_suffix_app; done).
  rewrite H, take_bytes_app.
  replace (S (String.length a)) with (String.length a + 1) by lia.
  rewrite drop_bytes_plus, drop_bytes_app, !app_cons, !app_empty. cbn [drop_bytes].
  replace (_ - 1 - _) with (String.length b) by (rewrite !length_app; cbn; rewrite length_app; cbn; lia).
  by rewrite take_bytes_app.
Qed.

Lemma split_notes_inv text n :
  split_notes text = Some n →
  ∃ a b, text = a +:+ "(" +:+ b +:+ ")" ∧ open_scan text = inr (String.length a)
    ∧ n = (String.length a, trim_blank b, trim_blank a) ∧ ends_with " " a = true ∧ trim_blank b ≠ EmptyString.
Proof.
  unfold split_notes at 1. destruct (ends_with ")" text) eqn:Ee; [|done].
  destruct (open_scan text) as [|i] eqn:Eo; [done|]. intros H.
  unfold ends_with in Ee. destruct (strip_suffix _ _) as [r|] eqn:Es; [|done]. apply strip_suffix_some in Es.
  subst text. pose proof Eo as Eo'. apply open_scan_some in Eo' as (a & b & -> & <-).
  exists a, b. rewrite !app_assoc in *. split; [done|]. split; [done|].
  assert (Hn : split_notes (a +:+ "(" +:+ b +:+ ")") = Some n).
  { unfold split_notes. rewrite Eo. unfold ends_with at 1. rewrite <- !app_assoc, strip_suffix_app, !app_assoc. exact H. }
  clear H. rewrite split_notes_eq in Hn by done. destruct (_ && _) eqn:E; [|done].
  apply andb_true_iff in E as [E1 E2]. apply negb_true_iff, is_empty_false in E2. by injection Hn as <-.
Qed.

Lemma trim_blank_app a b :
  trim_start_bytes blank a ≠ EmptyString → trim_end_bytes blank b ≠ EmptyString →
  trim_blank (a +:+ b) = trim_start_bytes blank a +:+ trim_end_bytes blank b.
Proof. intros Ha Hb. unfold trim_blank. by rewrite trim_start_keep, trim_end_keep. Qed.

(** A new group of notes, and a note added to a group. *)
Lemma split_notes_new text entry :
  trim_blank text = text → trim_blank entry = entry → entry ≠ EmptyString →
  all_bytes unparenthesised entry = true →
  split_notes (text +:+ " (" +:+ entry +:+ ")") = Some (S (String.length text), entry, text).
Proof.
  intros Ht He Hne Hp.
  replace (text +:+ " (" +:+ entry +:+ ")") with ((text +:+ " ") +:+ "(" +:+ entry +:+ ")")
    by by rewrite app_assoc, !app_cons, !app_empty.
  rewrite split_notes_eq.
  - unfold ends_with. rewrite strip_suffix_app. cbn [is_some andb]. rewrite He.
    apply is_empty_false in Hne. rewrite Hne. cbn [negb].
    rewrite length_app. cbn. rewrite Nat.add_1_r. do 2 f_equal.
    unfold trim_blank. rewrite <- trim_start_end, trim_end_app, trim_start_end by done. exact Ht.
  - rewrite (open_scan_app _ _ 0); [by rewrite Nat.add_0_r|].
    rewrite app_cons, app_empty. cbn. by rewrite (open_scan_plain entry ")" 0).
Qed.

Lemma split_notes_more a b entry ws :
  open_scan (a +:+ "(" +:+ (b +:+ ws) +:+ ")") = inr (String.length a) →
  ends_with " " a = true → trim_blank (b +:+ ws) ≠ EmptyString → all_bytes blank ws = true →
  trim_end_bytes blank b = b → trim_end_bytes blank entry = entry → entry ≠ EmptyString →
  all_bytes unparenthesised entry = true →
  split_notes (a +:+ "(" +:+ (b +:+ (", " +:+ entry) +:+ ws) +:+ ")")
  = Some (String.length a, trim_blank (b +:+ ws) +:+ ", " +:+ entry, trim_blank a).
Proof.
  intros Ho Ha Hb Hws Hte He Hne Hp.
  assert (Hw : open_scan (ws +:+ ")") = inl 1).
  { apply open_scan_plain; [|done]. revert Hws. apply all_bytes_impl. intros c. unfold blank, unparenthesised.
    intros [->%Ascii.eqb_eq| ->%Ascii.eqb_eq]%orb_true_iff; done. }
  assert (Hbw : trim_blank (b +:+ ws) = trim_start_bytes blank b).
  { unfold trim_blank. by rewrite <- trim_start_end, trim_end_app, Hte. }
  rewrite Hbw in *. rewrite split_notes_eq.
  - rewrite Ha. unfold trim_blank at 1 2. rewrite <- !trim_start_end.
    assert (Hne' : b +:+ ", " +:+ entry ≠ EmptyString) by (by destruct b).
    assert (Hfix : trim_end_bytes blank (b +:+ ", " +:+ entry) = b +:+ ", " +:+ entry).
    { rewrite <- (app_assoc b). by apply trim_end_fixed_app. }
    rewrite <- (app_assoc b), (trim_end_app _ (b +:+ _)), Hfix, trim_start_keep by done.
    by destruct (trim_start_bytes blank b).
  - rewrite <- Ho.
    replace (a +:+ "(" +:+ (b +:+ (", " +:+ entry) +:+ ws) +:+ ")")
      with ((a +:+ "(" +:+ b) +:+ (", " +:+ entry) +:+ ws +:+ ")") by by rewrite !app_assoc.
    replace (a +:+ "(" +:+ (b +:+ ws) +:+ ")") with ((a +:+ "(" +:+ b) +:+ ws +:+ ")")
      by by rewrite !app_assoc.
    apply (open_scan_same _ _ _ 1); [|done]. apply open_scan_plain; [|done].
    by rewrite all_bytes_app, Hp.
Qed.

(** ** Whether notes name a reference *)
Section names.
Context (entry : string).
Hypothesis (Hstart : ∀ c s, blank c = true → strip_prefix entry (String c s) = None).
Hypothesis (Hend : trim_end_bytes blank entry = entry).

Lemma blank_boundary c : blank c = true → boundary (Some c) = true.
Proof. intros [->%Ascii.eqb_eq| ->%Ascii.eqb_eq]%orb_true_iff; done. Qed.

Lemma names_from_previous k a b s : boundary a = boundary b → names_from entry k a s = names_from entry k b s.
Proof. intros H. destruct s as [|c s]; [done|]. cbn. destruct k; [|done]. by rewrite H. Qed.

Lemma names_from_before ws a s :
  all_bytes blank ws = true → boundary a = true → names_from entry 0 a (ws +:+ s) = names_from entry 0 None s.
Proof using Hstart.
  revert a. induction ws as [|c ws IH]; intros a Hws Ha; [by apply names_from_previous|].
  cbn in Hws. apply andb_true_iff in Hws as [Hc Hws]. rewrite app_cons. cbn.
  rewrite Hstart by done. apply IH; [done|by apply blank_boundary].
Qed.

Lemma names_from_blank k a ws : all_bytes blank ws = true → names_from entry k a ws = false.
Proof using Hstart.
  revert k a. induction ws as [|c ws IH]; intros k a; [done|]. cbn. intros [Hc Hws]%andb_true_iff.
  destruct k; [|by apply IH]. rewrite Hstart by done. by apply IH.
Qed.

Lemma strip_entry_before s ws :
  all_bytes blank ws = true →
  strip_prefix entry (s +:+ ws) = (λ following, following +:+ ws) <$> strip_prefix entry s.
Proof using Hend.
  intros Hws. destruct (strip_prefix entry s) as [f|] eqn:E.
  - apply strip_prefix_some in E as ->. cbn. rewrite app_assoc. apply strip_prefix_app.
  - destruct (strip_prefix entry (s +:+ ws)) as [f|] eqn:E'; [|done]. exfalso.
    apply strip_prefix_some in E'. apply split_cases in E' as [(m & -> & _)|(m & He & Hm)].
    + by rewrite strip_prefix_app in E.
    + subst ws. rewrite all_bytes_app in Hws. apply andb_true_iff in Hws as [Hm _].
      rewrite He, trim_end_app in Hend by done.
      destruct m as [|c m].
      { pose proof (strip_prefix_app s EmptyString) as Hs. rewrite app_nil_r in *. congruence. }
      pose proof (trim_end_split blank s) as (b & _ & Hs). apply (f_equal String.length) in Hend, Hs.
      rewrite length_app in *. cbn in *. lia.
Qed.

Lemma names_from_after k a s ws :
  all_bytes blank ws = true → names_from entry k a (s +:+ ws) = names_from entry k a s.
Proof using Hstart Hend.
  intros Hws. revert k a. induction s as [|c s IH]; intros k a.
  - rewrite app_empty. by apply names_from_blank.
  - pose proof (strip_entry_before (String c s) ws Hws) as Hstrip.
    rewrite app_cons in *. cbn [names_from]. rewrite Hstrip, !IH. destruct k; [|done].
    destruct (strip_prefix entry (String c s)) as [f|]; [|done]. cbn. f_equal. f_equal.
    destruct f as [|d f]; [|done]. rewrite app_empty. destruct ws as [|d ws]; [done|].
    cbn in Hws. apply andb_true_iff in Hws as [Hd _]. by apply blank_boundary in Hd.
Qed.

Lemma names_trimmed s : names s entry = names (trim_blank s) entry.
Proof using Hstart Hend.
  unfold names, trim_blank. destruct (trim_start_split blank s) as (a & Ha & Hs). rewrite Hs at 1.
  destruct (trim_end_split blank (trim_start_bytes blank s)) as (b & Hb & Ht). rewrite Ht at 1.
  rewrite names_from_before, names_from_after by done. done.
Qed.
End names.

(** ** The text of a row *)
Definition with_notes (done : bool) (notes : option string) (row : Row) : Row :=
  mk_Row (row_id row) (row_title row) (row_reference row) notes (row_after row) done
    (row_phase row) (row_line row).

Lemma parse_text_notes done done' id after ts text text' row spans n' :
  parse_text done id after ts text = Some (row, spans) →
  split_notes text' = Some n' → n'.2 = from_option snd text (split_notes text) →
  ∃ spans', parse_text done' id after ts text' = Some (with_notes done' (Some n'.1.2) row, spans').
Proof.
  unfold parse_text. intros H -> Hn. cbn. rewrite Hn. destruct (is_empty _); [done|].
  injection H as <- <-. by eexists.
Qed.

Lemma parse_text_done done done' id after ts text row spans :
  parse_text done id after ts text = Some (row, spans) →
  parse_text done' id after ts text = Some (with_notes done' (row_notes row) row, spans).
Proof. unfold parse_text. destruct (is_empty _); [done|]. by intros [= <- <-]. Qed.

(** A clause and the text that it follows. *)
Definition clause_of (head clause : string) (after : list string) : Prop :=
  clause = EmptyString ∧ last_index clause_here head = None ∧ after = []
  ∨ last_index clause_here clause = Some 0
    ∧ clause_ids (split_char "," (trim_blank (drop_bytes (String.length AFTER_MARK) clause))) ∅ = Some after.

Lemma parse_tail_eq done id ts ws1 text ws2 clause after :
  all_bytes blank ws1 = true → all_bytes blank ws2 = true → trim_blank text = text → text ≠ EmptyString →
  clause_of (ws1 +:+ text +:+ ws2) clause after →
  parse_tail done id ts ((ws1 +:+ text +:+ ws2) +:+ clause)
  = parse_text done id after (ts + String.length ws1) text.
Proof.
  intros H1 H2 Ht Hne Hc.
  assert (Hts : trim_start_bytes blank text = text).
  { rewrite <- Ht. unfold trim_blank. rewrite <- trim_start_end. apply trim_start_idem. }
  assert (Hhead : trim_start_bytes blank (ws1 +:+ text +:+ ws2) = text +:+ ws2).
  { rewrite trim_start_app by done. by rewrite trim_start_keep; rewrite Hts. }
  assert (Hblank : trim_blank (ws1 +:+ text +:+ ws2) = text).
  { unfold trim_blank. rewrite Hhead, trim_end_app by done. rewrite <- Ht at 1. unfold trim_blank.
    by rewrite trim_end_idem. }
  assert (Hlen : String.length (ws1 +:+ text +:+ ws2) - String.length (text +:+ ws2) = String.length ws1)
    by (rewrite !length_app; lia).
  unfold parse_tail. destruct Hc as [(-> & Hl & ->)|(Hl & Hids)].
  - rewrite app_nil_r, Hl. cbn [from_option mbind option_bind]. by rewrite Hhead, Hblank, Hlen.
  - rewrite (last_index_app _ _ _ 0 Hl), Nat.add_0_r, drop_bytes_plus, drop_bytes_app, Hids.
    cbn [from_option mbind option_bind]. by rewrite take_bytes_app, Hhead, Hblank, Hlen.
Qed.

Lemma parse_tail_inv done id ts tail p :
  parse_tail done id ts tail = Some p →
  ∃ ws1 text ws2 clause after,
    tail = (ws1 +:+ text +:+ ws2) +:+ clause
    ∧ all_bytes blank ws1 = true ∧ all_bytes blank ws2 = true
    ∧ trim_blank text = text ∧ text ≠ EmptyString
    ∧ clause_of (ws1 +:+ text +:+ ws2) clause after
    ∧ parse_text done id after (ts + String.length ws1) text = Some p.
Proof.
  unfold parse_tail. intros H.
  assert (∃ head clause after, tail = head +:+ clause ∧ clause_of head clause after ∧
    parse_text done id after (ts + (String.length head - String.length (trim_start_bytes blank head)))
      (trim_blank head) = Some p) as (head & clause & after & -> & Hc & Hp).
  { destruct (last_index clause_here tail) as [i|] eqn:El.
    - pose proof El as Hl. apply last_index_some in Hl as (a & b & -> & <- & Hb).
      rewrite drop_bytes_plus, drop_bytes_app in H. destruct (clause_ids _ _) as [after|] eqn:Ei; [|done].
      cbn in H. rewrite take_bytes_app in H. exists a, b, after. split; [done|]. split; [by right|done].
    - exists tail, EmptyString, []. rewrite app_nil_r. split; [done|]. split; [by left|exact H]. }
  destruct (trim_start_split blank head) as (a & Ha & Hs).
  destruct (trim_end_split blank (trim_start_bytes blank head)) as (b & Hb & Ht).
  change (trim_end_bytes blank (trim_start_bytes blank head)) with (trim_blank head) in Ht.
  rewrite Ht in Hs. exists a, (trim_blank head), b, clause, after.
  rewrite <- Hs. split; [done|]. split; [done|]. split; [done|]. split.
  { unfold trim_blank. by rewrite trim_start_end, trim_end_idem, trim_start_idem. }
  split; [by intros He; rewrite He in Hp|]. split; [done|].
  replace (String.length a) with (String.length head - String.length (trim_start_bytes blank head)); [done|].
  rewrite Ht, Hs at 1. rewrite !length_app. lia.
Qed.

(** ** The tail of a row with a note *)
Definition tail_ok (tail : string) : Prop := starts_with " " tail = true ∧ trim_end_bytes line_end tail = tail.

Lemma tail_ok_insert u c v :
  tail_ok (u +:+ v) → u ≠ EmptyString → (v = EmptyString → trim_end_bytes line_end c = c) → c ≠ EmptyString →
  tail_ok (u +:+ c +:+ v).
Proof.
  intros [Hs Ht] Hu Hv Hc. split.
  - destruct u as [|d u]; [done|]. apply starts_with_true in Hs as (r & Hr). rewrite app_cons in Hr.
    injection Hr as -> _. apply starts_with_true. rewrite app_cons. by eexists.
  - destruct v as [|d v].
    + rewrite app_nil_r. by apply trim_end_fixed_app; [|apply Hv].
    + apply trim_end_fixed_app; [by destruct c|]. apply trim_end_fixed_app; [done|].
      by apply trim_end_fixed_app in Ht.
Qed.

Lemma blank_line_end s : all_bytes blank s = true → all_bytes line_end s = true.
Proof. apply all_bytes_impl. unfold line_end. by intros c ->. Qed.

Lemma tail_ok_blank u ws : tail_ok (u +:+ ws) → all_bytes blank ws = true → ws = EmptyString.
Proof.
  intros [_ Ht] Hws. destruct ws as [|c ws]; [done|]. apply trim_end_fixed_app in Ht; [|done].
  by rewrite trim_end_all in Ht by by apply blank_line_end.
Qed.

Lemma clause_of_more u c c' v clause after :
  bool_decide (c ∈ ["("%char; ","%char; ")"%char]) = true ∨ c = " "%char ∧ starts_with "(" c' = true →
  c ≠ " "%char ∨ (clause = EmptyString → v = EmptyString) →
  (clause = EmptyString → unmarked (String c c') v = true) →
  clause_of (u +:+ v) clause after → clause_of (u +:+ String c c' +:+ v) clause after.
Proof.
  intros Hc Hv Hm [(-> & Hl & ->)|H]; [left|by right]. split; [done|]. split; [|done].
  apply no_clause_insert; [done| |by apply Hm|done]. destruct Hv as [?|Hv]; [by left|right; by apply Hv].
Qed.

Lemma entry_facts pr :
  pr_is_recordable pr = true →
  all_bytes unparenthesised ("PR " +:+ pr) = true ∧ trim_blank ("PR " +:+ pr) = "PR " +:+ pr
  ∧ trim_end_bytes blank ("PR " +:+ pr) = "PR " +:+ pr.
Proof.
  intros (Hne & Hb & _)%recordable_bytes.
  assert (Hp : all_bytes unparenthesised pr = true).
  { revert Hb. apply all_bytes_impl. unfold pr_byte, unparenthesised. intros c.
    rewrite !andb_true_iff. tauto. }
  assert (Ht : trim_end_bytes blank pr = pr).
  { clear Hp. induction pr as [|c pr IH]; [done|]. cbn in Hb. apply andb_true_iff in Hb as [Hc Hb].
    cbn. replace (blank c) with false; [rewrite andb_false_r|].
    - destruct pr; [done|]. by rewrite IH.
    - symmetry. apply not_true_iff_false. intros [->%Ascii.eqb_eq| ->%Ascii.eqb_eq]%orb_true_iff; done. }
  assert (He : trim_end_bytes blank ("PR " +:+ pr) = "PR " +:+ pr) by by apply trim_end_fixed_app.
  split; [by rewrite all_bytes_app, Hp|]. split; [|done].
  unfold trim_blank. by rewrite <- trim_start_end, He.
Qed.

Lemma group_unmarked pr :
  pr_is_recordable pr = true → unmarked (" (" +:+ ("PR " +:+ pr) +:+ ")") EmptyString = true.
Proof. intros Hr. by rewrite (unmarked_app " ("), unmarked_app, recordable_unmarked. Qed.

Lemma note_unmarked pr v :
  pr_is_recordable pr = true → starts_with (String "183" EmptyString) v = false →
  unmarked (", " +:+ ("PR " +:+ pr)) v = true.
Proof.
  intros Hr Hv. rewrite (unmarked_app ", "), recordable_unmarked by done. by rewrite andb_true_r.
Qed.

Lemma tail_new pre tail done done' id row spans pr :
  parse_tail done id (String.length pre) tail = Some (row, spans) → rs_notes spans = None →
  tail_ok tail → pr_is_recordable pr = true →
  ∃ tail' spans',
    insert_at (rs_text_end spans) (" (" +:+ ("PR " +:+ pr) +:+ ")") (pre +:+ tail) = pre +:+ tail'
    ∧ tail_ok tail' ∧ row_notes row = None
    ∧ parse_tail done' id (String.length pre) tail' = Some (with_notes done' (Some ("PR " +:+ pr)) row, spans').
Proof.
  intros (ws1 & text & ws2 & clause & after & -> & H1 & H2 & Ht & Hne & Hc & Hp)%parse_tail_inv Hnone Hok Hr.
  assert (split_notes text = None ∧ row_notes row = None
    ∧ rs_text_end spans = String.length pre + String.length ws1 + String.length text) as (Hn & Hrow & Hend).
  { unfold parse_text in Hp. destruct (is_empty _); [done|]. injection Hp as <- <-. cbn in Hnone. cbn.
    by destruct (split_notes text). }
  pose proof (entry_facts pr Hr) as (Hup & Htb & _).
  set (c := " (" +:+ ("PR " +:+ pr) +:+ ")").
  assert (Hsplit : split_notes (text +:+ c) = Some (S (String.length text), "PR " +:+ pr, text))
    by by apply split_notes_new.
  destruct (parse_text_notes done done' id after _ text (text +:+ c) row spans _ Hp Hsplit) as [spans' Hp'];
    [by rewrite Hn|]. cbn [fst snd] in Hp'.
  assert (Htc : trim_blank (text +:+ c) = text +:+ c).
  { assert (trim_start_bytes blank text = text) as Hts
      by (rewrite <- Ht; unfold trim_blank; rewrite <- trim_start_end; apply trim_start_idem).
    assert (trim_end_bytes blank (text +:+ c) = text +:+ c) as Hec.
    { unfold c. rewrite <- !app_assoc. by apply trim_end_fixed_app. }
    unfold trim_blank. rewrite <- trim_start_end, Hec, trim_start_keep; by rewrite Hts. }
  exists ((ws1 +:+ (text +:+ c) +:+ ws2) +:+ clause), spans'. split; [|split; [|split; [done|]]].
  - replace (rs_text_end spans) with (String.length (pre +:+ ws1 +:+ text)) by (rewrite !length_app; lia).
    replace (pre +:+ (ws1 +:+ text +:+ ws2) +:+ clause) with ((pre +:+ ws1 +:+ text) +:+ ws2 +:+ clause)
      by by rewrite !app_assoc.
    rewrite insert_at_app. by rewrite !app_assoc.
  - replace ((ws1 +:+ (text +:+ c) +:+ ws2) +:+ clause) with ((ws1 +:+ text) +:+ c +:+ ws2 +:+ clause)
      by by rewrite !app_assoc.
    apply tail_ok_insert; [by (rewrite !app_assoc in Hok; rewrite !app_assoc)
      |by destruct ws1| |done].
    intros _. unfold c. rewrite <- app_assoc. by apply trim_end_fixed_app.
  - rewrite parse_tail_eq with (after := after); [exact Hp'|done|done|done|by destruct text|].
    replace (ws1 +:+ (text +:+ c) +:+ ws2) with ((ws1 +:+ text) +:+ c +:+ ws2) by by rewrite !app_assoc.
    apply clause_of_more; [by right| | |by rewrite app_assoc].
    + right. intros ->. rewrite app_nil_r in Hok. apply (tail_ok_blank (ws1 +:+ text)); [|done].
      by rewrite app_assoc.
    + intros ->. assert (ws2 = EmptyString) as ->.
      { rewrite app_nil_r in Hok. apply (tail_ok_blank (ws1 +:+ text)); [|done]. by rewrite app_assoc. }
      change (unmarked c EmptyString = true). by apply group_unmarked.
Qed.

Lemma take_drop_middle u b v : take_bytes (String.length b) (drop_bytes (String.length u) (u +:+ b +:+ v)) = b.
Proof. by rewrite drop_bytes_app, take_bytes_app. Qed.

Lemma trim_blank_trimmed text : trim_blank text = text → trim_start_bytes blank text = text ∧ trim_end_bytes blank text = text.
Proof.
  intros <-. unfold trim_blank. rewrite trim_end_idem. by rewrite <- trim_start_end, trim_start_idem.
Qed.

Lemma trim_start_fixed_app p a x y :
  a ≠ EmptyString → trim_start_bytes p (a +:+ x) = a +:+ x → trim_start_bytes p (a +:+ y) = a +:+ y.
Proof.
  destruct a as [|c a]; [done|]. intros _. rewrite !app_cons. cbn. destruct (p c); [|done]. intros H. exfalso.
  destruct (trim_start_split p (a +:+ x)) as (b & _ & Hb). rewrite H in Hb.
  apply (f_equal String.length) in Hb. rewrite !length_app in Hb. cbn [String.length] in Hb. rewrite ?length_app in Hb. lia.
Qed.

Lemma tail_more pre tail done done' id row spans open close pr :
  parse_tail done id (String.length pre) tail = Some (row, spans) → rs_notes spans = Some (open, close) →
  tail_ok tail → pr_is_recordable pr = true →
  let inner := take_bytes (close - S open) (drop_bytes (S open) (pre +:+ tail)) in
  row_notes row = Some (trim_blank inner)
  ∧ ∃ tail' spans',
    insert_at (S open + String.length (trim_end_bytes blank inner)) (", " +:+ ("PR " +:+ pr)) (pre +:+ tail)
    = pre +:+ tail'
    ∧ tail_ok tail'
    ∧ parse_tail done' id (String.length pre) tail'
      = Some (with_notes done' (Some (trim_blank inner +:+ ", " +:+ ("PR " +:+ pr))) row, spans').
Proof.
  intros (ws1 & text & ws2 & clause & after & -> & H1 & H2 & Ht & Hne & Hc & Hp)%parse_tail_inv Hsome Hok Hr.
  assert (∃ n, split_notes text = Some n ∧ row_notes row = Some n.1.2
    ∧ open = String.length pre + String.length ws1 + n.1.1
    ∧ close = String.length pre + String.length ws1 + String.length text - 1) as (n & Hn & Hrow & -> & ->).
  { unfold parse_text in Hp. destruct (is_empty _); [done|]. injection Hp as <- <-. cbn in Hsome. cbn.
    destruct (split_notes text) as [n|]; [|done]. injection Hsome as <- <-. by exists n. }
  pose proof Hn as Hn'. apply split_notes_inv in Hn' as (a & b & -> & Ho & -> & Ha & Hb).
  cbn [fst snd] in *. destruct (trim_end_split blank b) as (ws & Hws & Hbw).
  set (tb := trim_end_bytes blank b) in *. set (u := ws1 +:+ a +:+ "(").
  assert (Hopen : S (String.length pre + String.length ws1 + String.length a) = String.length (pre +:+ u))
    by (unfold u; rewrite !length_app; cbn; lia).
  rewrite Hopen.
  assert (Hin : take_bytes (String.length pre + String.length ws1 + String.length (a +:+ "(" +:+ b +:+ ")") - 1
      - String.length (pre +:+ u)) (drop_bytes (String.length (pre +:+ u))
        (pre +:+ (ws1 +:+ (a +:+ "(" +:+ b +:+ ")") +:+ ws2) +:+ clause)) = b).
  { replace (pre +:+ (ws1 +:+ (a +:+ "(" +:+ b +:+ ")") +:+ ws2) +:+ clause) with ((pre +:+ u) +:+ b +:+ ")" +:+ ws2 +:+ clause)
      by (unfold u; by rewrite !app_assoc).
    replace (_ - 1 - _) with (String.length b); [apply take_drop_middle|].
    unfold u. rewrite !length_app. cbn [String.length]. lia. }
  rewrite Hin. cbn zeta. split; [done|]. pose proof (entry_facts pr Hr) as (Hup & Htb & Hte).
  set (c := ", " +:+ ("PR " +:+ pr)). set (text' := a +:+ "(" +:+ (tb +:+ c +:+ ws) +:+ ")").
  assert (Hsplit : split_notes text' = Some (String.length a, trim_blank b +:+ c, trim_blank a)).
  { unfold text', c. rewrite Hbw at 1. apply split_notes_more; rewrite <- ?Hbw; try done.
    unfold tb. apply trim_end_idem. }
  edestruct (parse_text_notes done done' id after _ (a +:+ "(" +:+ b +:+ ")") text' row spans _ Hp Hsplit)
    as [spans' Hp']; [by rewrite Hn|]. cbn [fst snd] in Hp'.
  assert (Hnews : (ws1 +:+ text' +:+ ws2) +:+ clause = (u +:+ tb) +:+ c +:+ (ws +:+ ")") +:+ ws2 +:+ clause)
    by (unfold text', u; by rewrite !app_assoc).
  assert (Holds : (ws1 +:+ (a +:+ "(" +:+ b +:+ ")") +:+ ws2) +:+ clause
    = (u +:+ tb) +:+ (ws +:+ ")") +:+ ws2 +:+ clause) by (unfold u; rewrite Hbw at 1; by rewrite !app_assoc).
  exists ((ws1 +:+ text' +:+ ws2) +:+ clause), spans'. split; [|split].
  - rewrite Hnews, Holds, <- (app_assoc pre (u +:+ tb)). fold tb.
    rewrite <- (length_app (pre +:+ u) tb), (app_assoc pre u tb).
    by rewrite insert_at_app, !app_assoc.
  - rewrite Hnews. apply tail_ok_insert; [by rewrite <- Holds|unfold u; by destruct ws1, a|by destruct ws|done].
  - rewrite parse_tail_eq with (after := after); [exact Hp'|done|done| |unfold text'; by destruct a|].
    + apply trim_blank_trimmed in Ht as [Hts Hes].
      assert (Hes' : trim_end_bytes blank text' = text') by (unfold text'; rewrite <- !app_assoc; by apply trim_end_fixed_app).
      unfold trim_blank. rewrite <- trim_start_end, Hes'. eapply trim_start_fixed_app; [by destruct a|exact Hts].
    + replace (ws1 +:+ text' +:+ ws2) with ((u +:+ tb) +:+ c +:+ (ws +:+ ")") +:+ ws2)
        by (unfold text', u; by rewrite !app_assoc).
      apply clause_of_more; [by left|by left| |].
      * intros _. apply note_unmarked; [done|]. destruct ws as [|d ws]; [done|]. cbn in Hws.
        apply andb_true_iff in Hws as [[->%Ascii.eqb_eq| ->%Ascii.eqb_eq]%orb_true_iff _]; done.
      * replace ((u +:+ tb) +:+ (ws +:+ ")") +:+ ws2) with (ws1 +:+ (a +:+ "(" +:+ b +:+ ")") +:+ ws2); [done|].
        unfold u. rewrite Hbw at 1. by rewrite !app_assoc.
Qed.

(** ** The row line *)
Definition is_mark (done : bool) (mark : string) : Prop :=
  mark = (if done then "- [x] " else "- [ ] ") ∨ done = true ∧ mark = "- [X] ".

(** What precedes the tail of a row. *)
Definition row_head (mark id : string) : string := mark +:+ "**" +:+ id +:+ "**".

Lemma is_id_unstarred id : is_id id = true → all_bytes (λ c, negb (Ascii.eqb c "*")) id = true.
Proof.
  destruct id as [|c id]; [done|]. cbn. intros [Hc Hid]%andb_true_iff. apply andb_true_iff. split.
  - apply negb_true_iff, Ascii.eqb_neq. intros ->. done.
  - revert Hid. apply all_bytes_impl. intros d Hd. apply negb_true_iff, Ascii.eqb_neq. intros ->. done.
Qed.

Lemma row_prefix_eq done mark id tail :
  is_mark done mark → is_id id = true →
  row_prefix (row_head mark id +:+ tail) = Some (done, id, String.length (row_head mark id)).
Proof.
  intros Hm Hid. unfold row_head. rewrite !app_assoc.
  assert (Hsplit : split_once "**" (id +:+ "**" +:+ tail) = Some (id, tail)).
  { rewrite split_once_skip by by apply is_id_unstarred. rewrite split_once_here. cbn. by rewrite app_nil_r. }
  assert (Hlen : String.length (mark +:+ "**" +:+ id +:+ "**") = 6 + 2 + String.length id + 2).
  { rewrite !length_app. cbn [String.length]. destruct Hm as [->|[-> ->]]; [destruct done|]; cbn; lia. }
  rewrite Hlen. rewrite !app_cons, app_empty in Hsplit.
  destruct Hm as [->|[-> ->]]; [destruct done|]; unfold row_prefix; cbn;
    rewrite ?app_cons, ?app_empty; cbn; rewrite Hsplit; cbn; by rewrite Hid.
Qed.

Lemma row_prefix_inv line done id n :
  row_prefix line = Some (done, id, n) →
  ∃ mark tail, is_mark done mark ∧ is_id id = true ∧ line = row_head mark id +:+ tail
    ∧ n = String.length (row_head mark id).
Proof.
  intros H. assert (∃ mark rest, is_mark done mark ∧ line = mark +:+ "**" +:+ rest
    ∧ ∃ tail, split_once "**" rest = Some (id, tail) ∧ is_id id = true)
    as (mark & rest & Hm & -> & tail & Hs & Hid).
  { unfold row_prefix in H.
    assert (Hrest : ∀ d mark rest, is_mark d mark → line = mark +:+ rest →
      ('(done, rest) ← Some (d, rest); rest ← strip_prefix "**" rest; '(id, _) ← split_once "**" rest;
       if is_id id then Some (done, id, 6 + 2 + String.length id + 2) else None) = Some (done, id, n) →
      ∃ mark rest, is_mark done mark ∧ line = mark +:+ "**" +:+ rest
        ∧ ∃ tail, split_once "**" rest = Some (id, tail) ∧ is_id id = true).
    { intros d mark rest Hm -> Hr. cbn [mbind option_bind] in Hr.
      destruct (strip_prefix "**" rest) as [r|] eqn:E; [|done]. apply strip_prefix_some in E as ->.
      cbn [mbind option_bind] in Hr. destruct (split_once "**" r) as [[i t]|] eqn:E; [|done].
      cbn [mbind option_bind] in Hr. destruct (is_id i) eqn:Ei; [|done]. injection Hr as -> -> _.
      exists mark, r. split; [done|]. split; [done|]. by exists t. }
    destruct (strip_prefix "- [ ] " line) as [r|] eqn:E1.
    { apply strip_prefix_some in E1. by apply (Hrest false "- [ ] " r); [left|..]. }
    destruct (strip_prefix "- [x] " line) as [r|] eqn:E2.
    { apply strip_prefix_some in E2. by apply (Hrest true "- [x] " r); [left|..]. }
    destruct (strip_prefix "- [X] " line) as [r|] eqn:E3; [|done].
    apply strip_prefix_some in E3. by apply (Hrest true "- [X] " r); [right|..]. }
  apply split_once_eq in Hs as ->. exists mark, tail. split; [done|]. split; [done|].
  assert (Heq : mark +:+ "**" +:+ id +:+ "**" +:+ tail = row_head mark id +:+ tail)
    by (unfold row_head; by rewrite !app_assoc).
  rewrite Heq in *. split; [done|]. rewrite (row_prefix_eq done) in H by done. by injection H.
Qed.

Lemma tick_box_eq done mark id tail :
  is_mark done mark →
  ∃ mark', is_mark true mark' ∧ tick_box done (row_head mark id +:+ tail) = row_head mark' id +:+ tail
    ∧ String.length mark' = String.length mark.
Proof.
  intros [->|[-> ->]]; [destruct done|].
  - exists "- [x] ". split; [by left|]. done.
  - exists "- [x] ". split; [by left|]. done.
  - exists "- [X] ". split; [by right|]. done.
Qed.

(** ** The ticked row *)

(** The notes of a row with a reference in them, and the row with its box ticked. *)
Definition noted (entry : string) (notes : option string) : string :=
  match notes with
  | None => entry
  | Some notes => if names notes entry then notes else notes +:+ ", " +:+ entry
  end.

Definition ticked_notes (pr : option string) (notes : option string) : option string :=
  match pr with Some pr => Some (noted ("PR " +:+ pr) notes) | None => notes end.

Definition ticked (pr : option string) (row : Row) : Row :=
  with_notes true (ticked_notes pr (row_notes row)) row.

Lemma parse_tail_fields done id ts tail row spans :
  parse_tail done id ts tail = Some (row, spans) →
  row_done row = done ∧ (rs_notes spans = None ↔ row_notes row = None).
Proof.
  intros (ws1 & text & ws2 & clause & after & _ & _ & _ & _ & _ & _ & Hp)%parse_tail_inv.
  unfold parse_text in Hp. destruct (is_empty _); [done|]. injection Hp as <- <-. cbn.
  split; [done|]. by destruct (split_notes text).
Qed.

Lemma parse_tail_done done done' id ts tail row spans :
  parse_tail done id ts tail = Some (row, spans) →
  parse_tail done' id ts tail = Some (with_notes done' (row_notes row) row, spans).
Proof.
  intros (ws1 & text & ws2 & clause & after & -> & H1 & H2 & Ht & Hne & Hc & Hp)%parse_tail_inv.
  rewrite (parse_tail_eq _ _ _ _ _ _ _ after) by done. by apply (parse_text_done done).
Qed.

Lemma names_entry pr s : pr_is_recordable pr = true →
  names s ("PR " +:+ pr) = names (trim_blank s) ("PR " +:+ pr).
Proof.
  intros (_ & _ & Ht)%entry_facts. apply names_trimmed; [|done].
  intros c r [->%Ascii.eqb_eq| ->%Ascii.eqb_eq]%orb_true_iff; done.
Qed.

Lemma tail_ticked pre tail done id row spans pr :
  parse_tail done id (String.length pre) tail = Some (row, spans) → tail_ok tail →
  (∀ p, pr = Some p → pr_is_recordable p = true) →
  ∃ tail' spans',
    note_pr (pre +:+ tail) spans pr = pre +:+ tail' ∧ tail_ok tail'
    ∧ parse_tail true id (String.length pre) tail' = Some (ticked pr row, spans').
Proof.
  intros Hp Hok Hpr. pose proof (parse_tail_done _ true _ _ _ _ _ Hp) as Hd.
  destruct pr as [pr|]; [|by exists tail, spans]. specialize (Hpr pr eq_refl).
  unfold ticked, ticked_notes, note_pr. destruct (rs_notes spans) as [[open close]|] eqn:En.
  - destruct (tail_more _ _ _ true _ _ _ _ _ _ Hp En Hok Hpr) as (Hn & tail' & spans' & Hi & Hok' & Hp').
    rewrite names_entry, Hn by done. cbn [noted]. destruct (names _ _); [|by exists tail', spans'].
    rewrite Hn in Hd. by exists tail, spans.
  - destruct (tail_new _ _ _ true _ _ _ _ Hp En Hok Hpr) as (tail' & spans' & Hi & Hok' & Hn & Hp').
    rewrite Hn. by exists tail', spans'.
Qed.

(** A reference that the notes have got is one that they name: no match runs over the comma. *)
Lemma names_from_appended entry c0 rest k previous s :
  entry = String c0 rest → c0 ≠ ","%char → c0 ≠ " "%char →
  all_bytes (λ c, negb (Ascii.eqb c ",")) entry = true → k ≤ String.length s →
  names_from entry k previous (s +:+ ", " +:+ entry) = true.
Proof.
  intros He H1 H2 Hc. revert k previous. induction s as [|c s IH]; intros k previous Hk.
  - destruct k; [|cbn in Hk; lia]. rewrite app_empty, !app_cons, app_empty. cbn.
    assert (Hskip : ∀ d t, c0 ≠ d → strip_prefix entry (String d t) = None).
    { intros d t Hd. rewrite He. cbn. by destruct (Ascii.eqb_spec c0 d). }
    rewrite !Hskip by done. rewrite He at 2. cbn. rewrite <- He.
    rewrite <- (app_nil_r entry) at 2. by rewrite strip_prefix_app.
  - rewrite app_cons. cbn. destruct k as [|k]; [|apply IH; cbn in Hk; lia].
    destruct (strip_prefix entry _) as [following|] eqn:E; [|apply IH; lia].
    apply orb_true_iff. right. apply IH. apply strip_prefix_some in E.
    change (String c s +:+ (", " +:+ entry) = entry +:+ following) in E.
    apply split_cases in E as [(m & Hm & _)|(m & Hm & Hs)].
    { apply (f_equal String.length) in Hm. rewrite length_app in Hm. cbn in Hm. lia. }
    destruct m as [|d m]; [rewrite Hm, app_nil_r; cbn; lia|].
    exfalso. rewrite Hm, all_bytes_app in Hc. apply andb_true_iff in Hc as [_ Hc].
    injection Hs as <- _. done.
Qed.

Lemma noted_names pr notes :
  pr_is_recordable pr = true → names (noted ("PR " +:+ pr) notes) ("PR " +:+ pr) = true.
Proof.
  intros (_ & Hb & _)%recordable_bytes. set (entry := "PR " +:+ pr). unfold noted.
  destruct notes as [n|].
  - destruct (names n entry) eqn:E; [done|]. apply (names_from_appended entry "P" ("R " +:+ pr)); [reflexivity|discriminate|discriminate| |lia].
    unfold entry. rewrite all_bytes_app. apply andb_true_iff. split; [done|]. revert Hb. apply all_bytes_impl.
    unfold pr_byte. intros c. rewrite !andb_true_iff. tauto.
  - unfold names. rewrite <- (app_nil_r entry) at 2. change entry with (String "P" ("R " +:+ pr)) at 2.
    rewrite app_cons. cbn [names_from]. rewrite <- app_cons. fold entry. by rewrite strip_prefix_app.
Qed.

(** A reference that a row's notes name is not recorded again. *)
Lemma note_pr_named pre tail done id row spans pr n :
  parse_tail done id (String.length pre) tail = Some (row, spans) → tail_ok tail →
  pr_is_recordable pr = true → row_notes row = Some n → names n ("PR " +:+ pr) = true →
  note_pr (pre +:+ tail) spans (Some pr) = pre +:+ tail.
Proof.
  intros Hp Hok Hr Hn Hnames. unfold note_pr. destruct (rs_notes spans) as [[open close]|] eqn:En.
  - destruct (tail_more _ _ _ true _ _ _ _ _ _ Hp En Hok Hr) as (Hn' & _).
    rewrite names_entry by done. rewrite Hn in Hn'. apply (inj Some) in Hn'. rewrite <- Hn'. by rewrite Hnames.
  - apply parse_tail_fields in Hp as [_ Hnone]. apply Hnone in En. congruence.
Qed.

(** A line with the mark of a row. *)
Definition marked (line : string) : Prop := ∃ rest, line = "- [" +:+ rest.

Lemma row_head_marked done mark id tail : is_mark done mark → marked (row_head mark id +:+ tail).
Proof.
  unfold row_head, marked. rewrite !app_assoc.
  intros [->|[-> ->]]; [destruct done|]; rewrite ?app_cons, ?app_empty; by eexists.
Qed.

Lemma row_head_row_mark done mark id tail :
  is_mark done mark → existsb (λ m, starts_with m (row_head mark id +:+ tail)) ROW_MARKS = true.
Proof.
  intros Hm. apply existsb_exists. destruct Hm as [->|[-> ->]]; [destruct done|].
  - exists "- [x]". split; [by right; left|]. apply starts_with_true. by eexists.
  - exists "- [ ]". split; [by left|]. apply starts_with_true. by eexists.
  - exists "- [X]". split; [by right; right; left|]. apply starts_with_true. by eexists.
Qed.

Definition row_marked (line : string) : Prop :=
  marked line ∧ existsb (λ m, starts_with m line) ROW_MARKS = true.

Lemma row_ticked line row spans pr :
  parse_row line = Some (row, spans) → trim_end_bytes line_end line = line →
  (∀ p, pr = Some p → pr_is_recordable p = true) →
  let line' := tick_box (row_done row) (note_pr line spans pr) in
  marked line ∧ row_marked line' ∧ trim_end_bytes line_end line' = line'
  ∧ ∃ spans', parse_row line' = Some (ticked pr row, spans') ∧ note_pr line' spans' pr = line'.
Proof.
  intros Hp Htrim Hpr. unfold parse_row in Hp.
  destruct (row_prefix line) as [[[ticked_yet id] n]|] eqn:E; [|discriminate Hp].
  cbn [mbind option_bind] in Hp.
  apply row_prefix_inv in E as (mark & tail & Hm & Hid & -> & ->). rewrite drop_bytes_app in Hp.
  destruct (starts_with " " tail) eqn:Es; [|done]. cbn [negb] in Hp.
  assert (Hok : tail_ok tail) by (split; [done|]; apply trim_end_fixed_app in Htrim; [done|by intros ->]).
  pose proof (parse_tail_fields _ _ _ _ _ _ Hp) as [<- _].
  destruct (tail_ticked _ _ _ _ _ _ pr Hp Hok Hpr) as (tail' & spans' & -> & [Hs' Ht'] & Hp').
  destruct (tick_box_eq (row_done row) mark id tail' Hm) as (mark' & Hm' & -> & Hlen).
  split; [by eapply row_head_marked|]. split; [split; [by eapply row_head_marked|by eapply row_head_row_mark]|].
  assert (Htail : tail' ≠ EmptyString) by (by intros ->).
  split; [by apply trim_end_fixed_app|]. exists spans'.
  replace (String.length (row_head mark id)) with (String.length (row_head mark' id)) in Hp'
    by (unfold row_head; rewrite !(length_app mark), !(length_app mark'); by rewrite Hlen).
  split.
  - unfold parse_row. rewrite (row_prefix_eq true) by done. cbn [mbind option_bind].
    by rewrite drop_bytes_app, Hs'.
  - destruct pr as [pr|]; [|done]. eapply note_pr_named; [exact Hp'|by split|by apply Hpr|done|].
    by apply noted_names, Hpr.
Qed.

(** ** Theorems on the edits of a tracker

    A tick changes one row, as the grammar reads the body. *)
(** ** A row line replaced *)
Section position.
Context {A} (p : A → bool).

Lemma position_map l l' : p <$> l = p <$> l' → position p l = position p l'.
Proof.
  revert l'. induction l as [|x l IH]; intros [|y l'] H; try done. cbn in *. injection H as -> H.
  by rewrite (IH l').
Qed.

Lemma map_insert_same (l : list A) (i : nat) x y : l !! i = Some y → p x = p y → p <$> <[i := x]> l = p <$> l.
Proof.
  intros Hl Hp. rewrite list_fmap_insert. apply list_insert_id. by rewrite list_lookup_fmap, Hl, Hp.
Qed.
End position.

Lemma marked_plain line prefix : marked line → (∀ rest, prefix ≠ String "-" rest) → prefix ≠ EmptyString →
  strip_prefix prefix line = None.
Proof.
  intros [rest ->] Hp Hne. destruct prefix as [|c prefix]; [done|]. rewrite app_cons. cbn.
  destruct (Ascii.eqb_spec c "-") as [->|]; [by destruct (Hp prefix)|done].
Qed.

Lemma marked_heading line heading :
  marked line → eq_ignore_ascii_case line (String "#" heading) = false.
Proof. intros [rest ->]. unfold eq_ignore_ascii_case. rewrite app_cons. by apply bool_decide_eq_false. Qed.

Lemma section_insert lines i x y heading :
  lines !! i = Some y → marked x → marked y →
  section (<[i := x]> lines) (String "#" heading) = section lines (String "#" heading).
Proof.
  intros Hi Hx Hy.
  assert (Hh : ∀ line, marked line → eq_ignore_ascii_case line (String "#" heading) = false)
    by (intros line H; by apply marked_heading).
  assert (Hn : ∀ line, marked line → starts_with "## " line = false)
    by (intros line H; unfold starts_with; by rewrite marked_plain).
  unfold section.
  rewrite (position_map _ (<[i := x]> lines) lines)
    by by (eapply map_insert_same; [done|]; rewrite !Hh).
  destruct (position _ lines) as [start|]; [|done]. cbn [mbind option_bind].
  rewrite length_insert.
  rewrite (position_map _ (drop _ (<[i := x]> lines)) (drop (S start) lines)); [done|].
  rewrite !fmap_drop. f_equal. eapply map_insert_same; [done|]. by rewrite !Hn.
Qed.

(** A row as the scan places it. *)
Definition placed (phase : option string) (at_ : nat) (row : Row) : Row :=
  mk_Row (row_id row) (row_title row) (row_reference row) (row_notes row) (row_after row)
    (row_done row) phase (S at_).

Lemma scan_line_row at_ phase line row spans :
  row_marked line → parse_row line = Some (row, spans) →
  scan_line at_ phase line = (phase, Some (at_, RowLineRow (placed phase at_ row) spans)).
Proof.
  intros [Hm Hr] Hp. unfold scan_line. rewrite marked_plain by done. by rewrite Hr, Hp.
Qed.

Lemma scan_line_inv k phase line at_ row spans phase' :
  scan_line k phase line = (phase', Some (at_, RowLineRow row spans)) →
  at_ = k ∧ phase' = phase ∧ ∃ row0, parse_row line = Some (row0, spans) ∧ row = placed phase k row0.
Proof.
  unfold scan_line. destruct (strip_prefix _ line); [done|]. destruct (existsb _ _); [|done].
  destruct (parse_row line) as [[row0 spans0]|]; [|done]. intros [= <- <- <- <-].
  split; [done|]. split; [done|]. by exists row0.
Qed.

Lemma scan_from_split k phase lines l1 at_ row spans l2 :
  scan_from k phase lines = l1 ++ (at_, RowLineRow row spans) :: l2 →
  k ≤ at_ ∧ ∃ line row0 phase', lines !! (at_ - k) = Some line ∧ parse_row line = Some (row0, spans)
    ∧ row = placed phase' at_ row0
    ∧ ∀ line' row' spans', row_marked line' → parse_row line' = Some (row', spans') →
      scan_from k phase (<[at_ - k := line']> lines)
      = l1 ++ (at_, RowLineRow (placed phase' at_ row') spans') :: l2.
Proof.
  revert k phase l1. induction lines as [|line lines IH]; intros k phase l1 H; [by destruct l1|].
  cbn in H. destruct (scan_line k phase line) as [phase' found] eqn:E.
  assert (Hnext : ∀ l1', scan_from (S k) phase' lines = l1' ++ (at_, RowLineRow row spans) :: l2 →
    l1 = option_list found ++ l1' → 
    k ≤ at_ ∧ ∃ line0 row0 phase', (line :: lines) !! (at_ - k) = Some line0 ∧ parse_row line0 = Some (row0, spans)
    ∧ row = placed phase' at_ row0
    ∧ ∀ line' row' spans', row_marked line' → parse_row line' = Some (row', spans') →
      scan_from k phase (<[at_ - k := line']> (line :: lines))
      = l1 ++ (at_, RowLineRow (placed phase' at_ row') spans') :: l2).
  { intros l1' H' ->. apply IH in H' as (Hk & line0 & row0 & ph & Hl & Hp & Hr & Hnew).
    split; [lia|]. exists line0, row0, ph. replace (at_ - k) with (S (at_ - S k)) by lia.
    split; [done|]. split; [done|]. split; [done|]. intros line' row' spans' Hm Hp'.
    change (<[S (at_ - S k) := line']> (line :: lines)) with (line :: <[at_ - S k := line']> lines).
    cbn [scan_from]. rewrite E.
    by rewrite (Hnew line' row' spans'), List.app_assoc. }
  destruct found as [y|]; [|by apply (Hnext l1)].
  destruct l1 as [|z l1]; [|injection H as -> H; by apply (Hnext l1)].
  injection H as -> <-. apply scan_line_inv in E as (-> & -> & row0 & Hp & ->).
  split; [done|]. exists line, row0, phase. rewrite Nat.sub_diag. split; [done|]. split; [done|].
  split; [done|]. intros line' row' spans' Hm Hp'. cbn. by rewrite (scan_line_row _ _ _ row' spans').
Qed.

Lemma scan_split lines l1 at_ row spans l2 :
  scan lines = l1 ++ (at_, RowLineRow row spans) :: l2 →
  ∃ line row0 phase, lines !! at_ = Some line ∧ parse_row line = Some (row0, spans)
    ∧ row = placed phase at_ row0
    ∧ ∀ line' row' spans', marked line → row_marked line' → parse_row line' = Some (row', spans') →
      scan (<[at_ := line']> lines) = l1 ++ (at_, RowLineRow (placed phase at_ row') spans') :: l2.
Proof.
  unfold scan at 1. destruct (section lines PHASE_TABLE) as [table|] eqn:E; [|by destruct l1].
  intros (Hk & line & row0 & ph & Hl & Hp & Hr & Hnew)%scan_from_split.
  set (s := S (sc_heading table)) in *.
  assert (Hlt : at_ - s < sc_end table - s).
  { apply lookup_lt_Some in Hl. rewrite length_take in Hl. lia. }
  rewrite lookup_take_lt, lookup_drop in Hl by done. replace (s + (at_ - s)) with at_ in Hl by lia.
  exists line, row0, ph. split; [done|]. split; [done|]. split; [done|].
  intros line' row' spans' Hm Hm' Hp'. unfold scan.
  change PHASE_TABLE with (String "#" "# phase table") in *.
  rewrite (section_insert _ _ _ line) by (try done; apply Hm'). rewrite E. fold s.
  rewrite drop_insert_ge, take_insert_lt by lia. by apply Hnew.
Qed.

(** ** Lines of the body *)
Lemma insert_one_line n t s : one_line t = true → one_line s = true → one_line (insert_at n t s) = true.
Proof.
  intros Ht Hs. unfold insert_at. repeat apply app_one_line; [by apply take_one_line|done|by apply drop_one_line].
Qed.

Lemma ticked_one_line row_done line spans pr :
  one_line line = true → (∀ p, pr = Some p → pr_is_recordable p = true) →
  one_line (tick_box row_done (note_pr line spans pr)) = true.
Proof.
  intros Hl Hpr. assert (Hn : one_line (note_pr line spans pr) = true).
  { unfold note_pr. destruct pr as [pr|]; [|done].
    assert (Hp : one_line pr = true).
    { specialize (Hpr pr eq_refl). apply recordable_bytes in Hpr as (_ & Hb & _). revert Hb.
      apply all_bytes_impl. unfold pr_byte. intros c. rewrite !andb_true_iff, negb_true_iff.
      intros [[[H _] _] _]. apply negb_true_iff, Ascii.eqb_neq. by intros ->. }
    assert (He : one_line ("PR " +:+ pr) = true) by by apply app_one_line.
    destruct (rs_notes spans) as [[open close]|]; [destruct (names _ _); [done|]|];
      apply insert_one_line; try done; repeat apply app_one_line; done. }
  unfold tick_box. destruct row_done; [done|].
  repeat apply app_one_line; [by apply take_one_line|done|by apply drop_one_line].
Qed.

Lemma line_text_split raw : ∃ ending, all_bytes line_end ending = true ∧ raw = line_text raw +:+ ending.
Proof. apply trim_end_split. Qed.

(** ** The rows of a scan *)
Lemma elem_of_inserted {A} (l : list A) i x y : y ∈ <[i := x]> l → y = x ∨ y ∈ l.
Proof.
  intros (j & Hj)%list_elem_of_lookup. apply list_lookup_insert_Some in Hj as [(_ & -> & _)|[_ Hj]]; [by left|].
  right. by eapply list_elem_of_lookup_2.
Qed.

Lemma omap_one {A B} (f : A → option B) l y :
  omap f l = [y] → ∃ l1 x l2, l = l1 ++ x :: l2 ∧ f x = Some y ∧ omap f l1 = [] ∧ omap f l2 = [].
Proof.
  induction l as [|x l IH]; [done|]. cbn. destruct (f x) as [z|] eqn:E; cbn.
  - intros [= -> H]. by exists [], x, l.
  - intros (l1 & x' & l2 & -> & Hx & H1 & H2)%IH. exists (x :: l1), x', l2. cbn. by rewrite E.
Qed.

Lemma scanned_length found :
  length found = length (omap scanned_row found) + length (omap scanned_malformed found).
Proof.
  induction found as [|[at_ [row spans|shown]] found IH]; [done| |]; cbn; rewrite IH; lia.
Qed.

Lemma scan_placed lines at_ row spans : (at_, RowLineRow row spans) ∈ scan lines → row_line row = S at_.
Proof.
  intros (l1 & l2 & H)%list_elem_of_split. apply scan_split in H as (? & row0 & ? & _ & _ & -> & _). done.
Qed.

Lemma rows_of_named item found :
  (λ r, r.1.2) <$> rows_of item found
  = List.filter (λ row, row_id row ==? item) (omap scanned_row found).
Proof.
  unfold rows_of. induction found as [|[at_ [row spans|shown]] found IH]; [done| |done]. cbn.
  destruct (row_id row ==? item); cbn; [f_equal|]; exact IH.
Qed.

Lemma rows_of_lines item found :
  (∀ at_ row spans, (at_, RowLineRow row spans) ∈ found → row_line row = S at_) →
  (λ r, S r.1.1) <$> rows_of item found = row_line <$> ((λ r, r.1.2) <$> rows_of item found).
Proof.
  induction found as [|[at_ [row spans|shown]] found IH]; intros H; [done| |].
  - assert (IH' := IH (λ a r s h, H a r s (list_elem_of_further _ _ _ h))).
    unfold rows_of in *. cbn. destruct (row_id row ==? item); cbn; [|done].
    rewrite (H at_ row spans) by by left. f_equal. exact IH'.
  - apply IH. intros a r s h. apply (H a r s). by right.
Qed.

Lemma malformed_of_malformed item found line :
  line ∈ malformed_of item found → line ∈ omap scanned_malformed found.
Proof.
  intros ([at_ [row spans|shown]] & Hin & H)%list_elem_of_omap; cbn in H; [done|].
  apply list_elem_of_omap. exists (at_, RowLineMalformed shown). split; [done|].
  destruct (shown ==? Some item); [|done]. exact H.
Qed.

Lemma rows_of_one item found at_ row spans :
  rows_of item found = [(at_, row, spans)] →
  ∃ l1 l2, found = l1 ++ (at_, RowLineRow row spans) :: l2 ∧ row_id row = item.
Proof.
  intros (l1 & [a [r s|shown]] & l2 & -> & Hx & _ & _)%omap_one; [|done]. cbn in Hx.
  destruct (row_id r ==? item) eqn:E; [|done]. injection Hx as -> -> ->. apply bool_decide_eq_true in E.
  by exists l1, l2.
Qed.

Lemma edited_body body item pr at_ row spans :
  (∀ p, pr = Some p → pr_is_recordable p = true) →
  let raw := split_char newline body in
  let lines := line_text <$> raw in
  rows_of item (scan lines) = [(at_, row, spans)] →
  let before := default EmptyString (lines !! at_) in
  let after := tick_box (row_done row) (note_pr before spans pr) in
  ∃ ending l1 l2,
    raw !! at_ = Some (before +:+ ending)
    ∧ split_char newline (join nl (<[at_ := after +:+ ending]> raw)) = <[at_ := after +:+ ending]> raw
    ∧ drop_bytes (String.length before) (default EmptyString (raw !! at_)) = ending
    ∧ scan lines = l1 ++ (at_, RowLineRow row spans) :: l2
    ∧ row_line row = S at_
    ∧ ∃ spans', scan (line_text <$> <[at_ := after +:+ ending]> raw)
        = l1 ++ (at_, RowLineRow (ticked pr row) spans') :: l2
      ∧ line_text (after +:+ ending) = after ∧ note_pr after spans' pr = after.
Proof.
  intros Hpr raw lines Hrows.
  apply rows_of_one in Hrows as (l1 & l2 & Hscan & Hid).
  destruct (scan_split _ _ _ _ _ _ Hscan) as (line & row0 & ph & Hl & Hp & -> & Hnew).
  rewrite Hl. cbn [default from_option id placed row_done]. cbn zeta.
  unfold lines in Hl. rewrite list_lookup_fmap in Hl. destruct (raw !! at_) as [seg|] eqn:Hs; [|done].
  cbn in Hl. injection Hl as <-. destruct (line_text_split seg) as (ending & He & Hseg).
  assert (Htrim : trim_end_bytes line_end (line_text seg) = line_text seg) by apply trim_end_idem.
  destruct (row_ticked _ _ _ pr Hp Htrim Hpr) as (Hm & Hm' & Htrim' & spans' & Hp' & Hnote).
  assert (Hone : one_line seg = true) by (apply (split_char_free _ body); by eapply list_elem_of_lookup_2).
  pose proof Hone as Hone'. rewrite Hseg in Hone'. unfold one_line in Hone'. rewrite all_bytes_app in Hone'.
  apply andb_true_iff in Hone' as [Hone1 Hone2].
  exists ending, l1, l2. split; [by rewrite <- Hseg|]. split; [|split; [|split; [done|split; [done|]]]].
  - apply split_char_join_free.
    + intros H%(f_equal length). rewrite length_insert in H. by apply lookup_lt_Some in Hs; cbn in H; lia.
    + intros w [->|Hw]%elem_of_inserted; [|by apply (split_char_free _ body)].
      by apply app_one_line; [apply ticked_one_line|].
  - cbn [default from_option id]. rewrite Hseg at 2. by rewrite drop_bytes_app.
  - exists spans'. assert (Htext : line_text (tick_box (row_done row0) (note_pr (line_text seg) spans pr) +:+ ending)
      = tick_box (row_done row0) (note_pr (line_text seg) spans pr))
      by (unfold line_text at 1; by rewrite trim_end_app, Htrim').
    split; [|done]. rewrite list_fmap_insert, Htext. exact (Hnew _ (ticked pr row0) spans' Hm Hm' Hp').
Qed.

Lemma bad_pr pr : is_some_and pr (λ pr, negb (pr_is_recordable pr)) = true →
  ∃ p, pr = Some p ∧ pr_is_recordable p = false.
Proof. destruct pr as [p|]; [|done]. intros H%negb_true_iff. by exists p. Qed.

Lemma good_pr pr : is_some_and pr (λ pr, negb (pr_is_recordable pr)) = false →
  ∀ p, pr = Some p → pr_is_recordable p = true.
Proof. intros H p ->. by apply negb_false_iff in H. Qed.

(** A tick that was made finds its row ticked and its reference recorded. *)
Lemma ticked_again body item pr e :
  tick body item pr = Ok e →
  tick (te_body e) item pr = Ok (mk_TickEdit (te_body e) (te_line e) (te_after e) (te_after e)).
Proof.
  unfold tick at 1. set (raw := split_char newline body). set (lines := line_text <$> raw).
  destruct (is_some_and pr _) eqn:Epr; [done|]. pose proof (good_pr pr Epr) as Hpr.
  destruct (MAX_ROWS <? _) eqn:Emax; [done|].
  destruct (malformed_of item (scan lines)) eqn:Em; [cbn [negb length bool_decide]|done].
  destruct (rows_of item (scan lines)) as [|[[at_ row] spans] [|r rs]] eqn:Er; [done| |done].
  destruct (edited_body body item pr at_ row spans Hpr Er)
    as (ending & l1 & l2 & Hseg & Hsplit & Hdrop & Hscan & Hline & spans' & Hnew & Htext & Hnote).
  fold raw in Hseg, Hsplit, Hdrop, Hscan, Hnew, Htext, Hnote.
  fold lines in Hseg, Hsplit, Hdrop, Hscan, Hnew, Htext, Hnote. rewrite Hdrop.
  set (after := tick_box (row_done row) (note_pr (default EmptyString (lines !! at_)) spans pr)) in *.
  intros [= <-]. cbn [te_body te_line te_after]. unfold tick. rewrite Epr, Hsplit, Hnew.
  destruct (rows_of_one _ _ _ _ _ Er) as (_ & _ & _ & Hid). rewrite Hscan in Em, Er, Emax.
  assert (Hlen : length (l1 ++ (at_, RowLineRow (ticked pr row) spans') :: l2)
    = length (l1 ++ (at_, RowLineRow row spans) :: l2)) by by rewrite !List.length_app.
  assert (Hmal : malformed_of item (l1 ++ (at_, RowLineRow (ticked pr row) spans') :: l2) = [])
    by (rewrite <- Em; unfold malformed_of; by rewrite !omap_app).
  assert (Hrows : rows_of item (l1 ++ (at_, RowLineRow (ticked pr row) spans') :: l2)
    = [(at_, ticked pr row, spans')]).
  { unfold rows_of in *. rewrite omap_app in *. cbn [omap list_omap snd fst] in *.
    change (row_id (ticked pr row)) with (row_id row). rewrite (bool_decide_eq_true_2 (row_id row = item)) in * by done.
    destruct (omap _ l1) as [|x [|? ?]]; [|discriminate Er..]. injection Er as ->. done. }
  rewrite Hlen, Emax, Hmal, Hrows. cbn [negb].
  assert (Hlt : at_ < length raw) by (by eapply lookup_lt_Some).
  rewrite list_lookup_fmap, list_lookup_insert_eq by done. cbn [fmap option_fmap option_map default from_option id].
  rewrite Htext. change (row_done (ticked pr row)) with true. cbn [tick_box]. rewrite Hnote, drop_bytes_app.
  by rewrite list_insert_insert_eq.
Qed.

(** C17: A tick of an item: where one row has the id, its box is ticked and the reference is in its
    notes, no other row and no other line changes, and the id, title, reference, dependencies
    and phase of the row are what they were, as the row grammar reads the edited body; every
    refusal states its cause. *)
Theorem ticking_changes_one_row body item pr :
  let table := parse body in
  let named := List.filter (λ row, row_id row ==? item) (tb_rows table) in
  match tick body item pr with
  | Ok e =>
      ∃ earlier row later ending,
        tb_rows table = earlier ++ row :: later ∧ named = [row] ∧ te_line e = row_line row
        ∧ parse (te_body e) = mk_Table (earlier ++ ticked pr row :: later) (tb_malformed table)
        ∧ split_char newline body !! pred (te_line e) = Some (te_before e +:+ ending)
        ∧ split_char newline (te_body e)
          = <[pred (te_line e) := te_after e +:+ ending]> (split_char newline body)
  | Err InvalidPr => ∃ p, pr = Some p ∧ pr_is_recordable p = false
  | Err TooManyItems => MAX_ROWS < length (tb_rows table) + length (tb_malformed table)
  | Err (MalformedItem lines) => lines ≠ [] ∧ ∀ line, line ∈ lines → line ∈ tb_malformed table
  | Err UnknownItem => named = []
  | Err (DuplicateItem lines) => lines = row_line <$> named ∧ 1 < length named
  end.
Proof.
  intros table named. unfold tick. set (raw := split_char newline body). set (lines := line_text <$> raw).
  assert (Htable : table = table_of (scan lines)) by done.
  destruct (is_some_and pr _) eqn:Epr; [by apply bad_pr|]. pose proof (good_pr pr Epr) as Hpr.
  destruct (MAX_ROWS <? _) eqn:Emax; [apply Nat.ltb_lt in Emax; rewrite Htable; cbn; by rewrite <- scanned_length|].
  destruct (negb _) eqn:Em.
  { split; [by intros H; rewrite H in Em|]. rewrite Htable. cbn. apply malformed_of_malformed. }
  assert (Hnamed : named = (λ r, r.1.2) <$> rows_of item (scan lines)) by (symmetry; apply rows_of_named).
  destruct (rows_of item (scan lines)) as [|[[at_ row] spans] [|r rs]] eqn:Er; [done| |].
  - destruct (edited_body body item pr at_ row spans Hpr Er)
      as (ending & l1 & l2 & Hseg & Hsplit & Hdrop & Hscan & Hline & spans' & Hnew & _).
    fold raw in Hseg, Hsplit, Hdrop, Hscan, Hnew. fold lines in Hseg, Hsplit, Hdrop, Hscan, Hnew.
    cbn [te_body te_line te_before te_after pred]. rewrite Hdrop.
    exists (omap scanned_row l1), row, (omap scanned_row l2), ending.
    rewrite Htable. cbn [table_of tb_rows tb_malformed].
    split; [by rewrite Hscan, omap_app|]. split; [done|]. split; [done|]. split; [|done].
    unfold parse, tracker_lines. rewrite Hsplit, Hnew, Hscan. unfold table_of. by rewrite !omap_app.
  - rewrite Hnamed. split; [|cbn; lia]. rewrite <- Er. apply rows_of_lines, scan_placed.
Qed.
