(* ===== verification/TrackerGraphFacts.v ===== *)
(** * Theorems on the graph of a tracker

    A written dependency graph is the one that lint reads back, and the rows stay. *)
From S2P Require Import Prelude RStr Collections Error Report Tracker TrackerFacts TrackerEditFacts.
From stdpp Require Import options.

(** ** Sections as contents *)
Definition level2 (line : string) : bool := starts_with "## " line.
Definition is_heading (h line : string) : bool := eq_ignore_ascii_case line h.

Fixpoint until2 (l : list string) : list string :=
  match l with
  | [] => []
  | x :: l => if level2 x then [] else x :: until2 l
  end.

(** The lines of the first section of a heading. *)
Fixpoint contents (h : string) (l : list string) : option (list string) :=
  match l with
  | [] => None
  | x :: l => if is_heading h x then Some (until2 l) else contents h l
  end.

Definition plain_lines (l : list string) : Prop := Forall (λ x, level2 x = false) l.

Lemma until2_app l d : plain_lines l → until2 (l ++ d) = l ++ until2 d.
Proof. induction 1 as [|x l Hx _ IH]; [done|]. cbn. by rewrite Hx, IH. Qed.

Lemma until2_cut l x d d' : level2 x = true → until2 (l ++ x :: d) = until2 (l ++ x :: d').
Proof. intros Hx. induction l as [|y l IH]; cbn; [by rewrite Hx|]. destruct (level2 y); [done|]. by rewrite IH. Qed.

Lemma until2_split l : ∃ d, l = until2 l ++ d ∧ plain_lines (until2 l) ∧ (d = [] ∨ ∃ x d', d = x :: d' ∧ level2 x = true).
Proof.
  induction l as [|x l (d & Hl & Hp & Hd)]; [by exists []; repeat split; [constructor|left]|]. cbn.
  destruct (level2 x) eqn:E.
  - exists (x :: l). split; [done|]. split; [constructor|]. right. by exists x, l.
  - exists d. split; [by rewrite <- app_comm_cons, <- Hl|]. split; [by constructor|done].
Qed.

(** A heading of the sections that the tracker names. *)
Class LevelTwo (h : string) : Prop := level_two line : is_heading h line = true → level2 line = true.

Lemma lower_hash c : to_ascii_lowercase_byte c = "#"%char → c = "#"%char.
Proof. destruct c as [[] [] [] [] [] [] [] []]; by vm_compute. Qed.
Lemma lower_space c : to_ascii_lowercase_byte c = " "%char → c = " "%char.
Proof. destruct c as [[] [] [] [] [] [] [] []]; by vm_compute. Qed.

Lemma lower_level2 line h :
  to_ascii_lowercase line = String "#" (String "#" (String " " h)) → level2 line = true.
Proof.
  destruct line as [|a [|b [|c line]]]; try done. unfold to_ascii_lowercase. cbn.
  by intros [= ->%lower_hash ->%lower_hash ->%lower_space _].
Qed.

#[export] Instance phase_level : LevelTwo PHASE_TABLE.
Proof. intros line H%bool_decide_eq_true. eapply lower_level2. etransitivity; [exact H|reflexivity]. Qed.
#[export] Instance graph_level : LevelTwo DEPENDENCY_GRAPH.
Proof. intros line H%bool_decide_eq_true. eapply lower_level2. etransitivity; [exact H|reflexivity]. Qed.

(** ** The section of a heading *)
Lemma drop_past {A} (a : list A) x r : drop (S (length a)) (a ++ x :: r) = r.
Proof. induction a as [|y a IH]; [done|]. exact IH. Qed.

Lemma position_app_none {A} (p : A → bool) l1 l2 :
  Forall (λ x, p x = false) l1 → position p (l1 ++ l2) = Nat.add (length l1) <$> position p l2.
Proof.
  induction 1 as [|x l Hx _ IH]; [cbn; by destruct (position p l2)|]. cbn. rewrite Hx, IH.
  by destruct (position p l2).
Qed.

Lemma position_is_none {A} (p : A → bool) l : position p l = None ↔ Forall (λ x, p x = false) l.
Proof.
  split.
  - induction l as [|x l IH]; cbn; [constructor|]. destruct (p x) eqn:E; [done|].
    destruct (position p l); [done|]. intros _. constructor; [done|by apply IH].
  - intros H. rewrite <- (List.app_nil_r l), position_app_none by done. done.
Qed.

Section a_heading.
Context (h : string).

(** A section is its heading, the lines before it and its contents. *)
Lemma section_eq a hd c d :
  Forall (λ x, is_heading h x = false) a → is_heading h hd = true → plain_lines c →
  d = [] ∨ (∃ x d', d = x :: d' ∧ level2 x = true) →
  section (a ++ hd :: c ++ d) h = Some (mk_Section (length a) (S (length a) + length c)).
Proof.
  intros Ha Hh Hc Hd. unfold section.
  change (λ line, eq_ignore_ascii_case line h) with (is_heading h).
  rewrite position_app_none by done. cbn [position]. rewrite Hh. cbn [fmap option_fmap option_map mbind option_bind].
  rewrite Nat.add_0_r. rewrite drop_past.
  change (starts_with "## ") with level2. rewrite position_app_none by done.
  destruct Hd as [->|(x & d' & -> & Hx)]; cbn [position]; rewrite ?Hx; cbn [fmap option_fmap option_map from_option].
  - rewrite List.app_nil_r, List.length_app. cbn. do 2 f_equal. lia.
  - rewrite Nat.add_0_r. done.
Qed.

Lemma section_none l : section l h = None ↔ Forall (λ x, is_heading h x = false) l.
Proof.
  unfold section. change (λ line, eq_ignore_ascii_case line h) with (is_heading h).
  rewrite <- position_is_none. by destruct (position _ l).
Qed.

Lemma section_inv l s :
  section l h = Some s →
  ∃ a hd c d, l = a ++ hd :: c ++ d ∧ Forall (λ x, is_heading h x = false) a ∧ is_heading h hd = true
    ∧ plain_lines c ∧ (d = [] ∨ ∃ x d', d = x :: d' ∧ level2 x = true)
    ∧ s = mk_Section (length a) (S (length a) + length c).
Proof.
  intros H. assert (Hl : ∃ a hd r, l = a ++ hd :: r ∧ Forall (λ x, is_heading h x = false) a ∧ is_heading h hd = true).
  { destruct (position (is_heading h) l) as [i|] eqn:E;
      [|apply position_is_none, section_none in E; congruence].
    clear H. revert i E. induction l as [|x l IH]; intros i E; [done|]. cbn in E.
    destruct (is_heading h x) eqn:Ex; [by exists [], x, l|].
    destruct (position _ l) as [j|]; [|done]. destruct (IH j eq_refl) as (a & hd & r & -> & Ha & Hh).
    exists (x :: a), hd, r. split; [done|]. split; [by constructor|done]. }
  destruct Hl as (a & hd & r & -> & Ha & Hh). destruct (until2_split r) as (d & Hr & Hp & Hd).
  rewrite Hr in H. rewrite section_eq in H by done. injection H as <-.
  exists a, hd, (until2 r), d. by rewrite <- Hr.
Qed.

Lemma contents_skip a l :
  Forall (λ x, is_heading h x = false) a → contents h (a ++ l) = contents h l.
Proof. induction 1 as [|x a Hx _ IH]; [done|]. cbn. by rewrite Hx. Qed.

Lemma section_contents l :
  contents h l = (λ s, take (sc_end s - S (sc_heading s)) (drop (S (sc_heading s)) l)) <$> section l h.
Proof.
  destruct (section l h) as [s|] eqn:E.
  - apply section_inv in E as (a & hd & c & d & -> & Ha & Hh & Hc & Hd & ->). cbn [fmap option_fmap option_map sc_end sc_heading].
    rewrite contents_skip by done. cbn [contents]. rewrite Hh. rewrite drop_past.
    replace (_ - _) with (length c) by lia. rewrite take_app_length, until2_app by done.
    f_equal. destruct Hd as [->|(x & d' & -> & Hx)]; cbn; rewrite ?Hx; by rewrite List.app_nil_r.
  - apply section_none in E. cbn. rewrite <- (List.app_nil_r l). by rewrite contents_skip.
Qed.
End a_heading.

(** ** The block of the graph *)
Definition lacks_line (x : string) (l : list string) : Prop := Forall (λ y, (y ==? x) = false) l.

Lemma find_line_eq l x start stop a b :
  take (stop - start) (drop start l) = a ++ x :: b → lacks_line x a →
  find_line l x start stop = Some (start + length a).
Proof.
  intros Hl Ha. unfold find_line. rewrite Hl, position_app_none by done. cbn.
  rewrite bool_decide_eq_true_2 by done. cbn. by rewrite Nat.add_0_r.
Qed.

Lemma find_line_inv l x start stop i :
  find_line l x start stop = Some i →
  ∃ a b, take (stop - start) (drop start l) = a ++ x :: b ∧ lacks_line x a ∧ i = start + length a.
Proof.
  unfold find_line. generalize (take (stop - start) (drop start l)). intros s H.
  destruct (position _ s) as [j|] eqn:E; [|done]. injection H as <-.
  revert j E. induction s as [|y s IH]; intros j E; [done|]. cbn in E. destruct (y ==? x) eqn:Ey.
  - injection E as <-. apply bool_decide_eq_true in Ey as ->. exists [], s. split; [done|].
    split; [constructor|cbn; lia].
  - destruct (position _ s) as [k|]; [|done]. injection E as <-.
    destruct (IH k eq_refl) as (a & b & -> & Ha & Hi). exists (y :: a), b. split; [done|].
    split; [by constructor|cbn in *; lia].
Qed.

(** A section that holds a block. *)
Definition with_block (c1 c2 c3 : list string) : list string := c1 ++ OPEN_FENCE :: c2 ++ CLOSE_FENCE :: c3.

Record in_section (a : list string) (hd : string) (c d : list string) : Prop := mk_in_section {
  is_before : Forall (λ x, is_heading DEPENDENCY_GRAPH x = false) a;
  is_head : is_heading DEPENDENCY_GRAPH hd = true;
  is_plain : plain_lines c;
  is_next : d = [] ∨ ∃ x d', d = x :: d' ∧ level2 x = true }.

Lemma take_slice {A} (a : list A) x c d n : n = S (length a) + length c → take (n - S (length a)) (drop (S (length a)) (a ++ x :: c ++ d)) = c.
Proof. intros ->. rewrite drop_past. replace (_ - _) with (length c) by lia. apply take_app_length. Qed.

Lemma locate_block a hd c1 c2 c3 d :
  in_section a hd (with_block c1 c2 c3) d → lacks_line OPEN_FENCE c1 → lacks_line CLOSE_FENCE c2 →
  locate_graph (a ++ hd :: with_block c1 c2 c3 ++ d)
  = Block (S (length a) + length c1) (S (S (length a) + length c1) + length c2).
Proof.
  intros [Ha Hh Hc Hd] H1 H2. unfold locate_graph. rewrite section_eq by done. cbn [sc_heading sc_end].
  rewrite (find_line_eq _ _ _ _ c1 (c2 ++ CLOSE_FENCE :: c3)); [|by apply take_slice|done].
  cbn [mbind option_bind]. rewrite (find_line_eq _ _ _ _ c2 c3); [done| |done].
  unfold with_block at 1. 
  replace (a ++ hd :: with_block c1 c2 c3 ++ d) with ((a ++ hd :: c1) ++ OPEN_FENCE :: (c2 ++ CLOSE_FENCE :: c3) ++ d)
    by (unfold with_block; rewrite <- !List.app_assoc; cbn; by rewrite <- ?List.app_assoc).
  replace (S (length a) + length c1) with (length (a ++ hd :: c1)) by (rewrite List.length_app; cbn; lia).
  apply take_slice. unfold with_block. rewrite !List.length_app. cbn. rewrite !List.length_app. cbn. lia.
Qed.

Lemma block_graph a hd c1 c2 c3 d :
  in_section a hd (with_block c1 c2 c3) d → lacks_line OPEN_FENCE c1 → lacks_line CLOSE_FENCE c2 →
  graph_of_lines (a ++ hd :: with_block c1 c2 c3 ++ d) = Some c2.
Proof.
  intros H H1 H2. unfold graph_of_lines. rewrite locate_block by done. f_equal.
  replace (a ++ hd :: with_block c1 c2 c3 ++ d) with ((a ++ hd :: c1) ++ OPEN_FENCE :: c2 ++ (CLOSE_FENCE :: c3 ++ d))
    by (unfold with_block; rewrite <- !List.app_assoc; cbn; by rewrite <- ?List.app_assoc).
  replace (S (length a) + length c1) with (length (a ++ hd :: c1)) by (rewrite List.length_app; cbn; lia).
  by apply take_slice.
Qed.

Lemma locate_graph_inv l :
  match locate_graph l with
  | Block open close =>
      ∃ a hd c1 c2 c3 d, l = a ++ hd :: with_block c1 c2 c3 ++ d ∧ in_section a hd (with_block c1 c2 c3) d
        ∧ lacks_line OPEN_FENCE c1 ∧ lacks_line CLOSE_FENCE c2
        ∧ open = S (length a) + length c1 ∧ close = S open + length c2
  | NoBlock heading => ∃ a hd c d, l = a ++ hd :: c ++ d ∧ in_section a hd c d ∧ heading = length a
  | NoSection => Forall (λ x, is_heading DEPENDENCY_GRAPH x = false) l
  end.
Proof.
  unfold locate_graph. destruct (section l DEPENDENCY_GRAPH) as [s|] eqn:E; [|by apply section_none].
  apply section_inv in E as (a & hd & c & d & -> & Ha & Hh & Hc & Hd & ->). cbn [sc_heading sc_end].
  assert (Hin : in_section a hd c d) by done.
  destruct (find_line _ OPEN_FENCE _ _) as [open|] eqn:Eo; [|by exists a, hd, c, d]. cbn [mbind option_bind].
  destruct (find_line _ CLOSE_FENCE _ _) as [close|] eqn:Ec; [|by exists a, hd, c, d]. cbn [mbind option_bind].
  apply find_line_inv in Eo as (c1 & r & Hr & H1 & ->). rewrite take_slice in Hr by done. subst c.
  apply find_line_inv in Ec as (c2 & c3 & Hr & H2 & ->).
  replace (a ++ hd :: (c1 ++ OPEN_FENCE :: r) ++ d) with ((a ++ hd :: c1) ++ OPEN_FENCE :: r ++ d) in Hr
    by (rewrite <- !List.app_assoc; cbn; by rewrite <- ?List.app_assoc).
  replace (S (length a) + length c1) with (length (a ++ hd :: c1)) in Hr by (rewrite List.length_app; cbn; lia).
  rewrite take_slice in Hr by (rewrite !List.length_app; cbn; lia). subst r.
  by exists a, hd, c1, c2, c3, d.
Qed.

(** ** Spliced lines *)
Lemma last_take {A} (l : list A) x : last l = Some x → l = take (length l - 1) l ++ [x].
Proof.
  intros H. apply last_Some in H as [l' ->]. rewrite List.length_app. cbn.
  replace (length l' + 1 - 1) with (length l') by lia. by rewrite take_app_length.
Qed.

Lemma line_text_cr line : line_text (line +:+ cr) = line_text line.
Proof. unfold line_text. by rewrite trim_end_app. Qed.

Lemma spliced_head_text crlf raw at_ :
  line_text <$> spliced_head crlf raw at_ = take at_ (line_text <$> raw).
Proof.
  rewrite <- fmap_take. unfold spliced_head. destruct (crlf && _); [|done].
  destruct (last (take at_ raw)) as [line|] eqn:E; [|done]. destruct (ends_cr line); [done|].
  apply last_take in E. symmetry. rewrite E at 1. rewrite !fmap_app. cbn. by rewrite line_text_cr.
Qed.

Lemma spliced_lines_text crlf appending new :
  Forall (λ x, line_text x = x) new → line_text <$> spliced_lines crlf appending new = new.
Proof.
  intros Hnew. unfold spliced_lines. rewrite fmap_imap. apply list_eq. intros i. rewrite list_lookup_imap.
  destruct (new !! i) as [x|] eqn:E; [|done]. cbn. f_equal.
  assert (Hx : line_text x = x) by exact (Forall_lookup_1 _ _ _ _ Hnew E).
  destruct (crlf && _); [by rewrite line_text_cr|done].
Qed.

Lemma splice_text raw at_ remove new :
  Forall (λ x, line_text x = x) new →
  line_text <$> splice raw at_ remove new
  = take at_ (line_text <$> raw) ++ new ++ drop (at_ + remove) (line_text <$> raw).
Proof.
  intros Hnew. unfold splice. rewrite !fmap_app, spliced_head_text, spliced_lines_text by done.
  by rewrite fmap_drop.
Qed.

Lemma cr_one_line line : one_line line = true → one_line (line +:+ cr) = true.
Proof. intros H. by apply app_one_line. Qed.

Lemma splice_one_line raw at_ remove new :
  Forall (λ x, one_line x = true) raw → Forall (λ x, one_line x = true) new →
  Forall (λ x, one_line x = true) (splice raw at_ remove new).
Proof.
  intros Hraw Hnew. unfold splice. apply Forall_app. split; [|apply Forall_app; split; [|by apply Forall_drop]].
  - assert (Hh : Forall (λ x, one_line x = true) (take at_ raw)) by by apply Forall_take.
    unfold spliced_head. destruct (_ && _); [|done].
    destruct (last (take at_ raw)) as [line|] eqn:E; [|done]. destruct (ends_cr line); [done|].
    apply last_take in E. rewrite E in Hh. apply Forall_app in Hh as [Hh Hl]. apply Forall_app. split; [done|].
    rewrite Forall_singleton in Hl. rewrite Forall_singleton. by apply cr_one_line.
  - apply Forall_lookup. intros i x. unfold spliced_lines. rewrite list_lookup_imap.
    destruct (new !! i) as [y|] eqn:E; [|done]. cbn. intros [= <-].
    assert (Hy : one_line y = true) by exact (Forall_lookup_1 _ _ _ _ Hnew E).
    destruct (_ && _); [by apply cr_one_line|done].
Qed.

(** ** Lines that a body may hold *)
Record graph_line (x : string) : Prop := mk_graph_line {
  gl_text : line_text x = x;
  gl_one_line : one_line x = true;
  gl_plain : level2 x = false;
  gl_not_close : (x ==? CLOSE_FENCE) = false }.

Lemma fenced_text graph : Forall graph_line graph → Forall (λ x, line_text x = x) (fenced graph).
Proof.
  intros H. unfold fenced. constructor; [done|]. apply Forall_app. split; [|by constructor].
  eapply Forall_impl; [exact H|]. apply gl_text.
Qed.
Lemma fenced_one_line graph : Forall graph_line graph → Forall (λ x, one_line x = true) (fenced graph).
Proof.
  intros H. unfold fenced. constructor; [done|]. apply Forall_app. split; [|by constructor].
  eapply Forall_impl; [exact H|]. apply gl_one_line.
Qed.
Lemma fenced_plain graph : Forall graph_line graph → plain_lines (fenced graph).
Proof.
  intros H. unfold fenced. constructor; [done|]. apply Forall_app. split; [|by constructor].
  eapply Forall_impl; [exact H|]. apply gl_plain.
Qed.

(** The segments and the lines of an edited body. *)
Lemma body_of_segments body segments change graph :
  graph_segments (split_char newline body) graph = Some (segments, change) →
  segments ≠ [] → Forall (λ x, one_line x = true) segments →
  tracker_lines (ge_body (write_graph body graph)) = line_text <$> segments.
Proof.
  intros H Hne Ho. unfold write_graph. rewrite H. cbn. unfold tracker_lines.
  rewrite split_char_join_free; [done|done|]. intros w Hw. by eapply (proj1 (Forall_forall _ _) Ho).
Qed.

Lemma graph_lacks_close graph : Forall graph_line graph → lacks_line CLOSE_FENCE graph.
Proof. intros H. eapply Forall_impl; [exact H|]. apply gl_not_close. Qed.

Lemma raw_one_line body : Forall (λ x, one_line x = true) (split_char newline body).
Proof. apply Forall_forall. intros x. apply split_char_free. Qed.

Lemma splice_nil raw at_ remove new : new ≠ [] → splice raw at_ remove new ≠ [].
Proof.
  intros Hne H. apply (f_equal length) in H. unfold splice, spliced_lines in H.
  rewrite !List.length_app, length_imap in H. destruct new; [done|]. cbn in H. lia.
Qed.

(** The lines of a body after a splice. *)
Lemma body_of_splice body graph at_ remove new change :
  graph_segments (split_char newline body) graph = Some (splice (split_char newline body) at_ remove new, change) →
  new ≠ [] → Forall (λ x, line_text x = x) new → Forall (λ x, one_line x = true) new →
  tracker_lines (ge_body (write_graph body graph))
  = take at_ (tracker_lines body) ++ new ++ drop (at_ + remove) (tracker_lines body).
Proof.
  intros H Hne Ht Ho. erewrite body_of_segments; [by apply splice_text|exact H|by apply splice_nil|].
  apply splice_one_line; [apply raw_one_line|done].
Qed.

(** Lines that differ in the contents of the graph's section. *)
Definition same_outside (l l' : list string) : Prop :=
  ∃ a hd c c' d, l = a ++ hd :: c ++ d ∧ l' = a ++ hd :: c' ++ d
    ∧ is_heading DEPENDENCY_GRAPH hd = true ∧ plain_lines c ∧ plain_lines c'.

(** Lines with a new section, which empty lines may precede. *)
Definition with_section (l l' : list string) : Prop :=
  ∃ p e x d, l = p ++ d ∧ l' = p ++ e ++ GRAPH_HEADING :: x ++ d
    ∧ Forall (eq EmptyString) e ∧ plain_lines x
    ∧ (d = [] ∨ d = [EmptyString] ∨ ∃ y d', d = y :: d' ∧ level2 y = true).

Ltac reassoc := repeat (rewrite <- List.app_assoc || rewrite <- List.app_comm_cons); done.

Lemma splice_block a hd c1 c2 c3 d graph :
  let l := a ++ hd :: with_block c1 c2 c3 ++ d in
  let start := S (S (length a) + length c1) in
  take start l ++ graph ++ drop (start + length c2) l = a ++ hd :: with_block c1 graph c3 ++ d.
Proof.
  cbn zeta. unfold with_block.
  replace (S (S (length a) + length c1) + length c2) with (length (a ++ hd :: c1 ++ OPEN_FENCE :: c2))
    by (rewrite List.length_app; cbn; rewrite List.length_app; cbn; lia).
  replace (S (S (length a) + length c1)) with (length (a ++ hd :: c1 ++ [OPEN_FENCE]))
    by (rewrite List.length_app; cbn; rewrite List.length_app; cbn; lia).
  assert (Ht : ∀ x y, a ++ hd :: (c1 ++ OPEN_FENCE :: x ++ y) ++ d = (a ++ hd :: c1 ++ [OPEN_FENCE]) ++ x ++ y ++ d)
    by (intros; reassoc).
  assert (Hd : a ++ hd :: (c1 ++ OPEN_FENCE :: c2 ++ CLOSE_FENCE :: c3) ++ d
    = (a ++ hd :: c1 ++ OPEN_FENCE :: c2) ++ CLOSE_FENCE :: c3 ++ d) by reassoc.
  rewrite Hd at 2. by rewrite !Ht, take_app_length, drop_app_length.
Qed.

Lemma written_block body graph open close :
  Forall graph_line graph → graph ≠ [] → locate_graph (tracker_lines body) = Block open close →
  let l' := tracker_lines (ge_body (write_graph body graph)) in
  graph_of_lines l' = Some graph ∧ same_outside (tracker_lines body) l'.
Proof.
  intros Hg Hne Hloc. pose proof (locate_graph_inv (tracker_lines body)) as H. rewrite Hloc in H.
  destruct H as (a & hd & c1 & c2 & c3 & d & Hl & Hin & H1 & H2 & Ho & Hc).
  assert (Hgraph : take (close - S open) (drop (S open) (tracker_lines body)) = c2).
  { pose proof (block_graph a hd c1 c2 c3 d Hin H1 H2) as Hb. unfold graph_of_lines in Hb.
    rewrite <- Hl, Hloc in Hb. by injection Hb. }
  destruct Hin as [Ha Hh Hp Hd].
  assert (Hpg : plain_lines (with_block c1 graph c3)).
  { unfold plain_lines, with_block in *. rewrite !Forall_app, !Forall_cons, !Forall_app, !Forall_cons in *.
    destruct Hp as (? & ? & _ & ? & ?). split; [done|]. split; [done|]. split; [|done].
    eapply Forall_impl; [exact Hg|]. apply gl_plain. }
  assert (Hin' : in_section a hd (with_block c1 graph c3) d) by done.
  destruct (decide (c2 = graph)) as [->|Hne'].
  - assert (Hs : graph_segments (split_char newline body) graph = None).
    { unfold graph_segments. fold (tracker_lines body). rewrite Hloc, Hgraph. by rewrite bool_decide_eq_true_2. }
    unfold write_graph. rewrite Hs. cbn zeta. cbn [ge_body]. rewrite Hl. split; [by apply block_graph|].
    by exists a, hd, (with_block c1 graph c3), (with_block c1 graph c3), d.
  - cbn zeta. erewrite (body_of_splice body graph (S open) (close - S open) graph ReplacedBlock).
    + rewrite Hl, Ho. replace (_ + (close - _)) with (S (S (length a) + length c1) + length c2) by lia.
      rewrite splice_block.
      split; [apply block_graph; [done|done|by apply graph_lacks_close]|].
      exists a, hd, (with_block c1 c2 c3), (with_block c1 graph c3), d. done.
    + unfold graph_segments. fold (tracker_lines body). rewrite Hloc, Hgraph. by rewrite bool_decide_eq_false_2.
    + done.
    + eapply Forall_impl; [exact Hg|]. apply gl_text.
    + eapply Forall_impl; [exact Hg|]. apply gl_one_line.
Qed.

(** A block that is new in a section. *)
Lemma fenced_block graph t : EmptyString :: fenced graph ++ t = with_block [EmptyString] graph t.
Proof. unfold fenced, with_block. cbn. do 2 f_equal. reassoc. Qed.

Lemma with_block_plain graph t :
  Forall graph_line graph → plain_lines t → plain_lines (with_block [EmptyString] graph t).
Proof.
  intros Hg Ht. rewrite <- fenced_block. constructor; [done|]. apply Forall_app. split; [by apply fenced_plain|done].
Qed.

Lemma blank_tail (b : bool) : plain_lines (if b then [EmptyString] else []).
Proof. destruct b; by repeat constructor. Qed.
Lemma blank_tail_text (b : bool) : Forall (λ x, line_text x = x) (if b then [EmptyString] else []).
Proof. destruct b; by repeat constructor. Qed.
Lemma blank_tail_one_line (b : bool) : Forall (λ x, one_line x = true) (if b then [EmptyString] else []).
Proof. destruct b; by repeat constructor. Qed.

Lemma written_new_block body graph heading :
  Forall graph_line graph → locate_graph (tracker_lines body) = NoBlock heading →
  let l' := tracker_lines (ge_body (write_graph body graph)) in
  graph_of_lines l' = Some graph ∧ same_outside (tracker_lines body) l'.
Proof.
  intros Hg Hloc. pose proof (locate_graph_inv (tracker_lines body)) as H. rewrite Hloc in H.
  destruct H as (a & hd & c & d & Hl & [Ha Hh Hp Hd] & ->). cbn zeta.
  set (t := if is_some_and (tracker_lines body !! S (length a)) (λ next, negb (is_empty next)) then [EmptyString] else []).
  rewrite (body_of_splice body graph (S (length a)) 0 (EmptyString :: fenced graph ++ t) InsertedBlock).
  - rewrite Nat.add_0_r, Hl, drop_past.
    replace (take (S (length a)) (a ++ hd :: c ++ d)) with (a ++ [hd])
      by (replace (a ++ hd :: c ++ d) with ((a ++ [hd]) ++ c ++ d) by reassoc;
          symmetry; apply take_app_length'; rewrite List.length_app; cbn; lia).
    replace ((a ++ [hd]) ++ (EmptyString :: fenced graph ++ t) ++ c ++ d)
      with (a ++ hd :: with_block [EmptyString] graph (t ++ c) ++ d)
      by (rewrite <- fenced_block; reassoc).
    assert (Hc' : plain_lines (with_block [EmptyString] graph (t ++ c)))
      by (apply with_block_plain; [done|]; apply Forall_app; split; [apply blank_tail|done]).
    split; [apply block_graph; [done|by repeat constructor|by apply graph_lacks_close]|].
    by exists a, hd, c, (with_block [EmptyString] graph (t ++ c)), d.
  - unfold graph_segments. fold (tracker_lines body). by rewrite Hloc.
  - done.
  - constructor; [done|]. apply Forall_app. split; [by apply fenced_text|apply blank_tail_text].
  - constructor; [done|]. apply Forall_app. split; [by apply fenced_one_line|apply blank_tail_one_line].
Qed.

(** Where a new section goes. *)
Lemma section_at_split raw lines :
  lines = line_text <$> raw →
  ∃ p d, lines = p ++ d ∧ length p = section_at raw lines
    ∧ (d = [] ∨ d = [EmptyString] ∨ ∃ y d', d = y :: d' ∧ level2 y = true)
    ∧ (is_some (next_heading lines) = true → ∃ y d', d = y :: d' ∧ level2 y = true).
Proof.
  intros Hlines. unfold section_at. destruct (next_heading lines) as [at_|] eqn:E.
  - unfold next_heading in E. destruct (section lines PHASE_TABLE) as [s|] eqn:Es; [|done].
    cbn [mbind option_bind] in E. destruct (_ <? _) eqn:Elt; [|done]. injection E as <-.
    apply section_inv in Es as (a & hd & c & d & Hl & _ & _ & _ & Hd & ->). cbn [sc_end] in *.
    exists (a ++ hd :: c), d. split; [rewrite Hl; reassoc|]. split.
    { rewrite List.length_app. cbn. lia. }
    destruct Hd as [->|Hd]; [|by auto]. exfalso. apply Nat.ltb_lt in Elt. rewrite Hl in Elt.
    rewrite !List.length_app in Elt. cbn in Elt. rewrite List.length_app in Elt. cbn in Elt. lia.
  - cbn [default from_option]. destruct (last raw ==? Some EmptyString) eqn:El.
    + apply bool_decide_eq_true, last_Some in El as [p ->]. exists (line_text <$> p), [EmptyString].
      rewrite Hlines, fmap_app. split; [done|]. rewrite List.length_map, List.length_app. cbn.
      split; [lia|]. split; [by auto|done].
    + exists lines, []. rewrite List.app_nil_r, Hlines, List.length_map.
      split; [done|]. split; [done|]. split; [by left|done].
Qed.

Lemma written_section body graph :
  Forall graph_line graph → locate_graph (tracker_lines body) = NoSection →
  let l' := tracker_lines (ge_body (write_graph body graph)) in
  graph_of_lines l' = Some graph ∧ with_section (tracker_lines body) l'.
Proof.
  intros Hg Hloc. pose proof (locate_graph_inv (tracker_lines body)) as H. rewrite Hloc in H. cbn zeta.
  destruct (section_at_split (split_char newline body) (tracker_lines body) eq_refl)
    as (p & d & Hl & Hat & Hd & Hnext).
  set (at_ := section_at _ _) in *. set (n := is_some (next_heading (tracker_lines body))) in *.
  set (e := if (0 <? at_) && negb (is_empty (default EmptyString (tracker_lines body !! (at_ - 1)))) then [EmptyString] else []).
  set (t := if n then [EmptyString] else []).
  rewrite (body_of_splice body graph at_ 0 (e ++ [GRAPH_HEADING; EmptyString] ++ fenced graph ++ t) InsertedSection).
  - rewrite Nat.add_0_r, Hl, <- Hat, take_app_length, drop_app_length.
    assert (Hnew : p ++ (e ++ [GRAPH_HEADING; EmptyString] ++ fenced graph ++ t) ++ d
      = (p ++ e) ++ GRAPH_HEADING :: with_block [EmptyString] graph t ++ d)
      by (rewrite <- fenced_block; reassoc).
    rewrite Hnew. rewrite Hl in H. apply Forall_app in H as [Hp _].
    assert (Hpe : Forall (λ x, is_heading DEPENDENCY_GRAPH x = false) (p ++ e)).
    { apply Forall_app. split; [done|]. unfold e. destruct (_ && _); by repeat constructor. }
    split.
    + assert (Hcases : d = [EmptyString] ∧ n = false ∨ d = [] ∨ ∃ y d', d = y :: d' ∧ level2 y = true).
      { destruct n; [right; right; auto|]. destruct Hd as [->|[->|Hd]]; auto. }
      assert (Hlc := graph_lacks_close graph Hg).
      destruct Hcases as [[-> ->]|Hd'].
      * assert (Hb : with_block [EmptyString] graph t ++ [EmptyString] = with_block [EmptyString] graph [EmptyString] ++ [])
          by (unfold with_block, t; reassoc).
        rewrite Hb. apply block_graph; [|by repeat constructor|done].
        split; [done|done| |by left]. apply with_block_plain; [done|by repeat constructor].
      * apply block_graph; [|by repeat constructor|done].
        split; [done|done|apply with_block_plain; [done|apply blank_tail]|done].
    + exists p, e, (with_block [EmptyString] graph t), d. split; [done|]. split; [reassoc|].
      split; [unfold e; destruct (_ && _); by repeat constructor|].
      split; [apply with_block_plain; [done|apply blank_tail]|done].
  - unfold graph_segments. fold (tracker_lines body). by rewrite Hloc.
  - by destruct e.
  - apply Forall_app. split; [apply blank_tail_text|]. constructor; [done|]. constructor; [done|].
    apply Forall_app. split; [by apply fenced_text|apply blank_tail_text].
  - apply Forall_app. split; [apply blank_tail_one_line|]. constructor; [done|]. constructor; [done|].
    apply Forall_app. split; [by apply fenced_one_line|apply blank_tail_one_line].
Qed.

(** ** Contents of the other sections *)
Section other.
Context (h : string) `{!LevelTwo h}.

Lemma contents_plain c d : plain_lines c → contents h (c ++ d) = contents h d.
Proof using LevelTwo0.
  intros Hc. apply contents_skip. eapply Forall_impl; [exact Hc|]. cbn. intros x Hx.
  apply not_true_iff_false. intros H%level_two. congruence.
Qed.

Lemma contents_within a hd c c' d :
  is_heading h hd = false → level2 hd = true → plain_lines c → plain_lines c' →
  contents h (a ++ hd :: c ++ d) = contents h (a ++ hd :: c' ++ d).
Proof using LevelTwo0.
  intros Hh Hhd Hc Hc'. induction a as [|x a IH]; cbn.
  - rewrite Hh, !contents_plain; done.
  - destruct (is_heading h x); [|exact IH]. f_equal. by apply until2_cut.
Qed.

Definition same_contents (o o' : option (list string)) : Prop :=
  match o, o' with
  | None, None => True
  | Some c, Some c' => ∃ k e e', c = k ++ e ∧ c' = k ++ e' ∧ Forall (eq EmptyString) e ∧ Forall (eq EmptyString) e'
  | _, _ => False
  end.

Lemma same_contents_refl o : same_contents o o.
Proof. destruct o as [c|]; [|done]. cbn. exists c, [], []. by rewrite List.app_nil_r. Qed.

Lemma empty_plain e : Forall (eq EmptyString) e → plain_lines e.
Proof. intros H. eapply Forall_impl; [exact H|]. by intros ? <-. Qed.

Lemma contents_with_section p e hd x d :
  Forall (eq EmptyString) e → plain_lines x → is_heading h hd = false → level2 hd = true →
  d = [] ∨ d = [EmptyString] ∨ (∃ y d', d = y :: d' ∧ level2 y = true) →
  same_contents (contents h (p ++ d)) (contents h (p ++ e ++ hd :: x ++ d)).
Proof using LevelTwo0.
  intros He Hx Hh Hhd Hd. induction p as [|y p IH]; cbn.
  - rewrite contents_plain by by apply empty_plain. cbn. rewrite Hh, contents_plain by done.
    apply same_contents_refl.
  - destruct (is_heading h y); [|exact IH]. destruct (until2_split p) as (r & Hp & Hup & Hr).
    destruct Hr as [->|(z & r' & -> & Hz)].
    + rewrite List.app_nil_r in Hp. rewrite Hp, !until2_app by (done || by apply empty_plain).
      cbn. rewrite Hhd, List.app_nil_r. exists (until2 p), (until2 d), e. split; [done|]. split; [done|].
      split; [|done]. destruct Hd as [->|[->|(z & d' & -> & Hz)]]; cbn; [constructor|by repeat constructor|].
      rewrite Hz. constructor.
    + rewrite Hp. replace ((until2 p ++ z :: r') ++ d) with (until2 p ++ z :: (r' ++ d)) by reassoc.
      replace ((until2 p ++ z :: r') ++ e ++ hd :: x ++ d) with (until2 p ++ z :: (r' ++ e ++ hd :: x ++ d)) by reassoc.
      rewrite (until2_cut _ z _ (r' ++ e ++ hd :: x ++ d)) by done. apply same_contents_refl.
Qed.
End other.

Lemma written_contents l l' :
  same_outside l l' ∨ with_section l l' → same_contents (contents PHASE_TABLE l) (contents PHASE_TABLE l').
Proof.
  assert (Hother : ∀ hd, is_heading DEPENDENCY_GRAPH hd = true → is_heading PHASE_TABLE hd = false).
  { unfold is_heading, eq_ignore_ascii_case. intros hd ->%bool_decide_eq_true. by vm_compute. }
  intros [(a & hd & c & c' & d & -> & -> & Hh & Hc & Hc')|(p & e & x & d & -> & -> & He & Hx & Hd)].
  - rewrite (contents_within _ a hd c c' d); [apply same_contents_refl|by apply Hother|by eapply level_two|done|done].
  - apply contents_with_section; [apply _|done|done|by vm_compute|done|done].
Qed.

(** ** The rows of the contents *)

(** What a line of the table says, without its number. *)
Definition unplaced (row : Row) : Row :=
  mk_Row (row_id row) (row_title row) (row_reference row) (row_notes row) (row_after row)
    (row_done row) (row_phase row) 0.
Definition said (l : nat * RowLine) : Row + option string :=
  match l.2 with RowLineRow row _ => inl (unplaced row) | RowLineMalformed shown => inr shown end.

Lemma scan_line_said k k' phase line :
  (scan_line k phase line).1 = (scan_line k' phase line).1
  ∧ said <$> (scan_line k phase line).2 = said <$> (scan_line k' phase line).2.
Proof.
  unfold scan_line. destruct (strip_prefix _ line); [done|]. destruct (existsb _ _); [|done].
  by destruct (parse_row line) as [[row spans]|].
Qed.

Lemma scan_from_said k k' phase lines :
  said <$> scan_from k phase lines = said <$> scan_from k' phase lines.
Proof.
  revert k k' phase. induction lines as [|line lines IH]; intros k k' phase; [done|]. cbn.
  destruct (scan_line_said k k' phase line) as [H1 H2].
  destruct (scan_line k phase line) as [p f], (scan_line k' phase line) as [p' f']. cbn in H1, H2. subst p'.
  rewrite !fmap_app, (IH (S k) (S k')). f_equal. by destruct f, f'; try done; injection H2 as H2; cbn; rewrite H2.
Qed.

Lemma scan_from_blank k phase lines e :
  Forall (eq EmptyString) e → scan_from k phase (lines ++ e) = scan_from k phase lines.
Proof.
  intros He. revert k phase. induction lines as [|line lines IH]; intros k phase.
  - cbn. revert k. induction He as [|x e <- _ IH]; [done|]. intros k. cbn. apply IH.
  - cbn. destruct (scan_line k phase line). by rewrite IH.
Qed.

Lemma scan_contents lines :
  said <$> scan lines = said <$> from_option (scan_from 0 None) [] (contents PHASE_TABLE lines).
Proof.
  unfold scan. rewrite section_contents. destruct (section lines PHASE_TABLE) as [s|]; [|done].
  cbn. apply scan_from_said.
Qed.

Lemma same_rows l l' :
  same_contents (contents PHASE_TABLE l) (contents PHASE_TABLE l') → said <$> scan l = said <$> scan l'.
Proof.
  rewrite !scan_contents. destruct (contents _ l) as [c|], (contents _ l') as [c'|]; try done.
  intros (k & e & e' & -> & -> & He & He'). cbn. by rewrite !scan_from_blank.
Qed.

Lemma said_rows (found : list (nat * RowLine)) : unplaced <$> omap scanned_row found
  = omap (λ s, match s with inl row => Some row | inr _ => None end) (said <$> found).
Proof. induction found as [|[at_ [row spans|shown]] found IH]; [done| |done]. cbn. by f_equal. Qed.

Lemma said_malformed (found : list (nat * RowLine)) : length (omap scanned_malformed found)
  = length (omap (λ s, match s with inl _ => None | inr shown => Some shown end) (said <$> found)).
Proof. induction found as [|[at_ [row spans|shown]] found IH]; [done|done|]. cbn. by f_equal. Qed.

(** ** The generated graph *)
Lemma generate_unplaced (rows : list Row) : generate (unplaced <$> rows) = generate rows.
Proof. unfold generate. by rewrite <- !list_fmap_compose. Qed.

(** The ids of the rows of a table. *)
Definition ids_ok_row (row : Row) : Prop := is_id (row_id row) = true ∧ Forall (λ x, is_id x = true) (row_after row).

Lemma clause_ids_ok entries seen ids : clause_ids entries seen = Some ids → Forall (λ x, is_id x = true) ids.
Proof.
  revert seen ids. induction entries as [|entry entries IH]; intros seen ids; cbn; [intros [= <-]; constructor|].
  destruct (is_id (trim_blank entry)) eqn:E; [|done]. cbn [negb orb]. destruct (bool_decide _); [done|].
  destruct (clause_ids entries _) as [ids'|] eqn:Er; [|done]. cbn. intros [= <-]. constructor; [done|by eapply IH].
Qed.

Lemma parse_row_ids line row spans : parse_row line = Some (row, spans) → ids_ok_row row.
Proof.
  unfold parse_row. destruct (row_prefix line) as [[[d i] n]|] eqn:E; [|discriminate]. cbn [mbind option_bind].
  apply row_prefix_inv in E as (_ & _ & _ & Hi & _ & _). destruct (negb _); [done|].
  intros (ws1 & text & ws2 & clause & after & _ & _ & _ & _ & _ & Hc & Hp)%parse_tail_inv.
  unfold parse_text in Hp. destruct (is_empty _); [done|]. injection Hp as <- _. split; [done|]. cbn.
  destruct Hc as [(_ & _ & ->)|(_ & Hids)]; [constructor|by eapply clause_ids_ok].
Qed.

Lemma scan_ids lines row : row ∈ omap scanned_row (scan lines) → ids_ok_row row.
Proof.
  intros ([at_ [r spans|shown]] & Hin & H)%list_elem_of_omap; [|done]. injection H as ->.
  apply list_elem_of_split in Hin as (l1 & l2 & H). apply scan_split in H as (line & row0 & ph & _ & Hp & -> & _).
  by apply parse_row_ids in Hp.
Qed.

Lemma id_bytes id : is_id id = true → id ≠ EmptyString ∧ all_bytes is_ascii_alphanumeric id = true.
Proof.
  destruct id as [|c id]; [done|]. cbn. intros [Hc Hid]%andb_true_iff. split; [done|].
  unfold is_ascii_alphanumeric at 1. by rewrite Hc, Hid, ?orb_true_r.
Qed.

Lemma alphanumeric_not c d : is_ascii_alphanumeric d = false → is_ascii_alphanumeric c = true → Ascii.eqb c d = false.
Proof. intros Hd Hc. apply Ascii.eqb_neq. intros ->. congruence. Qed.

Lemma id_one_line id : is_id id = true → one_line id = true.
Proof.
  intros [_ H]%id_bytes. revert H. apply all_bytes_impl. intros c Hc. apply negb_true_iff.
  by apply alphanumeric_not.
Qed.

Lemma id_trimmed id : is_id id = true → id ≠ EmptyString ∧ trim_end_bytes line_end id = id.
Proof.
  intros [Hne H]%id_bytes. split; [done|]. clear Hne. induction id as [|c id IH]; [done|].
  cbn in H. apply andb_true_iff in H as [Hc H]. cbn. unfold line_end, blank.
  rewrite !(alphanumeric_not c) by done. rewrite andb_false_r. f_equal. by apply IH.
Qed.

Lemma graph_line_of prefix x :
  one_line prefix = true → one_line x = true → x ≠ EmptyString → trim_end_bytes line_end x = x →
  graph_line (String " " (prefix +:+ x)).
Proof.
  intros Hp Ho Hne Ht. split.
  - unfold line_text. change (String " " (prefix +:+ x)) with (String " " prefix +:+ x). by apply trim_end_fixed_app.
  - change (one_line (prefix +:+ x) = true). by apply app_one_line.
  - done.
  - by apply bool_decide_eq_false.
Qed.

Lemma generated_lines (rows : list Row) : Forall ids_ok_row rows → Forall graph_line (generate rows).
Proof.
  intros Hrows. unfold generate. constructor; [by split|]. apply Forall_app. split.
  - apply Forall_fmap. eapply Forall_impl; [exact Hrows|]. intros row [Hid _]. cbn.
    pose proof (id_trimmed _ Hid) as [Hne Ht]. pose proof (id_one_line _ Hid) as Ho.
    unfold node_line. destruct (row_reference row); [by apply (graph_line_of " ")|].
    replace ("  " +:+ row_id row +:+ "{{" +:+ row_id row +:+ "}}")
      with (String " " ((" " +:+ row_id row +:+ "{{" +:+ row_id row) +:+ "}}")) by by rewrite !app_assoc.
    apply graph_line_of; [by repeat apply app_one_line|done..].
  - apply Forall_concat, Forall_fmap. eapply Forall_impl; [exact Hrows|]. intros row [Hid Hafter]. cbn.
    apply Forall_fmap. eapply Forall_impl; [exact Hafter|]. intros d Hd. cbn.
    pose proof (id_trimmed _ Hid) as [Hne Ht]. pose proof (id_one_line _ Hid) as Ho.
    pose proof (id_one_line _ Hd) as Hod. unfold edge_line.
    replace ("  " +:+ d +:+ " --> " +:+ row_id row)
      with (String " " ((" " +:+ d +:+ " --> ") +:+ row_id row)) by by rewrite !app_assoc.
    apply graph_line_of; [by repeat apply app_one_line|done..].
Qed.

(** ** A written graph *)

(** Two tables that say the same, in other lines. *)
Definition same_table (t t' : Table) : Prop :=
  unplaced <$> tb_rows t = unplaced <$> tb_rows t' ∧ length (tb_malformed t) = length (tb_malformed t').

Lemma same_table_row t t' row : same_table t t' → row ∈ tb_rows t →
  ∃ row', row' ∈ tb_rows t' ∧ row_id row' = row_id row ∧ row_after row' = row_after row.
Proof.
  intros [Hr _] Hin. assert (Hu : unplaced row ∈ unplaced <$> tb_rows t') by (rewrite <- Hr; by apply list_elem_of_fmap_2).
  apply list_elem_of_fmap in Hu as (row' & Heq & Hin'). exists row'. split; [done|].
  split; [by apply (f_equal row_id) in Heq|by apply (f_equal row_after) in Heq].
Qed.

Lemma same_table_sym t t' : same_table t t' → same_table t' t.
Proof. by intros []. Qed.

Lemma same_table_ids t t' : same_table t t' → row_id <$> tb_rows t = row_id <$> tb_rows t'.
Proof.
  intros [Hr _]. apply (f_equal (fmap row_id)) in Hr. rewrite <- !list_fmap_compose in Hr. exact Hr.
Qed.

Lemma same_table_needs t t' a b : same_table t t' → needs (tb_rows t) a b → needs (tb_rows t') a b.
Proof.
  intros Hs (row & Hin & <- & Hb). destruct (same_table_row _ _ _ Hs Hin) as (row' & Hin' & Hid & Haf).
  exists row'. by rewrite Hid, Haf.
Qed.

Lemma same_table_sound t t' : same_table t t' → sound_table t → sound_table t'.
Proof.
  intros Hs [Hb Hm Hi Hk Hac]. pose proof (same_table_ids _ _ Hs) as Hids.
  pose proof (same_table_sym _ _ Hs) as Hs'. destruct Hs as [Hr Hl]. split.
  - apply (f_equal length) in Hr. rewrite !length_fmap in Hr. lia.
  - rewrite Hm in Hl. by destruct (tb_malformed t').
  - by rewrite <- Hids.
  - intros a b Hn. rewrite <- Hids. apply (Hk a). by apply (same_table_needs t').
  - assert (Htc : ∀ x y, tc (needs (tb_rows t')) x y → tc (needs (tb_rows t)) x y).
    { intros x y. induction 1 as [x y H|x y z H _ IH].
      - by apply tc_once, (same_table_needs t').
      - apply tc_l with y; [by apply (same_table_needs t')|done]. }
    intros a Ha. by apply (Hac a), Htc.
Qed.

Lemma same_table_clean t t' : same_table t t' → row_findings t = Ok [] → row_findings t' = Ok [].
Proof.
  intros Hs Hf. destruct (findings_of_table t) as (fs & Hfs & Hsound & _). rewrite Hf in Hfs. injection Hfs as <-.
  destruct (findings_of_table t') as (fs' & -> & Hsound' & _). f_equal. apply Hsound'.
  eapply same_table_sound; [exact Hs|]. by apply Hsound.
Qed.

Lemma has_phase_table_contents body :
  has_phase_table body = is_some (contents PHASE_TABLE (tracker_lines body)).
Proof. unfold has_phase_table. rewrite section_contents. by destruct (section _ _). Qed.

Lemma written_graph body :
  let rows := tb_rows (parse body) in
  let e := write_graph body (generate rows) in
  same_table (parse (ge_body e)) (parse body)
  ∧ has_phase_table (ge_body e) = has_phase_table body
  ∧ graph_block (ge_body e) = Some (generate rows)
  ∧ generate (tb_rows (parse (ge_body e))) = generate rows
  ∧ write_graph (ge_body e) (generate rows) = mk_GraphEdit (ge_body e) Unchanged.
Proof.
  cbn zeta. set (graph := generate (tb_rows (parse body))). set (e := write_graph body graph).
  assert (Hg : Forall graph_line graph) by (apply generated_lines, Forall_forall; intros row; apply scan_ids).
  assert (Hw : graph_of_lines (tracker_lines (ge_body e)) = Some graph
    ∧ (same_outside (tracker_lines body) (tracker_lines (ge_body e))
       ∨ with_section (tracker_lines body) (tracker_lines (ge_body e)))).
  { destruct (locate_graph (tracker_lines body)) eqn:Hloc.
    - destruct (written_section body graph Hg Hloc); auto.
    - destruct (written_new_block body graph _ Hg Hloc); auto.
    - destruct (written_block body graph _ _ Hg ltac:(done) Hloc); auto. }
  destruct Hw as [Hblock Hsame]. apply written_contents in Hsame. pose proof (same_rows _ _ Hsame) as Hsaid.
  assert (Hrows : unplaced <$> tb_rows (parse (ge_body e)) = unplaced <$> tb_rows (parse body))
    by (cbn; by rewrite !said_rows, Hsaid).
  split; [split; [done|cbn; by rewrite !said_malformed, Hsaid]|]. split.
  { rewrite !has_phase_table_contents. unfold same_contents in Hsame.
    by destruct (contents _ (tracker_lines body)), (contents _ (tracker_lines (ge_body e))). }
  split; [done|]. split.
  - unfold graph. by rewrite <- (generate_unplaced (tb_rows (parse body))), <- Hrows, generate_unplaced.
  - unfold write_graph at 1, graph_segments. fold (tracker_lines (ge_body e)).
    unfold graph_of_lines in Hblock. destruct (locate_graph _); try done. injection Hblock as ->.
    by rewrite bool_decide_eq_true_2.
Qed.

(** C18: Writing the graph that the rows of a tracker derive: the block that the edited body holds is
    the graph of its own rows, so that lint finds no stale graph in it and writing again changes
    nothing; the rows, but for their lines, and the number of the malformed lines are kept. *)
Theorem a_written_graph_is_current body :
  let rows := tb_rows (parse body) in
  let e := write_graph body (generate rows) in
  let rows' := tb_rows (parse (ge_body e)) in
  unplaced <$> rows' = unplaced <$> rows
  ∧ length (tb_malformed (parse (ge_body e))) = length (tb_malformed (parse body))
  ∧ graph_block (ge_body e) = Some (generate rows')
  ∧ lint (ge_body e)
    = (findings ← row_findings (parse (ge_body e)); Ok (mk_LintReport rows' findings))
  ∧ write_graph (ge_body e) (generate rows') = mk_GraphEdit (ge_body e) Unchanged.
Proof.
  cbn zeta. destruct (written_graph body) as ([Hrows Hm] & _ & Hblock & Hgen & Hagain).
  split; [done|]. split; [done|]. rewrite Hgen. split; [done|]. split; [|done].
  unfold lint. rewrite Hgen, Hblock. destruct (row_findings _) as [findings|]; [|done]. cbn.
  rewrite (bool_decide_eq_true_2 (Some (generate _) = Some _)) by done. cbn.
  by rewrite andb_false_r, List.app_nil_r.
Qed.
