(* ===== verification/ConfigFacts.v ===== *)
(** * Theorems on the configuration

    What every layered configuration satisfies, and that the repository's layer can only
    strengthen an enabled review gate of the user's. *)
From S2P Require Import Prelude RStr Collections Error Types Validations Identity Provider Paths Config.
From stdpp Require Import options.

(** ** Readers keep what holds of the defaults *)

(** A section's reader keeps a property of its settings. *)
Lemma fold_keeps {S A} (P : S → Prop) (f : Settings S → A → Settings S) l acc :
  (∀ acc x, P acc.1 → P (f acc x).1) → P acc.1 → P (fold_left f l acc).1.
Proof. revert acc. induction l as [|x l IH]; intros acc Hf Hacc; cbn; auto. Qed.

Lemma store_keeps {S A} (P : S → Prop) acc (value : option A) set warning :
  P acc.1 → (∀ a, value = Some a → P (set a)) → P (store acc value set warning).1.
Proof. destruct value; cbn; auto. Qed.

Lemma store_duration_keeps {S} (P : S → Prop) acc name value set :
  P acc.1 → (∀ d, P (set d)) → P (store_duration acc name value set).1.
Proof. unfold store_duration. intros. destruct (t_str value); cbn; [|done].
  destruct (parse_duration s); cbn; auto.
Qed.

(** ** The invariant *)

(** The waiting windows of the review gate are bounded. *)
Definition review_ok (c : ReviewConfig) : Prop :=
  (∀ d, review_convergence_quiet_period c = Some d → (d ≤ MAX_REVIEW_QUIET_PERIOD)%N)
  ∧ (∀ d, review_convergence_timeout c = Some d → (d ≤ MAX_REVIEW_TIMEOUT)%N).

(** A reason is not blank. *)
Definition reason_ok (c : ChecksConfig) : Prop :=
  ∀ r, checks_none_reason c = Some r → r ≠ EmptyString.
(** A declaration that no checks exist carries its reason. *)
Definition checks_ok (c : ChecksConfig) : Prop :=
  reason_ok c ∧ (checks_none c = Some true → is_Some (checks_none_reason c)).

Definition handoff_ok (c : HandoffConfig) : Prop :=
  ∀ d, review_handoff_stale_after c = Some d → (secs 60 ≤ d ≤ secs (30 * 24 * 60 * 60))%N.

Definition labels_ok (c : MergeConfig) : Prop :=
  ∀ l, l ∈ merge_hold_labels c → trim l ≠ EmptyString ∧ (len l ≤ 128)%N ∧ has_control l = false.

Record config_ok (c : ForgeConfig) : Prop := {
  ok_merge : labels_ok (cfg_merge c);
  ok_checks : checks_ok (cfg_checks c);
  ok_review : review_ok (cfg_review c);
  ok_handoff : handoff_ok (cfg_handoff c);
}.

Lemma collect_elem {A B} (f : A → option B) l ys y :
  collect f l = Some ys → y ∈ ys → ∃ x, x ∈ l ∧ f x = Some y.
Proof.
  revert ys. induction l as [|x l IH]; intros ys H Hy; cbn in H.
  - injection H as <-. by apply not_elem_of_nil in Hy.
  - destruct (f x) as [y'|] eqn:E; [|done]. cbn in H. destruct (collect f l) as [ys'|]; [|done].
    injection H as <-. apply elem_of_cons in Hy as [->|Hy]; [exists x; split; [by left|done]|].
    destruct (IH ys' eq_refl Hy) as (x' & ? & ?). exists x'. split; [by right|done].
Qed.

Lemma merge_entry_ok acc entry : labels_ok acc.1 → labels_ok (parse_merge_entry acc entry).1.
Proof.
  intros H. destruct entry as [key value]. unfold parse_merge_entry. cbv zeta.
  repeat case_bool_decide; [| | |done].
  - destruct (t_str value); [|done]. by apply store_keeps.
  - apply store_keeps; [done|]. intros labels Hl l Hin. cbn in Hin.
    destruct (t_array value) as [items|]; [|done]. cbn in Hl.
    destruct (collect_elem _ _ _ _ Hl Hin) as (item & _ & Hi). unfold hold_label in Hi.
    destruct (t_str item) as [s|]; [|done]. cbn in Hi.
    destruct (_ && _ && _) eqn:E in Hi; [|done]. injection Hi as <-.
    apply andb_true_iff in E as [E E3]. apply andb_true_iff in E as [E1 E2].
    rewrite negb_true_iff in E1, E3. apply N.leb_le in E2. split; [|done].
    by destruct (trim s).
  - by apply store_keeps.
Qed.

Lemma checks_entry_ok acc entry : reason_ok acc.1 → reason_ok (parse_checks_entry acc entry).1.
Proof.
  intros H. destruct entry as [key value]. unfold parse_checks_entry.
  destruct acc as [[timeout interval only none reason] ws]. unfold reason_ok in H. cbn [fst] in *.
  repeat case_bool_decide; try done.
  - by apply store_duration_keeps.
  - by apply store_duration_keeps.
  - by apply store_keeps.
  - by apply store_keeps.
  - destruct (t_str value) as [s|]; [|done]. cbn. destruct (trim s) eqn:E; [done|].
    cbn. intros r [= <-]. done.
Qed.

Lemma checks_reader_ok table acc : reason_ok acc.1 → checks_ok (parse_checks table acc).1.
Proof.
  intros H. unfold parse_checks.
  pose proof (fold_keeps reason_ok parse_checks_entry table acc checks_entry_ok H) as Hf.
  destruct (fold_left _ _ _) as [c ws]. cbn [fst] in *. cbv zeta.
  destruct (_ && _) eqn:E.
  - split; [exact Hf|done].
  - split; [exact Hf|]. cbn. intros Hn. rewrite Hn in E. cbn in E. by destruct (checks_none_reason c).
Qed.

Lemma bots_reader_ok acc value :
  review_ok acc.1 → review_ok (parse_review_convergence_bots acc value).1.
Proof.
  intros H. unfold parse_review_convergence_bots. destruct (t_array value); [|done]. cbv zeta.
  by destruct (collect _ _).
Qed.

Lemma review_entry_ok acc entry :
  review_ok acc.1 → review_ok (parse_review_convergence_entry acc entry).1.
Proof.
  intros H. destruct entry as [key value]. unfold parse_review_convergence_entry.
  pose proof (bots_reader_ok acc value H) as Hb. revert Hb.
  destruct acc as [[required quiet timeout bots] ws]. cbn [fst]. intros Hb.
  repeat case_bool_decide; try done; try by apply store_keeps.
  all: destruct (t_str value) as [raw|]; [|done]; destruct (parse_duration raw) as [d|]; [|done].
  all: unfold validate_review_duration; case_bool_decide; try done.
  all: destruct (_ <=? _)%N eqn:E; cbn; [|done]; apply N.leb_le in E; destruct H as [Hq Ht].
  all: split; cbn; intros d' Hd'; [by (injection Hd' as <- || apply Hq) | by (injection Hd' as <- || apply Ht)].
Qed.

Section facts.
Context `{SP : !SecretPattern}.

Lemma handoff_entry_ok acc entry :
  handoff_ok acc.1 → handoff_ok (parse_review_handoff_entry acc entry).1.
Proof.
  intros H. destruct entry as [key value]. unfold parse_review_handoff_entry. cbv zeta.
  repeat case_bool_decide; [| |done].
  - destruct (t_array value); [|done]. by destruct (collect supervisor _).
  - destruct (t_str value); [|done]. destruct (parse_duration s) as [d|]; [|done].
    destruct (_ && _) eqn:E; [|done]. apply andb_true_iff in E as [E1 E2].
    apply N.leb_le in E1, E2. cbn. intros d' [= <-]. done.
Qed.

Lemma default_ok : config_ok ForgeConfig_default.
Proof. by split; cbn; (intros l Hl%not_elem_of_nil || split || idtac). Qed.

Lemma section_ok cfg entry : config_ok cfg → config_ok (parse_section cfg entry).
Proof.
  intros [Hm Hc Hr Hh]. destruct entry as [section value].
  destruct cfg as [merge body branch checks inbox test_first review handoff ws path].
  cbn in Hm, Hc, Hr, Hh. unfold parse_section. cbv zeta.
  destruct (negb _); [by split|]. destruct (t_table value) as [table|]; [|by split].
  pose proof (fold_keeps labels_ok parse_merge_entry table (merge, ws) merge_entry_ok Hm).
  pose proof (checks_reader_ok table (checks, ws) (proj1 Hc)).
  pose proof (fold_keeps review_ok parse_review_convergence_entry table (review, ws) review_entry_ok Hr).
  pose proof (fold_keeps handoff_ok parse_review_handoff_entry table (handoff, ws) handoff_entry_ok Hh).
  repeat case_bool_decide.
  all: match goal with |- config_ok (let '(_, _) := ?read in _) => destruct read end.
  all: by split.
Qed.

Lemma parse_value_ok value : config_ok (parse_value value).
Proof.
  unfold parse_value. destruct (t_table value) as [table|].
  - assert (H : ∀ cfg, config_ok cfg → config_ok (fold_left parse_section table cfg)).
    { induction table as [|e table IH]; intros cfg Hc; cbn; [done|]. apply IH. by apply section_ok. }
    apply H, default_ok.
  - pose proof default_ok as []. by split.
Qed.

Section loaded.
Context `{TT : !TomlText} {W : Type} `{LF : !LocalFiles W}.

Lemma parse_file_ok prefix contents path : config_ok (parse_file prefix contents path).
Proof.
  assert (H : ∀ cfg, config_ok cfg → config_ok (with_source cfg path)) by (intros ? []; by split).
  assert (Hd : ∀ w, config_ok (with_warning ForgeConfig_default w))
    by (intros w; pose proof default_ok as []; by split).
  unfold parse_file. cbv zeta. apply H. destruct contents as [text|]; [|apply Hd].
  destruct (toml_from_str text); [apply parse_value_ok|apply Hd].
Qed.

Lemma load_from_ok start top w : config_ok (load_from start top w).
Proof. unfold load_from. destruct (find_config_file _ _ _); [apply parse_file_ok|apply default_ok]. Qed.

Lemma load_from_git_ref_ok start top git_ref w : config_ok (load_from_git_ref start top git_ref w).
Proof.
  unfold load_from_git_ref. generalize (ancestors (canonical_or_path start w)) as dirs.
  induction dirs as [|dir dirs IH]; cbn; [apply default_ok|].
  destruct (path_strip_prefix _ _); [|apply default_ok].
  destruct (git_show _ _ _ _); [apply parse_file_ok|]. case_bool_decide; [apply default_ok|done].
Qed.

Lemma load_global_ok w : config_ok (load_global w).
Proof.
  unfold load_global. destruct (local_global_config w); [|apply default_ok].
  destruct (local_file _ _); [apply parse_file_ok|apply default_ok].
Qed.
End loaded.

Lemma over_cases {A} (top base o : option A) : over top base = o → o = top ∨ o = base.
Proof. destruct top; cbn; auto. Qed.

Lemma overlay_ok base top : config_ok base → config_ok top → config_ok (overlaid_by base top).
Proof.
  intros [Hm Hc Hr Hh] [Hm' Hc' Hr' Hh']. split; cbn.
  - intros l [Hl|Hl]%elem_of_app; auto.
  - unfold overlay_checks. cbv zeta. unfold checks_ok, reason_ok in *. cbn.
    by destruct (_ || _).
  - destruct Hr as [Hq Ht], Hr' as [Hq' Ht']. split; cbn.
    + intros d. destruct (_ ==? Some true).
      * destruct (review_convergence_quiet_period (cfg_review top)) as [p|]; [|by apply Hq].
        intros [= <-]. specialize (Hq' p eq_refl). apply N.max_lub; [done|].
        destruct (review_convergence_quiet_period (cfg_review base)); cbn; [by apply Hq|done].
      * intros [H|H]%over_cases; [by apply Hq'|by apply Hq].
    + intros d [H|H]%over_cases; [by apply Ht'|by apply Ht].
  - intros d [H|H]%over_cases; [by apply Hh'|by apply Hh].
Qed.

(** Whatever the files say, the layered configuration bounds the waiting windows of the review
    gate and of the coordinator's retirement, its hold labels are short printable names, and a
    declaration that the repository has no checks comes with a reason that is not blank. *)
Theorem layered_configuration_is_well_formed `{TT : !TomlText} {W : Type} `{LF : !LocalFiles W}
    start top (w : W) explicit :
  let c := load_layered start top w in
  let policy := resolve_review_convergence c explicit in
  config_ok c
  ∧ (cp_quiet_period policy ≤ MAX_REVIEW_QUIET_PERIOD)%N
  ∧ (cp_timeout policy ≤ MAX_REVIEW_TIMEOUT)%N
  ∧ (checks_none (cfg_checks c) = Some true →
      ∃ r, declared_no_checks_reason c = Some r ∧ r ≠ EmptyString).
Proof.
  cbv zeta. pose proof (overlay_ok _ _ (load_global_ok w) (load_from_ok start top w)) as Hc.
  fold (load_layered start top w) in Hc. revert Hc. generalize (load_layered start top w) as c.
  intros c Hc. split; [done|]. destruct Hc as [_ [Hr Hn] [Hq Ht] _]. split; [|split].
  - cbn. destruct (review_convergence_quiet_period _); cbn; [by apply Hq|done].
  - cbn. destruct (review_convergence_timeout _); cbn; [by apply Ht|done].
  - intros H. destruct (Hn H) as [r Hreason]. exists r. unfold declared_no_checks_reason.
    rewrite bool_decide_true by done. split; [done|by apply Hr].
Qed.
End facts.

(** ** The repository only strengthens an enabled gate *)
Lemma over_none {A} (top base : option A) : over top base = None ↔ top = None ∧ base = None.
Proof. destruct top, base; cbn; naive_solver. Qed.

Lemma add_bots_extend bots base :
  ∃ extra, fold_left add_bot bots base = base ++ extra
    ∧ (∀ b, b ∈ extra → b ∈ bots)
    ∧ (∀ b, b ∈ bots → ∃ e, e ∈ base ++ extra ∧ same_bot b e = true).
Proof.
  revert base. induction bots as [|b bots IH]; intros base; cbn.
  - exists []. rewrite List.app_nil_r. split; [done|]. split; intros b Hb; by apply not_elem_of_nil in Hb.
  - unfold add_bot at 2. destruct (existsb (same_bot b) base) eqn:E.
    + destruct (IH base) as (extra & -> & He & Ha). exists extra. split; [done|].
      split; [intros; right; auto|]. intros b' [->|Hb']%elem_of_cons; [|auto].
      apply existsb_true in E as (e & Hin & Hs). exists e. split; [apply elem_of_app; by left|done].
    + destruct (IH (base ++ [b])) as (extra & -> & He & Ha). exists (b :: extra).
      rewrite <- List.app_assoc in Ha |- *. split; [done|]. split.
      * intros b' [->|Hb']%elem_of_cons; [by left|right; auto].
      * intros b' [->|Hb']%elem_of_cons; [|by apply Ha]. exists b. split; [set_solver|].
        unfold same_bot. by rewrite !bool_decide_true.
Qed.

(** C38: When the user's layer enables the review gate, no repository layer turns it off, shortens
    its quiet window or drops one of its bots: the repository only adds to them. *)
Theorem repository_only_strengthens_the_review_gate base top :
  review_convergence_required (cfg_review base) = Some true →
  let before := resolve_review_convergence base None in
  let after := resolve_review_convergence (overlaid_by base top) None in
  cp_require after = true
  ∧ (cp_quiet_period before ≤ cp_quiet_period after)%N
  ∧ ∃ extra, cp_bots after = cp_bots before ++ extra
      ∧ ∀ bots b, review_convergence_bots (cfg_review top) = Some bots → b ∈ bots →
          ∃ e, e ∈ cp_bots after ∧ same_bot b e = true.
Proof.
  intros H. cbn. rewrite (bool_decide_true _ H). cbn. split; [done|]. split.
  - destruct (review_convergence_quiet_period (cfg_review top)); cbn; [apply N.le_max_r|done].
  - destruct (add_bots_extend (default [] (review_convergence_bots (cfg_review top)))
      (default [] (review_convergence_bots (cfg_review base)))) as (extra & -> & _ & Ha).
    exists extra. split; [done|]. intros bots b Hb Hin. rewrite Hb in Ha. by apply Ha.
Qed.

(** ** Hold labels *)
Lemma add_labels_elem labels acc l :
  l ∈ fold_left add_label labels acc ↔ l ∈ acc ∨ l ∈ labels.
Proof.
  revert acc. induction labels as [|x labels IH]; intros acc; cbn.
  - set_solver.
  - rewrite IH. unfold add_label. case_bool_decide; set_solver.
Qed.

Lemma add_labels_NoDup labels acc : NoDup acc → NoDup (fold_left add_label labels acc).
Proof.
  revert acc. induction labels as [|x labels IH]; intros acc H; cbn; [done|]. apply IH.
  unfold add_label. case_bool_decide; [done|]. apply NoDup_app. split; [done|].
  split; [set_solver|apply NoDup_singleton].
Qed.

(** The labels that hold a merge are the built-in ones and those of both layers, each once: no
    layer removes a label. *)
Theorem hold_labels_accumulate base top :
  NoDup (resolve_hold_labels (overlaid_by base top))
  ∧ ∀ l, l ∈ resolve_hold_labels (overlaid_by base top) ↔
      l ∈ DEFAULT_HOLD_LABELS ∨ l ∈ merge_hold_labels (cfg_merge base)
      ∨ l ∈ merge_hold_labels (cfg_merge top).
Proof.
  split.
  - apply add_labels_NoDup. by_decide.
  - intros l. unfold resolve_hold_labels. rewrite add_labels_elem. cbn. by rewrite elem_of_app.
Qed.

(** ** Durations *)
Lemma split_digits_app num unit :
  all_bytes is_ascii_digit num = true →
  match unit with String c _ => is_ascii_digit c = false | EmptyString => True end →
  split_digits (num +:+ unit) = (num, unit).
Proof.
  intros Hn Hu. induction num as [|c num IH].
  - rewrite app_empty. destruct unit as [|c unit]; [done|]. cbn. by rewrite Hu.
  - cbn in Hn. apply andb_true_iff in Hn as [Hc Hn]. rewrite app_cons. cbn. rewrite Hc, IH; done.
Qed.

(** The nanoseconds of a number of units; the minutes and hours of a text are counted in 64-bit
    seconds. *)
Definition unit_seconds (unit : string) : option N :=
  if bool_decide (unit ∈ [EmptyString; "s"]) then Some 1%N
  else if unit ==? "m" then Some 60%N else if unit ==? "h" then Some 3600%N else None.

Lemma parse_duration_dec n unit : (n ≤ u64_max)%N →
  all_bytes solid unit = true →
  match unit with String c _ => is_ascii_digit c = false | EmptyString => True end →
  parse_duration (dec n +:+ unit) =
    (let s := dec n +:+ unit in
     if (unit ==? EmptyString) || (unit ==? "s") then Ok (secs n)
     else if unit ==? "ms" then Ok (millis n)
     else if unit ==? "m"
     then secs <$> ok_or ("duration overflows in " +:+ debug_str s) (checked_mul u64_max n 60)
     else if unit ==? "h"
     then secs <$> ok_or ("duration overflows in " +:+ debug_str s) (checked_mul u64_max n 3600)
     else Err ("unknown duration unit " +:+ debug_str unit +:+ " in " +:+ debug_str s)).
Proof.
  intros Hn Hs Hu. unfold parse_duration. rewrite trim_all_solid.
  2:{ rewrite all_bytes_app, Hs, andb_true_r.
      by apply (all_bytes_impl is_ascii_digit); [apply digit_solid|apply dec_digits]. }
  rewrite split_digits_app by (apply dec_digits || done).
  unfold parse_u64. rewrite parse_unsigned_dec by done.
  pose proof (dec_nonempty n). by destruct (dec n) as [|c s] eqn:E.
Qed.

(** A 64-bit number of seconds, minutes or hours is read as that time, unless its seconds do not
    fit 64 bits; a number of milliseconds always is. *)
Theorem durations_are_read_back n unit : (n ≤ u64_max)%N →
  parse_duration (dec n +:+ "ms") = Ok (millis n)
  ∧ ∀ k, unit_seconds unit = Some k →
      match parse_duration (dec n +:+ unit) with
      | Ok d => d = secs (n * k) ∧ (n * k ≤ u64_max)%N
      | Err e => e = "duration overflows in " +:+ debug_str (dec n +:+ unit) ∧ (u64_max < n * k)%N
      end.
Proof.
  intros Hn. split; [by rewrite parse_duration_dec|]. intros k. unfold unit_seconds.
  case_bool_decide as Hu; [|repeat case_bool_decide; try done].
  1: intros [= <-]; apply elem_of_cons in Hu as [->|Hu]; [|apply list_elem_of_singleton in Hu as ->];
    rewrite parse_duration_dec by done; by rewrite N.mul_1_r.
  all: intros [= <-]; subst unit; rewrite parse_duration_dec by done; cbv zeta.
  all: repeat first [rewrite bool_decide_true by done|rewrite bool_decide_false by done].
  all: cbn [orb]; unfold checked_mul; destruct (_ <=? _)%N eqn:E; cbn -[u64_max debug_str secs];
    [apply N.leb_le in E|apply N.leb_gt in E]; done.
Qed.

(** ** The theorems at concrete layers *)
Module ConfigWitness.
#[export] Instance secrets : SecretPattern := λ _, false.

Definition bots (login : string) : string * TomlValue :=
  ("bots", TArray [TTable [("login", TString login); ("mode", TString "observed")]]).
Definition layer (l : list (string * TomlValue)) : ForgeConfig :=
  parse_value (TTable [("review_convergence", TTable l)]).

Definition user : ForgeConfig :=
  layer [bots "user-bot"; ("quiet_period", TString "5m"); ("require", TBoolean true)].
Definition repository : ForgeConfig :=
  layer [bots "repo-bot"; ("quiet_period", TString "1s"); ("require", TBoolean false)].

Lemma user_ok : review_convergence_required (cfg_review user) = Some true.
Proof. vm_compute. reflexivity. Qed.
Lemma repository_bots_ok :
  review_convergence_bots (cfg_review repository) = Some [mk_Bot "repo-bot" Observed].
Proof. vm_compute. reflexivity. Qed.
End ConfigWitness.

Section config_witness.
Import ConfigWitness.

Lemma repository_only_strengthens_the_review_gate_witness :
  let after := resolve_review_convergence (overlaid_by user repository) None in
  cp_quiet_period after = secs 300 ∧ cp_require after = true
  ∧ ∃ e, e ∈ cp_bots after ∧ same_bot (mk_Bot "repo-bot" Observed) e = true.
Proof.
  destruct (repository_only_strengthens_the_review_gate user repository user_ok)
    as (Hrequire & _ & extra & _ & Ha).
  split; [vm_compute; reflexivity|]. split; [exact Hrequire|].
  exact (Ha _ _ repository_bots_ok (list_elem_of_here _ _)).
Defined.

Lemma durations_are_read_back_witness :
  parse_duration "90m" = Ok (secs 5400) ∧ parse_duration "90ms" = Ok (millis 90).
Proof.
  destruct (durations_are_read_back 90 "m" ltac:(vm_compute; discriminate)) as [Hms _].
  split; [vm_compute; reflexivity|exact Hms].
Defined.
End config_witness.
