(* ===== verification/TasksFacts.v ===== *)
(** * Theorems on task lists

    A checklist is read back item by item, whatever else the reader skips; and a description
    passes the merge rule only when every box outside a fenced block is checked. *)
From S2P Require Import Prelude RStr Collections Error Types Provider PrView Tasks.
From stdpp Require Import options.

(** ** A rendered checklist *)
Definition task_line (item : ascii * string) : string :=
  "- [" +:+ String item.1 ("] " +:+ item.2).

(** A marker the reader knows, and a text that is one trimmed line. *)
Definition task_ok (item : ascii * string) : Prop :=
  item.1 ∈ TASK_MARKERS ∧ item.2 ≠ EmptyString ∧ trim item.2 = item.2 ∧ line_ok item.2 = true.

Lemma task_line_cons item :
  task_line item = String "-" (String " " (String "[" (String item.1 (String "]" (String " " item.2))))).
Proof. done. Qed.

Lemma trim_space s : trim (String " " s) = trim s.
Proof. done. Qed.

Lemma parse_task_line_rendered item : task_ok item →
  parse_task_line (task_line item) = Some (negb (bool_decide (item.1 = " "%char)), item.1, item.2).
Proof.
  intros (Hm & _ & Ht & _). rewrite task_line_cons. unfold parse_task_line.
  change (strip_list_marker _) with
    (Some (String "[" (String item.1 (String "]" (String " " item.2))))).
  cbn [mbind option_bind]. rewrite trim_start_solid by done.
  rewrite (bool_decide_true (item.1 ∈ TASK_MARKERS)) by done. cbn [negb orb].
  rewrite trim_space, Ht. done.
Qed.

Lemma string_snoc s : s ≠ EmptyString → ∃ r c, s = r +:+ String c EmptyString.
Proof.
  induction s as [|c [|d s] IH]; intros H; [done|by exists EmptyString, c|].
  destruct IH as (r & e & ->); [done|]. by exists (String c r), e.
Qed.

Lemma task_line_ok item : task_ok item → line_ok (task_line item) = true.
Proof.
  intros (Hm & Hne & _ & Hl). unfold line_ok in *. apply andb_true_iff in Hl as [Ha He].
  apply andb_true_iff. split.
  - rewrite task_line_cons. cbn [all_bytes]. rewrite Ha, !andb_true_r.
    repeat (apply elem_of_cons in Hm as [->|Hm]; [done|]). by apply not_elem_of_nil in Hm.
  - destruct (string_snoc item.2 Hne) as (r & c & Hl). unfold task_line. rewrite Hl in *.
    assert (Hc : carriage_return ≠ c).
    { intros <-. unfold ends_with in He. by rewrite strip_suffix_app in He. }
    change (String item.1 ("] " +:+ (r +:+ String c EmptyString)))
      with (String item.1 "] " +:+ (r +:+ String c EmptyString)).
    rewrite <- !app_assoc. by rewrite ends_with_last.
Qed.

Lemma scan_rendered items indent number item : task_ok item → (indent ≤ 2)%N →
  scan_line (mk_Scan items None (if (indent =? 0)%N then None else Some indent)) (number, task_line item)
  = mk_Scan (items ++ [mk_TaskItem (negb (bool_decide (item.1 = " "%char))) item.1 item.2 number]) None
      (Some 2%N).
Proof.
  intros Hi Hind. pose proof (parse_task_line_rendered item Hi) as Hp. unfold scan_line.
  rewrite task_line_cons in *. rewrite trim_start_solid by done. cbn [sc_fence sc_list_content_indent sc_items].
  rewrite N.sub_diag, Hp. change (starts_with "```" _) with false. change (starts_with "~~~" _) with false.
  cbn [is_empty]. replace (_ <=? 0)%N with false; [done|].
  symmetry. apply N.leb_gt. destruct (_ =? _)%N; cbn; lia.
Qed.

(** The item a rendered line stands for, and the number of its line. *)
Definition task_of (index : nat) (item : ascii * string) : PrTaskItem :=
  mk_TaskItem (negb (bool_decide (item.1 = " "%char))) item.1 item.2 (N.of_nat index + 1).

Lemma scan_checklist list items start indent :
  Forall task_ok list → (indent ≤ 2)%N →
  sc_items (scan_lines (mk_Scan items None (if (indent =? 0)%N then None else Some indent))
    (imap (λ i line, (N.of_nat (start + i) + 1, line)%N) (task_line <$> list)))
  = items ++ imap (λ i, task_of (start + i)) list.
Proof.
  intros Hl. revert items start indent.
  induction Hl as [|item list Hi _ IH]; intros items start indent Hind.
  - cbn. by rewrite List.app_nil_r.
  - rewrite fmap_cons, !imap_cons. cbn [scan_lines fold_left]. rewrite Nat.add_0_r, scan_rendered by done.
    assert (Hs : ∀ {A B} (f : nat → A → B) l,
      imap ((λ i, f (start + i)) ∘ S) l = imap (λ i, f (S start + i)) l).
    { intros A B f l. apply imap_ext. intros i x _. cbn. by rewrite Nat.add_succ_r. }
    rewrite (Hs _ _ task_of), (Hs _ _ (λ i line, (N.of_nat i + 1, line)%N)).
    pose proof (IH (items ++ [task_of start item]) (S start) 2%N ltac:(lia)) as H. cbn [N.eqb] in H.
    rewrite <- List.app_assoc in H. exact H.
Qed.

(** A rendered checklist is read back: every item with its marker, its text and the number of
    its line, an item being unchecked exactly when its marker is a space. *)
Theorem checklists_are_read_back items : Forall task_ok items →
  parse_task_items (join nl (task_line <$> items)) = imap task_of items.
Proof.
  intros H. unfold parse_task_items, numbered_lines. rewrite lines_join.
  - exact (scan_checklist items [] 0 0 H ltac:(lia)).
  - intros w Hw. apply list_elem_of_fmap in Hw as (item & -> & Hin).
    rewrite Forall_forall in H. by apply task_line_ok, H.
  - rewrite fmap_last. by destruct (last items) as [item|].
Qed.

(** ** What blocks a merge *)

(** The fence that is open after these lines. *)
Definition fence_step (fence : option ascii) (line : string) : option ascii :=
  let trimmed := trim_start line in
  match fence with
  | Some open => if starts_with (fence_text open) trimmed then None else Some open
  | None =>
      if starts_with "```" trimmed then Some "`"%char
      else if starts_with "~~~" trimmed then Some "~"%char else None
  end.
Definition fence_after (l : list string) : option ascii := fold_left fence_step l None.

Lemma scan_line_fence s number line :
  sc_fence (scan_line s (number, line)) = fence_step (sc_fence s) line.
Proof.
  unfold scan_line, fence_step. destruct s as [items [open|] indent]; cbn [sc_fence].
  - by destruct (starts_with _ _).
  - destruct (starts_with "```" _); [done|]. destruct (starts_with "~~~" _); [done|].
    destruct (is_empty _); [done|]. cbv zeta. destruct (_ <=? _)%N; [done|].
    destruct (parse_task_line _) as [[[? ?] ?]|]; [done|].
    destruct (is_some _); [done|]. by destruct (_ <? _)%N.
Qed.

Lemma scan_line_items s numbered : sc_items s ⊆ sc_items (scan_line s numbered).
Proof.
  destruct numbered as [number line]. unfold scan_line. destruct (sc_fence s).
  - by destruct (starts_with _ _).
  - destruct (starts_with "```" _); [done|]. destruct (starts_with "~~~" _); [done|].
    destruct (is_empty _); [done|]. cbv zeta. destruct (_ <=? _)%N; [done|].
    destruct (parse_task_line _) as [[[? ?] ?]|]; [cbn; set_solver|].
    destruct (is_some _); [done|]. by destruct (_ <? _)%N.
Qed.

Lemma scan_lines_items l s : sc_items s ⊆ sc_items (scan_lines s l).
Proof.
  revert s. induction l as [|x l IH]; intros s; cbn; [done|]. etrans; [apply scan_line_items|apply IH].
Qed.

Lemma scan_lines_fence l s : sc_fence (scan_lines s l) = fold_left fence_step l.*2 (sc_fence s).
Proof.
  revert s. induction l as [|[n x] l IH]; intros s; [done|].
  change (scan_lines s ((n, x) :: l)) with (scan_lines (scan_line s (n, x)) l).
  by rewrite IH, scan_line_fence.
Qed.

Lemma numbered_snd (f : nat → N) (l : list string) : (imap (λ i x, (f i, x)) l).*2 = l.
Proof. apply list_eq. intros k. rewrite list_lookup_fmap, list_lookup_imap. by destruct (l !! k). Qed.

(** A box on a line outside every fence, indented by less than a code block, is reported. *)
Lemma open_box_is_reported body i line checked marker text :
  lines body !! i = Some line → fence_after (take i (lines body)) = None →
  (len line - len (trim_start line) < 4)%N →
  parse_task_line (trim_start line) = Some (checked, marker, text) →
  mk_TaskItem checked marker text (N.of_nat i + 1) ∈ parse_task_items body.
Proof.
  intros Hl Hf Hi Hp. unfold parse_task_items, numbered_lines.
  rewrite <- (take_drop_middle _ _ _ Hl), imap_app. cbn [imap]. unfold scan_lines. rewrite fold_left_app.
  cbn [fold_left]. apply scan_lines_items. rewrite length_take_le by (apply lookup_lt_Some in Hl; lia).
  rewrite Nat.add_0_r. fold (scan_lines (mk_Scan [] None None)
    (imap (λ idx line, (N.of_nat idx + 1, line)%N) (take i (lines body)))).
  set (s := scan_lines _ _). assert (Hs : sc_fence s = None).
  { subst s. rewrite scan_lines_fence. cbn [sc_fence]. rewrite numbered_snd. exact Hf. }
  unfold scan_line. rewrite Hs.
  assert (Hne : ∀ p, p ∈ ["```"; "~~~"] → starts_with p (trim_start line) = false).
  { intros p Hin. apply not_true_is_false. intros [r Hr]%starts_with_true. rewrite Hr in Hp.
    repeat (apply elem_of_cons in Hin as [->|Hin]; [done|]). by apply not_elem_of_nil in Hin. }
  rewrite !Hne by set_solver. destruct (trim_start line) as [|c t] eqn:Et; [done|]. cbn [is_empty].
  rewrite <- Et in *. cbv zeta. replace (_ <=? _)%N with false.
  - rewrite Hp. cbn. set_solver.
  - symmetry. apply N.leb_gt. destruct (sc_list_content_indent s); cbn; lia.
Qed.

(** The merge rule passes only when every box outside a fenced block, and not indented as code,
    is marked; it names the unchecked items otherwise. *)
Theorem unchecked_boxes_block_the_merge body :
  (ensure_tasklist_complete body = Ok tt →
     ∀ i line checked marker text, lines body !! i = Some line →
       fence_after (take i (lines body)) = None →
       (len line - len (trim_start line) < 4)%N →
       parse_task_line (trim_start line) = Some (checked, marker, text) → checked = true)
  ∧ (∀ e, ensure_tasklist_complete body = Err e →
       ∃ err, e = Fail err ∧ kind err = "unchecked_task_items" ∧ exit_code err = exit.DATA
         ∧ unchecked_items body ≠ []).
Proof.
  unfold ensure_tasklist_complete. cbv zeta. case_bool_decide as Hn; split; try done.
  - intros _ i line checked marker text Hl Hf Hi Hp.
    pose proof (open_box_is_reported body i line checked marker text Hl Hf Hi Hp) as Hin.
    apply nil_length_inv in Hn. destruct checked; [done|]. exfalso.
    apply (not_elem_of_nil (mk_TaskItem false marker text (N.of_nat i + 1))). rewrite <- Hn.
    by apply elem_of_list_filter.
  - intros e [= <-]. eexists. split_and!; [reflexivity..|]. intros Hu. by rewrite Hu in Hn.
Qed.

(** ** The theorem at a concrete checklist *)
Module TasksWitness.
Definition items : list (ascii * string) :=
  [("x"%char, "write the parser"); (" "%char, "write the printer"); ("~"%char, "not needed")].
Lemma items_ok : Forall task_ok items.
Proof.
  repeat constructor; cbn; try by_decide; try (vm_compute; reflexivity); discriminate.
Qed.
End TasksWitness.

Lemma checklists_are_read_back_witness :
  parse_task_items (join nl (task_line <$> TasksWitness.items)) = imap task_of TasksWitness.items
  ∧ length (unchecked_items (join nl (task_line <$> TasksWitness.items))) = 1.
Proof.
  split; [exact (checklists_are_read_back TasksWitness.items TasksWitness.items_ok)|].
  vm_compute. reflexivity.
Defined.
