(* ===== verification/DetectFacts.v ===== *)
(** * Theorems on provider detection

    A repository taken from a Git remote is only used with the remote's own host; and the shapes
    a remote is written in name the same host and path. *)
From S2P Require Import Prelude RStr Collections Error Types Identity Provider Hosts Append Report.
From S2P Require Import Detect.
From stdpp Require Import options.

(** ** Where the repository of a context comes from *)
Section detect.
Context (registry : string → exec string) (discovery : exec unit).

(** The repository is the one the caller named, or that of the remote, on the context's host. *)
Definition repo_from (url override : option string) (ctx : ProviderContext) : Prop :=
  ∀ repo, cx_repo ctx = Some repo →
    override = Some repo
    ∨ override = None ∧ ∃ u h, url = Some u ∧ parse_slug u = Some repo ∧ parse_host u = Some h
        ∧ to_ascii_lowercase (cx_host ctx)
          = to_ascii_lowercase (canonical_provider_host (cx_provider ctx) h).

Definition repo_shaped (scope : RepositoryScope) (ctx : ProviderContext) : Prop :=
  scope = Scoped → ∀ repo, cx_repo ctx = Some repo → validate_repo_shape (cx_provider ctx) repo = Ok tt.

Lemma resolved_context_ok p h src repo scope ctx :
  resolved_context p h src repo scope = Ok ctx →
  cx_provider ctx = p ∧ cx_host ctx = canonical_provider_host p h ∧ cx_repo ctx = repo
  ∧ repo_shaped scope ctx.
Proof.
  unfold resolved_context. intros H. apply bind_ok in H as ([] & Hs & [= <-]).
  split_and!; try done. intros -> r. cbn. by intros ->.
Qed.

Lemma or_repo_some a b r : or_repo a b = Some r → a = Some r ∨ a = None ∧ b = Some r.
Proof. destruct a; cbn; auto. Qed.

Lemma remote_repo_from url override p h src scope ctx :
  url ≫= parse_host = Some h →
  resolved_context p h src (or_repo override (url ≫= parse_slug)) scope = Ok ctx →
  repo_from url override ctx ∧ repo_shaped scope ctx.
Proof.
  intros Hh H. apply resolved_context_ok in H as (Hp & Hhost & Hrepo & Hs). split; [|done].
  intros r Hr. rewrite Hrepo in Hr. apply or_repo_some in Hr as [?|[-> Hr]]; [by left|right].
  split; [done|]. destruct url as [u|]; [|done]. exists u, h. split_and!; try done. by rewrite Hhost, Hp.
Qed.

Lemma explicit_host_from url override p h scope ctx :
  on_explicit_host p h override (url ≫= parse_host) (url ≫= parse_slug) scope = Ok ctx →
  repo_from url override ctx ∧ repo_shaped scope ctx ∧ (scope = Scoped → is_Some (cx_repo ctx)).
Proof.
  unfold on_explicit_host. cbv zeta. intros H. split_if H.
  apply resolved_context_ok in H as (Hp & Hhost & Hrepo & Hs). rewrite Hrepo. split; [|split; [done|]].
  - intros r Hr. rewrite Hrepo in Hr. apply or_repo_some in Hr as [?|[-> Hr]]; [by left|right].
    split; [done|]. destruct url as [u|]; [|done]. cbn in Hr.
    destruct (parse_host u) as [h'|] eqn:Eh; [|done]. cbn in Hr.
    destruct (authorities_equal p h' h) eqn:Ea; [|done]. exists u, h'. split_and!; try done.
    unfold authorities_equal in Ea. bool_facts. by rewrite Hhost, Hp.
  - intros ->. cbn in Hif. by destruct (or_repo _ _).
Qed.

Lemma forced_provider_from url override p scope ctx :
  on_forced_provider p url override (url ≫= parse_host) (url ≫= parse_slug) scope = Ok ctx →
  repo_from url override ctx ∧ repo_shaped scope ctx.
Proof.
  unfold on_forced_provider. cbv zeta. intros H. split_if H.
  - apply resolved_context_ok in H as (_ & _ & Hrepo & Hs). split; [|done]. intros r Hr. left. congruence.
  - apply bind_ok in H as (h & Hh%ok_or_ok & H). split_if H. by eapply remote_repo_from.
Qed.

End detect.

(** ** The shapes of a remote *)
Definition host_byte (c : ascii) : bool :=
  is_ascii_alphanumeric c || bool_decide (c ∈ ["."%char; "-"%char]).
Definition path_byte (c : ascii) : bool := host_byte c || bool_decide (c ∈ ["_"%char; "/"%char]).

Record host_ok (host : string) : Prop := {
  ho_nonempty : host ≠ EmptyString; ho_bytes : all_bytes host_byte host = true }.

(** A path of plain bytes between slashes, without the suffix a remote may add. *)
Record path_ok (path : string) : Prop := {
  po_nonempty : path ≠ EmptyString;
  po_bytes : all_bytes path_byte path = true;
  po_start : starts_with "/" path = false;
  po_end : ends_with "/" path = false;
  po_suffix : ends_with ".git" path = false;
}.

(** The byte does not occur. *)
Definition lacks (c : ascii) (s : string) : Prop := all_bytes (λ d, negb (Ascii.eqb d c)) s = true.

Lemma lacks_app c s1 s2 : lacks c (s1 +:+ s2) ↔ lacks c s1 ∧ lacks c s2.
Proof. unfold lacks. by rewrite all_bytes_app, andb_true_iff. Qed.

Lemma lacks_of (p : ascii → bool) c s : all_bytes p s = true → p c = false → lacks c s.
Proof.
  intros H Hc. eapply all_bytes_impl; [|exact H]. intros d Hd. apply negb_true_iff, Ascii.eqb_neq.
  intros ->. congruence.
Qed.

Lemma host_path_byte c : host_byte c = true → path_byte c = true.
Proof. unfold path_byte. by intros ->. Qed.

Lemma path_byte_solid c : path_byte c = true → solid c = true.
Proof.
  unfold path_byte, host_byte, is_ascii_alphanumeric, is_ascii_digit, is_ascii_lowercase,
    is_ascii_uppercase, solid. rewrite !orb_true_iff, !byte_in_true, !bool_decide_eq_true.
  intros [[[[?|?]|?]|H]|H]; [lia..| |];
    repeat (apply elem_of_cons in H as [->|H]; [by vm_compute|]); by apply not_elem_of_nil in H.
Qed.

Lemma rsplit_none c s : lacks c s → rsplit_byte c s = None.
Proof.
  induction s as [|d s IH]; [done|]. unfold lacks. cbn. intros [Hd Hs]%andb_true_iff.
  rewrite (IH Hs). apply negb_true_iff, Ascii.eqb_neq in Hd. by rewrite bool_decide_false.
Qed.

Lemma rsplit_last c s1 s2 : lacks c s2 → rsplit_byte c (s1 +:+ String c s2) = Some (s1, s2).
Proof.
  intros H. induction s1 as [|d s1 IH].
  - rewrite app_empty. cbn. by rewrite rsplit_none, bool_decide_true.
  - rewrite app_cons. cbn. by rewrite IH.
Qed.

Lemma strip_userinfo_none s : lacks "@" s → strip_userinfo s = s.
Proof. intros H. unfold strip_userinfo. by rewrite rsplit_none. Qed.

Lemma strip_userinfo_user user s : lacks "@" s → strip_userinfo (user +:+ String "@" s) = s.
Proof. intros H. unfold strip_userinfo. by rewrite rsplit_last. Qed.

Lemma split_once_at c s1 s2 : lacks c s1 →
  split_once (String c EmptyString) (s1 +:+ String c s2) = Some (s1, s2).
Proof.
  intros H. rewrite split_once_skip by done.
  change (String c s2) with (String c EmptyString +:+ s2). rewrite split_once_here. cbn.
  by rewrite app_nil_r.
Qed.

Lemma split_once_lacks c s : lacks c s → split_once (String c EmptyString) s = None.
Proof.
  intros H. destruct (split_once _ s) as [[a b]|] eqn:E; [|done]. apply split_once_eq in E. subst.
  apply lacks_app in H as [_ H]. unfold lacks in H. rewrite app_cons in H. cbn in H.
  by rewrite Ascii.eqb_refl in H.
Qed.

Lemma contains_lacks c p s : lacks c s → contains (String c p) s = false.
Proof.
  intros H. apply not_true_is_false. intros (a & b & ->)%contains_true.
  apply lacks_app in H as [_ H]. unfold lacks in H. rewrite app_cons in H. cbn in H.
  by rewrite Ascii.eqb_refl in H.
Qed.

(** One colon, not in front of a slash: not a URL with a scheme. *)
Lemma no_scheme s1 s2 : lacks ":" s1 → lacks ":" s2 → starts_with "/" s2 = false →
  contains "://" (s1 +:+ String ":" s2) = false.
Proof.
  intros H1 H2 Hs. apply not_true_is_false. intros (a & b & Heq)%contains_true.
  revert a Heq. induction s1 as [|c s1 IH]; intros [|d a] Heq.
  - rewrite !app_empty in Heq. injection Heq as Heq. subst s2. done.
  - rewrite app_empty, app_cons in Heq. injection Heq as <- Heq. subst s2.
    apply lacks_app in H2 as [_ H2]. done.
  - rewrite app_empty, app_cons in Heq. injection Heq as -> _. done.
  - rewrite !app_cons in Heq. injection Heq as _ Heq. unfold lacks in H1. cbn in H1.
    apply andb_true_iff in H1 as [_ H1]. by apply (IH H1 a).
Qed.

(** *** The path of a remote *)
Lemma trim_start_byte_id c s : starts_with (String c EmptyString) s = false → trim_start_byte c s = s.
Proof.
  destruct s as [|d s]; [done|]. intros H. cbn. rewrite bool_decide_false; [done|]. intros ->.
  unfold starts_with in H. cbn in H. by rewrite Ascii.eqb_refl in H.
Qed.

Lemma trim_end_byte_id c s : ends_with (String c EmptyString) s = false → trim_end_byte c s = s.
Proof.
  intros H. unfold trim_end_byte. rewrite trim_start_byte_id; [apply rev_rev|].
  apply not_true_is_false. intros [r Hr]%starts_with_true.
  apply (f_equal String.rev) in Hr. rewrite rev_rev, rev_append in Hr. cbn in Hr.
  unfold ends_with in H. by rewrite Hr, strip_suffix_app in H.
Qed.

Lemma string_last s : s ≠ EmptyString → ∃ r c, s = r +:+ String c EmptyString.
Proof.
  induction s as [|c [|d s] IH]; intros H; [done|by exists EmptyString, c|].
  destruct IH as (r & e & ->); [done|]. by exists (String c r), e.
Qed.

(** A path, with or without the suffix, after anything. *)
Definition suffixes : list string := [EmptyString; ".git"].

Lemma path_end path suffix before : path_ok path → suffix ∈ suffixes →
  ends_with "/" (before +:+ path +:+ suffix) = false.
Proof.
  intros [Hne _ _ He _] Hs. repeat (apply elem_of_cons in Hs as [->|Hs]; [|]); [..|by apply not_elem_of_nil in Hs].
  - rewrite app_nil_r. destruct (string_last path Hne) as (r & c & ->). rewrite <- app_assoc.
    apply ends_with_last. intros <-. unfold ends_with in He. by rewrite strip_suffix_app in He.
  - change ".git" with (".gi" +:+ String "t" EmptyString). rewrite <- !app_assoc. by apply ends_with_last.
Qed.

Lemma path_suffix path suffix : path_ok path → suffix ∈ suffixes →
  trim_end_matches ".git" (path +:+ suffix) = path.
Proof.
  intros [Hne _ _ _ Hg] Hs. unfold ends_with in Hg.
  destruct (strip_suffix ".git" path) as [r|] eqn:E; [done|].
  repeat (apply elem_of_cons in Hs as [->|Hs]; [|]); [..|by apply not_elem_of_nil in Hs];
    unfold trim_end_matches.
  - rewrite app_nil_r. destruct (String.length path); [done|]. cbn [trim_end_text]. by rewrite E.
  - rewrite length_app, Nat.add_comm. cbn [String.length Nat.add trim_end_text].
    rewrite strip_suffix_app. cbn [trim_end_text]. by rewrite E.
Qed.

Lemma path_start path suffix : path_ok path → starts_with "/" (path +:+ suffix) = false.
Proof.
  intros [Hne _ Hs _ _]. destruct path as [|c path]; [done|]. rewrite app_cons.
  apply not_true_is_false. intros [r [= -> _]]%starts_with_true. done.
Qed.

Lemma suffix_solid suffix : suffix ∈ suffixes → all_bytes path_byte suffix = true.
Proof. intros Hs. repeat (apply elem_of_cons in Hs as [->|Hs]; [done|]). by apply not_elem_of_nil in Hs. Qed.

Lemma finalize_ok host path suffix : host_ok host → path_ok path → suffix ∈ suffixes →
  finalize host (path +:+ suffix) = Some (mk_GitRemoteUrl host path).
Proof.
  intros [Hne Hh] Hp Hs. unfold finalize. cbv zeta.
  rewrite trim_all_solid.
  2:{ eapply all_bytes_impl; [|exact Hh]. intros c Hc. by apply path_byte_solid, host_path_byte. }
  unfold trim_byte. rewrite trim_start_byte_id by by apply path_start.
  rewrite trim_end_byte_id by (rewrite <- (app_empty path), app_assoc; by apply (path_end path suffix EmptyString)).
  rewrite path_suffix by done. destruct Hp as [Hp _ _ _ _].
  apply is_empty_false in Hne, Hp. by rewrite Hne, Hp.
Qed.

(** ** The remote names the repository *)
Definition scp_remote (host path suffix : string) : string :=
  "git@" +:+ host +:+ ":" +:+ path +:+ suffix.

Lemma tail_solid path suffix : path_ok path → suffix ∈ suffixes →
  all_bytes path_byte (path +:+ suffix) = true.
Proof. intros Hp Hs. rewrite all_bytes_app, (po_bytes _ Hp). by apply suffix_solid. Qed.

Lemma path_bytes_solid s : all_bytes path_byte s = true → all_bytes solid s = true.
Proof. apply all_bytes_impl. apply path_byte_solid. Qed.

Lemma host_bytes_solid host : host_ok host → all_bytes solid host = true.
Proof. intros [_ Hh]. apply path_bytes_solid. eapply all_bytes_impl; [|exact Hh]. apply host_path_byte. Qed.

Lemma host_lacks c host : host_ok host → host_byte c = false → lacks c host.
Proof. intros [_ H]. by apply lacks_of. Qed.

(** Nothing is trimmed off a remote that ends in a path. *)
Lemma remote_untrimmed before path suffix : all_bytes solid before = true → path_ok path →
  suffix ∈ suffixes → trim_end_byte "/" (trim (before +:+ path +:+ suffix)) = before +:+ path +:+ suffix.
Proof.
  intros Hb Hp Hs. rewrite trim_all_solid; [by apply trim_end_byte_id, path_end|].
  rewrite all_bytes_app, Hb. by apply path_bytes_solid, tail_solid.
Qed.

Lemma scp_read host path suffix : host_ok host → path_ok path → suffix ∈ suffixes →
  parse_git_remote_url (scp_remote host path suffix) = Some (mk_GitRemoteUrl host path).
Proof.
  intros Hh Hp Hs. unfold parse_git_remote_url, scp_remote.
  set (before := "git@" +:+ host). pose proof (tail_solid path suffix Hp Hs) as Ht.
  assert (Hsplit : "git@" +:+ host +:+ ":" +:+ path +:+ suffix
                   = before +:+ String ":" (path +:+ suffix)) by (subst before; by rewrite app_assoc).
  assert (Htrim : trim_end_byte "/" (trim ("git@" +:+ host +:+ ":" +:+ path +:+ suffix))
                  = "git@" +:+ host +:+ ":" +:+ path +:+ suffix).
  { change (":" +:+ path +:+ suffix) with (":" +:+ (path +:+ suffix)).
    rewrite <- !(app_assoc _ _ (path +:+ suffix)). apply remote_untrimmed; [|done..].
    rewrite !all_bytes_app, (host_bytes_solid _ Hh). done. }
  rewrite Htrim. cbv zeta. cbn [is_empty]. rewrite Hsplit. unfold scp_parts.
  assert (Hc : lacks ":" before) by (apply lacks_app; split; [done|by apply host_lacks]).
  rewrite no_scheme; [|done|by apply (lacks_of path_byte)|by apply path_start].
  rewrite split_once_at by done. cbn. rewrite !contains_lacks; [|by apply (lacks_of path_byte)|].
  2:{ apply lacks_app; split; [done|by apply host_lacks]. }
  cbn. subst before. change ("git@" +:+ host) with ("git" +:+ String "@" host).
  rewrite strip_userinfo_user by by apply host_lacks. by apply finalize_ok.
Qed.

Lemma option_bind_some {A B} (x : A) (f : A → option B) : Some x ≫= f = f x.
Proof. done. Qed.

Lemma with_scheme_no_scp scheme s : scp_parts (scheme +:+ "://" +:+ s) = None.
Proof. unfold scp_parts. by rewrite (proj2 (contains_true _ _)) by by eexists _, _. Qed.

(** The user of a remote, up to the last [@]. *)
Definition user_ok (user : string) : Prop :=
  user = EmptyString
  ∨ ∃ name, user = name +:+ "@" ∧ lacks "/" name ∧ all_bytes solid name = true.

Lemma user_stripped user s : user_ok user → lacks "@" s → strip_userinfo (user +:+ s) = s.
Proof.
  intros [->|(name & -> & _)] Hs; [by rewrite app_empty, strip_userinfo_none|].
  rewrite app_assoc. by apply strip_userinfo_user.
Qed.

Lemma user_lacks user : user_ok user → lacks "/" user ∧ all_bytes solid user = true.
Proof.
  intros [->|(name & -> & H & Hs)]; [done|]. rewrite all_bytes_app, Hs. split; [|done].
  by apply lacks_app.
Qed.

Lemma without_port_ok host port : lacks ":" host →
  port = EmptyString ∨ (∃ p, port = String ":" p) → without_port (host +:+ port) = host.
Proof.
  intros Hh [->|[p ->]]; unfold without_port.
  - by rewrite app_nil_r, split_once_lacks.
  - by rewrite split_once_at.
Qed.

Lemma web_untrimmed scheme user host port path suffix : host_ok host → path_ok path →
  user_ok user → all_bytes solid (scheme +:+ port) = true → suffix ∈ suffixes →
  let url := scheme +:+ user +:+ host +:+ port +:+ "/" +:+ path +:+ suffix in
  trim_end_byte "/" (trim url) = url.
Proof.
  intros Hh Hp Hu Hsp Hs url. subst url. rewrite all_bytes_app in Hsp.
  apply andb_true_iff in Hsp as [Hsc Hpo]. rewrite <- !(app_assoc _ _ (path +:+ suffix)).
  apply remote_untrimmed; [|done..]. rewrite !all_bytes_app, Hsc, Hpo, (host_bytes_solid _ Hh).
  apply user_lacks in Hu as [_ ->]. done.
Qed.

(** A web remote has no port here: its port would be cut off in the same way. *)
Lemma http_read scheme user host path suffix : scheme = "https" ∨ scheme = "http" → host_ok host →
  path_ok path → user_ok user → suffix ∈ suffixes →
  parse_git_remote_url (scheme +:+ "://" +:+ user +:+ host +:+ "/" +:+ path +:+ suffix)
  = Some (mk_GitRemoteUrl host path).
Proof.
  intros Hsc Hh Hp Hu Hs. unfold parse_git_remote_url.
  pose proof (web_untrimmed (scheme +:+ "://") user host EmptyString path suffix Hh Hp Hu) as Htrim.
  cbv zeta in Htrim. rewrite (app_assoc scheme "://" (user +:+ _)), app_empty in Htrim.
  assert (Hrest : lacks "/" (user +:+ host)).
  { apply lacks_app. split; [by apply user_lacks|by apply host_lacks]. }
  assert (Hhost : without_port (strip_userinfo (user +:+ host)) = host).
  { rewrite user_stripped by (done || by apply host_lacks).
    rewrite <- (app_nil_r host) at 1. apply without_port_ok; [by apply host_lacks|by left]. }
  rewrite Htrim; [|by destruct Hsc as [->| ->]|done].
  cbv zeta. rewrite with_scheme_no_scp.
  change ("/" +:+ path +:+ suffix) with (String "/" (path +:+ suffix)).
  set (rest := user +:+ host +:+ String "/" (path +:+ suffix)).
  assert (Hsplit : split_once "/" rest = Some (user +:+ host, path +:+ suffix)).
  { subst rest. rewrite <- (app_assoc user). by apply split_once_at. }
  assert (Hfind : find_map (λ prefix, strip_prefix prefix (scheme +:+ "://" +:+ rest))
                    ["https://"; "http://"] = Some rest) by by destruct Hsc as [->| ->].
  rewrite Hfind, option_bind_some, Hsplit, option_bind_some, Hhost, finalize_ok by done.
  by destruct Hsc as [->| ->].
Qed.

Lemma ssh_read user host port path suffix : host_ok host → path_ok path → user_ok user →
  all_bytes host_byte port = true → suffix ∈ suffixes → 
  ∀ colon, colon = EmptyString ∧ port = EmptyString ∨ colon = ":" →
  parse_git_remote_url ("ssh://" +:+ user +:+ host +:+ (colon +:+ port) +:+ "/" +:+ path +:+ suffix)
  = Some (mk_GitRemoteUrl host path).
Proof.
  intros Hh Hp Hu Hpo Hs colon Hc. unfold parse_git_remote_url.
  assert (Hco : lacks "@" (colon +:+ port) ∧ lacks "/" (colon +:+ port)
                ∧ all_bytes solid (colon +:+ port) = true
                ∧ (colon +:+ port = EmptyString ∨ ∃ p, colon +:+ port = String ":" p)).
  { destruct Hc as [[-> ->]| ->]; [split_and!; try done; by left|]. rewrite !lacks_app, all_bytes_app.
    split_and!; try done; [by apply (lacks_of host_byte)|by apply (lacks_of host_byte)| |by right; eexists].
    eapply all_bytes_impl; [|exact Hpo]. intros c ?. by apply path_byte_solid, host_path_byte. }
  destruct Hco as (Hat & Hsl & Hsol & Hport). generalize dependent (colon +:+ port). intros cp Hat Hsl Hsol Hport.
  pose proof (web_untrimmed "ssh://" user host cp path suffix Hh Hp Hu) as Htrim. cbv zeta in Htrim.
  rewrite Htrim; [|by rewrite all_bytes_app|done].
  assert (Hscp : scp_parts ("ssh://" +:+ user +:+ host +:+ cp +:+ "/" +:+ path +:+ suffix) = None).
  { exact (with_scheme_no_scp "ssh" _). }
  cbv zeta. rewrite Hscp. cbn [is_empty]. rewrite strip_prefix_app, user_stripped; [|done|].
  2:{ do 3 (apply lacks_app; split; [done || by apply host_lacks|]).
      apply (lacks_of path_byte); [by apply tail_solid|done]. }
  change ("/" +:+ path +:+ suffix) with (String "/" (path +:+ suffix)).
  rewrite <- (app_assoc host cp), split_once_at by (rewrite lacks_app; split; [by apply host_lacks|done]).
  rewrite option_bind_some, without_port_ok by (done || by apply host_lacks). by apply finalize_ok.
Qed.

(** The shapes a remote of a repository is written in: the scp shape, with or without the [.git]
    suffix, and a URL of the web or of ssh, with a user and, on ssh, a port. *)
Inductive remote_of (host path : string) : string → Prop :=
  | scp_shape suffix : suffix ∈ suffixes → remote_of host path (scp_remote host path suffix)
  | http_shape scheme user suffix : scheme = "https" ∨ scheme = "http" → user_ok user →
      suffix ∈ suffixes →
      remote_of host path (scheme +:+ "://" +:+ user +:+ host +:+ "/" +:+ path +:+ suffix)
  | ssh_shape user colon port suffix : user_ok user → all_bytes host_byte port = true →
      colon = EmptyString ∧ port = EmptyString ∨ colon = ":" → suffix ∈ suffixes →
      remote_of host path
        ("ssh://" +:+ user +:+ host +:+ (colon +:+ port) +:+ "/" +:+ path +:+ suffix).

(** Every shape a remote is written in is read back as the host and the path it was written
    from; so two remotes of one repository have one identity. *)
Theorem remote_shapes_name_one_repository host path url :
  host_ok host → path_ok path → remote_of host path url →
  parse_git_remote_url url = Some (mk_GitRemoteUrl host path)
  ∧ repository_identity_from_remote_url url = Some (canonical_repository_identity host path)
  ∧ parse_slug url = (if contains "/" path then Some path else None).
Proof.
  intros Hh Hp Hr.
  assert (Hu : parse_git_remote_url url = Some (mk_GitRemoteUrl host path)).
  { destruct Hr; [by apply scp_read|by apply http_read|by apply ssh_read]. }
  unfold repository_identity_from_remote_url, parse_slug. by rewrite Hu.
Qed.

(** ** What the two comments of the parser promise and it does not do *)

(** Every [.git] at the end is taken off, not a single one. *)
Lemma every_git_suffix_goes :
  parse_git_remote_url "https://github.com/owner/repo.git.git"
  = Some (mk_GitRemoteUrl "github.com" "owner/repo").
Proof. by vm_compute. Qed.

(** An [@] in the path of an ssh URL moves the host. *)
Lemma path_moves_the_ssh_host :
  parse_git_remote_url "ssh://git@github.com/a@evil.example/owner/repo"
  = Some (mk_GitRemoteUrl "evil.example" "owner/repo").
Proof. by vm_compute. Qed.

(** ** Witnesses *)
Lemma remote_shapes_name_one_repository_witness :
  parse_git_remote_url "ssh://git@github.com:2222/sympoies/nils-cli.git"
  = Some (mk_GitRemoteUrl "github.com" "sympoies/nils-cli").
Proof.
  apply (remote_shapes_name_one_repository "github.com" "sympoies/nils-cli").
  - by split.
  - by split.
  - refine (ssh_shape "github.com" "sympoies/nils-cli" "git@" ":" "2222" ".git" _ _ _ _);
      [|done|by right|by right; left].
    right. by exists "git".
Defined.

Section detect_witness.
End detect_witness.
