(* ===== verification/ReviewLoopFacts.v ===== *)
(** * Theorems on the review loop

    Canonical observations, the state invariant, the budgets, the durable stop and
    its extension; then reachability of loop states by the writer's steps. *)
From S2P Require Import Prelude RStr Collections Error Types Markers ReviewLoop World.
From stdpp Require Import options.

(** ** Statements: what an observation list means, and when a state is sound *)

(** An observation is admissible: its fingerprints have the required form. *)
Definition observation_ok (o : ReviewFindingObservation) : Prop :=
  validate_lifecycle_fingerprint (o_fingerprint o) = Ok tt
  ∧ validate_root (o_root_cause_fingerprint o) = Ok tt.

(** Two observations of one identity agree once normalised. *)
Definition compatible (l : list ReviewFindingObservation) : Prop :=
  ∀ o1 o2, o1 ∈ l → o2 ∈ l → lifecycle_key o1 = lifecycle_key o2 →
    canonical_observation o1 = canonical_observation o2.

(** [m] maps each identity of [l] to its normalised observation. *)
Definition inventory_of (l : list ReviewFindingObservation)
    (m : gmap string ReviewFindingObservation) : Prop :=
  ∀ k v, m !! k = Some v ↔ ∃ o, o ∈ l ∧ lifecycle_key o = k ∧ canonical_observation o = v.

(** The budgets hold: rounds, no-progress rounds and reopen counts. *)
Definition within_budget (s : ReviewLoopState) : Prop :=
  (s_round s ≤ max_repair_rounds (s_budget s))%N
  ∧ (s_no_progress_rounds s ≤ max_no_progress_rounds (s_budget s))%N
  ∧ ∀ k f, s_findings s !! k = Some f →
      (f_reopen_count f ≤ max_auto_reopens_per_fingerprint (s_budget s))%N.

(** The budget fields are [u32] values. *)
Definition budget_u32 (b : ReviewLoopBudget) : Prop :=
  (max_repair_rounds b ≤ u32_max)%N ∧ (max_no_progress_rounds b ≤ u32_max)%N
  ∧ (max_auto_reopens_per_fingerprint b ≤ u32_max)%N.

(** ** Canonical observations *)
Section canonical.
Implicit Types (l : list ReviewFindingObservation) (o : ReviewFindingObservation).

Lemma canonical_observation_key o : lifecycle_key (canonical_observation o) = lifecycle_key o.
Proof. done. Qed.

Lemma canonical_observation_idemp o :
  canonical_observation (canonical_observation o) = canonical_observation o.
Proof.
  destruct o as [fp root b st th]. unfold canonical_observation; cbn.
  rewrite sort_dedup_idemp. by destruct (st ==? Open).
Qed.

Lemma observation_blocks_canonical o :
  observation_blocks (canonical_observation o) = observation_blocks o.
Proof. destruct o as [fp root b st th]. unfold observation_blocks; cbn. by destruct st. Qed.

Lemma observation_ok_canonical o : observation_ok (canonical_observation o) ↔ observation_ok o.
Proof. done. Qed.

Lemma canonical_step_ok m o m' :
  canonical_step m o = Ok m' ↔
  observation_ok o
  ∧ (∀ v, m !! lifecycle_key o = Some v → v = canonical_observation o)
  ∧ m' = <[lifecycle_key o := canonical_observation o]> m.
Proof.
  unfold canonical_step, observation_ok.
  destruct (validate_lifecycle_fingerprint _) as [[]|e] eqn:E1; cbn; [|naive_solver].
  destruct (validate_root _) as [[]|e] eqn:E2; cbn; [|naive_solver].
  destruct (m !! lifecycle_key o) as [v|] eqn:E3; [|naive_solver].
  case_bool_decide; cbn; naive_solver.
Qed.

Lemma canonical_from_ok l m m' :
  foldM canonical_step m l = Ok m' ↔
  (∀ o, o ∈ l → observation_ok o) ∧ compatible l
  ∧ (∀ o v, o ∈ l → m !! lifecycle_key o = Some v → v = canonical_observation o)
  ∧ (∀ k v, m' !! k = Some v ↔
       (∃ o, o ∈ l ∧ lifecycle_key o = k ∧ canonical_observation o = v) ∨ m !! k = Some v).
Proof.
  revert m. induction l as [|o l IH]; intros m; cbn.
  - split.
    + intros [= <-]. repeat split; try (intros ? [] || intros; set_solver); naive_solver set_solver.
    + intros (_ & _ & _ & H). f_equal. apply map_eq. intros k. apply option_eq. intros v.
      rewrite H. set_solver.
  - rewrite bind_ok. split.
    + intros (m1 & (Hok & Hm & ->)%canonical_step_ok & H2).
      apply IH in H2 as (Hoks & Hc & Hpre & Hm'). clear IH.
      assert (Hagree : ∀ o', o' ∈ l → lifecycle_key o' = lifecycle_key o →
                canonical_observation o' = canonical_observation o).
      { intros o' Ho' Hk. symmetry. apply (Hpre o'); [done|]. by rewrite Hk, lookup_insert_eq. }
      split; [set_solver|]. split.
      { intros o1 o2 [->|H1]%elem_of_cons [->|H2]%elem_of_cons Hk; auto.
        symmetry. auto. }
      split.
      { intros o' v [->|Ho']%elem_of_cons Hv; [auto|].
        destruct (decide (lifecycle_key o' = lifecycle_key o)) as [Hk|Hk].
        - rewrite (Hagree o') by done. apply Hm. by rewrite <- Hk.
        - apply (Hpre o'); [done|]. by rewrite lookup_insert_ne by congruence. }
      intros k v. rewrite Hm'. destruct (decide (lifecycle_key o = k)) as [<-|Hk].
      * rewrite lookup_insert_eq. split.
        -- intros [(o' & ? & ? & ?)|[= <-]]; left; [exists o'|exists o]; set_solver.
        -- intros [(o' & [->|Ho']%elem_of_cons & Hk & <-)|Hv]; [by right| |].
           ++ left. by exists o'.
           ++ right. by rewrite (Hm v).
      * rewrite lookup_insert_ne by done. set_solver.
    + intros (Hoks & Hc & Hpre & Hm').
      exists (<[lifecycle_key o := canonical_observation o]> m). split.
      { apply canonical_step_ok. split; [set_solver|]. split; [|done].
        intros v Hv. apply (Hpre o); set_solver. }
      apply IH. split; [set_solver|]. split; [intros o1 o2 ??; apply Hc; set_solver|]. split.
      { intros o' v Ho' Hv. destruct (decide (lifecycle_key o = lifecycle_key o')) as [Hk|Hk].
        - rewrite Hk, lookup_insert_eq in Hv. injection Hv as <-. apply Hc; set_solver.
        - rewrite lookup_insert_ne in Hv by done. apply (Hpre o'); set_solver. }
      intros k v. rewrite Hm'. destruct (decide (lifecycle_key o = k)) as [<-|Hk].
      * rewrite lookup_insert_eq. split.
        -- intros [(o' & [->|Ho']%elem_of_cons & Hk & <-)|Hv]; [by right| |].
           ++ left. by exists o'.
           ++ right. f_equal. symmetry. apply (Hpre o); set_solver.
        -- intros [(o' & ? & ? & ?)|[= <-]]; left; [exists o'|exists o]; set_solver.
      * rewrite lookup_insert_ne by done. set_solver.
Qed.

Lemma canonical_ok l m :
  canonical_observations l = Ok m ↔
  (∀ o, o ∈ l → observation_ok o) ∧ compatible l ∧ inventory_of l m.
Proof.
  unfold canonical_observations. rewrite canonical_from_ok. unfold inventory_of.
  split.
  - intros (H1 & H2 & _ & H4). split; [done|]. split; [done|]. intros k v. rewrite H4.
    rewrite lookup_empty. naive_solver.
  - intros (H1 & H2 & H4). split; [done|]. split; [done|].
    split; [intros ??? H; by rewrite lookup_empty in H|].
    intros k v. rewrite H4, lookup_empty. naive_solver.
Qed.

Lemma inventory_unique l m1 m2 : inventory_of l m1 → inventory_of l m2 → m1 = m2.
Proof.
  intros H1 H2. apply map_eq. intros k. apply option_eq. intros v. by rewrite (H1 k v), (H2 k v).
Qed.

(** Any list with the same elements has the same canonical inventory. *)
Lemma canonical_ext l1 l2 m :
  (∀ o, o ∈ l1 ↔ o ∈ l2) → canonical_observations l1 = Ok m → canonical_observations l2 = Ok m.
Proof.
  intros Heq (H1 & H2 & H3)%canonical_ok. apply canonical_ok. split; [|split].
  - intros o Ho. apply H1. by apply Heq.
  - intros o1 o2 Ho1 Ho2. apply H2; by apply Heq.
  - intros k v. rewrite (H3 k v). by setoid_rewrite Heq.
Qed.

Lemma canonical_values_ok l m :
  canonical_observations l = Ok m → canonical_observations (values m) = Ok m.
Proof.
  intros (H1 & H2 & H3)%canonical_ok. apply canonical_ok.
  assert (Hval : ∀ v, v ∈ values m ↔ ∃ o, o ∈ l ∧ canonical_observation o = v).
  { intros v. rewrite elem_of_values. split.
    - intros [k (o & ? & ? & ?)%H3]. by exists o.
    - intros (o & Ho & <-). exists (lifecycle_key o). apply H3. by exists o. }
  split; [|split].
  - intros v (o & Ho & <-)%Hval. apply observation_ok_canonical. auto.
  - intros v1 v2 (o1 & Ho1 & <-)%Hval (o2 & Ho2 & <-)%Hval.
    rewrite !canonical_observation_key, !canonical_observation_idemp. auto.
  - intros k v. rewrite (H3 k v). split.
    + intros (o & Ho & Hk & <-). exists (canonical_observation o).
      rewrite canonical_observation_idemp, canonical_observation_key. split; [|by split].
      apply Hval. by exists o.
    + intros (v' & (o & Ho & <-)%Hval & Hk & <-). exists o.
      rewrite canonical_observation_idemp. by repeat split.
Qed.

Lemma inventory_key l m k v :
  canonical_observations l = Ok m → m !! k = Some v →
  k = lifecycle_key v ∧ observation_ok v ∧ StronglySorted slt (o_threads v)
  ∧ (o_status v ≠ Open → o_blocking v = false).
Proof.
  intros (H1 & _ & H3)%canonical_ok (o & Ho & <- & <-)%H3.
  split; [done|]. split; [by apply observation_ok_canonical, H1|].
  split; [apply sort_dedup_sorted|].
  cbn. intros Hs. case_bool_decide; [done|]. reflexivity.
Qed.
End canonical.

(** ** Merging one observation into a stored finding *)

(** What [merge_finding] does to a stored finding [f] for the observation [o]. *)
Record merged (head_changed : bool) (head : string) (max_reopens : N)
    (f : ReviewLoopFinding) (o : ReviewFindingObservation) (f' : ReviewLoopFinding) : Prop := {
  mg_root : f_root_cause_fingerprint f = o_root_cause_fingerprint o;
  mg_root' : f_root_cause_fingerprint f' = f_root_cause_fingerprint f;
  mg_first : f_first_seen_head f' = f_first_seen_head f;
  mg_status : f_status f' = o_status o;
  mg_threads : f_threads f' = sort_dedup (f_threads f ++ o_threads o);
  mg_reopen : if (f_status f ==? Fixed) && (o_status o ==? Open)
              then f_reopen_count f' = saturating_add u32_max (f_reopen_count f) 1
                   ∧ (f_reopen_count f' ≤ max_reopens)%N
              else f_reopen_count f' = f_reopen_count f;
  mg_rest :
    if (o_status o ==? Fixed) && negb head_changed
    then f_status f = Fixed ∧ f_blocking f' = f_blocking f
         ∧ f_last_seen_head f' = f_last_seen_head f ∧ f_seen_count f' = f_seen_count f
    else f_blocking f' = observation_blocks o ∧ f_last_seen_head f' = head
         ∧ f_seen_count f' = saturating_add u32_max (f_seen_count f) 1;
}.

Lemma merge_finding_some hc h mx k f o f' :
  merge_finding hc h mx k (Some f) o = Ok f' → merged hc h mx f o f'.
Proof.
  unfold merge_finding. intros H. split_if H. bool_facts.
  apply bind_ok in H as (rc & Hrc & H).
  assert (Hre : if (f_status f ==? Fixed) && (o_status o ==? Open)
    then rc = saturating_add u32_max (f_reopen_count f) 1 ∧ (rc ≤ mx)%N
    else rc = f_reopen_count f).
  { destruct ((f_status f ==? Fixed) && (o_status o ==? Open)); [|by inv_ok].
    split_if Hrc. inv_ok. apply N.ltb_ge in Hif0. done. }
  clear Hrc. destruct ((o_status o ==? Fixed) && negb hc) eqn:E1.
  - destruct (decide (f_status f = Fixed)) as [Hf|Hf].
    + rewrite bool_decide_true in H by done. injection H as <-.
      apply andb_true_iff in E1 as E2. destruct E2 as [Eo _]. apply bool_decide_eq_true in Eo.
      split; cbn; rewrite ?E1; try done. by rewrite Hf, Eo.
    + by rewrite bool_decide_false in H.
  - injection H as <-. split; cbn; rewrite ?E1; done.
Qed.

Lemma merge_findings_lookup hc h mx m cur m' :
  merge_findings hc h mx m cur = Ok m' → ∀ k,
  match cur !! k with
  | None => m' !! k = m !! k
  | Some o =>
      match m !! k with
      | None => m' !! k = Some (new_finding h o)
      | Some f => ∃ f', merged hc h mx f o f' ∧ m' !! k = Some f'
      end
  end.
Proof.
  intros H k. unfold merge_findings in H.
  pose proof (foldM_entries_lookup (merge_finding hc h mx) cur m m' H k) as Hk.
  destruct (cur !! k) as [o|]; [|done]. destruct Hk as (w & Hw & Hm').
  destruct (m !! k) as [f|]; [|by injection Hw as <-].
  exists w. split; [by eapply merge_finding_some|done].
Qed.

(** ** One observation, by inversion *)
Section observe.
Context `{HS : !Hasher, LS : !LedgerSerde}.
Implicit Types (p s : ReviewLoopState) (cur : gmap string ReviewFindingObservation).

Definition moved p (head : string) : bool := s_head_sha p !=? head.

(** The open findings are accounted for by the rules of the observation's kind. *)
Definition accounts_for p (head : string) cur : Prop :=
  ∀ k f, s_findings p !! k = Some f → f_status f = Open →
    ∃ o, cur !! k = Some o ∧
      (moved p head = false → o_status o ≠ Fixed
        ∧ (f_blocking f = true → o_status o = Open → o_blocking o = true)).

Definition next_round p (head : string) : N :=
  wrapping_add u32_max (s_round p) (if moved p head then 1 else 0).

(** The state an observation that is merged leads to. *)
Record observed p (head : string) cur (s : ReviewLoopState) : Prop := {
  ob_accounts : accounts_for p head cur;
  ob_head : s_head_sha s = head;
  ob_round : s_round s = next_round p head;
  ob_round_budget : (next_round p head ≤ max_repair_rounds (s_budget p))%N;
  ob_no_progress : s_no_progress_rounds s = next_no_progress_rounds p (moved p head) cur;
  ob_no_progress_budget :
    (next_no_progress_rounds p (moved p head) cur ≤ max_no_progress_rounds (s_budget p))%N;
  ob_budget : s_budget s = s_budget p;
  ob_extensions : s_extensions s = s_extensions p;
  ob_stop : s_hard_stop s = None;
  ob_findings :
    merge_findings (moved p head) head (max_auto_reopens_per_fingerprint (s_budget p))
      (s_findings p) cur = Ok (s_findings s);
}.

Lemma missing_open_nil p cur :
  missing_open p cur = [] ↔
  ∀ k f, s_findings p !! k = Some f → f_status f = Open → is_Some (cur !! k).
Proof.
  unfold missing_open. split.
  - intros Hnil k f Hk Hopen. apply contains_key_true.
    destruct (contains_key k cur) eqn:Ek; [done|]. exfalso.
    assert (Hin : (k, f) ∈ List.filter
      (λ '(key, finding), open_finding finding && negb (contains_key key cur))
      (entries (s_findings p))).
    { apply list_elem_of_In, filter_In. split; [by apply list_elem_of_In, elem_of_entries|].
      unfold open_finding. by rewrite Ek, bool_decide_true. }
    destruct (List.filter _ _); [by apply not_elem_of_nil in Hin|done].
  - intros Hall. destruct (List.filter _ _) as [|[k f] l] eqn:El; [done|]. exfalso.
    assert (Hin : (k, f) ∈ (k, f) :: l) by by left. rewrite <- El in Hin.
    apply list_elem_of_In, filter_In in Hin as [Hin%list_elem_of_In%elem_of_entries Hb].
    apply andb_true_iff in Hb as [Ho Hc]. apply bool_decide_eq_true in Ho.
    apply negb_true_iff, contains_key_false in Hc. destruct (Hall k f Hin Ho). congruence.
Qed.

Lemma same_head_rules_ok head p cur :
  iterM (same_head_rule head cur) (entries (s_findings p)) = Ok tt ↔
  ∀ k f, s_findings p !! k = Some f → f_status f = Open →
    ∃ o, cur !! k = Some o ∧ o_status o ≠ Fixed
      ∧ (f_blocking f = true → o_status o = Open → o_blocking o = true).
Proof.
  rewrite iterM_ok. split.
  - intros H k f Hk Ho. specialize (H (k, f) (proj2 (elem_of_entries _ _ _) Hk)).
    cbn [same_head_rule] in H. unfold open_finding in H.
    rewrite Ho, bool_decide_true in H by done. cbn [negb] in H.
    destruct (cur !! k) as [o|]; [|discriminate H]. exists o. split; [done|].
    case_bool_decide; [discriminate H|]. split; [done|]. intros Hb Hopen.
    rewrite Hb, Hopen in H. by destruct (o_blocking o).
  - intros H [k f] Hin%elem_of_entries. unfold same_head_rule, open_finding.
    case_bool_decide as Ho; [|done]. cbn.
    destruct (H k f Hin Ho) as (o & -> & Hf & Hb). rewrite bool_decide_false by done.
    destruct (f_blocking f); [|done]. case_bool_decide as Hopen; [|done].
    by rewrite (Hb eq_refl Hopen).
Qed.

Lemma observe_resumed_ok p head cur t :
  observe_resumed p head cur = Ok t →
  (moved p head = false ∧ observation_matches_state p cur = true ∧ t = unchanged_transition p)
  ∨ ∃ s, observed p head cur s ∧ t = mk_ReviewLoopTransition s (s !=? p) None None None.
Proof.
  unfold observe_resumed. fold (moved p head). intros H. cbv zeta in H.
  destruct (moved p head) eqn:Em; cbn [andb negb] in H.
  - right. case_bool_decide as Hmiss; cbn [negb] in H; [|done].
    cbn [mbind result_bind] in H.
    fold (next_round p head) in H. revert H.
    replace (wrapping_add u32_max (s_round p) 1) with (next_round p head)
      by (unfold next_round; by rewrite Em).
    intros H. split_if H. split_if H. apply bind_ok in H as (m & Hm & [= <-]).
    eexists. split; [|done]. apply N.ltb_ge in Hif, Hif0.
    split; cbn; rewrite ?Em; try done.
    intros k f Hk Ho. destruct (proj1 (missing_open_nil p cur) Hmiss k f Hk Ho) as [o Hcur].
    exists o. split; [done|]. by rewrite Em.
  - split_if H; [left; by injection H as <-|right].
    apply bind_ok in H as ([] & Hrule & H). revert H.
    replace (wrapping_add u32_max (s_round p) 0) with (next_round p head)
      by (unfold next_round; by rewrite Em).
    intros H. split_if H. split_if H. apply bind_ok in H as (m & Hm & [= <-]).
    eexists. split; [|done]. apply N.ltb_ge in Hif0, Hif1.
    split; cbn; rewrite ?Em; try done.
    intros k f Hk Ho. destruct (proj1 (same_head_rules_ok head p cur) Hrule k f Hk Ho) as (o & ? & ?).
    by exists o.
Qed.
End observe.

(** ** Well-formed states, as propositions *)

Record finding_valid (k : string) (f : ReviewLoopFinding) : Prop := {
  fv_key : validate_lifecycle_fingerprint k = Ok tt;
  fv_root : ∀ r, f_root_cause_fingerprint f = Some r → r = k;
  fv_first : f_first_seen_head f ≠ EmptyString;
  fv_last : f_last_seen_head f ≠ EmptyString;
  fv_seen : f_seen_count f ≠ 0%N;
}.

Record stop_valid (st : ReviewLoopHardStop) : Prop := {
  sv_field : stop_budget_field (hs_code st) = Some (hs_budget_field st);
  sv_increment : hs_increment st = 1%N;
  sv_proposal : hs_proposal_digest st ≠ EmptyString;
  sv_head : hs_attempted_head_sha st ≠ EmptyString;
  sv_observation : hs_observation_digest st ≠ EmptyString;
}.

Record state_valid (s : ReviewLoopState) : Prop := {
  st_head : s_head_sha s ≠ EmptyString;
  st_findings : ∀ k f, s_findings s !! k = Some f → finding_valid k f;
  st_stop : ∀ st, s_hard_stop s = Some st → stop_valid st;
}.

Lemma validate_finding_ok k f : validate_finding k f = Ok tt ↔ finding_valid k f.
Proof.
  unfold validate_finding. split.
  - intros H. apply bind_ok in H as ([] & Hk & H). apply bind_ok in H as ([] & Hr & H).
    split_if H. apply orb_false_iff in Hif as [Hif Hs].
    apply orb_false_iff in Hif as [H1 H2]. apply N.eqb_neq in Hs.
    apply is_empty_false in H1, H2. split; try done.
    intros r Hroot. rewrite Hroot in Hr. apply bind_ok in Hr as ([] & _ & Hr).
    split_if Hr. apply negb_false_iff, bool_decide_eq_true in Hif. done.
  - intros [Hk Hr H1 H2 Hs]. rewrite Hk. cbn.
    assert (Hroot : match f_root_cause_fingerprint f with
      | Some root =>
          _ ← validate_lifecycle_fingerprint root;
          if root !=? k then
            throw (state_conflict "review-loop finding map key differs from its root-cause identity"
              (Some ("key=" +:+ k +:+ "; root=" +:+ root)))
          else Ok tt
      | None => Ok tt
      end = Ok tt).
    { destruct (f_root_cause_fingerprint f) as [r|]; [|done].
      rewrite (Hr r eq_refl), Hk. cbn. by rewrite bool_decide_true. }
    rewrite Hroot. cbn. apply is_empty_false in H1, H2. apply N.eqb_neq in Hs.
    by rewrite H1, H2, Hs.
Qed.

Lemma validate_state_ok s : validate_review_loop_state s = Ok tt ↔ state_valid s.
Proof.
  unfold validate_review_loop_state. split.
  - intros H. split_if H. apply is_empty_false in Hif.
    apply bind_ok in H as ([] & Hf & H). split; [done| |].
    + intros k f Hk. apply validate_finding_ok. rewrite iterM_ok in Hf.
      apply (Hf (k, f)). by apply elem_of_entries.
    + intros st Hst. rewrite Hst in H. split_if H.
      apply orb_false_iff in Hif0 as [Hif0 H5]. apply orb_false_iff in Hif0 as [Hif0 H4].
      apply orb_false_iff in Hif0 as [Hif0 H3]. apply orb_false_iff in Hif0 as [H1 H2].
      apply negb_false_iff, bool_decide_eq_true in H1. apply negb_false_iff, N.eqb_eq in H2.
      apply is_empty_false in H3, H4, H5. done.
  - intros [Hh Hf Hs]. apply is_empty_false in Hh. rewrite Hh.
    assert (Hi : iterM (λ '(fingerprint, finding), validate_finding fingerprint finding)
      (entries (s_findings s)) = Ok tt).
    { apply iterM_ok. intros [k f] Hin%elem_of_entries. apply validate_finding_ok. auto. }
    rewrite Hi. cbn. destruct (s_hard_stop s) as [st|]; [|done].
    destruct (Hs st eq_refl) as [H1 -> H3 H4 H5]. apply is_empty_false in H3, H4, H5.
    by rewrite H1, bool_decide_true, H3, H4, H5.
Qed.

Lemma trim_nonempty h : is_empty (trim h) = false → h ≠ EmptyString.
Proof. by intros H ->. Qed.

Section operations.
Context `{HS : !Hasher, LS : !LedgerSerde}.
Implicit Types (p s : ReviewLoopState) (cur : gmap string ReviewFindingObservation).

Lemma resume_stopped_ok p head cur p' :
  resume_stopped p head cur = Ok p' ↔
  p' = set_hard_stop p None ∧
  ∀ st, s_hard_stop p = Some st →
    hs_attempted_head_sha st = head ∧ hs_extension_applied st = true
    ∧ review_observation_digest head cur = Ok (hs_observation_digest st).
Proof.
  unfold resume_stopped. destruct p as [hd rd np bu fi ex [st|]]; cbn.
  - split.
    + intros H. apply bind_ok in H as (d & Hd & H). split_if H. split_if H.
      injection H as <-. split; [done|]. intros ? [= <-].
      apply orb_false_iff in Hif as [H1 H2].
      apply negb_false_iff, bool_decide_eq_true in H1, H2. apply negb_false_iff in Hif0.
      by subst.
    + intros (-> & H). destruct (H st eq_refl) as (H1 & H2 & H3). rewrite H3. cbn.
      rewrite !bool_decide_true by done. cbn. by rewrite H2.
  - split; [by intros [= <-]|]. by intros [-> _].
Qed.

Lemma observe_ok prev head obs t :
  observe_review_loop prev head obs = Ok t ↔
  is_empty (trim head) = false ∧
  ∃ cur, canonical_observations obs = Ok cur ∧
    match prev with
    | None => t = mk_ReviewLoopTransition (genesis_state head cur) true None None None
    | Some p => state_valid p ∧ ∃ p', resume_stopped p head cur = Ok p'
                  ∧ observe_resumed p' head cur = Ok t
    end.
Proof.
  unfold observe_review_loop. destruct (is_empty (trim head)); cbn.
  { split; [done|]. by intros [? _]. }
  rewrite bind_ok. split.
  - intros (cur & Hcur & H). split; [done|]. exists cur. split; [done|].
    destruct prev as [p|]; [|by injection H as <-].
    apply bind_ok in H as ([] & Hv & H). apply bind_ok in H as (p' & Hp' & H).
    split; [by apply validate_state_ok|]. eauto.
  - intros (_ & cur & Hcur & H). exists cur. split; [done|].
    destruct prev as [p|]; [|by subst].
    destruct H as (Hv & p' & Hp' & H). apply validate_state_ok in Hv.
    rewrite Hv. cbn. rewrite Hp'. done.
Qed.

Lemma set_stop_valid p o : state_valid p → (∀ st, o = Some st → stop_valid st) →
  state_valid (set_hard_stop p o).
Proof. intros [H1 H2 _] Ho. by split. Qed.

Lemma inventory_finding_valid obs cur k o head :
  canonical_observations obs = Ok cur → cur !! k = Some o → head ≠ EmptyString →
  finding_valid k (new_finding head o).
Proof.
  intros Hc Hk Hh. destruct (inventory_key _ _ _ _ Hc Hk) as (-> & [Hf Hr] & _).
  unfold lifecycle_key. split; cbn; try done.
  - destruct (o_root_cause_fingerprint o); done.
  - intros r ->. done.
Qed.

Lemma saturating_nonzero n : saturating_add u32_max n 1 ≠ 0%N.
Proof. unfold saturating_add, u32_max. lia. Qed.

Lemma merged_valid hc head mx k f o f' :
  merged hc head mx f o f' → finding_valid k f → head ≠ EmptyString → finding_valid k f'.
Proof.
  intros Hm [H1 H2 H3 H4 H5] Hh. pose proof (mg_rest _ _ _ _ _ _ Hm) as Hrest.
  split; [done|..].
  - intros r. rewrite (mg_root' _ _ _ _ _ _ Hm). auto.
  - by rewrite (mg_first _ _ _ _ _ _ Hm).
  - destruct (_ && _); [destruct Hrest as (_ & _ & -> & _)|destruct Hrest as (_ & -> & _)]; done.
  - destruct (_ && _).
    + by destruct Hrest as (_ & _ & _ & ->).
    + destruct Hrest as (_ & _ & ->). apply saturating_nonzero.
Qed.

Lemma merge_findings_valid hc head mx m obs cur m' :
  canonical_observations obs = Ok cur → head ≠ EmptyString →
  (∀ k f, m !! k = Some f → finding_valid k f) →
  merge_findings hc head mx m cur = Ok m' →
  ∀ k f, m' !! k = Some f → finding_valid k f.
Proof.
  intros Hc Hh Hm Hmerge k f' Hk. pose proof (merge_findings_lookup _ _ _ _ _ _ Hmerge k) as Hl.
  destruct (cur !! k) as [o|] eqn:Eo; [|rewrite Hl in Hk; auto].
  destruct (m !! k) as [f|] eqn:Ef.
  - destruct Hl as (f1 & Hf1 & Hl). assert (f1 = f') as -> by congruence.
    eapply merged_valid; eauto.
  - rewrite Hl in Hk. injection Hk as <-. by eapply inventory_finding_valid.
Qed.

Lemma observe_valid prev head obs t :
  observe_review_loop prev head obs = Ok t → state_valid (tr_state t).
Proof.
  intros (Hh%trim_nonempty & cur & Hc & H)%observe_ok. destruct prev as [p|].
  - destruct H as (Hv & p' & (-> & _)%resume_stopped_ok & Ho).
    assert (Hv' : state_valid (set_hard_stop p None)) by by apply set_stop_valid.
    apply observe_resumed_ok in Ho as [(_ & _ & ->)|(s & Hs & ->)]; [done|]. cbn.
    split.
    + by rewrite (ob_head _ _ _ _ Hs).
    + eapply merge_findings_valid; [done|done|apply (st_findings _ Hv')|].
      apply (ob_findings _ _ _ _ Hs).
    + intros st Hst. by rewrite (ob_stop _ _ _ _ Hs) in Hst.
  - subst t. cbn. split; [done| |done]. cbn. intros k f.
    rewrite lookup_fmap. intros (o & Ho & ->)%fmap_Some_1.
    by eapply inventory_finding_valid.
Qed.
End operations.

(** ** When an observation is already recorded *)
Definition recorded_at (head : string) (o : ReviewFindingObservation) (f : ReviewLoopFinding) : Prop :=
  f_last_seen_head f = head ∧ f_root_cause_fingerprint f = o_root_cause_fingerprint o
  ∧ f_status f = o_status o ∧ f_blocking f = o_blocking o
  ∧ ∀ th, th ∈ o_threads o → th ∈ f_threads f.

Lemma matches_state_intro s cur :
  (∀ k, match cur !! k with
        | Some o => ∃ f, s_findings s !! k = Some f ∧ recorded_at (s_head_sha s) o f
        | None => ∀ f, s_findings s !! k = Some f → f_last_seen_head f ≠ s_head_sha s
        end) →
  observation_matches_state s cur = true.
Proof.
  intros H. unfold observation_matches_state.
  set (active := filter _ (s_findings s)).
  assert (Hact : ∀ k f, active !! k = Some f ↔
    s_findings s !! k = Some f ∧ f_last_seen_head f = s_head_sha s).
  { intros k f. unfold active. by rewrite map_lookup_filter_Some. }
  apply andb_true_iff. split.
  - apply Nat.eqb_eq. rewrite <- !(size_dom (D := gset string)). f_equal.
    apply set_eq. intros k. rewrite !elem_of_dom. specialize (H k).
    destruct (cur !! k) as [o|].
    + destruct H as (f & Hf & Hh & _). split; [by eauto|]. intros _. exists f. by apply Hact.
    + split; [|by intros [? ?]]. intros [f [Hf Hh]%Hact]. by destruct (H f Hf).
  - apply forallb_forall. intros [k o] Hin%list_elem_of_In%elem_of_entries.
    specialize (H k). rewrite Hin in H. destruct H as (f & Hf & Hh & Hr & Hs & Hb & Ht).
    rewrite (proj2 (Hact k f)) by done. cbn.
    rewrite Hr, Hs, Hb, !bool_decide_true, Bool.eqb_reflx by done. cbn.
    apply forallb_forall. intros th Hth%list_elem_of_In. apply bool_decide_eq_true. auto.
Qed.

Lemma recorded_new head o : (o_status o ≠ Open → o_blocking o = false) →
  recorded_at head o (new_finding head o).
Proof.
  intros Hb. split; [done|]. split; [done|]. split; [done|]. split; [|done]. cbn.
  unfold observation_blocks. case_bool_decide; [done|]. cbn. by rewrite Hb.
Qed.

Lemma recorded_merged head mx f o f' : (o_status o ≠ Open → o_blocking o = false) →
  merged true head mx f o f' → recorded_at head o f'.
Proof.
  intros Hb [H1 H2 H3 H4 H5 _ H7]. rewrite andb_false_r in H7. destruct H7 as (H7 & H8 & _).
  split; [done|]. split; [congruence|]. split; [done|]. split.
  - rewrite H7. unfold observation_blocks. case_bool_decide; [done|]. cbn. by rewrite Hb.
  - intros th Hth. rewrite H5. apply elem_of_sort_dedup, elem_of_app. by right.
Qed.

(** ** What one observation does to each stored finding *)
Section findings.
Context `{HS : !Hasher, LS : !LedgerSerde}.
Implicit Types (p s : ReviewLoopState) (cur : gmap string ReviewFindingObservation).

Lemma observe_finding_cases p head obs t k f :
  observe_review_loop (Some p) head obs = Ok t → s_findings p !! k = Some f →
  ∃ f', s_findings (tr_state t) !! k = Some f' ∧
    (f' = f ∨
     ∃ o, o ∈ obs ∧ lifecycle_key o = k
       ∧ merged (moved p head) head (max_auto_reopens_per_fingerprint (s_budget p)) f
           (canonical_observation o) f'
       ∧ (f_status f = Open → moved p head = false →
            o_status o ≠ Fixed
            ∧ (f_blocking f = true → o_status o = Open → o_blocking o = true))).
Proof.
  intros (Hh & cur & Hc & Hv & p' & (-> & _)%resume_stopped_ok & Ho)%observe_ok Hk.
  apply observe_resumed_ok in Ho as [(_ & _ & ->)|(s & Hs & ->)]; cbn; [by eauto|].
  pose proof (merge_findings_lookup _ _ _ _ _ _ (ob_findings _ _ _ _ Hs) k) as Hl.
  destruct (cur !! k) as [v|] eqn:Ev; [|rewrite Hl; by eauto].
  change (s_findings (set_hard_stop p None)) with (s_findings p) in Hl.
  rewrite Hk in Hl. destruct Hl as (f' & Hm & Hl). exists f'. split; [done|]. right.
  apply canonical_ok in Hc as (_ & _ & Hinv). apply Hinv in Ev as (o & Hin & Hkey & <-).
  exists o. split; [done|]. split; [done|]. split; [done|]. intros Hopen Hmv.
  destruct (ob_accounts _ _ _ _ Hs k f Hk Hopen) as (o' & Ho' & Hrule).
  assert (canonical_observation o = o') as <-.
  { apply (inj Some). rewrite <- Ho'. symmetry. apply Hinv. eauto. }
  destruct (Hrule Hmv) as [H1 H2]. split; [done|]. intros Hb Hs1.
  specialize (H2 Hb Hs1). cbn in H2. by rewrite Hs1 in H2.
Qed.

Lemma observe_new_finding p head obs t k f' :
  observe_review_loop (Some p) head obs = Ok t → s_findings p !! k = None →
  s_findings (tr_state t) !! k = Some f' →
  ∃ o, o ∈ obs ∧ lifecycle_key o = k ∧ f' = new_finding head (canonical_observation o).
Proof.
  intros (Hh & cur & Hc & Hv & p' & (-> & _)%resume_stopped_ok & Ho)%observe_ok Hk Hk'.
  apply observe_resumed_ok in Ho as [(_ & _ & ->)|(s & Hs & ->)]; cbn in Hk'; [congruence|].
  pose proof (merge_findings_lookup _ _ _ _ _ _ (ob_findings _ _ _ _ Hs) k) as Hl.
  change (s_findings (set_hard_stop p None)) with (s_findings p) in Hl. rewrite Hk in Hl.
  destruct (cur !! k) as [v|] eqn:Ev; [|congruence].
  apply canonical_ok in Hc as (_ & _ & Hinv). apply Hinv in Ev as (o & Hin & Hkey & <-).
  exists o. split; [done|]. split; [done|]. congruence.
Qed.

Lemma saturating_le n : (n ≤ u32_max → n ≤ saturating_add u32_max n 1)%N.
Proof. unfold saturating_add, u32_max. lia. Qed.

Lemma observe_budgets prev head obs t :
  observe_review_loop prev head obs = Ok t →
  match prev with
  | Some p => within_budget p → within_budget (tr_state t) ∧ s_budget (tr_state t) = s_budget p
                ∧ s_extensions (tr_state t) = s_extensions p
  | None => within_budget (tr_state t) ∧ s_budget (tr_state t) = ReviewLoopBudget_default
              ∧ s_extensions (tr_state t) = []
  end.
Proof.
  intros (Hh & cur & Hc & H)%observe_ok. destruct prev as [p|].
  - destruct H as (Hv & p' & (-> & _)%resume_stopped_ok & Ho). intros (H1 & H2 & H3).
    apply observe_resumed_ok in Ho as [(_ & _ & ->)|(s & Hs & ->)]; [done|]. cbn.
    rewrite (ob_budget _ _ _ _ Hs), (ob_extensions _ _ _ _ Hs). split; [|done].
    split; [|split]; rewrite (ob_budget _ _ _ _ Hs).
    + rewrite (ob_round _ _ _ _ Hs). apply (ob_round_budget _ _ _ _ Hs).
    + rewrite (ob_no_progress _ _ _ _ Hs). apply (ob_no_progress_budget _ _ _ _ Hs).
    + intros k f' Hk. pose proof (merge_findings_lookup _ _ _ _ _ _ (ob_findings _ _ _ _ Hs) k) as Hl.
      cbn in Hl |- *.
      destruct (s_findings p !! k) as [f|] eqn:Ef; destruct (cur !! k) as [o|] eqn:Eo.
      * destruct Hl as (f1 & Hm & Hl). assert (f1 = f') as -> by congruence.
        pose proof (mg_reopen _ _ _ _ _ _ Hm) as Hr. destruct (_ && _).
        -- by destruct Hr.
        -- rewrite Hr. by eapply H3.
      * rewrite Hl in Hk. injection Hk as <-. by eapply H3.
      * rewrite Hl in Hk. injection Hk as <-. cbn. lia.
      * by rewrite Hl in Hk.
  - subst t. cbn. split; [|done]. split; [cbn; lia|]. split; [cbn; lia|].
    intros k f. cbn. rewrite lookup_fmap. intros (o & _ & ->)%fmap_Some_1. cbn. lia.
Qed.

(** ** Hard stops and extensions *)
Lemma record_stop_ok p head obs tip e s :
  record_review_loop_hard_stop p head obs tip e = Ok s ↔
  ∃ bf cur pd od,
    stop_budget_field (kind e) = Some bf ∧ canonical_observations obs = Ok cur
    ∧ extension_proposal_digest tip (kind e) bf 1 = Ok pd
    ∧ review_observation_digest head cur = Ok od
    ∧ s = set_hard_stop p (Some (mk_ReviewLoopHardStop (kind e) bf 1 pd head od false)).
Proof.
  unfold record_review_loop_hard_stop. split.
  - intros H. apply bind_ok in H as (bf & Hbf%ok_or_ok & H).
    apply bind_ok in H as (cur & Hcur & H). cbv zeta in H. apply bind_ok in H as (pd & Hpd & H).
    apply bind_ok in H as (od & Hod & [= <-]). exists bf, cur, pd, od. done.
  - intros (bf & cur & pd & od & Hbf & Hcur & Hpd & Hod & ->).
    rewrite Hbf. cbn. rewrite Hcur. cbn. rewrite Hpd. cbn. by rewrite Hod.
Qed.

Lemma digest_nonempty b : sha256_digest b ≠ EmptyString.
Proof. unfold sha256_digest. discriminate. Qed.

Lemma proposal_digest_some tip code bf n pd :
  extension_proposal_digest tip code bf n = Ok pd →
  pd ≠ EmptyString ∧ known_budget_field bf = true ∧ (1 ≤ n ≤ 100)%N.
Proof.
  unfold extension_proposal_digest. intros H. split_if H. split_if H.
  apply bind_ok in H as (b & _ & [= <-]). split; [apply digest_nonempty|].
  apply orb_false_iff in Hif as [H1 H2]. apply N.eqb_neq in H1. apply N.ltb_ge in H2.
  apply negb_false_iff in Hif0. split; [done|lia].
Qed.

Lemma observation_digest_some head cur od :
  review_observation_digest head cur = Ok od → od ≠ EmptyString.
Proof.
  unfold review_observation_digest. intros H. apply bind_ok in H as (b & _ & [= <-]).
  apply digest_nonempty.
Qed.

Lemma record_stop_valid p head obs tip e s :
  state_valid p → head ≠ EmptyString →
  record_review_loop_hard_stop p head obs tip e = Ok s → state_valid s.
Proof.
  intros Hv Hh (bf & cur & pd & od & Hbf & Hcur & Hpd & Hod & ->)%record_stop_ok.
  apply set_stop_valid; [done|]. intros st [= <-]. split; cbn; try done.
  - by apply proposal_digest_some in Hpd as [? _].
  - by eapply observation_digest_some.
Qed.
End findings.

(** ** Budgets by field name *)
Definition budget_entry (b : ReviewLoopBudget) (field : string) : option N :=
  if field ==? "max_repair_rounds" then Some (max_repair_rounds b)
  else if field ==? "max_no_progress_rounds" then Some (max_no_progress_rounds b)
  else if field ==? "max_auto_reopens_per_fingerprint"
       then Some (max_auto_reopens_per_fingerprint b)
  else None.

(** What the consumed extensions grant to one field. *)
Fixpoint granted (field : string) (l : list ReviewLoopExtension) : N :=
  match l with
  | [] => 0
  | x :: l => (if x_budget_field x ==? field then x_increment x else 0) + granted field l
  end.

Lemma granted_app field l1 l2 : granted field (l1 ++ l2) = (granted field l1 + granted field l2)%N.
Proof. induction l1 as [|x l1 IH]; cbn; [done|]. rewrite IH. lia. Qed.

Lemma checked_add_some m a b c : checked_add m a b = Some c ↔ c = (a + b)%N ∧ (c ≤ m)%N.
Proof.
  unfold checked_add. destruct (a + b <=? m)%N eqn:E1.
  - apply N.leb_le in E1. split; [by intros [= <-]|]. by intros [-> _].
  - apply N.leb_gt in E1. split; [done|]. intros [-> ?]. lia.
Qed.

Lemma increment_guard n (u : unit) :
  (if (n =? 0)%N || (100 <? n)%N then throw (extension_increment_error n) else Ok tt) = Ok u →
  (1 ≤ n ≤ 100)%N.
Proof.
  intros H. split_if H. apply orb_false_iff in Hif as [H1 H2].
  apply N.eqb_neq in H1. apply N.ltb_ge in H2. lia.
Qed.

Lemma extend_budget_ok b field n b' :
  extend_budget b field n = Ok b' →
  (1 ≤ n ≤ 100)%N ∧
  (∀ g, budget_entry b' g = (λ v, v + if field ==? g then n else 0)%N <$> budget_entry b g) ∧
  (budget_u32 b → budget_u32 b') ∧ (∃ v, budget_entry b field = Some v).
Proof.
  unfold extend_budget. intros H. cbv zeta in H.
  split_if H; [|split_if H; [|split_if H]];
    apply bind_ok in H as (u & Hu%increment_guard & H);
    apply bind_ok in H as (v & [-> Hv]%ok_or_ok%checked_add_some & [= <-]);
    (split; [done|]);
    repeat match goal with H : bool_decide _ = true |- _ => apply bool_decide_eq_true in H end;
    subst field; (split; [|split; [by intros (?&?&?)|by eexists]]);
    intros g; unfold budget_entry; cbn;
    repeat case_bool_decide; subst; cbn; try congruence; f_equal; lia.
Qed.

Section extension.
Context `{HS : !Hasher, LS : !LedgerSerde}.
Implicit Types (p s : ReviewLoopState).

Lemma apply_extension_ok p pd ar code bf n s :
  apply_review_loop_extension p pd ar code bf n = Ok s ↔
  ∃ b,
    s_hard_stop p = Some (mk_ReviewLoopHardStop code bf n pd
                            (from_option hs_attempted_head_sha EmptyString (s_hard_stop p))
                            (from_option hs_observation_digest EmptyString (s_hard_stop p)) false)
    ∧ stop_budget_field code = Some bf
    ∧ (∀ x, x ∈ s_extensions p → x_proposal_digest x ≠ pd)
    ∧ extend_budget (s_budget p) bf n = Ok b
    ∧ s = mk_ReviewLoopState (s_head_sha p) (s_round p) (s_no_progress_rounds p) b (s_findings p)
            (s_extensions p ++ [mk_ReviewLoopExtension pd ar bf n])
            (apply_extension_stop <$> s_hard_stop p).
Proof.
  unfold apply_review_loop_extension. destruct (s_hard_stop p) as [st|]; cbn.
  2:{ split; [done|]. by intros (? & ? & _). }
  destruct st as [c f i d h o a]; cbn. split.
  - intros H. split_if H. split_if H. apply bind_ok in H as (b & Hb & [= <-]).
    repeat (apply orb_false_iff in Hif as [Hif ?]). bool_facts. subst.
    exists b. split; [done|]. split; [done|]. split; [|done].
    intros x Hx Heq. rewrite <- not_true_iff_false in Hif0. apply Hif0, existsb_exists.
    exists x. split; [by apply list_elem_of_In|]. by apply bool_decide_eq_true.
  - intros (b & [= -> -> -> -> ->] & Hs & Hx & Hb & ->). rewrite Hs.
    rewrite !bool_decide_true by done. cbn. rewrite N.eqb_refl. cbn.
    assert (existsb (λ extension, x_proposal_digest extension ==? pd) (s_extensions p) = false) as ->.
    { apply not_true_iff_false. intros (x & Hin%list_elem_of_In & Heq%bool_decide_eq_true)%existsb_exists.
      by apply (Hx x). }
    by rewrite Hb.
Qed.

Lemma apply_extension_valid p pd ar code bf n s :
  state_valid p → apply_review_loop_extension p pd ar code bf n = Ok s → state_valid s.
Proof.
  intros Hv (b & Hst & _ & _ & _ & ->)%apply_extension_ok.
  destruct Hv as [H1 H2 H3]. split; cbn; [done|done|]. intros st'.
  destruct (s_hard_stop p) as [st|]; [|done]. cbn. intros [= <-].
  destruct (H3 st eq_refl). by split.
Qed.

Lemma apply_extension_budgets p pd ar code bf n s :
  apply_review_loop_extension p pd ar code bf n = Ok s →
  (within_budget p → within_budget s) ∧ (budget_u32 (s_budget p) → budget_u32 (s_budget s)).
Proof.
  intros (b & _ & _ & _ & Hb & ->)%apply_extension_ok.
  apply extend_budget_ok in Hb as (_ & Hb & Hu & _). split; [|done].
  intros (H1 & H2 & H3). pose proof (Hb "max_repair_rounds") as B1.
  pose proof (Hb "max_no_progress_rounds") as B2.
  pose proof (Hb "max_auto_reopens_per_fingerprint") as B3. cbn in B1, B2, B3.
  injection B1 as B1. injection B2 as B2. injection B3 as B3.
  split; [|split]; cbn; [lia|lia|]. intros k f Hk. specialize (H3 k f Hk). lia.
Qed.
End extension.

(** ** Which refusals carry a budget stop code *)
Lemma fingerprint_err fp e :
  validate_lifecycle_fingerprint fp = Err (Fail e) → kind e = "review_fingerprint_collision".
Proof. unfold validate_lifecycle_fingerprint. intros H. split_if H. by injection H as <-. Qed.

Lemma root_err root e :
  validate_root root = Err (Fail e) → kind e = "review_fingerprint_collision".
Proof. destruct root; [apply fingerprint_err|done]. Qed.

Lemma canonical_err l e :
  canonical_observations l = Err (Fail e) → kind e = "review_fingerprint_collision".
Proof.
  unfold canonical_observations. generalize (∅ : gmap string ReviewFindingObservation).
  induction l as [|o l IH]; intros m; cbn; [done|]. intros [H|(m' & _ & H)]%bind_err; [|by eapply IH].
  unfold canonical_step in H. apply bind_err in H as [H|(? & _ & H)]; [by eapply fingerprint_err|].
  apply bind_err in H as [H|(? & _ & H)]; [by eapply root_err|]. cbv zeta in H.
  destruct (m !! lifecycle_key o); [|done]. split_if H. by injection H as <-.
Qed.

Lemma validate_state_err s e :
  validate_review_loop_state s = Err (Fail e) → stop_budget_field (kind e) = None.
Proof.
  unfold validate_review_loop_state. intros H. split_if H; [by injection H as <-|].
  apply bind_err in H as [H|(? & _ & H)].
  - revert H. generalize (entries (s_findings s)). induction l as [|[k f] l IH]; cbn; [done|].
    intros [H|(? & _ & H)]%bind_err; [|auto]. unfold validate_finding in H.
    apply bind_err in H as [H|(? & _ & H)]; [by rewrite (fingerprint_err _ _ H)|].
    apply bind_err in H as [H|(? & _ & H)].
    + destruct (f_root_cause_fingerprint f) as [r|]; [|done].
      apply bind_err in H as [H|(? & _ & H)]; [by rewrite (fingerprint_err _ _ H)|].
      split_if H. by injection H as <-.
    + split_if H. by injection H as <-.
  - destruct (s_hard_stop s); [|done]. split_if H. by injection H as <-.
Qed.

(** The reasons a merge is refused with [e]. *)
Lemma merge_findings_err hc head mx m cur e :
  merge_findings hc head mx m cur = Err (Fail e) →
  kind e = "review_fingerprint_collision" ∨ kind e = "review_state_conflict"
  ∨ (kind e = "review_finding_reopened" ∧ ∃ k f, m !! k = Some f
       ∧ (mx < saturating_add u32_max (f_reopen_count f) 1)%N).
Proof.
  intros H. unfold merge_findings in H. apply (foldM_entries_error (merge_finding hc head mx)) in H
    as (k & o & Ho & H). unfold merge_finding in H.
  destruct (m !! k) as [f|] eqn:Ef; [|done].
  destruct (f_root_cause_fingerprint f !=? o_root_cause_fingerprint o).
  { injection H as <-. by left. }
  apply bind_err in H as [H|(rc & _ & H)].
  - destruct ((f_status f ==? Fixed) && (o_status o ==? Open)); [|done].
    cbv zeta in H. split_if H. injection H as <-. right. right. split; [done|].
    exists k, f. split; [done|]. by apply N.ltb_lt.
  - cbv zeta in H. destruct ((o_status o ==? Fixed) && negb hc); [|done].
    destruct (f_status f ==? Fixed); [done|]. injection H as <-. right. by left.
Qed.

(** The reasons an observation that is not stopped is refused with a budget code. *)
Lemma observe_resumed_err p head cur e :
  observe_resumed p head cur = Err (Fail e) → is_Some (stop_budget_field (kind e)) →
  (kind e = "review_round_limit_exceeded" ∧ (max_repair_rounds (s_budget p) < next_round p head)%N)
  ∨ (kind e = "review_no_progress"
     ∧ (max_no_progress_rounds (s_budget p) < next_no_progress_rounds p (moved p head) cur)%N)
  ∨ (kind e = "review_finding_reopened" ∧ ∃ k f, s_findings p !! k = Some f
       ∧ (max_auto_reopens_per_fingerprint (s_budget p)
          < saturating_add u32_max (f_reopen_count f) 1)%N).
Proof.
  unfold observe_resumed. fold (moved p head). cbv zeta. fold (next_round p head).
  intros H Hstop.
  destruct (moved p head && negb (bool_decide (missing_open p cur = []))).
  { injection H as <-. by destruct Hstop. }
  destruct (negb (moved p head) && observation_matches_state p cur); [done|].
  apply bind_err in H as [H|(? & _ & H)].
  { exfalso. destruct (moved p head); [done|]. revert H. cbn [negb].
    generalize (entries (s_findings p)). induction l as [|[k f] l IH]; cbn; [done|].
    intros [H|(? & _ & H)]%bind_err; [|auto]. unfold same_head_rule in H.
    destruct (negb (open_finding f)); [done|]. destruct (cur !! k) as [o|].
    - split_if H; [injection H as <-; by destruct Hstop|].
      split_if H. injection H as <-. by destruct Hstop.
    - injection H as <-. by destruct Hstop. }
  destruct (max_repair_rounds (s_budget p) <? next_round p head)%N eqn:E1.
  { injection H as <-. left. split; [done|]. by apply N.ltb_lt. }
  destruct (max_no_progress_rounds (s_budget p) <? _)%N eqn:E2.
  { injection H as <-. right. left. split; [done|]. by apply N.ltb_lt. }
  apply bind_err in H as [H|(? & _ & [=])]. right. right.
  apply merge_findings_err in H as [Hk|[Hk|H]]; [rewrite Hk in Hstop; by destruct Hstop..|done].
Qed.

Section refusals.
Context `{HS : !Hasher, LS : !LedgerSerde}.

(** An attempt that is not frozen and is refused with a budget code was refused by the
    transition itself. *)
Lemma observe_budget_err p head obs e :
  (∀ st, s_hard_stop p = Some st → hs_extension_applied st = true) →
  observe_review_loop (Some p) head obs = Err (Fail e) → is_Some (stop_budget_field (kind e)) →
  is_empty (trim head) = false ∧ state_valid p ∧
  ∃ cur, canonical_observations obs = Ok cur
    ∧ observe_resumed (set_hard_stop p None) head cur = Err (Fail e).
Proof.
  intros Hst H Hstop. unfold observe_review_loop in H.
  destruct (is_empty (trim head)); [injection H as <-; by destruct Hstop|]. split; [done|].
  apply bind_err in H as [H|(cur & Hc & H)].
  { rewrite (canonical_err _ _ H) in Hstop. by destruct Hstop. }
  apply bind_err in H as [H|([] & Hv & H)].
  { rewrite (validate_state_err _ _ H) in Hstop. by destruct Hstop. }
  split; [by apply validate_state_ok|]. exists cur. split; [done|].
  apply bind_err in H as [H|(p' & Hp' & H)].
  - exfalso. unfold resume_stopped in H. destruct (s_hard_stop p) as [st|]; [|done].
    apply bind_err in H as [H|(d & _ & H)].
    + unfold review_observation_digest, serialize_failure in H.
      apply bind_err in H as [H|(? & _ & [=])]. destruct (to_vec _); [done|].
      injection H as <-. by destruct Hstop.
    + split_if H; [injection H as <-; by destruct Hstop|]. by rewrite (Hst st eq_refl) in H.
  - apply resume_stopped_ok in Hp' as [-> _]. done.
Qed.

Lemma next_no_progress_le p b cur :
  (next_no_progress_rounds p b cur ≤ s_no_progress_rounds p + 1)%N.
Proof.
  unfold next_no_progress_rounds, saturating_add. repeat case_match; lia.
Qed.

Lemma next_round_le p head : (next_round p head ≤ s_round p + 1)%N.
Proof.
  unfold next_round, wrapping_add. etrans; [apply N.Div0.mod_le|]. case_match; lia.
Qed.
End refusals.

(** ** Theorems *)
Section theorems.
Context `{HS : !Hasher, LS : !LedgerSerde}.
Implicit Types (p s : ReviewLoopState).

(** The canonical inventory of an observation list does not depend on the order or
    the multiplicity of its rows, and canonicalising an inventory again changes nothing:
    the digest an attempt is frozen under is a function of what was observed. *)
Theorem canonical_observations_order l1 l2 m :
  (∀ o, o ∈ l1 ↔ o ∈ l2) → canonical_observations l1 = Ok m →
  canonical_observations l2 = Ok m ∧ canonical_observations (values m) = Ok m.
Proof.
  intros Heq Hm. split; [by eapply canonical_ext|by eapply canonical_values_ok].
Qed.


(** A durable hard stop freezes the loop: an observation is admitted over it only
    when its extension was applied, the head is the attempted head and the canonical
    inventory has the digest of the stopped attempt; the resulting state has no stop. *)
Theorem durable_stop_admits_only_its_attempt p st head obs t :
  s_hard_stop p = Some st → observe_review_loop (Some p) head obs = Ok t →
  hs_extension_applied st = true ∧ head = hs_attempted_head_sha st
  ∧ (∃ cur, canonical_observations obs = Ok cur
       ∧ review_observation_digest head cur = Ok (hs_observation_digest st))
  ∧ s_hard_stop (tr_state t) = None.
Proof.
  intros Hst (Hh & cur & Hc & Hv & p' & (-> & Hstop)%resume_stopped_ok & Ho)%observe_ok.
  destruct (Hstop st Hst) as (H1 & H2 & H3). split; [done|]. split; [done|].
  split; [by exists cur|].
  apply observe_resumed_ok in Ho as [(_ & _ & ->)|(s & Hs & ->)]; [done|].
  apply (ob_stop _ _ _ _ Hs).
Qed.

Lemma replay_unchanged s head obs cur :
  state_valid s → s_head_sha s = head → s_hard_stop s = None →
  is_empty (trim head) = false → canonical_observations obs = Ok cur →
  observation_matches_state s cur = true →
  observe_review_loop (Some s) head obs = Ok (unchanged_transition s).
Proof.
  intros Hv Hh Hst Hne Hc Hm. apply observe_ok. split; [done|]. exists cur. split; [done|].
  split; [done|]. exists s. split.
  - apply resume_stopped_ok. rewrite Hst. split; [|done]. destruct s. cbn in *. by subst.
  - unfold observe_resumed. rewrite (bool_decide_true _ Hh). cbn [negb andb]. by rewrite Hm.
Qed.

(** An observation of a head the loop has not seen before can be retried: repeating
    it against the state it led to reports that state, unchanged. *)
Theorem fresh_head_replay_unchanged prev head obs t :
  observe_review_loop prev head obs = Ok t →
  (∀ p, prev = Some p → s_head_sha p ≠ head ∧
     ∀ k f, s_findings p !! k = Some f → f_last_seen_head f ≠ head) →
  observe_review_loop (Some (tr_state t)) head obs = Ok (unchanged_transition (tr_state t)).
Proof.
  intros Hobs Hfresh. pose proof (observe_valid _ _ _ _ Hobs) as Hv.
  apply observe_ok in Hobs as (Hh & cur & Hc & H). destruct prev as [p|].
  - destruct H as (_ & p' & (-> & _)%resume_stopped_ok & Ho).
    destruct (Hfresh p eq_refl) as [Hne Hseen].
    assert (Hmv : moved (set_hard_stop p None) head = true)
      by (unfold moved; cbn; by rewrite bool_decide_false).
    apply observe_resumed_ok in Ho as [(Hmv' & _)|(s & Hs & ->)]; [congruence|]. cbn in *.
    apply replay_unchanged with (cur := cur); try done; [apply Hs|apply Hs|].
    apply matches_state_intro. intros k. rewrite (ob_head _ _ _ _ Hs).
    pose proof (merge_findings_lookup _ _ _ _ _ _ (ob_findings _ _ _ _ Hs) k) as Hl.
    rewrite Hmv in Hl. cbn in Hl. destruct (cur !! k) as [o|] eqn:Eo.
    + destruct (inventory_key _ _ _ _ Hc Eo) as (_ & _ & _ & Hb).
      destruct (s_findings p !! k) as [f|].
      * destruct Hl as (f' & Hm & Hl). exists f'. split; [done|]. by eapply recorded_merged.
      * exists (new_finding head o). split; [done|]. by apply recorded_new.
    + intros f Hf. rewrite Hl in Hf. by eapply Hseen.
  - subst t. cbn in *. apply replay_unchanged with (cur := cur); try done.
    apply matches_state_intro. intros k. cbn. rewrite lookup_fmap.
    destruct (cur !! k) as [o|] eqn:Eo; [|done]. cbn.
    exists (new_finding head o). split; [done|]. apply recorded_new.
    by destruct (inventory_key _ _ _ _ Hc Eo) as (_ & _ & _ & ?).
Qed.

(** An extension consumes the one proposal of the current stop: it raises exactly the
    budget the stop names, by the stop's increment, keeps every finding and counter, marks
    the stop as extended, and no state that remembers the proposal admits it again. *)
Theorem extension_consumes_one_proposal p pd ar code bf n s :
  apply_review_loop_extension p pd ar code bf n = Ok s →
  (∃ st, s_hard_stop p = Some st ∧ hs_proposal_digest st = pd ∧ hs_code st = code
     ∧ hs_budget_field st = bf ∧ hs_extension_applied st = false
     ∧ s_hard_stop s = Some (apply_extension_stop st))
  ∧ (∀ g, budget_entry (s_budget s) g
          = (λ v, v + if bf ==? g then n else 0)%N <$> budget_entry (s_budget p) g)
  ∧ s_extensions s = s_extensions p ++ [mk_ReviewLoopExtension pd ar bf n]
  ∧ s_findings s = s_findings p ∧ s_head_sha s = s_head_sha p
  ∧ s_round s = s_round p ∧ s_no_progress_rounds s = s_no_progress_rounds p
  ∧ ∀ s2 ar' code' bf' n', (∀ x, x ∈ s_extensions s → x ∈ s_extensions s2) →
      is_ok (apply_review_loop_extension s2 pd ar' code' bf' n') = false.
Proof.
  intros (b & Hst & Hsb & Hx & Hb & ->)%apply_extension_ok.
  apply extend_budget_ok in Hb as (_ & Hb & _ & _).
  split; [|split; [done|]].
  { destruct (s_hard_stop p) as [st|]; [|done]. exists st. cbn in *. injection Hst as Hst.
    rewrite Hst. done. }
  cbn. do 5 (split; [done|]). intros s2 ar' code' bf' n' Hlater.
  destruct (apply_review_loop_extension s2 pd ar' code' bf' n') as [s3|e] eqn:E1; [|done].
  apply apply_extension_ok in E1 as (_ & _ & _ & Hno & _).
  destruct (Hno (mk_ReviewLoopExtension pd ar bf n)); [|done].
  apply Hlater, elem_of_app. right. by left.
Qed.


(** At the no-progress ceiling the proposal is known in advance: when an observation of
    a loop with an open blocking finding is stopped for lack of progress, the proposal
    [ceiling_proposal] advertised for that state and tip is the one of the recorded stop. *)
Theorem ceiling_proposal_predicts_stop p head obs tip e s :
  within_budget p → s_hard_stop p = None →
  (∃ k f, s_findings p !! k = Some f ∧ f_status f = Open ∧ f_blocking f = true) →
  observe_review_loop (Some p) head obs = Err (Fail e) → kind e = "review_no_progress" →
  record_review_loop_hard_stop p head obs tip e = Ok s →
  ∃ cp st, ceiling_proposal p tip = Ok (Some cp) ∧ s_hard_stop s = Some st
    ∧ hs_code st = cp_stop_code cp ∧ hs_budget_field st = cp_budget_field cp
    ∧ hs_increment st = cp_increment cp ∧ hs_proposal_digest st = cp_proposal_digest cp.
Proof.
  intros (B1 & B2 & B3) Hst (k & f & Hf & Ho & Hb) Hobs Hk
    (bf & cur & pd & od & Hbf & Hc & Hpd & Hod & ->)%record_stop_ok.
  destruct (observe_budget_err p head obs e) as (_ & _ & cur' & Hc' & Hres); [congruence|done| |].
  { rewrite Hk. by eexists. }
  assert (cur' = cur) as -> by congruence.
  apply observe_resumed_err in Hres; [|rewrite Hk; by eexists]. rewrite Hk in Hres, Hbf, Hpd.
  destruct Hres as [[[=] _]|[[_ Hlt]|([=] & _)]].
  pose proof (next_no_progress_le (set_hard_stop p None) (moved (set_hard_stop p None) head) cur) as N2.
  cbn in Hlt, N2, Hbf. injection Hbf as <-.
  unfold ceiling_proposal. rewrite Hst. cbn [is_some orb].
  assert (s_no_progress_rounds p = max_no_progress_rounds (s_budget p)) as -> by lia.
  rewrite N.eqb_refl. cbn [negb orb].
  assert (existsb (λ finding, f_blocking finding && open_finding finding)
            (values (s_findings p)) = true) as ->.
  { apply existsb_exists. exists f. split; [apply list_elem_of_In, elem_of_values; by exists k|].
    unfold open_finding. by rewrite Hb, bool_decide_true. }
  cbn [negb]. rewrite Hpd. cbn. do 2 eexists. split; [done|]. split; [done|]. cbn. by rewrite Hk.
Qed.
End theorems.

(** A delta observation is not idempotent: with [F1] fixed at the head, observing
    [F2] open at that head and then observing exactly the same row again is reported as a
    change, and the state it leads to is a different one (the seen count moves). *)
Theorem same_head_delta_retry_rewrites `{HS : !Hasher, LS : !LedgerSerde} :
  ∃ p head obs t t',
    observe_review_loop (Some p) head obs = Ok t
    ∧ observe_review_loop (Some (tr_state t)) head obs = Ok t'
    ∧ tr_changed t' = true ∧ tr_state t' ≠ tr_state t.
Proof.
  pose (d := unchanged_transition (genesis_state "" ∅)).
  pose (st1 := tr_state (unwrap_or d (observe_review_loop None "h1" [demo_row F1 Open]))).
  pose (st2 := tr_state (unwrap_or d (observe_review_loop (Some st1) "h2" [demo_row F1 Fixed]))).
  pose (t3 := unwrap_or d (observe_review_loop (Some st2) "h2" [demo_row F2 Open])).
  pose (t4 := unwrap_or d (observe_review_loop (Some (tr_state t3)) "h2" [demo_row F2 Open])).
  exists st2, "h2", [demo_row F2 Open], t3, t4.
  split; [evaluates|]. split; [evaluates|]. split; evaluates.
Qed.

(** ** Witnesses: the theorems applied to a concrete loop *)
Module Witness.
#[local] Existing Instance demo_hasher.
#[local] Instance serde : LedgerSerde := demo_serde [].

Definition nothing : ReviewLoopState := genesis_state "" ∅.
Definition state_of (r : exec ReviewLoopTransition) : ReviewLoopState :=
  tr_state (unwrap_or (unchanged_transition nothing) r).
Definition error_of {A} (r : exec A) : ForgeError :=
  match r with Err (Fail e) => e | _ => software "" "" None end.

Lemma fail_error_of {A} (r : exec A) :
  match r with Err (Fail _) => true | _ => false end = true → r = Err (Fail (error_of r)).
Proof. by destruct r as [|[]]. Qed.

Definition open1 : list ReviewFindingObservation := [demo_row F1 Open].
Definition s1 : ReviewLoopState := state_of (observe_review_loop None "h1" open1).
Definition s2 : ReviewLoopState := state_of (observe_review_loop (Some s1) "h2" open1).
Definition s3 : ReviewLoopState := state_of (observe_review_loop (Some s2) "h3" open1).
Definition refused : exec ReviewLoopTransition := observe_review_loop (Some s3) "h4" open1.
Definition stop_error : ForgeError := error_of refused.
Definition stopped : ReviewLoopState :=
  unwrap_or nothing (record_review_loop_hard_stop s3 "h4" open1 "tip" stop_error).
Definition stop_of (s : ReviewLoopState) : ReviewLoopHardStop :=
  default (mk_ReviewLoopHardStop "" "" 0 "" "" "" false) (s_hard_stop s).
Definition proposal : string := hs_proposal_digest (stop_of stopped).
Definition extended : ReviewLoopState :=
  unwrap_or nothing (apply_review_loop_extension stopped proposal "url" (kind stop_error)
                       "max_no_progress_rounds" 1).
Definition finding_of (s : ReviewLoopState) (k : string) : ReviewLoopFinding :=
  default (new_finding "" (demo_row F1 Open)) (s_findings s !! k).

Lemma within_budget_s3 : within_budget s3.
Proof.
  split; [evaluates|]. split; [evaluates|]. intros k f Hk.
  assert (Hall : map_Forall (λ _ f, (f_reopen_count f ≤ 0)%N) (s_findings s3)) by evaluates.
  assert (Hb : max_auto_reopens_per_fingerprint (s_budget s3) = 0%N) by evaluates.
  rewrite Hb. apply (Hall k f Hk).
Qed.

Lemma stop_error_eq : observe_review_loop (Some s3) "h4" open1 = Err (Fail stop_error).
Proof. apply fail_error_of. by vm_compute. Qed.

Lemma s3_no_stop : s_hard_stop s3 = None.
Proof. evaluates. Qed.
End Witness.

Lemma canonical_observations_order_witness :
  is_ok (canonical_observations [demo_row F2 Open; demo_row F1 Fixed; demo_row F2 Open]) = true.
Proof.
  assert (Heq : ∀ o, o ∈ [demo_row F1 Fixed; demo_row F2 Open] ↔
    o ∈ [demo_row F2 Open; demo_row F1 Fixed; demo_row F2 Open]) by set_solver.
  rewrite (proj1 (canonical_observations_order _ _
    (unwrap_or ∅ (canonical_observations [demo_row F1 Fixed; demo_row F2 Open])) Heq
    ltac:(evaluates))).
  reflexivity.
Defined.


Lemma durable_stop_admits_only_its_attempt_witness :
  ∃ t, @observe_review_loop demo_hasher Witness.serde (Some Witness.extended) "h4" Witness.open1
       = Ok t ∧ s_hard_stop (tr_state t) = None.
Proof.
  eexists. split; cycle 1.
  - refine (proj2 (proj2 (proj2 (@durable_stop_admits_only_its_attempt demo_hasher Witness.serde
      Witness.extended (Witness.stop_of Witness.extended) "h4" Witness.open1
      (unwrap_or (unchanged_transition Witness.nothing) _) _ _)))); evaluates.
  - evaluates.
Defined.

Lemma fresh_head_replay_unchanged_witness :
  ∃ t, @observe_review_loop demo_hasher Witness.serde (Some (tr_state t)) "h2" Witness.open1
       = Ok (unchanged_transition (tr_state t)).
Proof.
  eexists. refine (@fresh_head_replay_unchanged demo_hasher Witness.serde (Some Witness.s1) "h2"
    Witness.open1 (unwrap_or (unchanged_transition Witness.nothing) _) _ _); [evaluates|].
  intros p [= <-]. split; [evaluates|]. intros k f Hk Hseen.
  assert (Hall : map_Forall (λ _ f, f_last_seen_head f ≠ "h2") (s_findings Witness.s1))
    by evaluates.
  by apply (Hall k f Hk).
Defined.

Lemma extension_consumes_one_proposal_witness :
  s_round Witness.extended = s_round Witness.stopped.
Proof.
  destruct (extension_consumes_one_proposal Witness.stopped Witness.proposal "url"
              (kind Witness.stop_error) "max_no_progress_rounds" 1 Witness.extended
              ltac:(evaluates)) as (_ & _ & _ & _ & _ & H & _).
  exact H.
Defined.


Lemma ceiling_proposal_predicts_stop_witness :
  ∃ cp st, @ceiling_proposal demo_hasher Witness.serde Witness.s3 "tip" = Ok (Some cp)
    ∧ s_hard_stop Witness.stopped = Some st ∧ hs_proposal_digest st = cp_proposal_digest cp.
Proof.
  destruct (@ceiling_proposal_predicts_stop demo_hasher Witness.serde Witness.s3 "h4"
              Witness.open1 "tip" Witness.stop_error Witness.stopped Witness.within_budget_s3
              Witness.s3_no_stop)
    as (cp & st & H1 & H2 & _ & _ & _ & H3).
  - exists F1, (Witness.finding_of Witness.s3 F1). split; [evaluates|]. split; evaluates.
  - exact Witness.stop_error_eq.
  - evaluates.
  - evaluates.
  - exists cp, st. exact (conj H1 (conj H2 H3)).
Defined.
