(* ===== verification/IdentityFacts.v ===== *)
(** * Theorems on the identity policy

    A validated policy resolves without a panic, to a profile the principal owns and
    an operation the profile grants; the order of its rules does not matter. *)
From S2P Require Import Prelude RStr Collections Error Types Identity.
From stdpp Require Import options.

Section facts.
Context `{SP : !SecretPattern}.
Implicit Types (p : Policy) (t : Target) (op : Operation).

(** ** What validation establishes *)
Record policy_valid p : Prop := {
  pv_profiles : ∀ k pf, po_profiles p !! k = Some pf →
    is_Some (po_credentials p !! pf_credential pf);
  pv_principals : ∀ k e, po_principals p !! k = Some e →
    pr_profiles e ≠ [] ∧ (∀ x, x ∈ pr_profiles e → is_Some (po_profiles p !! x))
    ∧ (∀ d, pr_default_profile e = Some d → d ∈ pr_profiles e);
  pv_rules : ∀ r, r ∈ po_rules p →
    ∃ e, po_principals p !! ru_principal r = Some e ∧ ru_profile r ∈ pr_profiles e;
}.

Lemma validate_profile_valid p k pf u :
  validate_profile p (k, pf) = Ok u → is_Some (po_credentials p !! pf_credential pf).
Proof.
  unfold validate_profile. intros H. split_if H.
  repeat (apply orb_false_iff in Hif as [Hif ?]).
  apply contains_key_true. by apply negb_false_iff.
Qed.

Lemma validate_principal_valid p k e u :
  validate_principal p (k, e) = Ok u →
  pr_profiles e ≠ [] ∧ (∀ x, x ∈ pr_profiles e → is_Some (po_profiles p !! x))
  ∧ (∀ d, pr_default_profile e = Some d → d ∈ pr_profiles e).
Proof.
  unfold validate_principal. intros H. split_if H. clear H.
  repeat (apply orb_false_iff in Hif as [Hif ?]).
  split; [|split].
  - by eapply bool_decide_eq_false_1.
  - intros x Hx. apply contains_key_true, negb_false_iff.
    by apply (proj1 (existsb_false _ _) H1).
  - intros d Hd. rewrite Hd in *. cbn in *. by eapply negb_decide_false.
Qed.

Lemma validate_rules_valid cz p l ids ids' :
  foldM (validate_rule cz p) ids l = Ok ids' → ∀ r, r ∈ l →
  ∃ e, po_principals p !! ru_principal r = Some e ∧ ru_profile r ∈ pr_profiles e.
Proof.
  revert ids. induction l as [|r l IH]; intros ids; cbn; [set_solver|].
  intros (ids1 & Hr & Hl)%bind_ok. intros x [->|Hx]%elem_of_cons; [|by eapply IH].
  unfold validate_rule in Hr. destruct (po_principals p !! ru_principal r) as [e|]; [|done].
  exists e. split; [done|]. split_if Hr.
  repeat (apply orb_false_iff in Hif as [Hif ?]).
  by eapply negb_decide_false.
Qed.

Lemma Policy_validate_valid cz p : Policy_validate cz p = Ok tt → policy_valid p.
Proof.
  unfold Policy_validate. intros H. split_if H. split_if H. split_if H.
  apply bind_ok in H as ([] & _ & H). apply bind_ok in H as ([] & Hpf & H).
  apply bind_ok in H as ([] & Hpr & H). apply bind_ok in H as (lids & _ & H).
  apply bind_ok in H as (ids & Hru & _). rewrite iterM_ok in Hpf. rewrite iterM_ok in Hpr. split.
  - intros k pf Hk. eapply validate_profile_valid, (Hpf (k, pf)). by apply elem_of_entries.
  - intros k e Hk. eapply validate_principal_valid, (Hpr (k, e)). by apply elem_of_entries.
  - by eapply validate_rules_valid.
Qed.

(** ** The pieces of a resolution *)
Lemma first_group_some gs g :
  first_group gs = Some g → g ∈ gs ∧ g ≠ [].
Proof.
  unfold first_group. intros [Hin Hb]%find_first_some. split; [done|].
  intros ->. by rewrite bool_decide_true in Hb.
Qed.

Lemma first_group_none gs : first_group gs = None ↔ ∀ g, g ∈ gs → g = [].
Proof.
  unfold first_group. rewrite find_first_none. split.
  - intros H g Hg. specialize (H g Hg). apply negb_false_iff, bool_decide_eq_true in H.
    by apply nil_length_inv.
  - intros H g Hg. by rewrite (H g Hg).
Qed.

Lemma select_rule_ok entry key chosen paths pid rid :
  select_rule entry key chosen paths = Ok (pid, rid) →
  (∃ rule, chosen = Some [rule] ∧ pid = ru_profile rule ∧ rid = ru_id rule
     ∧ ∀ r, r ∈ paths → ru_profile r = pid)
  ∨ (chosen = None ∧ key ∈ pr_default_repositories entry ∧ pr_default_profile entry = Some pid).
Proof.
  unfold select_rule. destruct chosen as [g|].
  - destruct g as [|rule [|]]; cbn; [done| |done]. intros H. split_if H.
    injection H as <- <-. left. exists rule. do 3 (split; [done|]). intros r Hr.
    rewrite existsb_false in Hif. eapply negb_decide_false, Hif; done.
  - intros H. split_if H. apply bind_ok in H as (d & Hd%ok_or_ok & [= <- <-]). right.
    split; [done|]. split; [|done]. by eapply negb_decide_false.
Qed.

Lemma chosen_rule p pr t mp g rule :
  first_group [List.filter (λ r, ru_repo r ==? Some (target_key t)) (rules_of p pr);
               List.filter (λ r, ru_org r ==? Some (org t)) (rules_of p pr);
               path_rules mp (rules_of p pr)] = Some g →
  rule ∈ g →
  rule ∈ po_rules p ∧ ru_principal rule = pr
  ∧ (ru_repo rule = Some (target_key t) ∨ ru_org rule = Some (org t)
     ∨ rule ∈ path_rules mp (rules_of p pr)).
Proof.
  intros [Hg _]%first_group_some Hin.
  assert (Hr : rule ∈ rules_of p pr ∧ (ru_repo rule = Some (target_key t)
    ∨ ru_org rule = Some (org t) ∨ rule ∈ path_rules mp (rules_of p pr))).
  { rewrite !elem_of_cons in Hg. destruct Hg as [->|[->|[->|Hg]]].
    - apply elem_of_list_filter in Hin as [? ?%bool_decide_eq_true]. auto.
    - apply elem_of_list_filter in Hin as [? ?%bool_decide_eq_true]. auto.
    - split; [|auto]. by apply elem_of_list_filter in Hin as [? _].
    - by apply not_elem_of_nil in Hg. }
  destruct Hr as [Hr ?]. apply elem_of_list_filter in Hr as [? ?%bool_decide_eq_true]. auto.
Qed.

(** The profile of the rule or default that was selected is one of the principal's. *)
Lemma selected_profile p pr e t mp pid rid :
  policy_valid p → po_principals p !! pr = Some e →
  select_rule e (target_key t)
    (first_group [List.filter (λ r, ru_repo r ==? Some (target_key t)) (rules_of p pr);
                  List.filter (λ r, ru_org r ==? Some (org t)) (rules_of p pr);
                  path_rules mp (rules_of p pr)])
    (path_rules mp (rules_of p pr)) = Ok (pid, rid) →
  pid ∈ pr_profiles e.
Proof.
  intros Hv He [(rule & Hg & -> & _ & _)|(_ & _ & Hd)]%select_rule_ok.
  - destruct (chosen_rule _ _ _ _ _ rule Hg) as (Hin & Hpr & _); [by left|].
    destruct (pv_rules _ Hv rule Hin) as (e' & He' & ?). rewrite Hpr in He'. congruence.
  - by apply (pv_principals _ Hv pr e He).
Qed.

Lemma unwrap_ok {A} r (o : option A) a : unwrap r o = Ok a ↔ o = Some a.
Proof. destruct o; cbn; naive_solver. Qed.

Lemma resolve_host_ok p pr e t op sel :
  policy_valid p → po_principals p !! pr = Some e → resolve_host p pr e t op = Ok sel →
  op = ApiRead ∧ pr_profiles e ≠ [] ∧ (∀ x, x ∈ pr_profiles e → x = se_profile_id sel)
  ∧ host_declared p pr e (se_profile_id sel) (tg_host t) = true
  ∧ po_profiles p !! se_profile_id sel = Some (se_profile sel)
  ∧ op ∈ pf_operations (se_profile sel).
Proof.
  intros Hv He H. unfold resolve_host in H. split_if H. cbv zeta in H. split_if H.
  apply bind_ok in H as (pid & Hpid%unwrap_ok & H). split_if H.
  apply bind_ok in H as (pf & Hpf%unwrap_ok & H). split_if H. injection H as <-. cbn.
  apply negb_false_iff, bool_decide_eq_true in Hif. split; [done|].
  split; [by apply (pv_principals _ Hv pr e He)|].
  apply negb_false_iff in Hif0, Hif1, Hif2. apply Nat.eqb_eq in Hif0.
  apply bool_decide_eq_true in Hif2. split; [|done].
  intros x Hx. apply elem_of_sort_dedup in Hx.
  destruct (sort_dedup (pr_profiles e)) as [|y [|]]; try done. cbn in Hpid.
  injection Hpid as ->. by apply list_elem_of_singleton in Hx.
Qed.

Lemma resolve_repo_ok p pr e t mp op sel :
  po_principals p !! pr = Some e → is_empty (tg_repo t) = false →
  resolve p pr t mp op = Ok sel →
  (∀ r, r ∈ path_rules mp (rules_of p pr) → target_key t ∈ ru_repositories r)
  ∧ select_rule e (target_key t)
    (first_group [List.filter (λ r, ru_repo r ==? Some (target_key t)) (rules_of p pr);
                  List.filter (λ r, ru_org r ==? Some (org t)) (rules_of p pr);
                  path_rules mp (rules_of p pr)])
    (path_rules mp (rules_of p pr)) = Ok (se_profile_id sel, se_matched_rule sel)
  ∧ po_profiles p !! se_profile_id sel = Some (se_profile sel)
  ∧ op ∈ pf_operations (se_profile sel).
Proof.
  intros He Hne H. unfold resolve in H. rewrite He in H. cbn [ok_or mbind result_bind] in H.
  rewrite Hne in H. cbv zeta in H. split_if H.
  apply bind_ok in H as ([pid rid] & Hsel & H).
  apply bind_ok in H as (pf & Hpf%unwrap_ok & H). split_if H. injection H as <-. cbn.
  apply negb_false_iff, bool_decide_eq_true in Hif0. split; [|done].
  intros r Hr. rewrite existsb_false in Hif. eapply negb_decide_false, Hif; done.
Qed.

(** ** Panics *)
Lemma select_rule_no_panic entry key gs paths r :
  select_rule entry key (first_group gs) paths ≠ Err (Crashed r).
Proof.
  unfold select_rule. destruct (first_group gs) as [g|].
  - destruct g as [|rule [|]]; cbn; [done| |done]. by destruct (existsb _ _).
  - destruct (negb _); [done|]. by destruct (pr_default_profile entry).
Qed.

Lemma resolve_host_no_panic p pr e t op r :
  policy_valid p → po_principals p !! pr = Some e → resolve_host p pr e t op ≠ Err (Crashed r).
Proof.
  intros Hv He H. unfold resolve_host in H. split_if H. cbv zeta in H. split_if H.
  apply negb_false_iff, Nat.eqb_eq in Hif0.
  destruct (sort_dedup (pr_profiles e)) as [|x l] eqn:Es; [done|].
  cbn [head unwrap mbind result_bind] in H. split_if H.
  destruct (pv_principals _ Hv pr e He) as (_ & Hin & _).
  destruct (Hin x) as [pf Hpf]; [apply elem_of_sort_dedup; rewrite Es; by left|].
  rewrite Hpf in H. cbn in H. by split_if H.
Qed.

(** ** Reordering the rules *)
Definition with_rules p (l : list Rule) : Policy :=
  {| po_version := po_version p; po_gitlab_hosts := po_gitlab_hosts p;
     po_activation := po_activation p; po_require_session_binding := po_require_session_binding p;
     po_launch_rules := po_launch_rules p; po_principals := po_principals p;
     po_profiles := po_profiles p; po_credentials := po_credentials p; po_rules := l |}.

Lemma filter_perm {A} (f : A → bool) l1 l2 : l1 ≡ₚ l2 → List.filter f l1 ≡ₚ List.filter f l2.
Proof.
  induction 1 as [|x l1 l2 _ IH|x y l|l1 l2 l3 _ IH1 _ IH2]; cbn; [done| | |by trans (List.filter f l2)].
  - destruct (f x); [by constructor|done].
  - destruct (f x), (f y); try done. constructor.
Qed.

Lemma existsb_perm {A} (f : A → bool) l1 l2 : l1 ≡ₚ l2 → existsb f l1 = existsb f l2.
Proof. intros Hl. apply eq_iff_eq_true. rewrite !existsb_true. by setoid_rewrite Hl. Qed.

(** Two selected groups with the same members. *)
Definition group_perm (g1 g2 : option (list Rule)) : Prop :=
  match g1, g2 with
  | Some l1, Some l2 => l1 ≡ₚ l2
  | None, None => True
  | _, _ => False
  end.

Lemma first_group_perm gs1 gs2 :
  Forall2 (≡ₚ) gs1 gs2 → group_perm (first_group gs1) (first_group gs2).
Proof.
  unfold first_group. induction 1 as [|g1 g2 gs1 gs2 Hg _ IH]; cbn; [done|].
  rewrite (Permutation_length Hg). by destruct (negb _).
Qed.

Lemma select_rule_perm entry key g1 g2 paths1 paths2 :
  group_perm g1 g2 → paths1 ≡ₚ paths2 →
  select_rule entry key g1 paths1 = select_rule entry key g2 paths2.
Proof.
  intros Hg Hp. unfold select_rule. destruct g1 as [l1|], g2 as [l2|]; cbn in Hg; try done.
  rewrite (Permutation_length Hg). destruct (negb (length l2 =? 1)%nat) eqn:El; [done|].
  apply negb_false_iff, Nat.eqb_eq in El.
  destruct l2 as [|r [|]]; try done. apply Permutation_singleton_r in Hg as ->. cbn.
  by rewrite (existsb_perm _ _ _ Hp).
Qed.

Lemma resolve_host_rules p l pr e t op :
  po_rules p ≡ₚ l → resolve_host (with_rules p l) pr e t op = resolve_host p pr e t op.
Proof.
  intros Hl. unfold resolve_host, host_declared. cbn [po_rules po_profiles with_rules].
  destruct (negb _); [done|]. destruct (negb _); [done|].
  destruct (head _); [|done]. cbn [unwrap mbind result_bind].
  by rewrite (existsb_perm _ _ _ Hl).
Qed.

(** ** Theorems *)

(** A selection is never more than the policy grants: for a validated policy the
    selected profile is one of the principal's, exists with a known credential, and grants
    the operation; a host-only target admits only [ApiRead]; a repository target was
    selected by a rule of that principal naming the repository or its organisation, by a
    path rule that contains the checkout and lists the repository, or by the principal's
    default repositories; and every path rule that contains the checkout agrees. *)
Theorem resolve_grants_only_what_is_declared cz p pr t mp op sel :
  Policy_validate cz p = Ok tt → resolve p pr t mp op = Ok sel →
  ∃ e, po_principals p !! pr = Some e
  ∧ se_profile_id sel ∈ pr_profiles e
  ∧ po_profiles p !! se_profile_id sel = Some (se_profile sel)
  ∧ is_Some (po_credentials p !! pf_credential (se_profile sel))
  ∧ op ∈ pf_operations (se_profile sel)
  ∧ (tg_repo t = EmptyString → op = ApiRead)
  ∧ (tg_repo t ≠ EmptyString →
      (∀ r, r ∈ path_rules mp (rules_of p pr) →
         target_key t ∈ ru_repositories r ∧ ru_profile r = se_profile_id sel)
      ∧ ((∃ r, r ∈ po_rules p ∧ ru_principal r = pr ∧ ru_profile r = se_profile_id sel
            ∧ ru_id r = se_matched_rule sel
            ∧ (ru_repo r = Some (target_key t) ∨ ru_org r = Some (org t)
               ∨ r ∈ path_rules mp (rules_of p pr)))
         ∨ (target_key t ∈ pr_default_repositories e
            ∧ pr_default_profile e = Some (se_profile_id sel)))).
Proof.
  intros Hv%Policy_validate_valid H.
  destruct (po_principals p !! pr) as [e|] eqn:He.
  2:{ unfold resolve in H. by rewrite He in H. }
  exists e. split; [done|]. destruct (is_empty (tg_repo t)) eqn:Hr.
  - unfold resolve in H. rewrite He in H. cbn [ok_or mbind result_bind] in H. rewrite Hr in H.
    apply is_empty_true in Hr.
    destruct (resolve_host_ok _ _ _ _ _ _ Hv He H) as (-> & Hne & Hall & _ & Hpf & Hop).
    destruct (pr_profiles e) as [|x l] eqn:Ex; [done|].
    assert (x = se_profile_id sel) as -> by (apply Hall; by left).
    split; [by left|]. split; [done|]. split; [by eapply pv_profiles|]. split; [done|].
    split; [done|]. by intros [].
  - destruct (resolve_repo_ok _ _ _ _ _ _ _ He Hr H) as (Hpath & Hsel & Hpf & Hop).
    apply is_empty_false in Hr. split; [by eapply selected_profile|].
    split; [done|]. split; [by eapply pv_profiles|]. split; [done|]. split; [done|].
    intros _. apply select_rule_ok in Hsel as [(rule & Hg & Hp & Hid & Hagree)|(Hg & Hk & Hd)].
    + split; [by auto|]. left. exists rule.
      destruct (chosen_rule _ _ _ _ _ rule Hg) as (? & ? & ?); [by left|]. auto.
    + split; [|by right]. intros r Hin. exfalso.
      assert (Hnil : path_rules mp (rules_of p pr) = []).
      { apply (proj1 (first_group_none _) Hg). do 2 right. by left. }
      rewrite Hnil in Hin. by apply not_elem_of_nil in Hin.
Qed.

(** A validated policy never makes the resolver panic: both [unwrap]s of [resolve]
    are reached only with a profile that exists. *)
Theorem resolve_never_panics cz p pr t mp op r :
  Policy_validate cz p = Ok tt → resolve p pr t mp op ≠ Err (Crashed r).
Proof.
  intros Hv%Policy_validate_valid H. unfold resolve in H.
  destruct (po_principals p !! pr) as [e|] eqn:He; [|done].
  cbn [ok_or mbind result_bind] in H. destruct (is_empty (tg_repo t)).
  - by apply (resolve_host_no_panic p pr e t op r).
  - cbv zeta in H. split_if H. apply bind_err in H as [H|([pid rid] & Hsel & H)].
    + by apply select_rule_no_panic in H.
    + apply selected_profile in Hsel; [|done..].
      destruct (pv_principals _ Hv pr e He) as (_ & Hin & _).
      destruct (Hin pid Hsel) as [pf Hpf]. rewrite Hpf in H. cbn in H. by split_if H.
Qed.

(** The order in which rules are written does not matter: a policy whose rules are
    permuted resolves every request to the same result. *)
Theorem resolve_ignores_rule_order p l pr t mp op :
  po_rules p ≡ₚ l → resolve (with_rules p l) pr t mp op = resolve p pr t mp op.
Proof.
  intros Hl. unfold resolve. cbn [po_principals with_rules].
  destruct (po_principals p !! pr) as [e|]; [|done]. cbn [ok_or mbind result_bind].
  destruct (is_empty (tg_repo t)); [by apply resolve_host_rules|]. cbv zeta.
  assert (Hr : rules_of (with_rules p l) pr ≡ₚ rules_of p pr)
    by (symmetry; by apply filter_perm).
  assert (Hp : path_rules mp (rules_of (with_rules p l) pr) ≡ₚ path_rules mp (rules_of p pr))
    by by apply filter_perm.
  rewrite (existsb_perm _ _ _ Hp). destruct (existsb _ _); [done|].
  rewrite (select_rule_perm e (target_key t) _
    (first_group [List.filter (λ r, ru_repo r ==? Some (target_key t)) (rules_of p pr);
                  List.filter (λ r, ru_org r ==? Some (org t)) (rules_of p pr);
                  path_rules mp (rules_of p pr)]) _ (path_rules mp (rules_of p pr))); [done| |done].
  apply first_group_perm. repeat constructor; by apply filter_perm || done.
Qed.

(** Launch rules: the principal of a launched session comes from a rule for its
    initiator; a rule for exactly its role takes precedence over a rule for any role, and
    it is the only one of its kind. *)
Theorem principal_for_launch_unique p ctx principal rid :
  principal_for_launch p ctx = Ok (principal, rid) →
  ∃ rule, rule ∈ po_launch_rules p ∧ lr_principal rule = principal ∧ lr_id rule = rid
    ∧ lr_initiator rule = lc_initiator ctx
    ∧ (lr_role rule = None ∨ lr_role rule = lc_role ctx)
    ∧ (∀ other, other ∈ po_launch_rules p → lr_initiator other = lc_initiator ctx →
         is_Some (lr_role other) → lr_role other = lc_role ctx → other = rule)
    ∧ (lr_role rule = None → ∀ other, other ∈ po_launch_rules p →
         lr_initiator other = lc_initiator ctx → lr_role other = None → other = rule).
Proof.
  unfold principal_for_launch. intros (u & _ & H)%bind_ok. cbv zeta in H.
  set (matches := List.filter _ (po_launch_rules p)) in H.
  set (exact_rules := List.filter _ matches) in H.
  assert (Hm : ∀ r, r ∈ matches ↔ r ∈ po_launch_rules p ∧ lr_initiator r = lc_initiator ctx
    ∧ (lr_role r = None ∨ lr_role r = lc_role ctx)).
  { intros r. unfold matches. rewrite elem_of_list_filter, andb_true_iff, orb_true_iff,
      !bool_decide_eq_true. by destruct (lr_role r); cbn; naive_solver. }
  assert (He : ∀ r, r ∈ exact_rules ↔ r ∈ matches ∧ is_Some (lr_role r)).
  { intros r. unfold exact_rules. rewrite elem_of_list_filter. unfold is_Some.
    destruct (lr_role r); cbn; naive_solver. }
  clearbody matches exact_rules.
  destruct exact_rules as [|x [|]] eqn:Ex; cbn in H; [|injection H as <- <-|done].
  - destruct matches as [|x [|]]; [done|injection H as <- <-|done].
    destruct (proj1 (Hm x)) as (? & ? & ?); [by left|]. exists x. do 5 (split; [done|]). split.
    + intros o Ho Hi Hs Hro. assert (Hin : o ∈ []) by (apply He; split; [apply Hm; auto|done]).
      by apply not_elem_of_nil in Hin.
    + intros _ o Ho Hi Hro. apply list_elem_of_singleton, Hm. auto.
  - destruct (proj1 (He x)) as [Hx Hs]; [by left|]. apply Hm in Hx as (? & ? & ?).
    exists x. do 5 (split; [done|]). split.
    + intros o Ho Hi Hso Hro. apply list_elem_of_singleton, He. split; [apply Hm; auto|done].
    + intros Hn. rewrite Hn in Hs. by destruct Hs.
Qed.
End facts.

(** ** Witnesses *)
Module IdentityWitness.
#[local] Instance no_secrets : SecretPattern := λ _, false.

Definition profile : Profile :=
  mk_Profile (Some "octo") None None "gh" "Octo Cat" "octo@example.org"
    "0123456789abcdef0123456789abcdef01234567" [ApiRead; GitPush].
Definition rule_repo : Rule :=
  mk_Rule "r-repo" "worker" "writer" (Some "github.com/acme/tool") None None [].
Definition rule_org : Rule :=
  mk_Rule "r-org" "worker" "writer" None (Some "github.com/acme") None [].
Definition policy : Policy :=
  {| po_version := 1; po_gitlab_hosts := []; po_activation := Always;
     po_require_session_binding := false;
     po_launch_rules := [mk_LaunchRule "l1" "operator" None "worker";
                         mk_LaunchRule "l2" "operator" (Some "reviewer") "worker"];
     po_principals := {["worker" := mk_Principal ["writer"] (Some "writer")
                                      ["github.com/acme/other"]]};
     po_profiles := {["writer" := profile]};
     po_credentials := {["gh" := GhUser "octo"]};
     po_rules := [rule_repo; rule_org] |}.
Definition target : Target := mk_Target "github.com" "acme/tool".
Definition selection : Selection :=
  mk_Selection "worker" target GitPush "writer" "r-repo" profile.

Lemma policy_ok : Policy_validate (λ _, None) policy = Ok tt.
Proof. by vm_compute. Qed.
Lemma selected : resolve policy "worker" target None GitPush = Ok selection.
Proof. by vm_compute. Qed.
End IdentityWitness.

Lemma resolve_grants_only_what_is_declared_witness :
  ∃ e, po_principals IdentityWitness.policy !! "worker" = Some e ∧ "writer" ∈ pr_profiles e.
Proof.
  destruct (@resolve_grants_only_what_is_declared IdentityWitness.no_secrets (λ _, None)
    IdentityWitness.policy "worker" IdentityWitness.target None GitPush
    IdentityWitness.selection IdentityWitness.policy_ok IdentityWitness.selected)
    as (e & H1 & H2 & _).
  exists e. exact (conj H1 H2).
Defined.

Lemma resolve_never_panics_witness :
  resolve IdentityWitness.policy "worker"
    (mk_Target "github.com" "") None ApiRead ≠ Err (Crashed "profiles.get").
Proof.
  exact (@resolve_never_panics IdentityWitness.no_secrets (λ _, None) IdentityWitness.policy
    "worker" (mk_Target "github.com" "") None ApiRead "profiles.get" IdentityWitness.policy_ok).
Defined.

Lemma resolve_ignores_rule_order_witness :
  resolve
    (with_rules IdentityWitness.policy [IdentityWitness.rule_org; IdentityWitness.rule_repo])
    "worker" IdentityWitness.target None GitPush = Ok IdentityWitness.selection.
Proof.
  rewrite (resolve_ignores_rule_order IdentityWitness.policy
    [IdentityWitness.rule_org; IdentityWitness.rule_repo]).
  - exact IdentityWitness.selected.
  - apply perm_swap.
Defined.

Lemma principal_for_launch_unique_witness :
  ∃ rule, rule ∈ po_launch_rules IdentityWitness.policy ∧ lr_principal rule = "worker"
    ∧ lr_id rule = "l2".
Proof.
  destruct (@principal_for_launch_unique IdentityWitness.no_secrets IdentityWitness.policy
    (mk_LaunchContext "operator" (Some "reviewer") (Some "reviewer")) "worker" "l2"
    ltac:(by vm_compute)) as (rule & H1 & H2 & H3 & _).
  exists rule. exact (conj H1 (conj H2 H3)).
Defined.
