(* ===== verification/ReceiptFacts.v ===== *)
(** * Theorems on corrections, supersessions and acceptances

    The receipts that amend a stopped or wrongly closed loop: what each may change,
    that the reader's replay accepts exactly what the writer produced, and that none of
    them panics. *)
From S2P Require Import Prelude RStr Collections Error Types Markers ReviewLoop ReviewLoopFacts.
From S2P Require Import Identity Record Handoff Correction Supersession Acceptance World.
From stdpp Require Import options.

Section regular.
Context `{HS : !Hasher, LS : !LedgerSerde, JT : !JsonText, UP : !UrlParse}.

(** ** No panics *)
Lemma regular_fingerprint fp : regular (validate_lifecycle_fingerprint fp) = true.
Proof. unfold validate_lifecycle_fingerprint. by destruct (_ && _). Qed.

Lemma regular_root root : regular (validate_root root) = true.
Proof. destruct root; [apply regular_fingerprint|done]. Qed.

Lemma regular_canonical l : regular (canonical_observations l) = true.
Proof.
  unfold canonical_observations. apply regular_foldM. intros acc o _. unfold canonical_step.
  apply regular_bind; [apply regular_fingerprint|intros _ _].
  apply regular_bind; [apply regular_root|intros _ _]. cbv zeta.
  destruct (acc !! lifecycle_key o); [|done]. by destruct (_ !=? _).
Qed.

Lemma regular_serialize {A} msg (r : result string A) : regular (serialize_failure msg r) = true.
Proof. by destruct r. Qed.

Lemma regular_observation_digest head m : regular (review_observation_digest head m) = true.
Proof.
  unfold review_observation_digest. apply regular_bind; [apply regular_serialize|done].
Qed.

Lemma regular_proposal_digest tip code bf n : regular (extension_proposal_digest tip code bf n) = true.
Proof.
  unfold extension_proposal_digest. destruct (_ || _); [done|]. destruct (negb _); [done|].
  apply regular_bind; [apply regular_serialize|done].
Qed.

Lemma regular_record_stop p head obs tip e :
  regular (record_review_loop_hard_stop p head obs tip e) = true.
Proof.
  unfold record_review_loop_hard_stop. apply regular_bind; [apply regular_ok_or|intros bf _].
  apply regular_bind; [apply regular_canonical|intros cur _]. cbv zeta.
  apply regular_bind; [apply regular_proposal_digest|intros pd _].
  apply regular_bind; [apply regular_observation_digest|done].
Qed.

Lemma regular_canonicalize rows : regular (canonicalize rows) = true.
Proof. destruct rows; [|done]. apply regular_bind; [apply regular_canonical|done]. Qed.

Lemma regular_correction_request q : regular (CorrectionRequest_validate q) = true.
Proof.
  unfold CorrectionRequest_validate. destruct (negb _); [done|].
  apply regular_bind; [apply regular_canonicalize|done].
Qed.

Lemma latest_state_app l1 l2 s : latest_state l1 = Some s → ∃ s', latest_state (l1 ++ l2) = Some s'.
Proof.
  unfold latest_state. intros H. rewrite rev_app_distr, find_map_app.
  destruct (find_map record_state (rev l2)); eauto.
Qed.

Lemma latest_state_record_some l r :
  latest_state_record l = Some r → r ∈ l ∧ ∃ s, record_state r = Some s.
Proof.
  unfold latest_state_record. intros [Hin Hs]%find_first_some. split; [by apply elem_of_rev|].
  destruct (record_state r); [by eauto|done].
Qed.

Lemma regular_context records head q : regular (context records head q) = true.
Proof.
  unfold context. apply regular_bind; [apply regular_correction_request|intros _ _].
  apply regular_bind; [apply regular_ok_or|intros i Hi%ok_or_ok].
  destruct (position_some _ _ _ Hi) as (r & Hr & _). rewrite Hr. cbn [expect mbind result_bind].
  apply regular_bind; [apply regular_ok_or|intros target _].
  apply regular_bind; [apply regular_ok_or|intros prior Hp%ok_or_ok].
  destruct (latest_state_app _ (drop i records) _ Hp) as [s Hs]. rewrite take_drop in Hs.
  rewrite Hs. cbn [expect mbind result_bind]. repeat (destruct (_ || _); [done|]).
  destruct (is_some_and _ _); [done|]. by destruct (_ !=? _).
Qed.

Lemma context_nonempty records head q tp : context records head q = Ok tp → is_Some (last records).
Proof.
  unfold context. intros (u & _ & H)%bind_ok. apply bind_ok in H as (i & Hi%ok_or_ok & _).
  destruct (position_some _ _ _ Hi) as (r & Hr & _). apply last_is_Some. by intros ->.
Qed.

Lemma regular_restore records head c : regular (restore records head c) = true.
Proof.
  unfold restore. apply regular_bind; [apply regular_canonicalize|intros at_ _].
  destruct (_ !=? _); [done|]. cbv zeta.
  apply regular_bind; [apply regular_context|intros [target prior] Hctx].
  apply context_nonempty in Hctx as [tip Htip]. rewrite Htip.
  destruct (_ || _); [done|]. apply regular_bind.
  { apply regular_foldM. intros acc fp _. unfold restore_finding.
    apply regular_bind; [apply regular_ok_or|intros f _]. by destruct (_ !=? _). }
  intros fs _. apply regular_bind.
  { unfold verify. destruct (latest_state records ≫= s_hard_stop) as [st|].
    - apply regular_bind; [apply regular_canonical|intros m _]. destruct (_ || _); [done|].
      apply regular_bind; [apply regular_observation_digest|intros d _]. by destruct (_ !=? _).
    - by destruct (is_some _). }
  intros _ _. destruct (_ <? _)%N; [|done]. cbn [expect mbind result_bind].
  apply regular_record_stop.
Qed.

Lemma regular_validate_correction prefix r : regular (validate_correction_record prefix r) = true.
Proof.
  unfold validate_correction_record. destruct (r_payload r); try done.
  apply regular_bind; [apply regular_restore|intros s _]. by destruct (_ !=? _).
Qed.

Lemma regular_supersession_request q : regular (SupersessionRequest_validate q) = true.
Proof. unfold SupersessionRequest_validate. by destruct (negb _). Qed.

Lemma regular_source_head chain q : regular (source_head chain q) = true.
Proof.
  unfold source_head. apply regular_bind; [apply regular_supersession_request|intros _ _].
  apply regular_bind; [apply regular_ok_or|intros t _].
  apply regular_bind; [apply regular_ok_or|intros s _]. apply regular_ok_or.
Qed.

Lemma regular_apply_supersession chain head tip q obs commits :
  regular (apply_supersession chain head tip q obs commits) = true.
Proof.
  unfold apply_supersession. apply regular_bind; [apply regular_supersession_request|intros _ _].
  destruct (_ || _); [done|]. apply regular_bind; [apply regular_source_head|intros from _].
  destruct (_ || _); [done|]. destruct (proof_incomplete _ _ _); [done|].
  apply regular_bind; [apply regular_canonical|intros m _]. cbv zeta.
  apply regular_bind; [apply regular_ok_or|intros r Hr%ok_or_ok].
  apply latest_state_record_some in Hr as (_ & s & Hs).
  destruct (match r_payload r with P_ReviewLoopSupersession _ _ => _ | _ => _ end).
  { by destruct (other_interval _ _). }
  destruct (_ !=? _); [done|]. rewrite Hs. cbn [expect mbind result_bind].
  apply regular_bind; [apply regular_ok_or|intros st _]. destruct (negb _); [done|].
  apply regular_bind; [apply regular_observation_digest|intros d _].
  apply regular_bind; [by destruct (to_vec _)|intros b _].
  apply regular_bind; [apply regular_proposal_digest|done].
Qed.

Lemma regular_validate_supersession prefix r :
  regular (validate_supersession_record prefix r) = true.
Proof.
  unfold validate_supersession_record. destruct (r_payload r); try done. cbv zeta.
  apply regular_bind; [apply regular_source_head|intros from _]. destruct (_ !=? _); [done|].
  apply regular_bind; [apply regular_apply_supersession|intros t _]. by destruct (_ || _).
Qed.

Lemma regular_acceptance_request q : regular (AcceptanceRequest_validate q) = true.
Proof.
  unfold AcceptanceRequest_validate. destruct (_ || _); [done|].
  apply regular_bind; [apply regular_canonical|done].
Qed.

Lemma regular_accepted_keys cur att : regular (accepted_keys cur att) = true.
Proof.
  unfold accepted_keys. destruct (negb _); [done|]. apply regular_bind.
  - apply regular_foldM. intros acc [k row] _. unfold accept_row.
    apply regular_bind; [apply regular_ok_or|intros o _]. destruct (_ ==? _); [done|].
    by destruct (_ || _).
  - intros l _. by destruct (_ || _).
Qed.

Lemma regular_apply_acceptance chain head tip q obs url :
  regular (apply_acceptance chain head tip q obs url) = true.
Proof.
  unfold apply_acceptance. apply regular_bind; [apply regular_acceptance_request|intros _ _].
  destruct (_ || _); [done|]. apply regular_bind; [apply regular_ok_or|intros cm _].
  apply regular_bind; [apply regular_ok_or|intros tg _]. apply regular_bind.
  { unfold check_reference. apply regular_bind; [apply regular_ok_or|intros u _].
    by destruct (_ || _). }
  intros _ _. apply regular_bind; [apply regular_canonical|intros cur _].
  apply regular_bind; [apply regular_canonical|intros att _].
  apply regular_bind; [apply regular_accepted_keys|intros ks _]. apply regular_bind.
  { unfold accepted_stop. apply regular_bind; [apply regular_ok_or|intros s _].
    apply regular_bind; [apply regular_ok_or|intros st _]. destruct (_ !=? _); [done|].
    apply regular_bind; [apply regular_observation_digest|intros d _]. by destruct (_ !=? _). }
  intros st _. apply regular_bind.
  { unfold acceptance_proposal_digest. apply regular_bind; [apply regular_acceptance_request|intros _ _].
    apply regular_bind; [apply regular_canonical|intros a _].
    apply regular_bind; [apply regular_canonical|intros c _].
    apply regular_bind; [by destruct (to_vec _)|done]. }
  intros pd _. cbv zeta. apply regular_bind; [apply regular_ok_or|intros r Hr%ok_or_ok].
  apply latest_state_record_some in Hr as (_ & s & Hs).
  destruct (match r_payload r with P_ReviewLoopAcceptance _ _ => _ | _ => _ end).
  { by destruct (other_interval _ _). }
  destruct (_ !=? _); [done|]. rewrite Hs. cbn [expect mbind result_bind]. by destruct (negb _).
Qed.

Lemma regular_validate_acceptance prefix r : regular (validate_acceptance_record prefix r) = true.
Proof.
  unfold validate_acceptance_record. destruct (r_payload r); try done. cbv zeta.
  apply regular_bind; [apply regular_apply_acceptance|intros t _]. by destruct (_ || _).
Qed.

(** The inventory of a correction has the identities of the corrected state, so the index
    into its findings is defined. *)
Lemma regular_restored_keys target inventory :
  (size (s_findings target) =? size inventory)%nat = true →
  existsb (λ key, negb (contains_key key inventory)) (keys (s_findings target)) = false →
  regular (restored_keys target inventory) = true.
Proof.
  intros Hsz%Nat.eqb_eq Hin. unfold restored_keys. apply regular_foldM.
  intros acc [k row] Hk%elem_of_entries. destruct (negb _); [done|].
  assert (Hsome : is_Some (s_findings target !! k)).
  { assert (Hsub : dom (s_findings target) ⊆ dom inventory).
    { intros x [f Hf]%elem_of_dom. rewrite existsb_false in Hin.
      specialize (Hin x). rewrite elem_of_keys, Hf in Hin.
      apply elem_of_dom, contains_key_true, negb_false_iff, Hin. by eexists. }
    apply elem_of_dom. apply (set_subseteq_size_equiv _ _ Hsub); [rewrite !size_dom; lia|].
    apply elem_of_dom. by eexists. }
  destruct Hsome as [f ->]. done.
Qed.

Lemma regular_apply_correction chain head tip q obs :
  regular (apply_correction chain head tip q obs) = true.
Proof.
  unfold apply_correction. apply regular_bind; [apply regular_correction_request|intros _ _].
  destruct (_ || _); [done|]. apply regular_bind; [apply regular_canonical|intros inv _].
  apply regular_bind; [apply regular_canonicalize|intros att _].
  destruct (correction_replayed _ _ _ _ _) as [[[r s] c]|]; [by destruct (other_interval _ _)|].
  apply regular_bind; [apply regular_context|intros [target prior] _].
  destruct (negb _ || _) eqn:E; [done|]. apply orb_false_iff in E as [E1%negb_false_iff E2].
  apply regular_bind; [by apply regular_restored_keys|intros ks _]. cbv zeta.
  apply regular_bind; [apply regular_restore|intros c _]. by destruct (negb _).
Qed.

(** The receipts never panic: on every chain, head, tip, request and inventory the three
    writers and the three replays of the reader end in a value or in a typed error, although
    the source indexes the chain and its maps and unwraps states. *)
Theorem receipts_never_panic chain prefix r head tip cq sq aq obs commits url :
  regular (apply_correction chain head tip cq obs) = true
  ∧ regular (apply_supersession chain head tip sq obs commits) = true
  ∧ regular (apply_acceptance chain head tip aq obs url) = true
  ∧ regular (validate_correction_record prefix r) = true
  ∧ regular (validate_supersession_record prefix r) = true
  ∧ regular (validate_acceptance_record prefix r) = true.
Proof.
  repeat split; auto using regular_apply_correction, regular_apply_supersession,
    regular_apply_acceptance, regular_validate_correction, regular_validate_supersession,
    regular_validate_acceptance.
Qed.
End regular.

Section replay.
Context `{HS : !Hasher, LS : !LedgerSerde, JT : !JsonText, UP : !UrlParse}.
Implicit Types (chain : ReviewStateChain) (t : ReviewLoopTransition).

(** ** Inversions of the writers *)

(** A correction that changes the state was restored from the chain. *)
Lemma apply_correction_changed chain head tip q obs t :
  apply_correction chain head tip q obs = Ok t → tr_changed t = true →
  ∃ correction corrected inventory,
    t = mk_ReviewLoopTransition corrected true (Some correction) None None
    ∧ restore (c_records chain) head correction = Ok corrected
    ∧ canonical_observations obs = Ok inventory
    ∧ matches_inventory corrected inventory = true
    ∧ tip = c_tip_digest chain ∧ is_Some tip.
Proof.
  unfold apply_correction. intros H Hc. apply bind_ok in H as (u & _ & H). split_if H.
  apply orb_false_iff in Hif as [Htip1 Htip2].
  apply negb_false_iff, bool_decide_eq_true in Htip2.
  assert (Hsome : is_Some tip) by (destruct tip; [by eexists|done]).
  apply bind_ok in H as (inv & Hinv & H). apply bind_ok in H as (att & Hatt & H).
  destruct (correction_replayed _ _ _ _ _) as [[[r s] c]|].
  { split_if H. injection H as <-. done. }
  apply bind_ok in H as ([target prior] & Hctx & H). split_if H.
  apply bind_ok in H as (ks & Hks & H). cbv zeta in H.
  apply bind_ok in H as (corrected & Hr & H). split_if H. injection H as <-.
  eexists _, corrected, inv. split; [done|]. split; [done|]. split; [done|].
  split; [by apply negb_false_iff|]. done.
Qed.

(** What a restoration is made of. *)
Lemma restore_ok records head c s :
  restore records head c = Ok s →
  ∃ target prior findings,
    context records head (mk_CorrectionRequest (cr_corrected_record c) (cr_reason c)
      (cr_attempted_findings c)) = Ok (target, prior)
    ∧ cr_restored_findings c ≠ [] ∧ not_increasing (cr_restored_findings c) = false
    ∧ foldM (restore_finding target prior) (s_findings target) (cr_restored_findings c) = Ok findings
    ∧ let corrected := set_no_progress (set_findings target findings)
                         (restored_no_progress (set_findings target findings) prior) in
      (s = corrected ∨ ∃ tip e,
         kind e = "review_no_progress"
         ∧ record_review_loop_hard_stop corrected head (state_rows corrected) tip e = Ok s).
Proof.
  unfold restore. intros H. apply bind_ok in H as (att & _ & H). split_if H. cbv zeta in H.
  apply bind_ok in H as ([target prior] & Hctx & H). split_if H.
  apply orb_false_iff in Hif0 as [Hne Hinc]. apply bool_decide_eq_false in Hne.
  apply bind_ok in H as (fs & Hfs & H). apply bind_ok in H as (u & _ & H).
  exists target, prior, fs. do 4 (split; [done|]). cbv zeta. split_if H.
  - right. apply bind_ok in H as (tip & _ & H). eexists _, _. split; [|exact H]. done.
  - left. by injection H as <-.
Qed.

Lemma context_ok records head q target prior :
  context records head q = Ok (target, prior) →
  ∃ latest, latest_state records = Some latest ∧ s_head_sha target = head
    ∧ target = set_hard_stop latest None
    ∧ (∀ st, s_hard_stop latest = Some st → hs_code st = "review_finding_reopened"
         ∧ hs_attempted_head_sha st = head ∧ hs_extension_applied st = false).
Proof.
  unfold context. intros H. apply bind_ok in H as (u & _ & H).
  apply bind_ok in H as (i & _ & H). apply bind_ok in H as (r & _ & H).
  apply bind_ok in H as (tg & _ & H). apply bind_ok in H as (pr & _ & H).
  apply bind_ok in H as (lt & Hlt%expect_ok & H). split_if H. split_if H. split_if H.
  injection H as -> ->. exists lt. split; [done|].
  repeat (apply orb_false_iff in Hif as [Hif ?]).
  apply negb_false_iff, bool_decide_eq_true in Hif, Hif1. split; [done|]. split; [done|].
  intros st Hst. rewrite Hst in Hif0. cbn in Hif0.
  repeat (apply orb_false_iff in Hif0 as [Hif0 ?]).
  apply negb_false_iff, bool_decide_eq_true in Hif0. split; [done|]. split; [|done].
  by eapply negb_decide_false.
Qed.

(** The restored findings: open as before, all others untouched. *)
Definition reopened (f f' : ReviewLoopFinding) : Prop :=
  f_status f = Fixed ∧ f_status f' = Open ∧ f = set_status f' Fixed.

Lemma restore_findings_ok target prior fs fs' l :
  foldM (restore_finding target prior) fs l = Ok fs' →
  (∀ k, k ∈ l → ∃ f f', s_findings target !! k = Some f ∧ s_findings prior !! k = Some f'
     ∧ fs' !! k = Some f' ∧ reopened f f')
  ∧ (∀ k, k ∉ l → fs' !! k = fs !! k).
Proof.
  revert fs. induction l as [|x l IH]; intros fs; cbn.
  { intros [= <-]. split; [|done]. intros k Hk. by apply not_elem_of_nil in Hk. }
  intros (fs1 & Hx & Hl)%bind_ok. destruct (IH _ Hl) as [IH1 IH2]. clear IH.
  unfold restore_finding in Hx. apply bind_ok in Hx as (b & Hb%ok_or_ok & Hx). split_if Hx.
  apply negb_false_iff, bool_decide_eq_true in Hif. injection Hx as <-.
  destruct (s_findings prior !! x) as [f'|] eqn:Ef'; cbn in Hb; [|done].
  destruct (open_finding f') eqn:Eo; [injection Hb as <-|done]. apply bool_decide_eq_true in Eo.
  split.
  - intros k Hk. destruct (decide (k ∈ l)) as [Hin|Hnin]; [by apply IH1|].
    apply elem_of_cons in Hk as [->|Hk]; [|done].
    exists (set_status f' Fixed), f'. split; [done|]. split; [done|].
    rewrite (IH2 x Hnin), lookup_insert_eq. done.
  - intros k Hk. apply not_elem_of_cons in Hk as [Hne Hk].
    rewrite IH2 by done. by rewrite lookup_insert_ne.
Qed.

Lemma record_stop_fields p head obs tip e s :
  record_review_loop_hard_stop p head obs tip e = Ok s →
  s_findings s = s_findings p ∧ s_head_sha s = s_head_sha p ∧ s_round s = s_round p
  ∧ s_budget s = s_budget p ∧ s_extensions s = s_extensions p
  ∧ s_no_progress_rounds s = s_no_progress_rounds p
  ∧ ∃ st, s_hard_stop s = Some st ∧ hs_extension_applied st = false
      ∧ hs_attempted_head_sha st = head ∧ hs_code st = kind e.
Proof.
  intros (bf & cur & pd & od & _ & _ & _ & _ & ->)%record_stop_ok. cbn.
  do 6 (split; [done|]). eexists. done.
Qed.

(** A supersession that changes the state rebinds the stop of the latest state. *)
Lemma apply_supersession_changed chain head tip q obs commits t :
  apply_supersession chain head tip q obs commits = Ok t → tr_changed t = true →
  ∃ latest previous st canonical od b pd,
    latest_state_record (c_records chain) = Some latest ∧ record_state latest = Some previous
    ∧ r_record_digest latest = sq_superseded_record q
    ∧ s_hard_stop previous = Some st ∧ canonical_observations obs = Ok canonical
    ∧ missing_open previous canonical = []
    ∧ review_observation_digest head canonical = Ok od
    ∧ extension_proposal_digest (sha256_digest b) (hs_code st) (hs_budget_field st)
        (hs_increment st) = Ok pd
    ∧ source_head chain q = Ok (from_option sr_from_head EmptyString (tr_supersession t))
    ∧ proof_incomplete (from_option sr_from_head EmptyString (tr_supersession t)) head commits = false
    ∧ t = mk_ReviewLoopTransition
            (set_hard_stop previous (Some (supersede_stop st head od pd))) true None
            (Some (mk_SupersessionReceipt q
               (from_option sr_from_head EmptyString (tr_supersession t)) commits
               (values canonical))) None.
Proof.
  unfold apply_supersession. intros H Hc. apply bind_ok in H as (u & _ & H). split_if H.
  apply bind_ok in H as (from & Hfrom & H). split_if H. split_if H.
  apply bind_ok in H as (cn & Hcn & H). cbv zeta in H.
  apply bind_ok in H as (lt & Hlt%ok_or_ok & H).
  destruct (match r_payload lt with P_ReviewLoopSupersession _ _ => _ | _ => _ end).
  { split_if H. by injection H as <-. }
  split_if H. apply bind_ok in H as (pv & Hpv%expect_ok & H).
  apply bind_ok in H as (st & Hst%ok_or_ok & H). split_if H.
  apply bind_ok in H as (od & Hod & H). apply bind_ok in H as (b & _ & H).
  apply bind_ok in H as (pd & Hpd & H). injection H as <-. cbn.
  exists lt, pv, st, cn, od, b, pd. apply negb_false_iff, bool_decide_eq_true in Hif2, Hif3.
  by repeat (split; [done|]).
Qed.

(** The writer's result is a function of the records, the tip and the canonical rows. *)
Lemma apply_supersession_replay chain1 chain2 head tip q obs1 obs2 commits m :
  c_records chain1 = c_records chain2 → c_tip_digest chain1 = c_tip_digest chain2 →
  canonical_observations obs1 = Ok m → canonical_observations obs2 = Ok m →
  apply_supersession chain1 head tip q obs1 commits
  = apply_supersession chain2 head tip q obs2 commits.
Proof.
  intros Hr Ht H1 H2. unfold apply_supersession, source_head, other_interval, latest.
  by rewrite Hr, Ht, H1, H2.
Qed.

(** Acceptance in the same form. *)
Lemma apply_acceptance_replay chain1 chain2 head tip q1 q2 obs1 obs2 url m att :
  c_records chain1 = c_records chain2 → c_tip_digest chain1 = c_tip_digest chain2 →
  aq_stopped_record q1 = aq_stopped_record q2 → aq_approval_comment q1 = aq_approval_comment q2 →
  canonical_observations obs1 = Ok m → canonical_observations obs2 = Ok m →
  canonical_observations (aq_attempted_findings q1) = Ok att →
  canonical_observations (aq_attempted_findings q2) = Ok att →
  apply_acceptance chain1 head tip q1 obs1 url = apply_acceptance chain2 head tip q2 obs2 url.
Proof.
  intros Hr Ht Hs Ha H1 H2 A1 A2. unfold apply_acceptance, accepted_stop, other_interval, latest,
    acceptance_proposal_digest, AcceptanceRequest_validate.
  by rewrite Hr, Ht, Hs, Ha, H1, H2, A1, A2.
Qed.

Lemma apply_acceptance_changed chain head tip q obs url t :
  apply_acceptance chain head tip q obs url = Ok t → tr_changed t = true →
  ∃ latest previous current attempted st pd ks,
    latest_state_record (c_records chain) = Some latest ∧ record_state latest = Some previous
    ∧ r_record_digest latest = aq_stopped_record q
    ∧ canonical_observations obs = Ok current
    ∧ canonical_observations (aq_attempted_findings q) = Ok attempted
    ∧ accepted_keys current attempted = Ok ks
    ∧ accepted_stop chain head q attempted = Ok st
    ∧ missing_open previous attempted = []
    ∧ t = mk_ReviewLoopTransition
            (set_findings (set_head (set_hard_stop previous None) head)
               (accept_findings head (s_findings previous) current))
            true None None
            (Some (mk_AcceptanceReceipt
               (mk_AcceptanceRequest (aq_stopped_record q) (values attempted)
                  (aq_approval_comment q)) pd st url ks (values current))).
Proof.
  unfold apply_acceptance. intros H Hc. apply bind_ok in H as (u & _ & H). split_if H.
  apply bind_ok in H as (cm & _ & H). apply bind_ok in H as (tg & _ & H).
  apply bind_ok in H as (u' & _ & H). apply bind_ok in H as (cur & Hcur & H).
  apply bind_ok in H as (att & Hatt & H). apply bind_ok in H as (ks & Hks & H).
  apply bind_ok in H as (st & Hst & H). apply bind_ok in H as (pd & Hpd & H). cbv zeta in H.
  apply bind_ok in H as (lt & Hlt%ok_or_ok & H).
  destruct (match r_payload lt with P_ReviewLoopAcceptance _ _ => _ | _ => _ end).
  { split_if H. by injection H as <-. }
  split_if H. apply bind_ok in H as (pv & Hpv%expect_ok & H). split_if H.
  injection H as <-. apply negb_false_iff, bool_decide_eq_true in Hif0, Hif1.
  exists lt, pv, cur, att, st, pd, ks. by repeat (split; [done|]).
Qed.

Lemma apply_acceptance_tip chain head tip q obs url t :
  apply_acceptance chain head tip q obs url = Ok t → tip = c_tip_digest chain.
Proof.
  unfold apply_acceptance. intros H. apply bind_ok in H as (u & _ & H). split_if H.
  apply orb_false_iff in Hif as [_ Hif]. by apply negb_decide_false in Hif.
Qed.

Lemma accept_findings_lookup head m cur k :
  accept_findings head m cur !! k =
  match cur !! k with
  | Some row => Some (accept_finding head (m !! k) row)
  | None => m !! k
  end.
Proof.
  pose proof (foldM_entries_lookup (E := stop) (λ _ o row, Ok (accept_finding head o row)) cur m) as H.
  specialize (H (accept_findings head m cur)).
  assert (Hf : foldM (λ acc '(k, v), Ok (accept_finding head (acc !! k) v) ≫= λ w,
      @Ok stop _ (<[k:=w]> acc)) m (entries cur) = Ok (accept_findings head m cur)).
  { unfold accept_findings. generalize (entries cur) m. clear.
    induction l as [|[k v] l IH]; intros m; cbn; [done|]. apply IH. }
  specialize (H Hf k). destruct (cur !! k); [|done]. by destruct H as (w & [= <-] & ->).
Qed.

(** The latest state, by its record. *)
Lemma latest_state_of_record l r s :
  latest_state_record l = Some r → record_state r = Some s → latest_state l = Some s.
Proof.
  unfold latest_state_record, latest_state. generalize (rev l). clear l.
  induction l as [|x l IH]; cbn; [done|]. destruct (record_state x) as [sx|] eqn:Ex; cbn.
  - intros [= ->] Hr. congruence.
  - apply IH.
Qed.

(** The accepted inventory has the identities of the attempted one, and blocks nothing. *)
Lemma accepted_keys_ok cur att ks :
  accepted_keys cur att = Ok ks →
  (∀ k, cur !! k = None → att !! k = None)
  ∧ (∀ k row, cur !! k = Some row → observation_blocks row = false).
Proof.
  unfold accepted_keys. intros H. split_if H. apply bind_ok in H as (l & Hl & H). split_if H.
  apply negb_false_iff, Nat.eqb_eq in Hif. apply orb_false_iff in Hif0 as [_ Hb]. split.
  - assert (Hsub : dom cur ⊆ dom att).
    { intros k. rewrite !elem_of_dom. intros [row Hrow].
      refine (foldM_inv (accept_row att) (λ seen _, ∀ k row, (k, row) ∈ seen → is_Some (att !! k))
        _ (entries cur) [] [] l _ Hl k row _).
      - intros seen acc [k' row'] acc' IH Hstep k1 row1. unfold accept_row in Hstep.
        apply bind_ok in Hstep as (o & Ho%ok_or_ok & _).
        intros [?|[= -> ->]%list_elem_of_singleton]%elem_of_app; [by eapply IH|by eexists].
      - intros k1 row1 Hin. by apply not_elem_of_nil in Hin.
      - by apply elem_of_entries. }
    assert (Heq : dom cur = dom att).
    { apply leibniz_equiv. apply (set_subseteq_size_equiv _ _ Hsub). rewrite !size_dom. lia. }
    intros k Hk. apply not_elem_of_dom. rewrite <- Heq. by apply not_elem_of_dom.
  - intros k row Hk. rewrite existsb_false in Hb. apply Hb, elem_of_values. by exists k.
Qed.

Lemma find_first_app_none {A} (p : A → bool) l1 l2 :
  find_first p l1 = None → find_first p (l1 ++ l2) = find_first p l2.
Proof.
  induction l1 as [|x l1 IH]; cbn; [done|]. by destruct (p x).
Qed.

(** With distinct digests a digest names one record. *)
Lemma find_digest_unique l r d :
  NoDup (r_record_digest <$> l) → r ∈ l → r_record_digest r = d →
  find_first (λ x, r_record_digest x ==? d) l = Some r.
Proof.
  intros Hnd Hin Hd. destruct (find_first _ l) as [x|] eqn:E.
  - apply find_first_some in E as [Hx Hp%bool_decide_eq_true]. f_equal.
    apply list_elem_of_lookup in Hx as [i Hi]. apply list_elem_of_lookup in Hin as [j Hj].
    assert (i = j) as ->; [|congruence].
    apply (NoDup_lookup _ i j d Hnd); rewrite list_lookup_fmap.
    + by rewrite Hi, <- Hp.
    + by rewrite Hj, <- Hd.
  - rewrite find_first_none in E. specialize (E r Hin). by rewrite bool_decide_true in E.
Qed.

(** The stop being accepted, on a chain with distinct digests. *)
Lemma accepted_stop_ok chain head q att st latest previous :
  NoDup (r_record_digest <$> c_records chain) →
  latest_state_record (c_records chain) = Some latest → record_state latest = Some previous →
  r_record_digest latest = aq_stopped_record q →
  accepted_stop chain head q att = Ok st →
  s_hard_stop previous = Some st ∧ hs_attempted_head_sha st = head
  ∧ review_observation_digest head att = Ok (hs_observation_digest st).
Proof.
  intros Hnd Hl Hp Hd H. unfold accepted_stop in H.
  apply latest_state_record_some in Hl as [Hin _].
  rewrite (find_digest_unique _ latest) in H by done. cbn [mbind option_bind] in H.
  rewrite Hp in H. apply bind_ok in H as (s & [= <-]%ok_or_ok & H).
  apply bind_ok in H as (st' & Hst%ok_or_ok & H). split_if H.
  apply bind_ok in H as (od & Hod & H). split_if H. injection H as <-.
  apply negb_decide_false in Hif, Hif0. by subst.
Qed.

(** ** Theorems *)

(** A correction only reopens: the corrected state keeps the head, the round, the
    budgets and extensions of the state it corrects and every finding of it, and each
    finding either is unchanged or goes back from fixed to open with all its counters and
    threads; the no-progress debt never decreases. *)
Theorem correction_only_reopens chain head tip q obs t :
  apply_correction chain head tip q obs = Ok t → tr_changed t = true →
  ∃ latest, latest_state (c_records chain) = Some latest
  ∧ s_head_sha (tr_state t) = s_head_sha latest ∧ s_round (tr_state t) = s_round latest
  ∧ s_budget (tr_state t) = s_budget latest ∧ s_extensions (tr_state t) = s_extensions latest
  ∧ (s_no_progress_rounds latest ≤ s_no_progress_rounds (tr_state t))%N
  ∧ (∀ k, match s_findings latest !! k, s_findings (tr_state t) !! k with
          | Some f, Some f' => f' = f ∨ reopened f f'
          | None, None => True
          | _, _ => False
          end)
  ∧ ∃ k f f', s_findings latest !! k = Some f ∧ s_findings (tr_state t) !! k = Some f'
      ∧ reopened f f'.
Proof.
  intros H Hc. destruct (apply_correction_changed _ _ _ _ _ _ H Hc)
    as (c & corrected & inv & -> & Hr & _). clear H Hc. cbn.
  apply restore_ok in Hr as (target & prior & fs & Hctx & Hne & _ & Hfs & Hend). cbv zeta in Hend.
  apply context_ok in Hctx as (latest & Hl & Hh & -> & _).
  set (s0 := set_no_progress _ _) in Hend.
  assert (Hs : s_findings corrected = s_findings s0 ∧ s_head_sha corrected = s_head_sha s0
    ∧ s_round corrected = s_round s0 ∧ s_budget corrected = s_budget s0
    ∧ s_extensions corrected = s_extensions s0
    ∧ s_no_progress_rounds corrected = s_no_progress_rounds s0).
  { destruct Hend as [->|(tp & e & _ & He)]; [done|].
    apply record_stop_fields in He as (?&?&?&?&?&?&_). done. }
  destruct Hs as (Hf & -> & -> & -> & -> & ->). rewrite Hf. clear Hend Hf.
  exists latest. split; [done|]. unfold s0. cbn. do 4 (split; [done|]).
  destruct (restore_findings_ok _ _ _ _ _ Hfs) as [H1 H2]. cbn in H1, H2. split.
  { unfold restored_no_progress. cbn. destruct (_ && _); lia. }
  split.
  - intros k. destruct (decide (k ∈ cr_restored_findings c)) as [Hin|Hnin].
    + destruct (H1 k Hin) as (f & f' & -> & _ & -> & ?). by right.
    + rewrite (H2 k Hnin). destruct (s_findings latest !! k); [by left|done].
  - destruct (cr_restored_findings c) as [|k l]; [done|].
    destruct (H1 k) as (f & f' & ? & _ & ? & ?); [by left|]. by exists k, f, f'.
Qed.

(** The reader accepts the corrections the writer makes: a record that carries the
    corrected state and its receipt passes the replay [parse_chain] runs on it. *)
Theorem correction_record_validates chain head tip q obs t r :
  apply_correction chain head tip q obs = Ok t → tr_changed t = true →
  r_payload r = into_payload t → r_expected_head r = head →
  validate_correction_record (c_records chain) r = Ok tt.
Proof.
  intros H Hc Hp Hh. destruct (apply_correction_changed _ _ _ _ _ _ H Hc)
    as (c & corrected & inv & -> & Hr & _). unfold validate_correction_record.
  rewrite Hp, Hh. cbn. rewrite Hr. cbn. by rewrite bool_decide_true.
Qed.

(** A supersession changes nothing but the stop, and the stop is not lifted: the new
    state is the stopped one with the same code, budget and increment frozen at the new
    head and inventory, not extended, so no observation passes before a new approval; every
    finding open in the state is part of the new inventory. *)
Theorem supersession_rebinds_the_stop chain head tip q obs commits t :
  apply_supersession chain head tip q obs commits = Ok t → tr_changed t = true →
  ∃ previous st st', latest_state (c_records chain) = Some previous
  ∧ s_hard_stop previous = Some st
  ∧ tr_state t = set_hard_stop previous (Some st')
  ∧ hs_code st' = hs_code st ∧ hs_budget_field st' = hs_budget_field st
  ∧ hs_increment st' = hs_increment st ∧ hs_attempted_head_sha st' = head
  ∧ hs_extension_applied st' = false
  ∧ (∃ cur, canonical_observations obs = Ok cur
       ∧ review_observation_digest head cur = Ok (hs_observation_digest st')
       ∧ ∀ k f, s_findings previous !! k = Some f → f_status f = Open → is_Some (cur !! k))
  ∧ (∀ head' obs', is_ok (observe_review_loop (Some (tr_state t)) head' obs') = false)
  ∧ last commits = Some head ∧ length commits ≤ MAX_VERIFIED_COMMITS ∧ NoDup commits.
Proof.
  intros H Hc. destruct (apply_supersession_changed _ _ _ _ _ _ _ H Hc)
    as (lt & pv & st & cn & od & b & pd & Hlt & Hpv & _ & Hst & Hcn & Hm & Hod & _ & _ & Hpf & ->).
  clear H Hc. exists pv, st, (supersede_stop st head od pd). cbn.
  split; [by eapply latest_state_of_record|]. do 7 (split; [done|]). split.
  { exists cn. split; [done|]. split; [done|]. by apply missing_open_nil. }
  split.
  { intros head' obs'. destruct (observe_review_loop _ head' obs') as [t'|] eqn:E; [|done].
    apply observe_ok in E as (_ & cur & _ & _ & p' & (_ & Hstop)%resume_stopped_ok & _).
    by destruct (Hstop _ eq_refl) as (_ & ? & _). }
  unfold proof_incomplete in Hpf. repeat (apply orb_false_iff in Hpf as [Hpf ?]).
  split; [by eapply negb_decide_false|]. split; [by apply Nat.ltb_ge|].
  apply sort_dedup_length_NoDup. apply Nat.eqb_eq. by apply negb_false_iff.
Qed.

(** The reader accepts the supersessions the writer makes: on the writer's chain the
    replay of the receipt gives the recorded state. *)
Theorem supersession_record_validates chain head tip q obs commits t r :
  apply_supersession chain head tip q obs commits = Ok t → tr_changed t = true →
  c_tip_digest chain = r_record_digest <$> last (c_records chain) →
  r_payload r = into_payload t → r_expected_head r = head → r_previous_digest r = tip →
  validate_supersession_record (c_records chain) r = Ok tt.
Proof.
  intros H Hc Htip Hp Hh Hprev. destruct (apply_supersession_changed _ _ _ _ _ _ _ H Hc)
    as (lt & pv & st & cn & od & b & pd & Hlt & Hpv & _ & Hst & Hcn & _ & _ & _ & Hsrc & _ & Ht).
  pose proof H as H'. rewrite Ht in Hp. cbn in Hp. unfold validate_supersession_record.
  rewrite Hp, Hh, Hprev. cbn [sr_request sr_findings sr_from_head sr_verified_commits].
  set (chain' := mk_ReviewStateChain _ _ _).
  assert (Hs : source_head chain' q = source_head chain q) by done.
  rewrite Hs, Hsrc. cbn [mbind result_bind]. rewrite bool_decide_true by done. cbn [negb].
  rewrite (apply_supersession_replay chain' chain head tip q (values cn) obs commits cn);
    [|done|by rewrite Htip|by eapply canonical_values_ok|done].
  rewrite H'. cbn [mbind result_bind]. rewrite Ht. cbn. by rewrite !bool_decide_true.
Qed.

(** An acceptance disposes of the stop: the new state is bound to the stopped head, has
    no stop and no open blocking finding, and keeps the round, the no-progress debt, the
    budgets, the extensions and every finding with its first head, seen count, reopen count
    and threads; the stop it names froze exactly this head and inventory. *)
Theorem acceptance_closes_the_stop chain head tip q obs url t :
  NoDup (r_record_digest <$> c_records chain) →
  apply_acceptance chain head tip q obs url = Ok t → tr_changed t = true →
  ∃ previous, latest_state (c_records chain) = Some previous
  ∧ s_head_sha (tr_state t) = head ∧ s_hard_stop (tr_state t) = None
  ∧ s_round (tr_state t) = s_round previous
  ∧ s_no_progress_rounds (tr_state t) = s_no_progress_rounds previous
  ∧ s_budget (tr_state t) = s_budget previous ∧ s_extensions (tr_state t) = s_extensions previous
  ∧ (∀ k f', s_findings (tr_state t) !! k = Some f' → f_status f' = Open → f_blocking f' = false)
  ∧ (∀ k f, s_findings previous !! k = Some f → ∃ f', s_findings (tr_state t) !! k = Some f'
       ∧ f_first_seen_head f' = f_first_seen_head f ∧ f_seen_count f' = f_seen_count f
       ∧ f_reopen_count f' = f_reopen_count f ∧ ∀ th, th ∈ f_threads f → th ∈ f_threads f')
  ∧ ∃ st att, s_hard_stop previous = Some st ∧ hs_attempted_head_sha st = head
      ∧ canonical_observations (aq_attempted_findings q) = Ok att
      ∧ review_observation_digest head att = Ok (hs_observation_digest st).
Proof.
  intros Hnd H Hc. destruct (apply_acceptance_changed _ _ _ _ _ _ _ H Hc)
    as (lt & pv & cur & att & st & pd & ks & Hlt & Hpv & Hd & Hcur & Hatt & Hks & Hst & Hm & ->).
  clear H Hc. exists pv. cbn. split; [by eapply latest_state_of_record|].
  do 6 (split; [done|]). split; [|split].
  - intros k f' Hk Ho. rewrite accept_findings_lookup in Hk.
    destruct (accepted_keys_ok _ _ _ Hks) as [Hdom Hnb].
    destruct (cur !! k) as [row|] eqn:Er.
    + injection Hk as <-. cbn in *. specialize (Hnb k row Er). unfold observation_blocks in Hnb.
      rewrite Ho, bool_decide_true in Hnb by done. done.
    + exfalso. destruct (proj1 (missing_open_nil pv att) Hm k f' Hk Ho) as [a Ha].
      apply Hdom in Er. congruence.
  - intros k f Hk. rewrite accept_findings_lookup, Hk. destruct (cur !! k) as [row|].
    + exists (accept_finding head (Some f) row). cbn. do 4 (split; [done|]).
      intros th Hth. apply elem_of_sort_dedup, elem_of_app. by left.
    + by exists f.
  - exists st, att. destruct (accepted_stop_ok _ _ _ _ _ _ _ Hnd Hlt Hpv Hd Hst) as (? & ? & ?).
    done.
Qed.

(** The reader accepts the acceptances the writer makes: on the writer's records the
    replay of the receipt, from its canonical inventories, gives the recorded state. *)
Theorem acceptance_record_validates chain head tip q obs url t r :
  apply_acceptance chain head tip q obs url = Ok t → tr_changed t = true →
  r_payload r = into_payload t → r_expected_head r = head → r_previous_digest r = tip →
  validate_acceptance_record (c_records chain) r = Ok tt.
Proof.
  intros H Hc Hp Hh Hprev. pose proof (apply_acceptance_tip _ _ _ _ _ _ _ H) as Htip.
  destruct (apply_acceptance_changed _ _ _ _ _ _ _ H Hc)
    as (lt & pv & cur & att & st & pd & ks & _ & _ & _ & Hcur & Hatt & _ & _ & _ & Ht).
  pose proof H as H'. rewrite Ht in Hp. cbn in Hp. unfold validate_acceptance_record.
  rewrite Hp, Hh, Hprev. cbn [ar_request ar_findings ar_approval_reference].
  set (chain' := mk_ReviewStateChain _ _ _).
  rewrite (apply_acceptance_replay chain' chain head tip _ q (values cur) obs url cur att);
    [|done|done|done|done|by eapply canonical_values_ok|done|by eapply canonical_values_ok|done].
  rewrite H'. cbn [mbind result_bind]. rewrite Ht. cbn. by rewrite !bool_decide_true.
Qed.
End replay.

(** ** The theorems at a concrete ledger *)
Module ReceiptWitness.
#[local] Existing Instance demo_hasher.
#[local] Existing Instance demo_json.
#[local] Existing Instance demo_url.
#[local] Instance serde : LedgerSerde := demo_serde [].

Definition same : ReviewLoopTransition := unchanged_transition Witness.nothing.
Definition run (r : exec ReviewLoopTransition) : ReviewLoopTransition := unwrap_or same r.

(** A finding open at [h1] was inferred fixed at [h2] because it was omitted. *)
Definition omitted : ReviewLoopState :=
  {| s_head_sha := "h2"; s_round := 1; s_no_progress_rounds := 0;
     s_budget := ReviewLoopBudget_default;
     s_findings := {[F1 := set_status (Witness.finding_of Witness.s1 F1) Fixed]};
     s_extensions := []; s_hard_stop := None |}.
Definition wrong : ReviewStateChain :=
  demo_chain [demo_record 0 "h1" (P_ReviewLoop Witness.s1); demo_record 1 "h2" (P_ReviewLoop omitted)].
Definition correction : CorrectionRequest :=
  mk_CorrectionRequest (demo_digest 1) OmittedFindings None.
Definition corrected : exec ReviewLoopTransition :=
  apply_correction wrong "h2" (Some (demo_digest 1)) correction Witness.open1.

(** A stop at one commit, superseded at the next. *)
Definition old_head : string := demo_sha "a".
Definition new_head : string := demo_sha "b".
Definition stopped_at (head : string) : ReviewLoopState :=
  unwrap_or Witness.nothing
    (record_review_loop_hard_stop Witness.s3 head Witness.open1 "tip" Witness.stop_error).
Definition stopped_chain (head : string) : ReviewStateChain :=
  demo_chain [demo_record 0 head (P_ReviewLoop (stopped_at head))].
Definition supersession : SupersessionRequest :=
  mk_SupersessionRequest (demo_digest 0) SignedFastForward.
Definition superseded : exec ReviewLoopTransition :=
  apply_supersession (stopped_chain old_head) new_head (Some (demo_digest 0)) supersession
    Witness.open1 [new_head].

(** The stopped inventory accepted with comment 7. *)
Definition accepted1 : list ReviewFindingObservation := [demo_row F1 Accepted].
Definition acceptance : AcceptanceRequest :=
  mk_AcceptanceRequest (demo_digest 0) Witness.open1 (Some 7%N).
Definition accepted : exec ReviewLoopTransition :=
  apply_acceptance (stopped_chain "h4") "h4" (Some (demo_digest 0)) acceptance accepted1 "url".

Lemma corrected_ok :
  apply_correction wrong "h2" (Some (demo_digest 1)) correction Witness.open1
  = Ok (run corrected).
Proof. evaluates. Qed.
Lemma corrected_changed : tr_changed (run corrected) = true.
Proof. evaluates. Qed.
Lemma superseded_ok :
  apply_supersession (stopped_chain old_head) new_head (Some (demo_digest 0)) supersession
    Witness.open1 [new_head] = Ok (run superseded).
Proof. evaluates. Qed.
Lemma superseded_changed : tr_changed (run superseded) = true.
Proof. evaluates. Qed.
Lemma accepted_ok :
  apply_acceptance (stopped_chain "h4") "h4" (Some (demo_digest 0)) acceptance accepted1 "url"
  = Ok (run accepted).
Proof. evaluates. Qed.
Lemma accepted_changed : tr_changed (run accepted) = true.
Proof. evaluates. Qed.
End ReceiptWitness.

Section receipt_witnesses.
#[local] Existing Instance demo_hasher.
#[local] Existing Instance demo_json.
#[local] Existing Instance demo_url.
#[local] Existing Instance ReceiptWitness.serde.

Lemma correction_only_reopens_witness :
  ∃ k f f', s_findings ReceiptWitness.omitted !! k = Some f
    ∧ s_findings (tr_state (ReceiptWitness.run ReceiptWitness.corrected)) !! k = Some f'
    ∧ reopened f f'.
Proof.
  destruct (correction_only_reopens ReceiptWitness.wrong "h2" (Some (demo_digest 1))
              ReceiptWitness.correction Witness.open1
              (ReceiptWitness.run ReceiptWitness.corrected) ReceiptWitness.corrected_ok ReceiptWitness.corrected_changed)
    as (latest & Hl & _ & _ & _ & _ & _ & _ & H).
  injection Hl as <-. exact H.
Defined.

Lemma correction_record_validates_witness :
  validate_correction_record (c_records ReceiptWitness.wrong)
    (demo_record 2 "h2" (into_payload (ReceiptWitness.run ReceiptWitness.corrected))) = Ok tt.
Proof.
  exact (correction_record_validates ReceiptWitness.wrong "h2" (Some (demo_digest 1))
           ReceiptWitness.correction Witness.open1
           (ReceiptWitness.run ReceiptWitness.corrected)
           (demo_record 2 "h2" (into_payload (ReceiptWitness.run ReceiptWitness.corrected)))
           ReceiptWitness.corrected_ok ReceiptWitness.corrected_changed eq_refl eq_refl).
Defined.

Lemma supersession_rebinds_the_stop_witness :
  ∃ st', s_hard_stop (tr_state (ReceiptWitness.run ReceiptWitness.superseded)) = Some st'
    ∧ hs_attempted_head_sha st' = ReceiptWitness.new_head ∧ hs_extension_applied st' = false.
Proof.
  destruct (supersession_rebinds_the_stop (ReceiptWitness.stopped_chain ReceiptWitness.old_head)
              ReceiptWitness.new_head (Some (demo_digest 0)) ReceiptWitness.supersession
              Witness.open1 [ReceiptWitness.new_head]
              (ReceiptWitness.run ReceiptWitness.superseded) ReceiptWitness.superseded_ok ReceiptWitness.superseded_changed)
    as (previous & st & st' & _ & _ & Ht & _ & _ & _ & Hh & Hx & _).
  exists st'. rewrite Ht. exact (conj eq_refl (conj Hh Hx)).
Defined.

Lemma supersession_record_validates_witness :
  validate_supersession_record (c_records (ReceiptWitness.stopped_chain ReceiptWitness.old_head))
    (demo_record 1 ReceiptWitness.new_head
       (into_payload (ReceiptWitness.run ReceiptWitness.superseded))) = Ok tt.
Proof.
  refine (supersession_record_validates
            (ReceiptWitness.stopped_chain ReceiptWitness.old_head) ReceiptWitness.new_head
            (Some (demo_digest 0)) ReceiptWitness.supersession Witness.open1
            [ReceiptWitness.new_head] (ReceiptWitness.run ReceiptWitness.superseded)
            (demo_record 1 ReceiptWitness.new_head
               (into_payload (ReceiptWitness.run ReceiptWitness.superseded)))
            ReceiptWitness.superseded_ok ReceiptWitness.superseded_changed eq_refl eq_refl eq_refl ltac:(evaluates)).
Defined.

Lemma acceptance_closes_the_stop_witness :
  s_hard_stop (tr_state (ReceiptWitness.run ReceiptWitness.accepted)) = None.
Proof.
  destruct (acceptance_closes_the_stop (ReceiptWitness.stopped_chain "h4") "h4"
              (Some (demo_digest 0)) ReceiptWitness.acceptance ReceiptWitness.accepted1 "url"
              (ReceiptWitness.run ReceiptWitness.accepted) ltac:(evaluates)
              ReceiptWitness.accepted_ok ReceiptWitness.accepted_changed) as (previous & _ & _ & H & _).
  exact H.
Defined.

Lemma acceptance_record_validates_witness :
  validate_acceptance_record (c_records (ReceiptWitness.stopped_chain "h4"))
    (demo_record 1 "h4" (into_payload (ReceiptWitness.run ReceiptWitness.accepted))) = Ok tt.
Proof.
  refine (acceptance_record_validates (ReceiptWitness.stopped_chain "h4") "h4"
            (Some (demo_digest 0)) ReceiptWitness.acceptance ReceiptWitness.accepted1 "url"
            (ReceiptWitness.run ReceiptWitness.accepted)
            (demo_record 1 "h4" (into_payload (ReceiptWitness.run ReceiptWitness.accepted)))
            ReceiptWitness.accepted_ok ReceiptWitness.accepted_changed eq_refl eq_refl ltac:(evaluates)).
Defined.
End receipt_witnesses.
