(* ===== verification/ChainFacts.v ===== *)
(** * Lemmas on the chain

    What the indexes hold, that the walk terminates and never panics, and the shape of
    the chain it builds: linked by previous digest, disjoint from what it ignores. *)
From S2P Require Import Prelude RStr Collections Error Types Markers ReviewLoop Identity Record.
From S2P Require Import Handoff Correction Supersession Acceptance Chain ReviewLoopFacts.
From S2P Require Import ReceiptFacts World.
From stdpp Require Import options.

Section index.
Context `{HS : !Hasher, LS : !LedgerSerde, JT : !JsonText, UP : !UrlParse,
          SP : !SecretPattern, TP : !TimestampParse}.
Implicit Types (ix : Index) (r : ReviewStateRecord).

(** ** The indexes *)
Record index_ok (records : list ReviewStateRecord) ix : Prop := {
  io_digest : ∀ d r, by_digest ix !! d = Some r ↔ r ∈ records ∧ r_record_digest r = d;
  io_check : ∀ r, r ∈ records → check_record r = Ok tt;
  io_children : ∀ p d, d ∈ children_of ix p ↔
    ∃ r, by_digest ix !! d = Some r ∧ r_previous_digest r = p;
  io_nonempty : ∀ p s, children ix !! p = Some s → s ≠ ∅;
}.

Lemma children_of_insert ix bd p s q :
  children_of (mk_Index bd (<[p := s]> (children ix))) q =
  if decide (p = q) then s else children_of ix q.
Proof.
  unfold children_of. cbn. destruct (decide (p = q)) as [->|].
  - by rewrite lookup_insert_eq.
  - by rewrite lookup_insert_ne.
Qed.

Lemma index_record_ok records ix r ix' :
  index_ok records ix → index_record ix r = Ok ix' → index_ok (records ++ [r]) ix'.
Proof.
  intros [H1 H2 H3 H4] H. unfold index_record in H. apply bind_ok in H as ([] & Hck & H).
  assert (Hcheck : ∀ x, x ∈ records ++ [r] → check_record x = Ok tt).
  { intros x [?| ->%list_elem_of_singleton]%elem_of_app; auto. }
  destruct (by_digest ix !! r_record_digest r) as [e|] eqn:Ee.
  - case_bool_decide as Her; [subst e|done]. injection H as <-.
    apply H1 in Ee as [Hr _]. split; try done. intros d x. rewrite H1, elem_of_app,
      list_elem_of_singleton. naive_solver.
  - injection H as <-. split; cbn.
    + intros d x. rewrite elem_of_app, list_elem_of_singleton.
      destruct (decide (r_record_digest r = d)) as [<-|Hd].
      * rewrite lookup_insert_eq. split; [intros [= <-]; auto|].
        intros [[Hx|Hx] Hd]; [|by subst]. exfalso.
        assert (Hlk : by_digest ix !! r_record_digest r = Some x) by by apply H1. congruence.
      * rewrite lookup_insert_ne by done. rewrite H1. naive_solver.
    + done.
    + intros p d. rewrite children_of_insert. destruct (decide (r_previous_digest r = p)) as [<-|Hp].
      * rewrite elem_of_union, elem_of_singleton, H3. split.
        -- intros [->|(x & Hx & Hp)].
           ++ exists r. by rewrite lookup_insert_eq.
           ++ exists x. rewrite lookup_insert_ne; [done|]. congruence.
        -- intros (x & Hx & Hp). destruct (decide (r_record_digest r = d)) as [<-|Hd]; [by left|].
           rewrite lookup_insert_ne in Hx by done. right. by exists x.
      * rewrite H3. split; intros (x & Hx & Hxp).
        -- exists x. rewrite lookup_insert_ne; [done|]. congruence.
        -- exists x. split; [|done]. destruct (decide (r_record_digest r = d)) as [<-|Hd].
           ++ rewrite lookup_insert_eq in Hx. injection Hx as ->. done.
           ++ by rewrite lookup_insert_ne in Hx.
    + intros p s. destruct (decide (r_previous_digest r = p)) as [<-|Hp].
      * rewrite lookup_insert_eq. intros [= <-]. set_solver.
      * rewrite lookup_insert_ne by done. apply H4.
Qed.

Lemma index_empty_ok : index_ok [] (mk_Index ∅ ∅).
Proof.
  split; cbn.
  - intros d r. rewrite lookup_empty. split; [done|]. intros [Hr _].
    by apply not_elem_of_nil in Hr.
  - intros r Hr. by apply not_elem_of_nil in Hr.
  - intros p d. unfold children_of. cbn. rewrite lookup_empty. cbn. split; [set_solver|].
    intros (r & Hr & _). by rewrite lookup_empty in Hr.
  - intros p s. by rewrite lookup_empty.
Qed.

Lemma index_records_ok records ix : index_records records = Ok ix → index_ok records ix.
Proof.
  intros H. unfold index_records in H.
  apply (foldM_inv _ (λ seen ix, index_ok seen ix) (λ seen acc x acc', index_record_ok seen acc x acc')
    records [] (mk_Index ∅ ∅)) in H; [done|]. apply index_empty_ok.
Qed.

(** Two indexes of the same records are the same. *)
Lemma index_ok_unique l1 l2 ix1 ix2 :
  (∀ r, r ∈ l1 ↔ r ∈ l2) → index_ok l1 ix1 → index_ok l2 ix2 → ix1 = ix2.
Proof.
  intros Hl I1 I2. assert (Hd : by_digest ix1 = by_digest ix2).
  { apply map_eq. intros d. apply option_eq. intros r.
    by rewrite (io_digest _ _ I1), (io_digest _ _ I2), Hl. }
  assert (Hc : ∀ p, children_of ix1 p = children_of ix2 p).
  { intros p. apply set_eq. intros d. by rewrite (io_children _ _ I1), (io_children _ _ I2), Hd. }
  destruct ix1 as [b1 c1], ix2 as [b2 c2]. cbn in Hd. subst b2. f_equal.
  apply map_eq. intros p. specialize (Hc p). unfold children_of in Hc. cbn in Hc.
  destruct (c1 !! p) as [s1|] eqn:E1, (c2 !! p) as [s2|] eqn:E2; cbn in Hc; [by subst| | |done].
  - by destruct (io_nonempty _ _ I1 p s1 E1).
  - by destruct (io_nonempty _ _ I2 p s2 E2).
Qed.

Lemma digest_of_by_digest records ix d r :
  index_ok records ix → by_digest ix !! d = Some r → r_record_digest r = d.
Proof. intros I Hd. by apply (io_digest _ _ I) in Hd as [_ ?]. Qed.

Lemma index_total records l ix :
  index_ok l ix → (∀ r, r ∈ records → check_record r = Ok tt) →
  (∀ r1 r2, r1 ∈ l ++ records → r2 ∈ l ++ records → r_record_digest r1 = r_record_digest r2 → r1 = r2) →
  ∃ ix', foldM index_record ix records = Ok ix'.
Proof.
  revert l ix. induction records as [|r records IH]; intros l ix I Hck Huniq; cbn; [by eauto|].
  assert (Hr : ∃ ix1, index_record ix r = Ok ix1).
  { unfold index_record. rewrite (Hck r) by by left. cbn.
    destruct (by_digest ix !! r_record_digest r) as [e|] eqn:Ee; [|by eauto].
    apply (io_digest _ _ I) in Ee as [He Hd]. rewrite bool_decide_true; [by eauto|].
    apply Huniq; [by apply elem_of_app; left|apply elem_of_app; right; by left|done]. }
  destruct Hr as [ix1 Hr]. rewrite Hr. cbn. apply (IH (l ++ [r])).
  - by eapply index_record_ok.
  - intros x Hx. apply Hck. by right.
  - intros r1 r2. rewrite <- !List.app_assoc. cbn. apply Huniq.
Qed.
End index.

(** ** The ignored subtrees *)
Section subtrees.
Implicit Types (ix : Index) (ignored R : gset string) (stack : list string).

Record ignore_spec ix ignored stack R : Prop := {
  is_mono : ignored ⊆ R;
  is_stack : ∀ k, k ∈ stack → k ∈ R;
  is_origin : ∀ k, k ∈ R → k ∈ ignored ∨ k ∈ stack
    ∨ ∃ p, p ∈ R ∧ (p ∉ ignored) ∧ k ∈ children_of ix (Some p);
  is_closed : ∀ k, k ∈ R → k ∉ ignored → children_of ix (Some k) ⊆ R;
}.

Lemma ignore_subtrees_spec fuel ix ignored stack R :
  ignore_subtrees fuel ix ignored stack = Ok R →
  ignore_spec ix ignored stack R.
Proof.
  revert ignored stack. induction fuel as [|fuel IH]; intros ignored stack H; cbn in H; [done|].
  destruct stack as [|k stack].
  - injection H as <-. split; [done| |by auto|set_solver].
    intros k Hk. by apply not_elem_of_nil in Hk.
  - destruct (bool_decide (k ∈ ignored)) eqn:Ek.
    + apply bool_decide_eq_true in Ek. destruct (IH _ _ H) as [H1 H2 H3 H4]. split; try done.
      * intros k' [->|Hk']%elem_of_cons; auto.
      * intros k' Hk'. destruct (H3 k' Hk') as [?|[?|?]]; auto.
        right. left. by right.
    + apply bool_decide_eq_false in Ek. destruct (IH _ _ H) as [H1 H2 H3 H4].
      assert (Hkids : children_of ix (Some k) ⊆ R).
      { intros c Hc. apply H2, elem_of_app. left. by apply elem_of_rev, elem_of_sorted_elements. }
      assert (Hk : k ∈ R) by set_solver. split.
      * set_solver.
      * intros k' [->|Hk']%elem_of_cons; [done|]. apply H2, elem_of_app. by right.
      * intros k' Hk'. destruct (H3 k' Hk') as [Hin|[Hin|(p & Hp & Hni & Hc)]].
        -- apply elem_of_union in Hin as [->%elem_of_singleton|?]; [|by left].
           right. left. by left.
        -- apply elem_of_app in Hin as [Hin|?]; [|right; left; by right].
           right. right. exists k. split; [done|]. split; [done|].
           by apply elem_of_rev, elem_of_sorted_elements in Hin.
        -- right. right. exists p. set_solver.
      * intros k' Hk' Hni. destruct (decide (k' = k)) as [->|Hne]; [done|]. apply H4; set_solver.
Qed.

Lemma ignore_subtrees_more fuel extra ix ignored stack R :
  ignore_subtrees fuel ix ignored stack = Ok R →
  ignore_subtrees (fuel + extra) ix ignored stack = Ok R.
Proof.
  revert ignored stack. induction fuel as [|fuel IH]; intros ignored stack; cbn; [done|].
  destruct stack as [|k stack]; [done|]. by destruct (bool_decide _); apply IH.
Qed.

(** The measure that bounds the work left. *)
Definition subtree_measure ix ignored stack : nat :=
  size (dom (by_digest ix) ∖ ignored) * S (size (by_digest ix)) + length stack.

Lemma children_bound ix p :
  (∀ q d, d ∈ children_of ix q → d ∈ dom (by_digest ix)) →
  length (sorted_elements (children_of ix p)) ≤ size (by_digest ix).
Proof.
  intros Hsub. rewrite length_sorted_elements, <- (size_dom (D := gset string)).
  apply subseteq_size. intros d Hd. by eapply Hsub.
Qed.

Lemma ignore_subtrees_fuel fuel ix ignored stack :
  (∀ q d, d ∈ children_of ix q → d ∈ dom (by_digest ix)) →
  (∀ k, k ∈ stack → k ∈ dom (by_digest ix)) →
  subtree_measure ix ignored stack < fuel →
  ∃ R, ignore_subtrees fuel ix ignored stack = Ok R.
Proof.
  intros Hsub. revert ignored stack. induction fuel as [|fuel IH]; intros ignored stack Hst Hm; [lia|].
  cbn. destruct stack as [|k stack]; [by eauto|].
  destruct (bool_decide (k ∈ ignored)) eqn:Ek.
  - apply IH; [intros; apply Hst; by right|]. unfold subtree_measure in *. cbn in Hm. lia.
  - apply bool_decide_eq_false in Ek. apply IH.
    + intros d [Hd|Hd]%elem_of_app; [|apply Hst; by right].
      apply elem_of_rev, elem_of_sorted_elements in Hd. by eapply Hsub.
    + unfold subtree_measure in *. rewrite List.length_app, length_rev. cbn in Hm.
      pose proof (children_bound ix (Some k) Hsub) as Hb.
      assert (Hlt : size (dom (by_digest ix) ∖ ({[k]} ∪ ignored)) < size (dom (by_digest ix) ∖ ignored)).
      { apply subset_size. assert (k ∈ dom (by_digest ix)) by (apply Hst; by left). set_solver. }
      nia.
Qed.
End subtrees.

(** ** Choosing the next record *)
Section fork.
Context `{HS : !Hasher, LS : !LedgerSerde, JT : !JsonText, UP : !UrlParse,
          SP : !SecretPattern, TP : !TimestampParse}.
Implicit Types (ix : Index) (ordered : list ReviewStateRecord) (ignored : gset string).

Lemma filter_keys_total ix p ks :
  (∀ k, k ∈ ks → is_Some (by_digest ix !! k)) →
  filter_keys ix p ks = Ok (List.filter (λ k, is_some_and (by_digest ix !! k) p) ks).
Proof.
  intros Hks. unfold filter_keys.
  assert (Hgen : ∀ l acc, (∀ k, k ∈ l → is_Some (by_digest ix !! k)) →
    foldM (λ acc key, record ← record_of ix key; Ok (if p record then acc ++ [key] else acc)) acc l
    = @Ok stop _ (acc ++ List.filter (λ k, is_some_and (by_digest ix !! k) p) l)).
  { induction l as [|k l IH]; intros acc Hl; cbn; [by rewrite List.app_nil_r|].
    destruct (Hl k) as [r Hr]; [by left|]. unfold record_of. rewrite Hr. cbn.
    rewrite IH by (intros; apply Hl; by right).
    destruct (p r); [by rewrite <- List.app_assoc|done]. }
  apply (Hgen ks [] Hks).
Qed.

(** The fork at [digest] was resolved for [winner] against every other child. *)
Record fork_won ix ordered ignored (digest winner : string) ignored' : Prop := {
  fw_active : ∃ active next_generation r,
    latest_handoff ordered = Some active
    ∧ checked_add u64_max (assignment_generation active) 1 = Some next_generation
    ∧ by_digest ix !! winner = Some r ∧ wins active next_generation r = true
    ∧ ∀ k rk, k ∈ children_of ix (Some digest) → k ≠ winner → by_digest ix !! k = Some rk →
        r_assignment_generation rk = Some (assignment_generation active);
  fw_ignored : ignore_spec ix ignored
    (rev (List.filter (λ key, key !=? winner)
            (sorted_elements (children_of ix (Some digest))))) ignored';
}.

Lemma resolve_fork_ok ix ordered ignored digest winner ignored' :
  (∀ k, k ∈ children_of ix (Some digest) → is_Some (by_digest ix !! k)) →
  resolve_fork ix ordered ignored (sorted_elements (children_of ix (Some digest)))
    = Ok (winner, ignored') →
  winner ∈ children_of ix (Some digest) ∧ fork_won ix ordered ignored digest winner ignored'.
Proof.
  intros Hkids H. unfold resolve_fork in H.
  apply bind_ok in H as (active & Ha%ok_or_ok & H).
  apply bind_ok in H as (ng & Hng%ok_or_ok & H).
  rewrite filter_keys_total in H by (intros k Hk%elem_of_sorted_elements; auto).
  cbn [mbind result_bind] in H.
  destruct (List.filter _ _) as [|w [|]] eqn:Ew in H; [done| |done].
  assert (Hw : w ∈ [w]) by by left. rewrite <- Ew in Hw.
  apply elem_of_list_filter in Hw as [Hw%elem_of_sorted_elements Hwin].
  rewrite filter_keys_total in H.
  2:{ intros k [Hk _]%elem_of_list_filter. apply elem_of_sorted_elements in Hk. auto. }
  cbn [mbind result_bind] in H.
  destruct (negb _) eqn:Es in H; [done|]. apply negb_decide_false in Es.
  apply bind_ok in H as (R & HR & [= <- <-]). split; [done|]. split.
  - destruct (Hkids w Hw) as [r Hr]. rewrite Hr in Hwin. cbn in Hwin.
    exists active, ng, r. do 4 (split; [done|]). intros k rk Hk Hne Hrk.
    destruct (decide (r_assignment_generation rk = Some (assignment_generation active))) as [|Hg]; [done|].
    exfalso. assert (Hin : k ∈ List.filter (λ k, is_some_and (by_digest ix !! k)
        (λ record, r_assignment_generation record !=? Some (assignment_generation active)))
      (List.filter (λ key, key !=? w) (sorted_elements (children_of ix (Some digest))))).
    { rewrite !elem_of_list_filter, elem_of_sorted_elements, Hrk. cbn.
      by rewrite !bool_decide_false. }
    rewrite Es in Hin. by apply not_elem_of_nil in Hin.
  - by eapply ignore_subtrees_spec.
Qed.

Lemma choose_next_none ix ordered ignored digest ignored' :
  choose_next ix ordered ignored digest = Ok (None, ignored') →
  children_of ix (Some digest) = ∅ ∧ ignored' = ignored.
Proof.
  unfold choose_next. intros H.
  destruct (sorted_elements (children_of ix (Some digest))) as [|c [|c' l]] eqn:Es.
  - injection H as <-. split; [|done]. apply set_eq. intros x.
    rewrite <- elem_of_sorted_elements, Es. set_solver.
  - done.
  - by apply bind_ok in H as ([? ?] & _ & [=]).
Qed.

Lemma choose_next_some ix ordered ignored digest c ignored' :
  (∀ k, k ∈ children_of ix (Some digest) → is_Some (by_digest ix !! k)) →
  choose_next ix ordered ignored digest = Ok (Some c, ignored') →
  c ∈ children_of ix (Some digest) ∧
  ((ignored' = ignored ∧ ∀ k, k ∈ children_of ix (Some digest) → k = c)
   ∨ fork_won ix ordered ignored digest c ignored').
Proof.
  unfold choose_next. intros Hkids H.
  destruct (sorted_elements (children_of ix (Some digest))) as [|x [|c' l]] eqn:Es.
  - done.
  - injection H as <- <-. split; [apply elem_of_sorted_elements; rewrite Es; by left|].
    left. split; [done|]. intros k Hk. apply elem_of_sorted_elements in Hk. rewrite Es in Hk.
    by apply list_elem_of_singleton in Hk.
  - rewrite <- Es in H. apply bind_ok in H as ([w R] & Hf & [= <- <-]).
    apply resolve_fork_ok in Hf as [? ?]; [|done]. auto.
Qed.

Lemma choose_next_regular records ix ordered ignored digest :
  index_ok records ix → regular (choose_next ix ordered ignored digest) = true.
Proof.
  intros I. assert (Hkids : ∀ p k, k ∈ children_of ix p → is_Some (by_digest ix !! k)).
  { intros p k (r & Hr & _)%(io_children _ _ I). eauto. }
  unfold choose_next.
  destruct (sorted_elements (children_of ix (Some digest))) as [|x [|c' l]] eqn:Es; [done..|].
  rewrite <- Es. apply regular_bind; [|by intros [? ?] _].
  unfold resolve_fork. apply regular_bind; [apply regular_ok_or|intros active _].
  apply regular_bind; [apply regular_ok_or|intros ng _].
  rewrite filter_keys_total by (intros k Hk%elem_of_sorted_elements; eauto).
  cbn [mbind result_bind]. destruct (List.filter _ _) as [|w [|]]; try done.
  rewrite filter_keys_total.
  2:{ intros k [Hk _]%elem_of_list_filter. apply elem_of_sorted_elements in Hk. eauto. }
  cbn [mbind result_bind]. destruct (negb _); [done|].
  destruct (ignore_subtrees_fuel (subtree_fuel ix) ix ignored
    (rev (List.filter (λ key, key !=? w) (sorted_elements (children_of ix (Some digest))))))
    as [R ->]; [| | |done].
  - intros p k Hk. apply elem_of_dom. by eapply Hkids.
  - intros k Hk. apply (proj1 (elem_of_rev _ _)), elem_of_list_filter in Hk as [Hk%elem_of_sorted_elements _].
    apply elem_of_dom. by eapply Hkids.
  - unfold subtree_measure, subtree_fuel. rewrite length_rev.
    assert (H1 : size (dom (by_digest ix) ∖ ignored) ≤ size (by_digest ix)).
    { rewrite <- (size_dom (D := gset string)). apply subseteq_size. set_solver. }
    assert (H2 : length (List.filter (λ key, key !=? w)
      (sorted_elements (children_of ix (Some digest)))) ≤ size (by_digest ix)).
    { etrans; [apply filter_length_le|]. apply children_bound. intros p k Hk.
      apply elem_of_dom. by eapply Hkids. }
    nia.
Qed.
End fork.

(** ** No panics before the walk *)
Section checks.
Context `{HS : !Hasher, LS : !LedgerSerde, JT : !JsonText, UP : !UrlParse,
          SP : !SecretPattern, TP : !TimestampParse}.

Lemma regular_validate_state s : regular (validate_review_loop_state s) = true.
Proof.
  unfold validate_review_loop_state. destruct (is_empty _); [done|].
  apply regular_bind.
  - apply regular_iterM. intros [k f] _. unfold validate_finding.
    apply regular_bind; [apply regular_fingerprint|intros _ _].
    apply regular_bind; [|intros _ _; by destruct (_ || _)].
    destruct (f_root_cause_fingerprint f); [|done].
    apply regular_bind; [apply regular_fingerprint|intros _ _]. by destruct (_ !=? _).
  - intros _ _. destruct (s_hard_stop s); [|done]. by destruct (_ || _).
Qed.

Lemma regular_compute_digest r : regular (compute_digest r) = true.
Proof. unfold compute_digest. apply regular_bind; [apply regular_serialize|done]. Qed.

Lemma regular_check_record r : regular (check_record r) = true.
Proof.
  unfold check_record, check_digest, check_carry_over, check_loop_state.
  apply regular_bind.
  { destruct (_ !=? _); [done|]. apply regular_bind; [apply regular_compute_digest|].
    intros d _. by destruct (_ !=? _). }
  intros _ _. apply regular_bind.
  { destruct (payload_handoff _); [|done]. unfold validate_handoff. by destruct (_ || _). }
  intros _ _. apply regular_bind.
  { destruct (r_payload r); try done. by destruct (_ || _). }
  intros _ _. destruct (record_state r); [|done].
  apply regular_bind; [apply regular_validate_state|intros _ _]. by destruct (_ && _).
Qed.

Lemma regular_index_records records : regular (index_records records) = true.
Proof.
  apply regular_foldM. intros ix r _. unfold index_record.
  apply regular_bind; [apply regular_check_record|intros _ _].
  destruct (_ !! _); [|done]. by destruct (_ ==? _).
Qed.

Lemma regular_parse_state_marker body : regular (parse_state_marker body) = true.
Proof.
  unfold parse_state_marker. destruct (split_once _ body) as [[? rest]|]; [|done].
  destruct (split_once _ rest) as [[encoded ?]|]; [|done].
  apply regular_bind; [unfold hex_decode; by destruct (_ || _)|intros b _].
  apply regular_bind; [by destruct (utf8_error 0 b)|intros j _].
  apply regular_bind; [by destruct (from_str j)|done].
Qed.

Lemma regular_decode_comments comments repository pr :
  regular (decode_comments comments repository pr) = true.
Proof.
  apply regular_foldM. intros acc c _. unfold decode_comment.
  apply regular_bind; [apply regular_parse_state_marker|intros [r|] _]; [|done].
  by destruct (_ || _).
Qed.

Lemma regular_check_ownership ordered r : regular (check_ownership ordered r) = true.
Proof.
  unfold check_ownership, ownership_step.
  destruct (payload_handoff (r_payload r)) as [h|], (latest_handoff ordered) as [old|].
  - apply regular_bind; [apply regular_ok_or|intros n _]. by destruct (_ || _).
  - by destruct (_ || _).
  - by destruct (_ || _).
  - by destruct (is_some _).
Qed.

Lemma regular_check_next ordered r : regular (check_next ordered r) = true.
Proof.
  unfold check_next. destruct (negb _); [done|].
  apply regular_bind; [apply regular_check_ownership|intros _ _].
  apply regular_bind; [apply regular_validate_correction|intros _ _].
  apply regular_bind; [apply regular_validate_supersession|intros _ _].
  apply regular_validate_acceptance.
Qed.
End checks.

(** ** The walk *)
Section walk.
Context `{HS : !Hasher, LS : !LedgerSerde, JT : !JsonText, UP : !UrlParse,
          SP : !SecretPattern, TP : !TimestampParse}.
Implicit Types (ix : Index) (ordered : list ReviewStateRecord) (ignored : gset string).

(** The digest before position [i] of a path. *)
Definition before (path : list string) (i : nat) : option string :=
  match i with 0 => None | S j => path !! j end.

(** Every digest of a path is known and names the digest before it as its previous one. *)
Definition path_ok ix (path : list string) : Prop :=
  ∀ i d, path !! i = Some d →
    ∃ r, by_digest ix !! d = Some r ∧ r_previous_digest r = before path i.

Lemma path_ok_inj ix path i j d :
  path_ok ix path → path !! i = Some d → path !! j = Some d → i = j.
Proof.
  intros Hp. revert j d. induction i as [|i IH]; intros [|j] d Hi Hj; [done| | |].
  - destruct (Hp 0 d Hi) as (r & Hr & H0). destruct (Hp (S j) d Hj) as (r' & Hr' & H1).
    cbn in *. assert (is_Some (path !! j)) as [x Hx]; [|congruence].
    apply lookup_lt_is_Some. apply lookup_lt_Some in Hj. lia.
  - destruct (Hp 0 d Hj) as (r & Hr & H0). destruct (Hp (S i) d Hi) as (r' & Hr' & H1).
    cbn in *. assert (is_Some (path !! i)) as [x Hx]; [|congruence].
    apply lookup_lt_is_Some. apply lookup_lt_Some in Hi. lia.
  - destruct (Hp _ d Hi) as (r & Hr & H0). destruct (Hp _ d Hj) as (r' & Hr' & H1). cbn in *.
    assert (is_Some (path !! i)) as [x Hx].
    { apply lookup_lt_is_Some. apply lookup_lt_Some in Hi. lia. }
    f_equal. apply (IH j x); congruence.
Qed.

Lemma path_ok_NoDup ix path : path_ok ix path → NoDup path.
Proof. intros Hp. apply NoDup_alt. intros i j d. by apply path_ok_inj with ix. Qed.

Lemma path_ok_length ix path : path_ok ix path → length path ≤ size (by_digest ix).
Proof.
  intros Hp. rewrite <- (size_dom (D := gset string)).
  rewrite <- (size_list_to_set (C := gset string) path) by by eapply path_ok_NoDup.
  apply subseteq_size. intros d Hd%elem_of_list_to_set.
  apply list_elem_of_lookup in Hd as [i Hi]. destruct (Hp i d Hi) as (r & Hr & _).
  apply elem_of_dom. by eexists.
Qed.

Lemma path_ok_snoc ix path d r :
  path_ok ix path → by_digest ix !! d = Some r → r_previous_digest r = last path →
  path_ok ix (path ++ [d]).
Proof.
  intros Hp Hr Hprev i x Hi. assert (Hb : ∀ j, j ≤ length path → before (path ++ [d]) j = before path j).
  { intros [|j] Hj; [done|]. cbn. apply lookup_app_l. lia. }
  apply lookup_app_Some in Hi as [Hi|[Hlen Hi]].
  - destruct (Hp i x Hi) as (r' & Hr' & H1). exists r'. split; [done|].
    rewrite Hb; [done|]. apply lookup_lt_Some in Hi. lia.
  - apply list_lookup_singleton_Some in Hi as [Hi ->]. exists r. split; [done|].
    rewrite Hb by lia. assert (i = length path) as -> by lia. rewrite Hprev.
    rewrite last_lookup. destruct path as [|y path]; [done|]. done.
Qed.

(** The path of a walk: what is ordered and the digest about to be read. *)
Definition path_of ordered (current : option string) : list string :=
  (r_record_digest <$> ordered) ++ from_option (λ d, [d]) [] current.

(** The record [rk] of digest [k] lost the fork below position [i] of the path. *)
Definition loses_at ix ordered (path : list string) (k : string) (rk : ReviewStateRecord)
    (i : nat) : Prop :=
  ∃ w rw active next_generation,
    path !! S i = Some w ∧ w ≠ k ∧ by_digest ix !! w = Some rw
    ∧ latest_handoff (take (S i) ordered) = Some active
    ∧ checked_add u64_max (assignment_generation active) 1 = Some next_generation
    ∧ wins active next_generation rw = true
    ∧ r_assignment_generation rk = Some (assignment_generation active).

(** Everything ignored hangs below a record that lost a fork of the path. *)
Definition ignored_ok ix ordered (path : list string) ignored : Prop :=
  ∀ k, k ∈ ignored → ∃ rk p, by_digest ix !! k = Some rk ∧ r_previous_digest rk = Some p
    ∧ (p ∈ ignored ∨ ∃ i, path !! i = Some p ∧ loses_at ix ordered path k rk i).

Record walking ix ordered ignored (current : option string) : Prop := {
  wk_path : path_ok ix (path_of ordered current);
  wk_ordered : ∀ i r, ordered !! i = Some r →
    by_digest ix !! r_record_digest r = Some r ∧ check_next (take i ordered) r = Ok tt;
  wk_ignored : ignored_ok ix ordered (path_of ordered current) ignored;
}.

Lemma path_not_ignored ix ordered path ignored d :
  path_ok ix path → ignored_ok ix ordered path ignored → d ∈ path → d ∉ ignored.
Proof.
  intros Hp Hi [i Hd]%list_elem_of_lookup. revert d Hd.
  induction i as [|j IH]; intros d Hd Hin; destruct (Hi d Hin) as (rk & p & Hk & Hprev & H);
    destruct (Hp _ d Hd) as (r & Hr & Hb); cbn in Hb; [congruence|].
  assert (Hjp : path !! j = Some p) by congruence.
  destruct H as [H|(i & Hip & w & rw & a & n & Hw & Hne & _)]; [by apply (IH p)|].
  assert (i = j) as -> by by eapply path_ok_inj. congruence.
Qed.

Lemma walking_extend ix ordered ignored path r path' :
  path !! length ordered = Some (r_record_digest r) → length path = S (length ordered) →
  ignored_ok ix ordered path ignored → ignored_ok ix (ordered ++ [r]) (path ++ path') ignored.
Proof.
  intros Hl Hlen Hi k Hk. destruct (Hi k Hk) as (rk & p & Hrk & Hp & H).
  exists rk, p. do 2 (split; [done|]). destruct H as [H|(i & Hip & w & rw & a & n & Hw & H)];
    [by left|]. right. exists i. pose proof (lookup_lt_Some _ _ _ Hw) as Hlt.
  split; [rewrite lookup_app_l by lia; done|]. exists w, rw, a, n.
  rewrite lookup_app_l by lia. split; [done|]. by rewrite take_app_le by lia.
Qed.

(** One step of the walk. *)
Lemma walking_step records ix ordered ignored d r next ignored' :
  index_ok records ix → walking ix ordered ignored (Some d) →
  by_digest ix !! d = Some r → check_next ordered r = Ok tt →
  choose_next ix (ordered ++ [r]) ignored d = Ok (next, ignored') →
  walking ix (ordered ++ [r]) ignored' next ∧ ignored ⊆ ignored'
  ∧ (next = None → children_of ix (Some d) = ∅)
  ∧ (∀ c, next = Some c → c ∈ children_of ix (Some d)).
Proof.
  intros I [Hp Ho Hi] Hr Hck Hn. pose proof (digest_of_by_digest _ _ _ _ I Hr) as Hrd.
  assert (Hkids : ∀ k, k ∈ children_of ix (Some d) → is_Some (by_digest ix !! k)).
  { intros k (x & Hx & _)%(io_children _ _ I). by eexists. }
  assert (Hpo : ∀ c, path_of (ordered ++ [r]) c = path_of ordered (Some d) ++ from_option (λ x, [x]) [] c).
  { intros c. unfold path_of. rewrite fmap_app. cbn. by rewrite Hrd. }
  assert (Hlen : length (path_of ordered (Some d)) = S (length ordered)).
  { unfold path_of. rewrite List.length_app, length_fmap. cbn. lia. }
  assert (Hlk : path_of ordered (Some d) !! length ordered = Some (r_record_digest r)).
  { unfold path_of. rewrite lookup_app_r by (rewrite length_fmap; lia). rewrite length_fmap, Nat.sub_diag.
    by rewrite Hrd. }
  assert (Ho' : ∀ i x, (ordered ++ [r]) !! i = Some x →
    by_digest ix !! r_record_digest x = Some x ∧ check_next (take i (ordered ++ [r])) x = Ok tt).
  { intros i x [Hx|[Hge Hx]]%lookup_app_Some.
    - rewrite take_app_le by (apply lookup_lt_Some in Hx; lia). by apply Ho.
    - apply list_lookup_singleton_Some in Hx as [Hi0 <-]. rewrite Hrd.
      rewrite take_app_le, take_ge by lia. done. }
  destruct next as [c|].
  - apply choose_next_some in Hn as [Hc Hcase]; [|done].
    assert (Hp' : path_ok ix (path_of (ordered ++ [r]) (Some c))).
    { rewrite Hpo. cbn. destruct (proj1 (io_children _ _ I _ _) Hc) as (x & Hx & Hprev).
      apply path_ok_snoc with x; [done|done|]. rewrite Hprev. unfold path_of. cbn.
      by rewrite last_snoc. }
    assert (Hnext : ∀ c', Some c = Some c' → c' ∈ children_of ix (Some d)) by by intros c' [= <-].
    destruct Hcase as [[-> _]|[(a & n & rw & Ha & Hng & Hrw & Hwin & Hothers) [M1 M2 M3 M4]]].
    + split; [|by split]. split; [done|done|]. rewrite Hpo. by apply walking_extend.
    + split; [|by split]. split; [done|done|]. rewrite Hpo. intros k Hk.
      pose proof (walking_extend ix ordered ignored _ r [c] Hlk Hlen Hi) as Hold.
      destruct (M3 k Hk) as [Hin|[Hin|(p & Hpin & _ & Hc2)]].
      * destruct (Hold k Hin) as (rk & p & Hrk & Hpv & Hcase). exists rk, p.
        do 2 (split; [done|]). destruct Hcase as [?|?]; [left; by apply M1|by right].
      * apply elem_of_rev, elem_of_list_filter in Hin as [Hin%elem_of_sorted_elements Hne].
        apply negb_true_iff, bool_decide_eq_false in Hne.
        destruct (proj1 (io_children _ _ I _ _) Hin) as (rk & Hrk & Hpv). exists rk, d.
        do 2 (split; [done|]). right. exists (length ordered).
        split; [rewrite lookup_app_l by lia; by rewrite Hlk, Hrd|].
        exists c, rw, a, n. split; [rewrite lookup_app_r by lia; rewrite Hlen, Nat.sub_diag; done|].
        rewrite take_ge by (rewrite List.length_app; cbn; lia).
        do 5 (split; [done|]). by apply (Hothers k).
      * destruct (proj1 (io_children _ _ I _ _) Hc2) as (rk & Hrk & Hpv). exists rk, p.
        do 2 (split; [done|]). by left.
  - apply choose_next_none in Hn as [Hc ->]. split; [|by split]. split; [|done|].
    + by rewrite Hpo, List.app_nil_r.
    + rewrite Hpo. by apply walking_extend.
Qed.

(** The whole walk. *)
Record walked ix ordered ignored (final : list ReviewStateRecord) (R : gset string) : Prop := {
  wd_walking : walking ix final R None;
  wd_prefix : ordered `prefix_of` final;
  wd_mono : ignored ⊆ R;
}.

Lemma walk_ok records fuel ix ordered ignored current final R :
  index_ok records ix → walking ix ordered ignored current →
  walk fuel ix ordered ignored current = Ok (final, R) →
  walked ix ordered ignored final R
  ∧ ∀ d, current = Some d → ∃ tip, last final = Some tip
      ∧ children_of ix (Some (r_record_digest tip)) = ∅.
Proof.
  intros I. revert ordered ignored current. induction fuel as [|fuel IH];
    intros ordered ignored [d|] Hw H; cbn in H; try done.
  1, 3: injection H as <- <-; split; [split; [done|exists []; by rewrite List.app_nil_r|done]|done].
  apply bind_ok in H as (r & Hr%ok_or_ok & H). apply bind_ok in H as ([] & Hck & H).
  apply bind_ok in H as ([next ign] & Hn & H).
  destruct (walking_step _ _ _ _ _ _ _ _ I Hw Hr Hck Hn) as (Hw' & Hm & Hnone & _).
  destruct (IH _ _ _ Hw' H) as [[W P M] Hend]. split.
  - split; [done| |set_solver]. etrans; [|exact P]. by eexists.
  - intros d' [= <-]. destruct next as [c|]; [by apply (Hend c)|].
    assert (final = ordered ++ [r]) as ->.
    { destruct fuel; cbn in H; by injection H as <- _. }
    exists r. rewrite last_snoc. split; [done|].
    rewrite (digest_of_by_digest _ _ _ _ I Hr). by apply Hnone.
Qed.

(** With fuel for every indexed record the walk ends. *)
Lemma walk_regular records fuel ix ordered ignored current :
  index_ok records ix → walking ix ordered ignored current →
  size (by_digest ix) < fuel + length ordered →
  regular (walk fuel ix ordered ignored current) = true.
Proof.
  intros I. revert ordered ignored current. induction fuel as [|fuel IH];
    intros ordered ignored [d|] Hw Hf; cbn; try done.
  - pose proof (path_ok_length _ _ (wk_path _ _ _ _ Hw)) as Hl.
    unfold path_of in Hl. rewrite List.length_app, length_fmap in Hl. cbn in *. lia.
  - destruct (by_digest ix !! d) as [r|] eqn:Er; cbn; [|done].
    apply regular_bind; [apply regular_check_next|intros [] Hck].
    apply regular_bind; [by eapply choose_next_regular|intros [next ign] Hn].
    destruct (walking_step _ _ _ _ _ _ _ _ I Hw Er Hck Hn) as (Hw' & _).
    apply IH; [done|]. rewrite List.length_app. cbn. lia.
Qed.

(** Without forks nothing is ignored. *)
Lemma walk_no_fork fuel ix ordered ignored current final R :
  (∀ p, size (children_of ix p) ≤ 1) →
  walk fuel ix ordered ignored current = Ok (final, R) → R = ignored.
Proof.
  intros Hs. revert ordered ignored current. induction fuel as [|fuel IH];
    intros ordered ignored [d|] H; cbn in H; try done; try by injection H as _ <-.
  apply bind_ok in H as (r & _ & H). apply bind_ok in H as (u & _ & H).
  apply bind_ok in H as ([next ign] & Hn & H). rewrite (IH _ _ _ H).
  unfold choose_next in Hn. specialize (Hs (Some d)). rewrite <- length_sorted_elements in Hs.
  destruct (sorted_elements _) as [|x [|]]; [by injection Hn as _ <-..|cbn in Hs; lia].
Qed.

(** The start of a walk: the single genesis record. *)
Lemma walking_start records ix d :
  index_ok records ix → d ∈ children_of ix None → walking ix [] ∅ (Some d).
Proof.
  intros I Hd. destruct (proj1 (io_children _ _ I _ _) Hd) as (r & Hr & Hp). split.
  - intros [|i] x; cbn; [|done]. intros [= <-]. by exists r.
  - done.
  - intros k Hk. set_solver.
Qed.

Lemma single_root ix :
  size (children_of ix None) = 1 → ∃ d, children_of ix None = {[d]}
    ∧ head (sorted_elements (children_of ix None)) = Some d.
Proof.
  intros [d Hd]%size_1_elem_of. exists d. assert (Heq : children_of ix None = {[d]}) by set_solver.
  split; [done|]. rewrite Heq. pose proof (length_sorted_elements {[d]}) as Hl.
  rewrite size_singleton in Hl. destruct (sorted_elements {[d]}) as [|x [|]] eqn:E; try done.
  assert (Hx : x ∈ sorted_elements {[d]}) by (rewrite E; by left).
  apply elem_of_sorted_elements, elem_of_singleton in Hx. by subst.
Qed.

(** What [link] returns. *)
Record linked records (chain : ReviewStateChain) ix (R : gset string) : Prop := {
  li_index : index_ok records ix;
  li_walking : walking ix (c_records chain) R None;
  li_end : ∃ tip, last (c_records chain) = Some tip
    ∧ children_of ix (Some (r_record_digest tip)) = ∅;
  li_size : length (c_records chain) + size R = size (by_digest ix);
  li_tip : c_tip_digest chain = r_record_digest <$> last (c_records chain);
  li_ignored : c_ignored_stale_records chain = sorted_elements R;
  li_fork : forallb (λ r, is_none (r_assignment_generation r)) records = true →
    ∀ p, size (children_of ix p) ≤ 1;
}.

Lemma link_inv records chain :
  link records = Ok chain →
  ∃ ix R d, linked records chain ix R ∧ index_records records = Ok ix
    ∧ children_of ix None = {[d]}
    ∧ walk (chain_fuel ix) ix [] ∅ (Some d) = Ok (c_records chain, R).
Proof.
  unfold link. intros H. apply bind_ok in H as (ix & Hix & H).
  pose proof (index_records_ok _ _ Hix) as I. split_if H. split_if H.
  apply negb_false_iff, Nat.eqb_eq in Hif0. destruct (single_root ix Hif0) as (d & Hd & Hh).
  rewrite Hh in H. apply bind_ok in H as ([ordered R] & Hwalk & H). split_if H. injection H as <-.
  apply negb_false_iff, Nat.eqb_eq in Hif1.
  assert (Hstart : walking ix [] ∅ (Some d)) by (eapply walking_start; [done|set_solver]).
  destruct (walk_ok _ _ _ _ _ _ _ _ I Hstart Hwalk) as [[W _ _] Hend].
  exists ix, R, d. split; [|done]. split; cbn; try done.
  - by apply (Hend d).
  - intros Hall p. rewrite Hall in Hif. cbn in Hif. rewrite existsb_false in Hif.
    unfold children_of. destruct (children ix !! p) as [s|] eqn:Es; cbn; [|rewrite size_empty; lia].
    apply Nat.ltb_ge, Hif. apply list_elem_of_fmap. exists (p, s). split; [done|].
    by apply elem_of_map_to_list.
Qed.

(** [link] depends on the set of records only. *)
Lemma index_records_ext l1 l2 ix :
  (∀ r, r ∈ l1 ↔ r ∈ l2) → index_records l1 = Ok ix → index_records l2 = Ok ix.
Proof.
  intros Hl H. pose proof (index_records_ok _ _ H) as I.
  destruct (index_total l2 [] (mk_Index ∅ ∅) index_empty_ok) as [ix2 H2].
  - intros r Hr. apply (io_check _ _ I). by apply Hl.
  - cbn. intros r1 r2 Hr1%Hl Hr2%Hl Hd. assert (Hb : ∀ r, r ∈ l1 →
      by_digest ix !! r_record_digest r = Some r) by (intros r Hr; by apply (io_digest _ _ I)).
    pose proof (Hb _ Hr1). pose proof (Hb _ Hr2). congruence.
  - change (index_records l2 = Ok ix2) in H2. rewrite H2. f_equal.
    eapply index_ok_unique; [|exact (index_records_ok _ _ H2)|exact I]. intros r. by rewrite Hl.
Qed.

Lemma forallb_ext_elem {A} (p : A → bool) l1 l2 :
  (∀ x, x ∈ l1 ↔ x ∈ l2) → forallb p l1 = forallb p l2.
Proof.
  intros Hl. apply eq_true_iff_eq. rewrite !forallb_true. by setoid_rewrite Hl.
Qed.

Lemma link_ext l1 l2 chain :
  (∀ r, r ∈ l1 ↔ r ∈ l2) → link l1 = Ok chain → link l2 = Ok chain.
Proof.
  intros Hl. unfold link. intros (ix & Hix & H)%bind_ok.
  rewrite (index_records_ext _ _ _ Hl Hix). cbn [mbind result_bind].
  rewrite (forallb_ext_elem _ _ _ Hl) in H. split_if H. split_if H.
  apply bind_ok in H as ([ordered R] & Hw & H). rewrite Hw. cbn [mbind result_bind].
  by split_if H.
Qed.

Lemma regular_link records : regular (link records) = true.
Proof.
  unfold link. apply regular_bind; [apply regular_index_records|intros ix Hix].
  pose proof (index_records_ok _ _ Hix) as I. destruct (_ && _); [done|].
  destruct (negb _) eqn:E; [done|]. apply negb_false_iff, Nat.eqb_eq in E.
  destruct (single_root ix E) as (d & Hd & ->). apply regular_bind.
  - eapply walk_regular; [done|eapply walking_start; [done|set_solver]|].
    unfold chain_fuel. cbn. lia.
  - intros [ordered R] _. by destruct (negb _).
Qed.

(** What the reader decodes. *)
Definition decoded (comments : list string) (repository : string) (pr : N)
    (records : list ReviewStateRecord) : Prop :=
  (∀ r, r ∈ records ↔ ∃ c, c ∈ comments ∧ parse_state_marker c = Ok (Some r))
  ∧ ∀ r, r ∈ records → r_repository r = repository ∧ r_pr r = pr.

Lemma decode_comment_ok repository pr seen c acc acc' :
  decoded seen repository pr acc → decode_comment repository pr acc c = Ok acc' →
  decoded (seen ++ [c]) repository pr acc'.
Proof.
  intros [H1 H2] H. unfold decode_comment in H. apply bind_ok in H as ([r|] & Hp & H).
  - split_if H. injection H as <-. apply orb_false_iff in Hif as [Hrep Hpr].
    apply negb_decide_false in Hrep. apply negb_false_iff, N.eqb_eq in Hpr. split.
    + intros x. rewrite elem_of_app, list_elem_of_singleton, H1. setoid_rewrite elem_of_app.
      setoid_rewrite list_elem_of_singleton. split.
      * intros [(c' & ? & ?)| ->]; eauto.
      * intros (c' & [?| ->] & Hc'); [left; by exists c'|right; congruence].
    + intros x [Hx| ->%list_elem_of_singleton]%elem_of_app; auto.
  - injection H as <-. split; [|done]. intros x. rewrite H1. setoid_rewrite elem_of_app.
    setoid_rewrite list_elem_of_singleton. split; [intros (c' & ? & ?); eauto|].
    intros (c' & [?| ->] & Hc'); [by exists c'|congruence].
Qed.

Lemma decode_comments_ok comments repository pr records :
  decode_comments comments repository pr = Ok records →
  decoded comments repository pr records.
Proof.
  intros H. refine (foldM_inv _ (λ seen acc, decoded seen repository pr acc) _ comments [] [] _ _ H).
  - intros seen acc c acc'. apply decode_comment_ok.
  - split.
    + intros r. split; [intros Hr; by apply not_elem_of_nil in Hr|].
      intros (c & Hc & _). by apply not_elem_of_nil in Hc.
    + intros r Hr. by apply not_elem_of_nil in Hr.
Qed.

(** Decoding succeeds exactly when every comment does. *)
Definition comment_decodes (repository : string) (pr : N) (c : string) : Prop :=
  ∃ o, parse_state_marker c = Ok o
    ∧ ∀ r, o = Some r → r_repository r = repository ∧ r_pr r = pr.

Lemma decode_comment_all repository pr acc c :
  is_ok (decode_comment repository pr acc c) = true ↔ comment_decodes repository pr c.
Proof.
  unfold decode_comment, comment_decodes. split.
  - destruct (parse_state_marker c) as [[r|]|e]; cbn; try done.
    + destruct (_ || _) eqn:E; [done|]. intros _. exists (Some r). split; [done|].
      intros r' [= <-]. apply orb_false_iff in E as [E1%negb_decide_false E2].
      by apply negb_false_iff, N.eqb_eq in E2.
    + intros _. exists None. done.
  - intros (o & -> & H). cbn. destruct o as [r|]; [|done].
    destruct (H r eq_refl) as [-> ->]. by rewrite bool_decide_true, N.eqb_refl.
Qed.

Lemma decode_comments_total comments repository pr acc :
  is_ok (foldM (decode_comment repository pr) acc comments) = true
  ↔ ∀ c, c ∈ comments → comment_decodes repository pr c.
Proof.
  revert acc. induction comments as [|c l IH]; intros acc; cbn.
  - split; [|done]. intros _ c Hc. by apply not_elem_of_nil in Hc.
  - destruct (decode_comment repository pr acc c) as [acc'|e] eqn:E; cbn.
    + rewrite IH. split; intros H x; [|intros; apply H; by right].
      intros [->|Hx]%elem_of_cons; [|by apply H].
      by apply (decode_comment_all _ _ acc); rewrite E.
    + split; [done|]. intros H. specialize (H c (list_elem_of_here _ _)).
      by apply (decode_comment_all _ _ acc) in H; rewrite E in H.
Qed.

(** The inverse of [parse_chain]. *)
Lemma parse_chain_inv comments repository pr chain :
  parse_chain comments repository pr = Ok chain →
  ∃ records, decode_comments comments repository pr = Ok records
    ∧ ((records = [] ∧ chain = mk_ReviewStateChain [] None [])
       ∨ (records ≠ [] ∧ link records = Ok chain)).
Proof.
  unfold parse_chain. intros (records & Hd & H)%bind_ok. exists records. split; [done|].
  destruct records as [|r l]; [left; split; [done|]; by injection H as <-|by right].
Qed.
End walk.
