(* ===== verification/LedgerFacts.v ===== *)
(** * Theorems on the ledger

    What [parse_chain] promises of the chain it returns, and what a record appended under its tip
    does to it. *)
From S2P Require Import Prelude RStr Collections Error Types Markers ReviewLoop Identity Record Handoff.
From S2P Require Import Correction Supersession Acceptance Chain World ReviewLoopFacts ReceiptFacts.
From S2P Require Import ChainFacts.
From stdpp Require Import options.

(** ** Theorems on the ledger

    What [parse_chain] promises of the chain it returns: it always ends in a value or a
    typed error, its records are checked and linked, nothing decoded is lost, the order in
    which the provider lists the comments does not matter, and one reviewer session owns
    every assignment generation. *)

Section ledger.
Context `{HS : !Hasher, LS : !LedgerSerde, JT : !JsonText, UP : !UrlParse,
          SP : !SecretPattern, TP : !TimestampParse}.
Implicit Types (chain : ReviewStateChain).

(** ** Consequences of a successful parse *)

(** A parsed chain comes from a walk over the index of its decoded records. *)
Record parsed (comments : list string) (repository : string) (pr : N) chain
    (records : list ReviewStateRecord) (ix : Index) (R : gset string) : Prop := {
  pa_decoded : decoded comments repository pr records;
  pa_index : index_ok records ix;
  pa_walking : walking ix (c_records chain) R None;
  pa_size : length (c_records chain) + size R = size (by_digest ix);
  pa_tip : c_tip_digest chain = r_record_digest <$> last (c_records chain);
  pa_ignored : c_ignored_stale_records chain = sorted_elements R;
  pa_no_fork : (∀ r, r ∈ records → r_assignment_generation r = None) → R = ∅;
}.

Lemma parse_chain_parsed comments repository pr chain :
  parse_chain comments repository pr = Ok chain →
  ∃ records ix R, parsed comments repository pr chain records ix R.
Proof.
  intros H. destruct (parse_chain_inv _ _ _ _ H) as (records & Hd & Hcase).
  apply decode_comments_ok in Hd. exists records. destruct Hcase as [[-> ->]|[_ Hl]].
  - exists (mk_Index ∅ ∅), ∅. split; [done|apply index_empty_ok|split; cbn|done..].
    + intros i d Hi. by rewrite lookup_nil in Hi.
    + intros i r Hi. by rewrite lookup_nil in Hi.
    + intros k Hk. set_solver.
  - destruct (link_inv _ _ Hl) as (ix & R & d & [I W E S T G F] & _ & _ & Hwalk).
    exists ix, R. split; try done. intros Hall. eapply walk_no_fork; [|exact Hwalk].
    apply F, forallb_true. intros r Hr. by rewrite Hall.
Qed.

Section facts.
#[local] Set Default Proof Using "All".
Context (comments : list string) (repository : string) (pr : N) chain
  (records : list ReviewStateRecord) (ix : Index) (R : gset string)
  (P : parsed comments repository pr chain records ix R).

Lemma record_indexed i r :
  c_records chain !! i = Some r → by_digest ix !! r_record_digest r = Some r.
Proof. intros Hi. by apply (wk_ordered _ _ _ _ (pa_walking _ _ _ _ _ _ _ P) i r). Qed.

Lemma record_next i r :
  c_records chain !! i = Some r → check_next (take i (c_records chain)) r = Ok tt.
Proof. intros Hi. by apply (wk_ordered _ _ _ _ (pa_walking _ _ _ _ _ _ _ P) i r). Qed.

Lemma record_decoded i r : c_records chain !! i = Some r → r ∈ records.
Proof. intros Hi%record_indexed. by apply (io_digest _ _ (pa_index _ _ _ _ _ _ _ P)) in Hi as [? _]. Qed.

Lemma record_checked i r : c_records chain !! i = Some r → check_record r = Ok tt.
Proof. intros Hi%record_decoded. by apply (io_check _ _ (pa_index _ _ _ _ _ _ _ P)). Qed.

Lemma path_records l : path_of l None = r_record_digest <$> l.
Proof using Type. unfold path_of. cbn. by rewrite List.app_nil_r. Qed.

Lemma digests_NoDup : NoDup (r_record_digest <$> c_records chain).
Proof. rewrite <- path_records. eapply path_ok_NoDup, (wk_path _ _ _ _ (pa_walking _ _ _ _ _ _ _ P)). Qed.

Lemma record_previous i r :
  c_records chain !! i = Some r →
  r_previous_digest r = before (r_record_digest <$> c_records chain) i.
Proof.
  intros Hi. pose proof (wk_path _ _ _ _ (pa_walking _ _ _ _ _ _ _ P)) as Hp.
  rewrite path_records in Hp. destruct (Hp i (r_record_digest r)) as (r' & Hr' & Hprev).
  { by rewrite list_lookup_fmap, Hi. }
  rewrite (record_indexed _ _ Hi) in Hr'. by injection Hr' as <-.
Qed.
End facts.

#[local] Set Default Proof Using "Type".

Lemma check_digest_ok r :
  check_digest r = Ok tt → r_schema r = REVIEW_STATE_SCHEMA ∧ compute_digest r = Ok (r_record_digest r).
Proof.
  unfold check_digest. intros H. split_if H. apply bind_ok in H as (d & Hd & H). split_if H.
  apply negb_decide_false in Hif, Hif0. by subst.
Qed.

Lemma check_record_ok r :
  check_record r = Ok tt →
  r_schema r = REVIEW_STATE_SCHEMA ∧ compute_digest r = Ok (r_record_digest r)
  ∧ (∀ h, payload_handoff (r_payload r) = Some h → validate_handoff h = Ok tt)
  ∧ (∀ s, record_state r = Some s → state_valid s).
Proof.
  unfold check_record. intros H. apply bind_ok in H as ([] & Hd & H).
  apply bind_ok in H as ([] & Hh & H). apply bind_ok in H as ([] & _ & H).
  apply check_digest_ok in Hd as [? ?]. do 2 (split; [done|]). split.
  - intros h Eh. by rewrite Eh in Hh.
  - intros s Es. unfold check_loop_state in H. rewrite Es in H.
    apply bind_ok in H as ([] & Hs & _). by apply validate_state_ok.
Qed.

Lemma check_next_ok ordered r :
  check_next ordered r = Ok tt →
  r_generation r = N.of_nat (length ordered) ∧ check_ownership ordered r = Ok tt
  ∧ validate_correction_record ordered r = Ok tt ∧ validate_supersession_record ordered r = Ok tt
  ∧ validate_acceptance_record ordered r = Ok tt.
Proof.
  unfold check_next. intros H. split_if H. apply negb_false_iff, N.eqb_eq in Hif.
  apply bind_ok in H as ([] & Ho & H). apply bind_ok in H as ([] & Hc & H).
  by apply bind_ok in H as ([] & Hs & H).
Qed.

Lemma latest_handoff_snoc l r :
  latest_handoff (l ++ [r])
  = match payload_handoff (r_payload r) with Some h => Some h | None => latest_handoff l end.
Proof. unfold latest_handoff. by rewrite rev_unit. Qed.

(** What the ownership check of one record establishes. *)
Record owned_by (h : ReviewHandoff) (r : ReviewStateRecord) : Prop := {
  ob_generation : r_assignment_generation r = Some (assignment_generation h);
  ob_active : surrendered h = false ∧ returned_reason h = None;
}.

Record succeeds (old h : ReviewHandoff) : Prop := {
  su_generation : (assignment_generation h = assignment_generation old
    ∧ surrendered h = true ∧ surrendered old = false
    ∧ reviewer_digest h = reviewer_digest old ∧ approval_policy h = approval_policy old
    ∧ coordinator_digest h = coordinator_digest old)
    ∨ assignment_generation h = (assignment_generation old + 1)%N;
  su_coordinator : coordinator_digest h ≠ coordinator_digest old →
    valid_coordinator_transfer old h = true;
  su_release : assignment_generation h = (assignment_generation old + 1)%N →
    is_Some (returned_reason h) ∨ surrendered old = true ∨ is_Some (returned_reason old)
    ∨ valid_scope_refresh old h = true;
}.

Lemma transfer_generation old h :
  valid_coordinator_transfer old h = true →
  assignment_generation h = (assignment_generation old + 1)%N.
Proof.
  unfold valid_coordinator_transfer. destruct (coordinator_transfer h); cbn; [|done].
  intros H. repeat (apply andb_true_iff in H as [H ?]).
  match goal with E : bool_decide (Some _ = _) = true |- _ =>
    apply bool_decide_eq_true in E; symmetry in E; apply checked_add_some in E as [-> _] end.
  done.
Qed.

Lemma is_none_false {A} (o : option A) : is_none o = false → is_Some o.
Proof. destruct o; [by eexists|done]. Qed.

Lemma ownership_step_ok old h g :
  ownership_step old h g = Ok tt → succeeds old h ∧ g = Some (assignment_generation h).
Proof.
  unfold ownership_step. intros H. apply bind_ok in H as (n & Hn%ok_or_ok & H).
  apply checked_add_some in Hn as [-> _]. cbv zeta in H. split_if H. clear H.
  apply orb_false_iff in Hif as [Hif Hg]. apply negb_decide_false in Hg.
  apply orb_false_iff in Hif as [Hif Hnext]. apply orb_false_iff in Hif as [Hif Hsame].
  apply orb_false_iff in Hif as [Hco Hgen]. split; [|done].
  assert (Hc : coordinator_digest h ≠ coordinator_digest old →
    valid_coordinator_transfer old h = true).
  { intros Hne. rewrite bool_decide_false in Hco by done. cbn in Hco.
    by apply negb_false_iff. }
  assert (Htr : valid_coordinator_transfer old h = true →
    assignment_generation h = assignment_generation old → False).
  { intros Ht%transfer_generation Ha. lia. }
  destruct (N.eqb_spec (assignment_generation h) (assignment_generation old)) as [Ea|Ea].
  - cbn in Hsame. repeat (apply orb_false_iff in Hsame as [Hsame ?]). bool_facts.
    split; [|done|lia]. left. repeat (split; [done|]).
    destruct (decide (coordinator_digest h = coordinator_digest old)); [done|].
    exfalso. by apply Htr; [apply Hc|].
  - cbn in Hgen. apply negb_false_iff in Hgen. rewrite Hgen in Hnext. cbn in Hnext.
    apply N.eqb_eq in Hgen. split; [by right|done|]. intros _.
    destruct (returned_reason h); [left; by eexists|]. destruct (surrendered old); [by auto|].
    destruct (returned_reason old); [right; right; left; by eexists|]. cbn in Hnext.
    apply negb_false_iff in Hnext. auto.
Qed.

Lemma check_ownership_ok ordered r :
  check_ownership ordered r = Ok tt →
  match payload_handoff (r_payload r), latest_handoff ordered with
  | Some h, Some old =>
      succeeds old h ∧ r_assignment_generation r = Some (assignment_generation h)
  | Some h, None => assignment_generation h = 1%N ∧ r_assignment_generation r = Some 1%N
      ∧ surrendered h = false ∧ returned_reason h = None ∧ coordinator_transfer h = None
  | None, Some h => owned_by h r
  | None, None => r_assignment_generation r = None
  end.
Proof.
  unfold check_ownership. destruct (payload_handoff (r_payload r)) as [h|],
    (latest_handoff ordered) as [old|]; intros H.
  - by apply ownership_step_ok.
  - split_if H. repeat (apply orb_false_iff in Hif as [Hif ?]). bool_facts.
    destruct (returned_reason h); [done|]. by destruct (coordinator_transfer h).
  - split_if H. repeat (apply orb_false_iff in Hif as [Hif ?]). bool_facts.
    split; [done|]. by destruct (returned_reason old).
  - split_if H. by destruct (r_assignment_generation r).
Qed.

(** Along a checked list a later generation is larger, or has the same owner. *)
Lemma ownership_monotone l i j h :
  (∀ k r, l !! k = Some r → check_next (take k l) r = Ok tt) → i ≤ j →
  latest_handoff (take i l) = Some h →
  ∃ h', latest_handoff (take j l) = Some h'
    ∧ ((assignment_generation h < assignment_generation h')%N
       ∨ (assignment_generation h = assignment_generation h'
          ∧ reviewer_digest h = reviewer_digest h' ∧ coordinator_digest h = coordinator_digest h'
          ∧ approval_policy h = approval_policy h')).
Proof.
  intros Hl Hij Hi. induction Hij as [|j Hij (h' & Hh' & IH)].
  - exists h. split; [done|]. by right.
  - destruct (l !! j) as [r|] eqn:Er.
    + rewrite (take_S_r _ _ _ Er), latest_handoff_snoc.
      destruct (check_next_ok _ _ (Hl j r Er)) as (_ & Ho%check_ownership_ok & _).
      rewrite Hh' in *. destruct (payload_handoff (r_payload r)) as [h2|]; [|by eauto].
      destruct Ho as [[Hs _ _] _]. exists h2. split; [done|].
      destruct Hs as [(?&?&?&?&?&?)| ?]; [|left; destruct IH as [?|[? _]]; lia].
      destruct IH as [?|(?&?&?&?)]; [left; lia|]. right. repeat split; congruence.
    + apply lookup_ge_None in Er. rewrite take_ge in Hh' by lia. rewrite take_ge by lia. eauto.
Qed.

(** The generation a record carries is that of the handoff in force after it. *)
Lemma record_generation l i r g :
  check_next (take i l) r = Ok tt → l !! i = Some r → r_assignment_generation r = Some g →
  ∃ h, latest_handoff (take (S i) l) = Some h ∧ assignment_generation h = g.
Proof.
  intros Hc Hi Hg. destruct (check_next_ok _ _ Hc) as (_ & Ho%check_ownership_ok & _).
  rewrite (take_S_r _ _ _ Hi), latest_handoff_snoc.
  destruct (payload_handoff (r_payload r)) as [h|], (latest_handoff (take i l)) as [old|].
  - destruct Ho as [_ Ho]. exists h. split; [done|congruence].
  - destruct Ho as (Ha & Ho & _). exists h. split; [done|congruence].
  - destruct Ho as [Ho _]. exists old. split; [done|congruence].
  - congruence.
Qed.

(** ** Theorems *)

(** Reading a ledger never panics and never loops: whatever the comments hold,
    [parse_chain] ends with a chain or a typed error, though it indexes its maps, walks a
    graph read from untrusted text and explores subtrees with a work list. *)
Theorem parse_chain_never_panics comments repository pr :
  regular (parse_chain comments repository pr) = true.
Proof.
  unfold parse_chain. apply regular_bind; [apply regular_decode_comments|intros records _].
  destruct records; [done|]. apply regular_link.
Qed.

(** C4: A parsed chain is well formed: every record was read from a comment, belongs to the
    pull request, carries the digest of its own contents, stands at its generation and names
    the record before it; digests are distinct, the tip is the last one, and handoffs and
    loop states are valid. *)
Theorem chain_well_formed comments repository pr chain :
  parse_chain comments repository pr = Ok chain →
  NoDup (r_record_digest <$> c_records chain)
  ∧ c_tip_digest chain = r_record_digest <$> last (c_records chain)
  ∧ ∀ i r, c_records chain !! i = Some r →
      (∃ c, c ∈ comments ∧ parse_state_marker c = Ok (Some r))
      ∧ r_repository r = repository ∧ r_pr r = pr ∧ r_schema r = REVIEW_STATE_SCHEMA
      ∧ compute_digest r = Ok (r_record_digest r) ∧ r_generation r = N.of_nat i
      ∧ r_previous_digest r
        = match i with 0 => None | S j => r_record_digest <$> (c_records chain !! j) end
      ∧ (∀ h, payload_handoff (r_payload r) = Some h → validate_handoff h = Ok tt)
      ∧ (∀ s, record_state r = Some s → state_valid s).
Proof.
  intros (records & ix & R & P)%parse_chain_parsed.
  split; [by eapply digests_NoDup|]. split; [by eapply pa_tip|].
  intros i r Hi. destruct (pa_decoded _ _ _ _ _ _ _ P) as [D1 D2].
  pose proof (record_decoded _ _ _ _ _ _ _ P _ _ Hi) as Hin.
  destruct (check_record_ok _ (record_checked _ _ _ _ _ _ _ P _ _ Hi)) as (? & ? & ? & ?).
  destruct (check_next_ok _ _ (record_next _ _ _ _ _ _ _ P _ _ Hi)) as (Hg & _).
  split; [by apply D1|]. destruct (D2 r Hin). do 4 (split; [done|]). split.
  - rewrite Hg, length_take. apply lookup_lt_Some in Hi. f_equal. lia.
  - split; [|done]. rewrite (record_previous _ _ _ _ _ _ _ P _ _ Hi).
    destruct i; [done|]. cbn. by rewrite list_lookup_fmap.
Qed.

(** Nothing decoded is lost and nothing is counted twice: the record of every comment is
    in the chain or its digest is reported as ignored, never both, and only digests of
    decoded records are reported. *)
Theorem chain_partitions_records comments repository pr chain :
  parse_chain comments repository pr = Ok chain →
  (∀ c r, c ∈ comments → parse_state_marker c = Ok (Some r) →
     (r ∈ c_records chain ∧ r_record_digest r ∉ c_ignored_stale_records chain)
     ∨ ((r ∉ c_records chain) ∧ r_record_digest r ∈ c_ignored_stale_records chain))
  ∧ ∀ d, d ∈ c_ignored_stale_records chain →
      ∃ c r, c ∈ comments ∧ parse_state_marker c = Ok (Some r) ∧ r_record_digest r = d.
Proof.
  intros (records & ix & R & P)%parse_chain_parsed.
  pose proof P as [[D1 D2] I W Hsz _ Hig _].
  rewrite Hig. setoid_rewrite elem_of_sorted_elements.
  assert (HR : ∀ d, d ∈ R → ∃ r, by_digest ix !! d = Some r).
  { intros d Hd. destruct (wk_ignored _ _ _ _ W d Hd) as (rk & p & Hrk & _). by exists rk. }
  assert (Hdis : ∀ r, r ∈ c_records chain → r_record_digest r ∉ R).
  { intros r Hr. eapply (path_not_ignored _ _ _ _ _ (wk_path _ _ _ _ W) (wk_ignored _ _ _ _ W)).
    rewrite path_records. by apply list_elem_of_fmap_2. }
  assert (Hdom : dom (by_digest ix) = list_to_set (r_record_digest <$> c_records chain) ∪ R).
  { symmetry. apply leibniz_equiv, set_subseteq_size_equiv.
    - intros d [Hd%elem_of_list_to_set|Hd%HR]%elem_of_union; apply elem_of_dom; [|done].
      apply list_elem_of_fmap in Hd as (r & -> & [i Hi]%list_elem_of_lookup).
      exists r. by eapply record_indexed.
    - rewrite size_dom, size_union.
      + rewrite size_list_to_set by by eapply digests_NoDup. rewrite length_fmap. lia.
      + intros d Hd%elem_of_list_to_set Hd2.
        apply list_elem_of_fmap in Hd as (r & -> & Hr). by apply (Hdis r). }
  assert (Huniq : ∀ r r', r ∈ records → r' ∈ c_records chain →
    r_record_digest r = r_record_digest r' → r = r').
  { intros r r' Hr [i Hi]%list_elem_of_lookup Hd. apply (record_indexed _ _ _ _ _ _ _ P) in Hi.
    assert (H1 : by_digest ix !! r_record_digest r' = Some r) by by apply (io_digest _ _ I).
    congruence. }
  split.
  - intros c r Hc Hr. assert (Hin : r ∈ records) by (apply D1; eauto).
    assert (Hd : r_record_digest r ∈ dom (by_digest ix)).
    { apply elem_of_dom. exists r. by apply (io_digest _ _ I). }
    rewrite Hdom in Hd. apply elem_of_union in Hd as [Hd%elem_of_list_to_set|Hd].
    + apply list_elem_of_fmap in Hd as (r' & He & Hr'). left.
      rewrite (Huniq r r' Hin Hr' He). auto.
    + right. split; [|done]. intros Hr'. by apply (Hdis r).
  - intros d [r Hr]%HR. apply (io_digest _ _ I) in Hr as [Hin <-]. apply D1 in Hin as (c & ? & ?).
    by exists c, r.
Qed.


(** C33: The provider may list the comments in any order and any number of times: two lists
    with the same comments give the same chain. *)
Theorem comment_order_irrelevant comments1 comments2 repository pr chain :
  (∀ c, c ∈ comments1 ↔ c ∈ comments2) →
  parse_chain comments1 repository pr = Ok chain →
  parse_chain comments2 repository pr = Ok chain.
Proof.
  intros Heq H. destruct (parse_chain_inv _ _ _ _ H) as (l1 & Hd1 & Hcase).
  assert (Hall : ∀ c, c ∈ comments1 → comment_decodes repository pr c).
  { apply (decode_comments_total _ _ _ []). unfold decode_comments in Hd1. by rewrite Hd1. }
  destruct (decode_comments comments2 repository pr) as [l2|e] eqn:Hd2.
  2:{ exfalso. assert (Ht : is_ok (decode_comments comments2 repository pr) = true).
      { apply decode_comments_total. intros c Hc. by apply Hall, Heq. }
      by rewrite Hd2 in Ht. }
  apply decode_comments_ok in Hd1 as [A1 _]. pose proof (decode_comments_ok _ _ _ _ Hd2) as [A2 _].
  assert (Hl : ∀ r, r ∈ l1 ↔ r ∈ l2).
  { intros r. rewrite A1, A2. by setoid_rewrite Heq. }
  unfold parse_chain. rewrite Hd2. cbn [mbind result_bind].
  destruct Hcase as [[-> ->]|[Hne Hlink]].
  - destruct l2 as [|r l2]; [done|]. exfalso.
    assert (Hr : r ∈ @nil ReviewStateRecord) by (apply Hl; by left). by apply not_elem_of_nil in Hr.
  - assert (link l2 = Ok chain) as Hl2; [|by destruct l2; [destruct l1 as [|r l1]; [done|];
      exfalso; assert (Hr : r ∈ @nil ReviewStateRecord) by (apply Hl; by left);
      by apply not_elem_of_nil in Hr|]].
    by eapply link_ext.
Qed.

(** C31: One owner per generation: any two records of the chain that carry the same assignment
    generation were written under handoffs of that generation with the same reviewer, the
    same coordinator and the same approval policy. *)
Theorem generation_has_one_owner comments repository pr chain i j r1 r2 g :
  parse_chain comments repository pr = Ok chain →
  c_records chain !! i = Some r1 → c_records chain !! j = Some r2 →
  r_assignment_generation r1 = Some g → r_assignment_generation r2 = Some g →
  ∃ h1 h2, latest_handoff (take (S i) (c_records chain)) = Some h1
    ∧ latest_handoff (take (S j) (c_records chain)) = Some h2
    ∧ assignment_generation h1 = g ∧ assignment_generation h2 = g
    ∧ reviewer_digest h1 = reviewer_digest h2 ∧ coordinator_digest h1 = coordinator_digest h2
    ∧ approval_policy h1 = approval_policy h2.
Proof.
  intros (records & ix & R & P)%parse_chain_parsed H1 H2 G1 G2.
  pose proof (record_next _ _ _ _ _ _ _ P) as Hnext.
  destruct (record_generation _ _ _ _ (Hnext i r1 H1) H1 G1) as (h1 & L1 & A1).
  destruct (record_generation _ _ _ _ (Hnext j r2 H2) H2 G2) as (h2 & L2 & A2).
  exists h1, h2. do 4 (split; [done|]).
  destruct (Nat.le_ge_cases i j) as [Hij|Hij].
  - destruct (ownership_monotone _ (S i) (S j) h1 Hnext ltac:(lia) L1) as (h & Hh & Hm).
    rewrite L2 in Hh. injection Hh as <-. destruct Hm as [?|(_ & ? & ? & ?)]; [lia|done].
  - destruct (ownership_monotone _ (S j) (S i) h2 Hnext ltac:(lia) L2) as (h & Hh & Hm).
    rewrite L1 in Hh. injection Hh as <-. destruct Hm as [?|(_ & ? & ? & ?)]; [lia|done].
Qed.
End ledger.

(** ** The theorems at a concrete ledger

    A reviewer is assigned and observes; then the coordinator recovers ownership while the
    reviewer, unaware, appends once more: the recovery wins and the late record is ignored. *)
Module LedgerWitness.
#[local] Existing Instance demo_hasher.
#[local] Existing Instance demo_json.
#[local] Existing Instance demo_url.
#[local] Existing Instance demo_secrets.
#[local] Existing Instance demo_time.
#[local] Instance serde0 : LedgerSerde := demo_serde [].

Definition handoff (generation : N) (reason : option string) : ReviewHandoff :=
  {| approval_policy := SourcePass; coordinator_digest := demo_digest 100;
     reviewer_digest := demo_digest 101; review_author := "reviewer";
     base_sha := demo_sha "c"; assigned_head := demo_sha "d"; returned_reason := reason;
     assignment_generation := generation; surrendered := false; coordinator_transfer := None;
     base_ref := "main" |}.

Definition blank : ReviewStateRecord := demo_record 0 "h1" (P_ReviewLoop Witness.nothing).
Definition make (head : string) (n : N) (previous : option ReviewStateRecord)
    (payload : ReviewStatePayload) (generation : N) : ReviewStateRecord :=
  unwrap_or blank
    (r ← ReviewStateRecord_new "o/r" 1 head n (r_record_digest <$> previous) payload;
     with_assignment_generation r (Some generation)).

Definition r0 := make "h1" 0 None (P_ReviewHandoff (handoff 1 None)) 1.
Definition r1 := make "h1" 1 (Some r0) (P_ReviewLoop Witness.s1) 1.
Definition late := make "h2" 2 (Some r1) (P_ReviewLoop Witness.s2) 1.
Definition recovered := make "h1" 2 (Some r1)
  (P_ReviewHandoff (handoff 2 (Some "reviewer-unreachable"))) 2.

#[local] Instance serde : LedgerSerde := demo_serde [r0; r1; late; recovered].
Definition comment (r : ReviewStateRecord) : string :=
  "Review ledger" +:+ nl +:+ unwrap_or EmptyString (marker r).
Definition comments : list string :=
  [comment r0; "a remark"; comment late; comment r1; comment recovered].
Definition parsed : exec ReviewStateChain := parse_chain comments "o/r" 1.
Definition chain : ReviewStateChain := unwrap_or (mk_ReviewStateChain [] None []) parsed.

Lemma parsed_ok : parse_chain comments "o/r" 1 = Ok chain.
Proof. evaluates. Qed.
End LedgerWitness.

Section ledger_witnesses.
#[local] Existing Instance demo_hasher.
#[local] Existing Instance demo_json.
#[local] Existing Instance demo_url.
#[local] Existing Instance demo_secrets.
#[local] Existing Instance demo_time.
#[local] Existing Instance LedgerWitness.serde.

Lemma chain_well_formed_witness :
  r_generation LedgerWitness.recovered = 2%N
  ∧ NoDup (r_record_digest <$> c_records LedgerWitness.chain).
Proof.
  destruct (chain_well_formed LedgerWitness.comments "o/r" 1 LedgerWitness.chain
              LedgerWitness.parsed_ok) as (Hnd & _ & H).
  split; [|exact Hnd].
  destruct (H 2 LedgerWitness.recovered) as (_ & _ & _ & _ & _ & Hg & _); [evaluates|exact Hg].
Defined.

Lemma chain_partitions_records_witness :
  (LedgerWitness.late ∉ c_records LedgerWitness.chain)
  ∧ r_record_digest LedgerWitness.late ∈ c_ignored_stale_records LedgerWitness.chain.
Proof.
  destruct (proj1 (chain_partitions_records LedgerWitness.comments "o/r" 1 LedgerWitness.chain
              LedgerWitness.parsed_ok) (LedgerWitness.comment LedgerWitness.late)
              LedgerWitness.late) as [[_ H]|H].
  - evaluates.
  - evaluates.
  - exfalso. apply H. evaluates.
  - exact H.
Defined.


Lemma comment_order_irrelevant_witness :
  parse_chain (rev LedgerWitness.comments) "o/r" 1 = Ok LedgerWitness.chain.
Proof.
  refine (comment_order_irrelevant LedgerWitness.comments _ "o/r" 1 LedgerWitness.chain _
            LedgerWitness.parsed_ok).
  intros c. symmetry. apply elem_of_rev.
Defined.

Lemma generation_has_one_owner_witness :
  ∃ h1 h2, reviewer_digest h1 = reviewer_digest h2 ∧ assignment_generation h1 = 1%N
    ∧ assignment_generation h2 = 1%N.
Proof.
  destruct (generation_has_one_owner LedgerWitness.comments "o/r" 1 LedgerWitness.chain 0 1
              LedgerWitness.r0 LedgerWitness.r1 1 LedgerWitness.parsed_ok)
    as (h1 & h2 & _ & _ & H1 & H2 & Hr & _); try evaluates.
  exists h1, h2. exact (conj Hr (conj H1 H2)).
Defined.
End ledger_witnesses.

(** ** Extending a chain

    A record appended under the tip of a parsed chain extends the parsed chain: the walk
    over the larger index follows the old one step by step and then takes the new record. *)
Section extend.
Context `{HS : !Hasher, LS : !LedgerSerde, JT : !JsonText, UP : !UrlParse,
          SP : !SecretPattern, TP : !TimestampParse}.
Implicit Types (ix : Index) (ordered : list ReviewStateRecord) (ignored R : gset string).

(** [ix'] is [ix] with the leaf [r] below the digest [t]. *)
Record extends ix ix' (r : ReviewStateRecord) (parent : option string) : Prop := {
  ex_fresh : by_digest ix !! r_record_digest r = None;
  ex_new : by_digest ix' !! r_record_digest r = Some r;
  ex_lookup : ∀ k, k ≠ r_record_digest r → by_digest ix' !! k = by_digest ix !! k;
  ex_children : ∀ p, p ≠ parent → children_of ix' p = children_of ix p;
  ex_parent : children_of ix' parent = {[r_record_digest r]} ∪ children_of ix parent;
  ex_leaf : children_of ix' (Some (r_record_digest r)) = ∅;
  ex_size : size (by_digest ix') = S (size (by_digest ix));
  ex_map : children ix' = <[parent := {[r_record_digest r]} ∪ children_of ix parent]> (children ix);
}.

Lemma index_record_extends ix ix' r :
  by_digest ix !! r_record_digest r = None →
  children_of ix (Some (r_record_digest r)) = ∅ →
  r_previous_digest r ≠ Some (r_record_digest r) →
  index_record ix r = Ok ix' → extends ix ix' r (r_previous_digest r).
Proof.
  intros Hf Hleaf Hself H. unfold index_record in H. apply bind_ok in H as (u & _ & H).
  rewrite Hf in H. injection H as <-. split; cbn.
  - done.
  - by rewrite lookup_insert_eq.
  - intros k Hk. by rewrite lookup_insert_ne.
  - intros p Hp. rewrite children_of_insert. by rewrite decide_False.
  - rewrite children_of_insert. by rewrite decide_True.
  - rewrite children_of_insert. by rewrite decide_False.
  - by rewrite map_size_insert_None.
  - done.
Qed.

Lemma choose_next_leaf ix0 ordered ignored d :
  children_of ix0 (Some d) = ∅ → choose_next ix0 ordered ignored d = Ok (None, ignored).
Proof.
  intros H. unfold choose_next. rewrite H.
  destruct (sorted_elements ∅) as [|x l] eqn:E; [done|].
  assert (Hx : x ∈ sorted_elements ∅) by (rewrite E; by left).
  apply elem_of_sorted_elements in Hx. set_solver.
Qed.

Lemma choose_next_single ix0 ordered ignored d c :
  children_of ix0 (Some d) = {[c]} → choose_next ix0 ordered ignored d = Ok (Some c, ignored).
Proof.
  intros H. unfold choose_next. rewrite H.
  assert (sorted_elements {[c]} = [c]) as ->; [|done].
  pose proof (sorted_elements_permutation {[c]}) as Hp. rewrite elements_singleton in Hp.
  by apply Permutation_singleton_r in Hp.
Qed.

(** ** The walk over the larger index *)
Section transfer.
Context (ix ix' : Index) (r : ReviewStateRecord) (t : string).
Context (records : list ReviewStateRecord) (I : index_ok records ix).
Context (Ex : extends ix ix' r (Some t)).
#[local] Set Default Proof Using "All".

Lemma ignore_subtrees_transfer fuel ignored stack R :
  ignore_subtrees fuel ix ignored stack = Ok R → t ∉ R →
  ignore_subtrees fuel ix' ignored stack = Ok R.
Proof.
  revert ignored stack. induction fuel as [|fuel IH]; intros ignored stack H Ht; cbn in *; [done|].
  destruct stack as [|k stack]; [done|].
  assert (Hk : k ∈ R).
  { apply (is_stack ix ignored (k :: stack)); [|by left].
    apply (ignore_subtrees_spec (S fuel)). exact H. }
  destruct (bool_decide _); [by apply IH|]. rewrite (ex_children _ _ _ _ Ex) by congruence.
  by apply IH.
Qed.

Lemma known_lookup k : is_Some (by_digest ix !! k) → by_digest ix' !! k = by_digest ix !! k.
Proof.
  intros [x Hx]. apply (ex_lookup _ _ _ _ Ex). intros ->.
  by rewrite (ex_fresh _ _ _ _ Ex) in Hx.
Qed.

Lemma filter_keys_transfer p ks :
  (∀ k, k ∈ ks → is_Some (by_digest ix !! k)) → filter_keys ix' p ks = filter_keys ix p ks.
Proof.
  intros Hks. rewrite !filter_keys_total; [|done|intros k Hk; rewrite known_lookup; auto].
  f_equal. induction ks as [|k ks IH]; cbn; [done|].
  rewrite known_lookup by (apply Hks; by left). rewrite IH by (intros; apply Hks; by right). done.
Qed.

Lemma kids_known p k : k ∈ children_of ix p → is_Some (by_digest ix !! k).
Proof. intros (x & Hx & _)%(io_children _ _ I). by eexists. Qed.

Lemma resolve_fork_transfer ordered ignored ks winner R :
  (∀ k, k ∈ ks → is_Some (by_digest ix !! k)) →
  resolve_fork ix ordered ignored ks = Ok (winner, R) → t ∉ R →
  resolve_fork ix' ordered ignored ks = Ok (winner, R).
Proof.
  intros Hks H Ht. unfold resolve_fork in *. apply bind_ok in H as (a & -> & H).
  cbn [mbind result_bind]. apply bind_ok in H as (n & -> & H). cbn [mbind result_bind].
  rewrite filter_keys_transfer by done. apply bind_ok in H as (ws & -> & H). cbn [mbind result_bind].
  destruct ws as [|w [|]]; [done| |done].
  rewrite filter_keys_transfer by (intros k [Hk _]%elem_of_list_filter; auto).
  apply bind_ok in H as (ss & -> & H). cbn [mbind result_bind]. split_if H.
  apply bind_ok in H as (R' & HR & [= <- <-]).
  apply ignore_subtrees_transfer in HR; [|done].
  assert (Hfuel : ∃ extra, subtree_fuel ix' = subtree_fuel ix + extra).
  { unfold subtree_fuel. rewrite (ex_size _ _ _ _ Ex). eexists (_ - _).
    rewrite Nat.add_comm, Nat.sub_add; [done|]. cbv zeta. nia. }
  destruct Hfuel as [extra ->]. by rewrite (ignore_subtrees_more _ extra _ _ _ _ HR).
Qed.

Lemma choose_next_transfer ordered ignored d next R :
  d ≠ t → choose_next ix ordered ignored d = Ok (next, R) → t ∉ R →
  choose_next ix' ordered ignored d = Ok (next, R).
Proof.
  intros Hd H Ht. unfold choose_next in *. rewrite (ex_children _ _ _ _ Ex) by congruence.
  destruct (sorted_elements (children_of ix (Some d))) as [|x [|y l]] eqn:Es; [done..|].
  rewrite <- Es in *. apply bind_ok in H as ([w R'] & Hf & [= <- <-]).
  rewrite (resolve_fork_transfer _ _ _ w R'); [done| |done|done].
  intros k Hk%elem_of_sorted_elements. by eapply kids_known.
Qed.

Lemma walk_transfer fuel ordered ignored d final R :
  walking ix ordered ignored (Some d) → walk fuel ix ordered ignored (Some d) = Ok (final, R) →
  r_record_digest <$> last final = Some t → check_next final r = Ok tt →
  walk (S fuel) ix' ordered ignored (Some d) = Ok (final ++ [r], R).
Proof.
  revert ordered ignored d. induction fuel as [|fuel IH]; intros ordered ignored d Hw H Hlast Hck;
    [done|]. pose proof (walk_ok _ _ _ _ _ _ _ _ I Hw H) as [[Wf _ _] Hend].
  destruct (Hend d eq_refl) as (x & Hx & Hleaf). rewrite Hx in Hlast. injection Hlast as Hlast.
  rewrite Hlast in Hleaf.
  assert (HtR : t ∉ R).
  { eapply (path_not_ignored _ _ _ _ _ (wk_path _ _ _ _ Wf) (wk_ignored _ _ _ _ Wf)).
    rewrite path_records, <- Hlast. apply list_elem_of_fmap_2. by apply last_Some_elem_of. }
  cbn in H. apply bind_ok in H as (rd & Hrd%ok_or_ok & H). apply bind_ok in H as ([] & Hcd & H).
  apply bind_ok in H as ([next ign] & Hn & H).
  destruct (walking_step _ _ _ _ _ _ _ _ I Hw Hrd Hcd Hn) as (Hw' & Hm & Hnone & Hsome).
  assert (Hd' : by_digest ix' !! d = Some rd) by (rewrite known_lookup; [done|by eexists]).
  cbn [walk]. rewrite Hd'. cbn [ok_or mbind result_bind]. rewrite Hcd. cbn [mbind result_bind].
  destruct next as [c|].
  - assert (Hne : d ≠ t).
    { intros ->. specialize (Hsome c eq_refl). rewrite Hleaf in Hsome. set_solver. }
    pose proof (walk_ok _ _ _ _ _ _ _ _ I Hw' H) as [[_ _ Hmono] _].
    rewrite (choose_next_transfer _ _ _ _ _ Hne Hn) by set_solver. cbn [mbind result_bind].
    change (walk (S fuel) ix' (ordered ++ [rd]) ign (Some c) = Ok (final ++ [r], R)).
    apply (IH _ _ _ Hw' H); [|done]. by rewrite Hx, <- Hlast.
  - assert (final = ordered ++ [rd] ∧ R = ign) as [-> ->].
    { destruct fuel; cbn in H; by injection H as <- <-. }
    rewrite last_snoc in Hx. injection Hx as <-.
    rewrite (digest_of_by_digest _ _ _ _ I Hrd) in Hlast. subst t.
    apply choose_next_none in Hn as [_ ->].
    rewrite (choose_next_single _ _ _ _ (r_record_digest r)).
    2:{ rewrite (ex_parent _ _ _ _ Ex), Hleaf. set_solver. }
    cbn [mbind result_bind walk]. rewrite (ex_new _ _ _ _ Ex). cbn [ok_or mbind result_bind].
    rewrite Hck. cbn [mbind result_bind].
    rewrite choose_next_leaf by apply (ex_leaf _ _ _ _ Ex). cbn [mbind result_bind].
    by destruct fuel.
Qed.
End transfer.

Lemma index_records_snoc records ix ix' r :
  index_records records = Ok ix → index_record ix r = Ok ix' →
  index_records (records ++ [r]) = Ok ix'.
Proof.
  unfold index_records. rewrite foldM_app. intros -> H. cbn. by rewrite H.
Qed.

(** A fork among records without assignments, as a fact about every node. *)
Lemma no_fork_check ix :
  (∀ p, size (children_of ix p) ≤ 1) →
  existsb (λ digests, (1 <? size digests)%nat) (map_to_list (children ix)).*2 = false.
Proof.
  intros H. apply existsb_false. intros s Hs. apply list_elem_of_fmap in Hs as ([p s'] & -> & Hs).
  apply elem_of_map_to_list in Hs. specialize (H p). unfold children_of in H. rewrite Hs in H.
  by apply Nat.ltb_ge.
Qed.

(** One check of [link] on an extended index. *)
Lemma link_unfold records ix final R d :
  index_records records = Ok ix →
  (forallb (λ r, is_none (r_assignment_generation r)) records = true →
     ∀ p, size (children_of ix p) ≤ 1) →
  children_of ix None = {[d]} →
  walk (chain_fuel ix) ix [] ∅ (Some d) = Ok (final, R) →
  length final + size R = size (by_digest ix) →
  link records = Ok {| c_records := final; c_tip_digest := r_record_digest <$> last final;
                       c_ignored_stale_records := sorted_elements R |}.
Proof.
  intros Hix Hfork Hroot Hw Hsz. unfold link. rewrite Hix. cbn [mbind result_bind].
  destruct (forallb _ records) eqn:Ef.
  - rewrite no_fork_check by auto. cbn [andb]. rewrite Hroot, size_singleton. cbn [negb Nat.eqb].
    pose proof (sorted_elements_permutation {[d]}) as Hp. rewrite elements_singleton in Hp.
    apply Permutation_singleton_r in Hp. rewrite Hp. cbn [head].
    rewrite Hw. cbn [mbind result_bind]. by rewrite Hsz, Nat.eqb_refl.
  - cbn [andb]. rewrite Hroot, size_singleton. cbn [negb Nat.eqb].
    pose proof (sorted_elements_permutation {[d]}) as Hp. rewrite elements_singleton in Hp.
    apply Permutation_singleton_r in Hp. rewrite Hp. cbn [head].
    rewrite Hw. cbn [mbind result_bind]. by rewrite Hsz, Nat.eqb_refl.
Qed.

Lemma link_extends records chain r :
  link records = Ok chain →
  check_record r = Ok tt → check_next (c_records chain) r = Ok tt →
  r_previous_digest r = c_tip_digest chain →
  (∀ x, x ∈ records → r_record_digest x ≠ r_record_digest r
     ∧ r_previous_digest x ≠ Some (r_record_digest r)) →
  link (records ++ [r]) = Ok {|
    c_records := c_records chain ++ [r]; c_tip_digest := Some (r_record_digest r);
    c_ignored_stale_records := c_ignored_stale_records chain |}.
Proof.
  intros Hlink Hck Hnext Hprev Hfresh.
  destruct (link_inv _ _ Hlink) as (ix & R & d & [I W (tip & Htip & Hleaf) S T G F] & Hix & Hd & Hw).
  assert (Hf : by_digest ix !! r_record_digest r = None).
  { destruct (by_digest ix !! _) as [x|] eqn:E; [|done].
    apply (io_digest _ _ I) in E as [Hin He]. by destruct (Hfresh x Hin). }
  assert (Hkids : children_of ix (Some (r_record_digest r)) = ∅).
  { apply set_eq. intros k. split; [|set_solver]. intros (x & Hx & Hp)%(io_children _ _ I).
    apply (io_digest _ _ I) in Hx as [Hin _]. by destruct (Hfresh x Hin). }
  rewrite Htip in T. cbn in T. rewrite T in Hprev.
  assert (Hself : r_previous_digest r ≠ Some (r_record_digest r)).
  { rewrite Hprev. intros [= He]. apply last_Some_elem_of, list_elem_of_lookup in Htip as [i Hi].
    destruct (wk_ordered _ _ _ _ W i tip Hi) as [Hl _]. rewrite He in Hl. congruence. }
  assert (Hrec : ∃ ix', index_record ix r = Ok ix').
  { unfold index_record. rewrite Hck. cbn. rewrite Hf. by eexists. }
  destruct Hrec as [ix' Hrec]. pose proof (index_record_extends _ _ _ Hf Hkids Hself Hrec) as Ex.
  rewrite Hprev in Ex.
  assert (Hstart : walking ix [] ∅ (Some d)) by (eapply walking_start; [done|set_solver]).
  assert (Hgoal := link_unfold (records ++ [r]) ix' (c_records chain ++ [r]) R d
    (index_records_snoc _ _ _ _ Hix Hrec)). rewrite last_snoc in Hgoal. rewrite G. apply Hgoal.
  - rewrite forallb_app. intros [Hall _]%andb_true_iff p. specialize (F Hall).
    destruct (decide (p = Some (r_record_digest tip))) as [->|Hne].
    + rewrite (ex_parent _ _ _ _ Ex), Hleaf, (right_id_L ∅ (∪)), size_singleton. lia.
    + by rewrite (ex_children _ _ _ _ Ex) by done.
  - rewrite (ex_children _ _ _ _ Ex) by done. done.
  - unfold chain_fuel. rewrite (ex_size _ _ _ _ Ex).
    apply (walk_transfer ix ix' r (r_record_digest tip) records I Ex); [done|exact Hw| |done].
    by rewrite Htip.
  - rewrite List.length_app, (ex_size _ _ _ _ Ex). cbn. lia.
Qed.

(** The genesis record alone. *)
Lemma link_genesis r :
  check_record r = Ok tt → check_next [] r = Ok tt → r_previous_digest r = None →
  link [r] = Ok {| c_records := [r]; c_tip_digest := Some (r_record_digest r);
                   c_ignored_stale_records := [] |}.
Proof.
  intros Hck Hnext Hprev.
  assert (Hix : index_records [r] = Ok {| by_digest := {[r_record_digest r := r]};
    children := {[None := {[r_record_digest r]}]} |}).
  { cbn. unfold index_record. rewrite Hck. cbn. rewrite Hprev. cbn. unfold children_of. cbn.
    rewrite !lookup_empty. cbn. by rewrite (right_id_L ∅ (∪)), !insert_empty. }
  pose proof (link_unfold [r] _ [r] ∅ (r_record_digest r) Hix) as H.
  rewrite H; [by vm_compute| | | |]; clear H.
  - intros _ p. unfold children_of. cbn. destruct p as [p|].
    + rewrite lookup_singleton_ne by done. cbn. rewrite size_empty. lia.
    + rewrite lookup_singleton_eq. cbn. by rewrite size_singleton.
  - unfold children_of. cbn. by rewrite lookup_singleton_eq.
  - unfold chain_fuel. cbn [by_digest]. rewrite map_size_singleton. cbn [walk by_digest].
    rewrite lookup_singleton_eq. cbn [ok_or mbind result_bind]. rewrite Hnext.
    cbn [mbind result_bind app]. rewrite choose_next_leaf; [done|].
    unfold children_of. cbn. by rewrite lookup_singleton_ne.
  - cbn [by_digest]. by rewrite map_size_singleton, size_empty.
Qed.

(** A comment whose record is checked, follows the chain and is new extends the chain. *)
Lemma parse_chain_extends comments repository pr chain body r :
  parse_chain comments repository pr = Ok chain →
  parse_state_marker body = Ok (Some r) → r_repository r = repository → r_pr r = pr →
  check_record r = Ok tt → check_next (c_records chain) r = Ok tt →
  r_previous_digest r = c_tip_digest chain →
  (∀ c x, c ∈ comments → parse_state_marker c = Ok (Some x) →
     r_record_digest x ≠ r_record_digest r ∧ r_previous_digest x ≠ Some (r_record_digest r)) →
  parse_chain (comments ++ [body]) repository pr = Ok {|
    c_records := c_records chain ++ [r]; c_tip_digest := Some (r_record_digest r);
    c_ignored_stale_records := c_ignored_stale_records chain |}.
Proof.
  intros H Hbody Hrep Hpr Hck Hnext Hprev Hfresh.
  destruct (parse_chain_inv _ _ _ _ H) as (records & Hd & Hcase).
  pose proof (decode_comments_ok _ _ _ _ Hd) as [D1 _].
  assert (Hd' : decode_comments (comments ++ [body]) repository pr = Ok (records ++ [r])).
  { unfold decode_comments in *. rewrite foldM_app, Hd. cbn. unfold decode_comment. rewrite Hbody.
    cbn. by rewrite bool_decide_true, Hpr, N.eqb_refl. }
  unfold parse_chain. rewrite Hd'. cbn [mbind result_bind].
  destruct Hcase as [[-> ->]|[Hne Hlink]].
  - cbn in *. by apply link_genesis.
  - assert (Hl : link (records ++ [r]) = Ok {|
      c_records := c_records chain ++ [r]; c_tip_digest := Some (r_record_digest r);
      c_ignored_stale_records := c_ignored_stale_records chain |}).
    { apply link_extends; try done. intros x (c & Hc & Hx)%D1. by apply (Hfresh c). }
    destruct (records ++ [r]) eqn:E; [by destruct records|done].
Qed.
End extend.
