(* ===== verification/RecordFacts.v ===== *)
(** * Theorems on records and their comments

    A record rendered into a provider comment is read back as it was, whatever outcome text
    shares the comment with it. *)
From S2P Require Import Prelude RStr Collections Error Types Markers ReviewLoop Record Handoff.
From S2P Require Import Chain World ReviewLoopFacts ReceiptFacts ChainFacts LedgerFacts.
From Stdlib Require Import DecimalString.
From stdpp Require Import options.

(** ** Text without the opening angle bracket of a marker *)
Definition plain (s : string) : bool := all_bytes (λ c, negb (Ascii.eqb c "<")) s.

Lemma plain_app s1 s2 : plain (s1 +:+ s2) = plain s1 && plain s2.
Proof. apply all_bytes_app. Qed.

Lemma plain_impl p s : (∀ c, p c = true → Ascii.eqb c "<" = false) → all_bytes p s = true →
  plain s = true.
Proof. intros Hp. apply all_bytes_impl. intros c Hc. by rewrite (Hp c Hc). Qed.

Lemma plain_uint u : plain (NilEmpty.string_of_uint u) = true.
Proof. induction u; cbn; done. Qed.

Lemma plain_dec n : plain (dec n) = true.
Proof.
  unfold dec, NilZero.string_of_uint. destruct (N.to_uint n) eqn:E; [done|..]; apply plain_uint.
Qed.

Lemma hexdigit_plain c : is_ascii_hexdigit c = true → Ascii.eqb c "<" = false.
Proof. destruct c as [[] [] [] [] [] [] [] []]; vm_compute; done. Qed.

Lemma all_bytes_substring p n m s : all_bytes p s = true → all_bytes p (String.substring n m s) = true.
Proof.
  revert n m. induction s as [|c s IH]; intros [|n] [|m]; cbn; try done.
  - intros [-> Hs]%andb_true_iff. cbn. by apply IH.
  - intros [_ Hs]%andb_true_iff. by apply IH.
  - intros [_ Hs]%andb_true_iff. by apply IH.
Qed.

Lemma plain_short_sha s : plain (short_sha s) = true.
Proof.
  unfold short_sha. destruct (_ && _) eqn:E; [|done]. apply andb_true_iff in E as [_ E].
  apply (plain_impl is_ascii_hexdigit); [apply hexdigit_plain|]. by apply all_bytes_substring.
Qed.

Lemma plain_join sep l : plain sep = true → (∀ x, x ∈ l → plain x = true) → plain (join sep l) = true.
Proof.
  intros Hs. induction l as [|x l IH]; intros Hl; [done|]. destruct l as [|y l].
  - apply Hl. by left.
  - rewrite join_cons, !plain_app, Hs, (Hl x) by by left. cbn. apply IH. intros z Hz. apply Hl. by right.
Qed.

Lemma plain_categories s b : plain (visible_finding_categories s b) = true.
Proof.
  apply plain_join; [done|]. intros x Hx%elem_of_sorted_elements%elem_of_list_to_set.
  apply list_elem_of_fmap in Hx as ([k f] & -> & _). unfold finding_category. cbn.
  case_bool_decide as Hsafe; [|done].
  assert (Hall : Forall (λ c, plain c = true) SAFE_CATEGORIES) by repeat constructor.
  rewrite Forall_forall in Hall. by apply Hall.
Qed.

(** [plain_tac]: a concatenation of literals and plain parts. *)
Ltac plain_tac :=
  rewrite ?plain_app, ?plain_short_sha, ?plain_dec, ?plain_categories; try reflexivity;
  repeat case_match; rewrite ?plain_app, ?plain_short_sha, ?plain_dec, ?plain_categories;
  try reflexivity.

Lemma plain_loop_sentence s : plain (review_loop_sentence s) = true.
Proof. unfold review_loop_sentence. cbv zeta. repeat case_match; plain_tac. Qed.

(** The two texts of a payload that come from outside: the reviewer's login and the address
    of an approval. *)
Definition plain_payload (p : ReviewStatePayload) : bool :=
  match p with
  | P_ReviewHandoff h => plain (review_author h)
  | P_ReviewLoopAcceptance _ acceptance => plain (ar_approval_reference acceptance)
  | _ => true
  end.

Lemma plain_metadata r m :
  plain_payload (r_payload r) = true → state_comment_visible_metadata r = Ok m → plain m = true.
Proof.
  unfold state_comment_visible_metadata. destruct (r_payload r); cbn [plain_payload]; intros Hp H.
  - injection H as <-. plain_tac.
  - injection H as <-. apply plain_loop_sentence.
  - injection H as <-. plain_tac.
  - injection H as <-. rewrite !plain_app, Hp. plain_tac.
  - apply bind_ok in H as (st & _ & [= <-]). plain_tac.
  - injection H as <-. unfold handoff_sentence. repeat case_match; rewrite ?plain_app, ?Hp; plain_tac.
  - injection H as <-. plain_tac.
Qed.

(** ** Reading a rendered comment *)
Section roundtrip.
Context `{HS : !Hasher, LS : !LedgerSerde}.

(** What serde_json promises of the derived impls of the record type: the text of a record
    is not empty, is valid UTF-8 and reads back as the record. *)
Definition text_round_trips (r : ReviewStateRecord) : Prop :=
  ∀ json, to_vec r = Ok json →
    json ≠ EmptyString ∧ utf8_error 0 json = None ∧ from_str json = Ok r.

Lemma lower_hex_no_space c : is_lower_hex c = true → Ascii.eqb c " " = false.
Proof. destruct c as [[] [] [] [] [] [] [] []]; vm_compute; done. Qed.

Lemma hex_no_space b : all_bytes (λ d, negb (Ascii.eqb d " ")) (hex_encode b) = true.
Proof.
  apply (all_bytes_impl is_lower_hex); [|apply hex_encode_lower].
  intros c Hc. by rewrite (lower_hex_no_space c Hc).
Qed.

Lemma hex_decode_encode b : b ≠ EmptyString → hex_decode (hex_encode b) = Ok b.
Proof.
  intros Hb. apply hex_decode_ok. split; [|done]. destruct b as [|c b]; [done|]. done.
Qed.

(** A marker behind plain text is the state the comment carries. *)
Lemma parse_marker_after r m before rest :
  text_round_trips r → marker r = Ok m → plain before = true →
  parse_state_marker (before +:+ m +:+ rest) = Ok (Some r).
Proof.
  intros Htext Hm Hb. unfold marker in Hm. apply bind_ok in Hm as (json & Hj & Hm).
  unfold serialize_failure in Hj. apply map_err_ok in Hj.
  destruct (Htext json Hj) as (Hne & Hutf & Hback). cbv zeta in Hm. split_if Hm.
  injection Hm as <-. unfold parse_state_marker.
  change STATE_MARKER_OPEN with (String "<" "!-- forge-cli:review-state:v1 ") at 1.
  rewrite split_once_skip by exact Hb.
  change (String "<" "!-- forge-cli:review-state:v1 ") with STATE_MARKER_OPEN.
  rewrite app_assoc, split_once_here. cbn [fmap option_fmap option_map prod_map id fst snd].
  change STATE_MARKER_CLOSE with (String " " "-->"). rewrite app_assoc.
  rewrite split_once_skip by apply hex_no_space. rewrite split_once_here.
  cbn [fmap option_fmap option_map prod_map id fst snd]. rewrite app_nil_r.
  rewrite hex_decode_encode by done. cbn [mbind result_bind]. rewrite Hutf.
  cbn [mbind result_bind]. by rewrite Hback.
Qed.

Lemma render_ok r outcome body :
  render_state_comment_body r outcome = Ok body →
  ∃ m metadata rest, marker r = Ok m ∧ state_comment_visible_metadata r = Ok metadata
    ∧ body = (metadata +:+ nl) +:+ m +:+ rest
    ∧ (len body <= MAX_PROVIDER_STATE_COMMENT_BYTES)%N
    ∧ match outcome with
      | Some o => ∃ t, validate_outcome_body o = Ok t
          ∧ rest = nl +:+ nl +:+ "---" +:+ nl +:+ nl +:+ t
      | None => rest = EmptyString
      end.
Proof.
  unfold render_state_comment_body. intros H. apply bind_ok in H as (m & Hm & H).
  apply bind_ok in H as (md & Hmd & H). apply bind_ok in H as (b & Hb & H). split_if H.
  injection H as <-. apply N.ltb_ge in Hif. destruct outcome as [o|].
  - apply bind_ok in Hb as (t & Ht & [= <-]).
    exists m, md, (nl +:+ nl +:+ "---" +:+ nl +:+ nl +:+ t). split; [done|]. split; [done|].
    split; [by rewrite !app_assoc|]. split; [done|]. by exists t.
  - injection Hb as <-. exists m, md, EmptyString. split; [done|]. split; [done|].
    split; [by rewrite app_nil_r, app_assoc|]. done.
Qed.

Lemma validate_outcome_trim o t :
  validate_outcome_body o = Ok t →
  t = trim o ∧ t ≠ EmptyString ∧ contains STATE_MARKER_OPEN t = false
  ∧ contains HTML_COMMENT_OPEN t = false ∧ (len t <= MAX_PROVIDER_STATE_COMMENT_BYTES)%N.
Proof.
  unfold validate_outcome_body. intros H. cbv zeta in H. repeat split_if H. injection H as <-.
  apply is_empty_false in Hif. by apply N.ltb_ge in Hif2.
Qed.

(** A rendered comment carries exactly its record: whatever outcome text shares the
    comment, the reader finds the record that was rendered, the body stays within the
    provider limit, and the comment is recognised as carrying that outcome. *)
Theorem state_comment_round_trip r outcome body :
  text_round_trips r → plain_payload (r_payload r) = true →
  render_state_comment_body r outcome = Ok body →
  parse_state_marker body = Ok (Some r)
  ∧ (len body <= MAX_PROVIDER_STATE_COMMENT_BYTES)%N
  ∧ ∀ o, outcome = Some o →
      ∃ m, marker r = Ok m ∧ comment_carries_outcome body m o = true
        ∧ contains HTML_COMMENT_OPEN (trim o) = false.
Proof.
  intros Htext Hp (m & md & rest & Hm & Hmd & -> & Hlen & Ho)%render_ok.
  pose proof (plain_metadata _ _ Hp Hmd) as Hplain. split; [|split; [done|]].
  - apply parse_marker_after; [done..|]. by rewrite plain_app, Hplain.
  - intros o ->. destruct Ho as (t & Ht & ->). apply validate_outcome_trim in Ht as (-> & _ & _ & Hc & _).
    exists m. split; [done|]. split; [|done]. unfold comment_carries_outcome.
    apply andb_true_iff. split; apply contains_true.
    + by exists (md +:+ nl), (nl +:+ nl +:+ "---" +:+ nl +:+ nl +:+ trim o).
    + exists ((md +:+ nl) +:+ m +:+ nl +:+ nl +:+ "---" +:+ nl +:+ nl), EmptyString.
      by rewrite app_nil_r, !app_assoc.
Qed.
End roundtrip.

Section record_witnesses.
#[local] Existing Instance demo_hasher.
#[local] Existing Instance LedgerWitness.serde.

Lemma text_round_trips_witness : text_round_trips LedgerWitness.r1.
Proof. intros json [= <-]. split; [by vm_compute|]. split; [by vm_compute|evaluates]. Qed.

Lemma state_comment_round_trip_witness :
  parse_state_marker (unwrap_or EmptyString
    (render_state_comment_body LedgerWitness.r1 (Some "Fixed as <agreed>.")))
  = Ok (Some LedgerWitness.r1).
Proof.
  refine (proj1 (state_comment_round_trip LedgerWitness.r1 (Some "Fixed as <agreed>.") _
    text_round_trips_witness _ _)); evaluates.
Defined.
End record_witnesses.
