(* ===== verification/HandoffFacts.v ===== *)
(** * Theorems on designated ownership

    The handoffs the commands propose are the ones the reader accepts, a takeover needs a
    configured supervisor, and a published report is bound to its assignment interval. *)
From S2P Require Import Prelude RStr Collections Error Types Markers ReviewLoop Identity Record.
From S2P Require Import Handoff Correction Supersession Acceptance Chain World ReviewLoopFacts.
From S2P Require Import ReceiptFacts ChainFacts LedgerFacts.
From stdpp Require Import options.

Section proposals.
Context `{HS : !Hasher, SP : !SecretPattern, TP : !TimestampParse, UP : !UuidParse,
          SB : !Serialize SessionBinding}.

(** ** Inversions *)

Lemma assigned_ok env chain h :
  assigned env chain = Ok (Some h) →
  latest chain = Some h ∧ surrendered h = false ∧ returned_reason h = None
  ∧ ∃ requested, assignment_digest env = Ok requested
      ∧ (∀ d, requested = Some d → d = reviewer_digest h).
Proof.
  unfold assigned. intros H. apply bind_ok in H as (req & Hreq & H).
  destruct (latest chain) as [h'|]; [|by split_if H]. split_if H. split_if H.
  injection H as <-. apply orb_false_iff in Hif0 as [Hr Hs].
  split; [done|]. split; [done|]. split; [by destruct (returned_reason h')|].
  exists req. split; [done|]. intros d ->. cbn in Hif. by apply negb_decide_false in Hif.
Qed.

Lemma require_reviewer_ok env chain h :
  require_reviewer env chain = Ok (Some h) →
  latest chain = Some h ∧ surrendered h = false ∧ returned_reason h = None
  ∧ actor_digest env = Ok (reviewer_digest h).
Proof.
  unfold require_reviewer. intros (o & Ho & H)%bind_ok. destruct o as [h'|]; [|done].
  apply bind_ok in H as (actor & Ha & H). split_if H. injection H as ->.
  apply negb_decide_false in Hif. subst actor. apply assigned_ok in Ho as (? & ? & ? & _). done.
Qed.

Lemma require_reviewer_none env chain :
  require_reviewer env chain = Ok None → latest chain = None.
Proof.
  unfold require_reviewer. intros (o & Ho & H)%bind_ok. destruct o as [h'|].
  - apply bind_ok in H as (a & _ & H). by split_if H.
  - unfold assigned in Ho. apply bind_ok in Ho as (req & _ & Ho).
    destruct (latest chain); [|done]. split_if Ho. by split_if Ho.
Qed.

(** The writer of an interval: the designated reviewer at the current generation. *)
Lemma ensure_writer_ok env chain :
  ensure_writer env chain = Ok tt →
  match latest chain with
  | Some h => surrendered h = false ∧ returned_reason h = None
      ∧ actor_digest env = Ok (reviewer_digest h)
      ∧ AGENT_REVIEW_ASSIGNMENT_GENERATION env ≫= parse_u64 = Some (assignment_generation h)
  | None => True
  end.
Proof.
  unfold ensure_writer. intros (o & Ho & H)%bind_ok. destruct o as [h|].
  - apply require_reviewer_ok in Ho as (-> & ? & ? & ?). split_if H.
    by apply negb_decide_false in Hif.
  - by rewrite (require_reviewer_none _ _ Ho).
Qed.

(** ** Proposals *)

Lemma propose_assign_ok env chain head base branch a next :
  propose_assign env chain head base branch a = Ok next →
  actor_digest env = Ok (coordinator_digest next)
  ∧ coordinator_digest next ≠ reviewer_digest next
  ∧ base_sha next = base ∧ assigned_head next = head ∧ base_ref next = branch
  ∧ returned_reason next = None ∧ surrendered next = false ∧ coordinator_transfer next = None
  ∧ as_expected_head a = head
  ∧ checked_add u64_max (from_option assignment_generation 0%N (latest chain)) 1
    = Some (assignment_generation next)
  ∧ ∀ h, latest chain = Some h → coordinator_digest h = coordinator_digest next
      ∧ (surrendered h = true ∨ is_Some (returned_reason h) ∨ valid_scope_refresh h next = true).
Proof.
  unfold propose_assign. intros H. apply bind_ok in H as ([] & Hh & H).
  apply bind_ok in H as ([] & _ & H). apply bind_ok in H as (co & Hco & H). split_if H.
  split_if H. split_if H. apply negb_decide_false in Hif0.
  apply bind_ok in H as (g & Hg%ok_or_ok & H). apply bind_ok in H as ([] & _ & H).
  apply bind_ok in H as (rv & _ & H). split_if H. cbv zeta in H. split_if H. injection H as <-. cbn.
  apply bool_decide_eq_false in Hif2. unfold require_head in Hh. split_if Hh.
  apply orb_false_iff in Hif4 as [_ Hhd%negb_decide_false].
  do 2 (split; [congruence|]). do 3 (split; [done|]). do 3 (split; [done|]).
  split; [done|]. split; [done|]. intros h Hl. rewrite Hl in *. cbn in Hif, Hif3.
  split; [by apply negb_decide_false in Hif|].
  destruct (surrendered h); [by left|]. destruct (returned_reason h); [right; left; by eexists|].
  right. right. cbn in Hif3. by apply negb_false_iff in Hif3.
Qed.

Lemma propose_surrender_ok env chain head eh es next :
  propose_surrender env chain head eh es = Ok next →
  ∃ h x, latest chain = Some h ∧ next = set_surrendered h x ∧ (x = assigned_head h ∨ x = head)
    ∧ surrendered h = false ∧ returned_reason h = None
    ∧ actor_digest env = Ok (reviewer_digest h).
Proof.
  unfold propose_surrender. intros H. apply bind_ok in H as (h & Hh%ok_or_ok & H).
  apply bind_ok in H as ([] & _ & H). apply bind_ok in H as ([] & _ & H).
  apply bind_ok in H as (o & Ho & [= <-]).
  exists h, (if (head !=? eh) && (assigned_head h ==? eh) && is_none (owned_state chain)
             then head else assigned_head h). split; [done|]. split; [done|].
  split; [destruct (_ && _); auto|]. destruct o as [h'|].
  - apply require_reviewer_ok in Ho as (Hl & ? & ? & ?). rewrite Hh in Hl. injection Hl as <-. done.
  - apply require_reviewer_none in Ho. congruence.
Qed.

Lemma propose_transfer_ok auth h actor repository base branch a t :
  propose_transfer auth h actor repository base branch a = Ok t →
  old_coordinator_digest t = coordinator_digest h ∧ new_coordinator_digest t = actor
  ∧ actor ≠ coordinator_digest h ∧ actor ≠ reviewer_digest h ∧ t_reason t = rc_reason a
  ∧ supervisor_digest t = Some actor
  ∧ rc_base_sha a = Some base
  ∧ ∃ supervisors stale_after evidence,
      trusted_supervisor_policy auth repository base branch = Ok (supervisors, stale_after)
      ∧ require_supervisor auth supervisors actor = Ok (supervisor_attestation t)
      ∧ retirement_evidence t = Some evidence
      ∧ lifecycle_source_digest t = machine_digest evidence
      ∧ ∃ source, prove_coordinator_retired auth h source stale_after = Ok evidence.
Proof.
  unfold propose_transfer. intros H. split_if H. apply negb_decide_false in Hif.
  apply bind_ok in H as ([sups stale] & Hpol & H). apply bind_ok in H as (att & Hatt & H).
  apply bind_ok in H as (u & _ & H). split_if H. apply orb_false_iff in Hif0 as [H1 H2].
  apply bool_decide_eq_false in H1, H2. apply bind_ok in H as (src & _ & H).
  apply bind_ok in H as (ev & Hev & [= <-]). cbn. do 7 (split; [done|]).
  exists sups, stale, ev. do 4 (split; [done|]). by exists src.
Qed.

Lemma propose_recover_ok env auth chain repository head base branch a next :
  propose_recover env auth chain repository head base branch a = Ok next →
  ∃ h actor, latest chain = Some h ∧ actor_digest env = Ok actor
    ∧ checked_add u64_max (assignment_generation h) 1 = Some (assignment_generation next)
    ∧ reviewer_digest next = reviewer_digest h ∧ review_author next = review_author h
    ∧ approval_policy next = approval_policy h
    ∧ base_sha next = base ∧ assigned_head next = head
    ∧ returned_reason next = Some (rc_reason a) ∧ surrendered next = false
    ∧ match coordinator_transfer next with
      | Some t => rc_reason a = "coordinator-retired" ∧ coordinator_digest next = actor
          ∧ propose_transfer auth h actor repository base branch a = Ok t
      | None => rc_reason a ≠ "coordinator-retired" ∧ actor = coordinator_digest h
          ∧ coordinator_digest next = coordinator_digest h
      end.
Proof.
  unfold propose_recover. intros H. apply bind_ok in H as ([] & _ & H).
  apply bind_ok in H as ([] & _ & H). apply bind_ok in H as (h & Hh%ok_or_ok & H).
  apply bind_ok in H as (actor & Ha & H). apply bind_ok in H as ([[tr co] br] & Htr & H).
  apply bind_ok in H as (g & Hg%ok_or_ok & [= <-]). cbn. exists h, actor.
  do 10 (split; [done|]). case_bool_decide as Hr; cbn in Htr.
  - apply bind_ok in Htr as (t & Ht & [= <- <- <-]). done.
  - split_if Htr. split_if Htr. injection Htr as <- <- <-.
    by apply negb_decide_false in Hif0.
Qed.

(** What the [assign], [surrender] and [recover] commands may append. *)
Inductive proposes env auth chain repository head base branch : ReviewHandoff → Prop :=
  | proposes_assign a next :
      propose_assign env chain head base branch a = Ok next →
      proposes env auth chain repository head base branch next
  | proposes_surrender eh es next :
      propose_surrender env chain head eh es = Ok next →
      proposes env auth chain repository head base branch next
  | proposes_recover a next :
      propose_recover env auth chain repository head base branch a = Ok next →
      proposes env auth chain repository head base branch next.

(** ** Validity of a persisted handoff *)
Lemma validate_handoff_transfer h :
  validate_handoff h = Ok tt → returned_reason h = None → coordinator_transfer h = None.
Proof.
  unfold validate_handoff. intros H Hr. split_if H. repeat (apply orb_false_iff in Hif as [Hif ?]).
  rewrite Hr in *. cbn in *. destruct (coordinator_transfer h); [|done].
  match goal with E : negb (Bool.eqb _ _) = false |- _ => by vm_compute in E end.
Qed.

Lemma transfer_valid_intro auth h actor repository base branch a t next n :
  propose_transfer auth h actor repository base branch a = Ok t →
  rc_reason a = "coordinator-retired" → coordinator_transfer next = Some t →
  coordinator_digest next = actor → returned_reason next = Some (rc_reason a) →
  checked_add u64_max (assignment_generation h) 1 = Some n → assignment_generation next = n →
  reviewer_digest next = reviewer_digest h → review_author next = review_author h →
  approval_policy next = approval_policy h → surrendered next = false →
  valid_coordinator_transfer h next = true.
Proof.
  intros (T1 & T2 & T3 & T4 & T5 & _)%propose_transfer_ok Hr Ht Hc Hrr Hn Hg Hrv Ha Hp Hs.
  unfold valid_coordinator_transfer. rewrite Ht. cbn.
  rewrite T1, T2, T5, Hr, Hc, Hrr, Hr, Hg, Hn, Hrv, Ha, Hs, Hp.
  rewrite (bool_decide_false (actor = coordinator_digest h)) by done.
  rewrite (bool_decide_false (actor = reviewer_digest h)) by done.
  by rewrite !bool_decide_true.
Qed.

Lemma ownership_step_intro old next n :
  checked_add u64_max (assignment_generation old) 1 = Some n →
  (coordinator_digest next = coordinator_digest old ∧ coordinator_transfer next = None
   ∨ valid_coordinator_transfer old next = true) →
  (assignment_generation next = assignment_generation old ∧ surrendered next = true
     ∧ surrendered old = false ∧ returned_reason old = None ∧ returned_reason next = None
     ∧ reviewer_digest next = reviewer_digest old ∧ approval_policy next = approval_policy old)
  ∨ (assignment_generation next = n
     ∧ (is_Some (returned_reason next) ∨ surrendered old = true ∨ is_Some (returned_reason old)
        ∨ valid_scope_refresh old next = true)) →
  ownership_step old next (Some (assignment_generation next)) = Ok tt.
Proof.
  intros Hn Hco Hcase. unfold ownership_step. rewrite Hn. cbn [ok_or mbind result_bind].
  pose proof Hn as [Hn' _]%checked_add_some.
  assert (Hc : (((coordinator_digest next !=? coordinator_digest old)
     || is_some (coordinator_transfer next)) && negb (valid_coordinator_transfer old next)) = false).
  { destruct Hco as [[-> ->]| ->]; [|by rewrite andb_false_r]. by rewrite bool_decide_true. }
  rewrite Hc, (bool_decide_true _ eq_refl). cbn [orb negb].
  destruct Hcase as [(Hg & Hs & Hso & Hro & Hrn & Hrv & Hp)|[Hg Hrel]].
  - rewrite Hg, Hs, Hso, Hro, Hrn, Hrv, Hp, N.eqb_refl, !bool_decide_true by done. cbn.
    assert ((assignment_generation old =? n)%N = false) as -> by (apply N.eqb_neq; lia). done.
  - rewrite Hg, N.eqb_refl. assert ((n =? assignment_generation old)%N = false) as ->
      by (apply N.eqb_neq; lia). cbn.
    destruct Hrel as [[x ->]|[->|[[x ->]| ->]]]; cbn; rewrite ?andb_false_r; done.
Qed.

(** The reader accepts what the commands propose: on a ledger whose active handoff is
    valid, every handoff that [assign], [surrender] or [recover] proposes passes the
    ownership check the reader runs on the record that carries it. *)
Theorem proposals_accepted_by_reader env auth chain repository head base branch next r :
  proposes env auth chain repository head base branch next →
  (∀ h, latest chain = Some h →
     validate_handoff h = Ok tt ∧ (assignment_generation h < u64_max)%N) →
  r_payload r = P_ReviewHandoff next →
  r_assignment_generation r = Some (assignment_generation next) →
  check_ownership (c_records chain) r = Ok tt.
Proof.
  intros Hprop Hvalid Hp Hg. unfold check_ownership. rewrite Hp, Hg. cbn [payload_handoff].
  change (latest_handoff (c_records chain)) with (latest chain). destruct Hprop as
    [a next H%propose_assign_ok|eh es next H%propose_surrender_ok|a next H%propose_recover_ok].
  - destruct H as (_ & _ & _ & _ & _ & Hr & Hs & Ht & _ & Hgen & Hold).
    destruct (latest chain) as [h|]; cbn in Hgen.
    + destruct (Hold h eq_refl) as [Hco Hrel]. eapply ownership_step_intro; [exact Hgen|by left|].
      right. split; [done|]. by right.
    + injection Hgen as Hgen. by rewrite <- Hgen, Hr, Hs, Ht.
  - destruct H as (h & x & Hl & -> & _ & Hs & Hr & _). rewrite Hl.
    destruct (Hvalid h Hl) as [Hv Hlt]. pose proof (validate_handoff_transfer h Hv Hr) as Ht.
    eapply (ownership_step_intro _ _ (assignment_generation h + 1)).
    + apply checked_add_some. split; [done|]. lia.
    + left. by cbn.
    + left. by cbn.
  - destruct H as (h & actor & Hl & _ & Hgen & Hrv & Ha & Hpol & _ & _ & Hr & Hs & Hcase).
    rewrite Hl. eapply ownership_step_intro; [exact Hgen| |right; split; [done|left; by eexists]].
    destruct (coordinator_transfer next) as [t|] eqn:Et.
    + right. destruct Hcase as (Hreason & Hco & Htr). by eapply transfer_valid_intro.
    + left. by destruct Hcase as (_ & _ & ->).
Qed.

(** ** Who may move ownership *)

(** A configured supervisor: by session digest, or by an operator-attested role. *)
Definition supervises (auth : Authority) (supervisors : list string) (actor : string)
    (attestation : option SupervisorAttestation) : Prop :=
  (actor ∈ supervisors ∧ attestation = None)
  ∨ ∃ binding role, session_current auth = Some binding ∧ sb_attested_role binding = Some role
      ∧ "role:" +:+ role ∈ supervisors ∧ session_digest (sb_session_id binding) = Ok actor
      ∧ ∃ d, attestation = Some (mk_SupervisorAttestation role d).

Lemma require_supervisor_ok auth supervisors actor attestation :
  require_supervisor auth supervisors actor = Ok attestation →
  supervises auth supervisors actor attestation.
Proof.
  unfold require_supervisor. destruct (existsb _ supervisors) eqn:E.
  - intros [= <-]. apply existsb_true in E as (x & Hx & ->%bool_decide_eq_true). left. by split.
  - destruct (existsb (starts_with _) supervisors); [|done]. intros (a & Ha & [= <-])%bind_ok. right.
    unfold authenticate in Ha. cbv zeta in Ha. apply bind_ok in Ha as (b & Hb%ok_or_ok & Ha).
    apply bind_ok in Ha as (role & Hrole%ok_or_ok & Ha). apply bind_ok in Ha as (s & Hs & Ha).
    split_if Ha. apply orb_false_iff in Hif as [H1%negb_decide_false H2].
    apply negb_false_iff, bool_decide_eq_true in H2. subst s.
    apply bind_ok in Ha as (bytes & _ & [= <-]). exists b, role. eauto 6.
Qed.

(** A takeover rests on the policy of the provider's base, on evidence that is still current,
    and on a supervisor of that policy. *)
Definition takeover_by_right (auth : Authority) (repo : option string) (actor : string)
    (old next : ReviewHandoff) : Prop :=
  ∃ t evidence repository supervisors stale_after,
    coordinator_transfer next = Some t ∧ retirement_evidence t = Some evidence
    ∧ repo = Some repository
    ∧ trusted_supervisor_policy auth repository (base_sha next) (base_ref next)
      = Ok (supervisors, stale_after)
    ∧ prove_coordinator_retired auth old (Some (machine_digest evidence)) stale_after = Ok evidence
    ∧ supervisor_digest t = Some actor
    ∧ supervises auth supervisors actor (supervisor_attestation t).

Lemma ensure_takeover_ok auth repo actor old next :
  ensure_takeover auth repo actor old next = Ok tt →
  actor = coordinator_digest next ∧ takeover_by_right auth repo actor old next.
Proof.
  unfold ensure_takeover. intros H. split_if H. apply negb_decide_false in Hif.
  split; [done|]. apply bind_ok in H as (t & Ht%expect_ok & H).
  apply bind_ok in H as (ev & Hev%ok_or_ok & H). apply bind_ok in H as (rp & Hrp%ok_or_ok & H).
  apply bind_ok in H as ([sups stale] & Hpol & H). apply bind_ok in H as (cur & Hcur & H).
  split_if H. apply orb_false_iff in Hif0 as [H1%negb_decide_false _]. cbv zeta in H. split_if H.
  apply negb_decide_false in Hif0. apply bind_ok in H as (att & Hatt & H). split_if H.
  apply orb_false_iff in Hif1 as [H2%negb_decide_false _]. subst cur att.
  apply require_supervisor_ok in Hatt. by exists t, ev, rp, sups, stale.
Qed.

(** C25: Ownership moves only by right: the append guard lets a session change the ownership
    of an assigned review only as the reviewer who surrenders, as the coordinator who stays
    the coordinator, or as a supervisor configured at the provider base who takes over with
    retirement evidence that is still current. *)
Theorem ownership_moves_only_by_right env auth repo chain old next :
  latest chain = Some old → ensure_handoff_append env auth repo chain next = Ok tt →
  ∃ actor, actor_digest env = Ok actor ∧
  ((actor = reviewer_digest old ∧ surrendered next = true
      ∧ assignment_generation next = assignment_generation old)
   ∨ (actor = coordinator_digest old ∧ coordinator_digest next = coordinator_digest old
      ∧ assignment_generation next = (assignment_generation old + 1)%N
      ∧ (is_Some (returned_reason next) ∨ surrendered old = true ∨ is_Some (returned_reason old)
         ∨ valid_scope_refresh old next = true))
   ∨ (actor = coordinator_digest next ∧ valid_coordinator_transfer old next = true
      ∧ takeover_by_right auth repo actor old next)).
Proof.
  intros Hl H. unfold ensure_handoff_append in H. apply bind_ok in H as (actor & Ha & H).
  rewrite Hl in H. exists actor. split; [done|].
  destruct ((assignment_generation next =? assignment_generation old)%N && surrendered next) eqn:E1.
  { apply andb_true_iff in E1 as [E1%N.eqb_eq E2]. apply bind_ok in H as ([h|] & Hr & _).
    - apply require_reviewer_ok in Hr as (Hl' & _ & _ & Ha'). left. split; [|done]. congruence.
    - apply require_reviewer_none in Hr. congruence. }
  destruct (valid_coordinator_transfer old next) eqn:E2.
  - right. right. by apply ensure_takeover_ok in H as [? ?].
  - right. left. split_if H. apply orb_false_iff in Hif as [H1%negb_decide_false H2%negb_decide_false].
    split_if H. apply orb_false_iff in Hif as [H3%negb_decide_false H4]. symmetry in H3.
    apply checked_add_some in H3 as [H3 _]. do 3 (split; [done|]).
    destruct (returned_reason next); [left; by eexists|]. destruct (surrendered old); [by auto|].
    destruct (returned_reason old); [right; right; left; by eexists|]. cbn in H4.
    apply negb_false_iff in H4. auto.
Qed.

(** ** Publication bindings *)

(** A report belongs to one interval: a body bound to the active assignment interval is
    never also taken for a report of another known interval, and it carries exactly one
    binding line, which names the digest of the active handoff record. *)
Theorem report_belongs_to_one_interval chain body :
  publication_matches_interval chain body = true →
  publication_is_known_other_interval chain body = false
  ∧ ∃ digest, latest_handoff_digest chain = Some digest
      ∧ publication_markers body = [PUBLICATION_BINDING_PREFIX +:+ digest +:+ " -->"].
Proof.
  unfold publication_matches_interval, publication_is_known_other_interval.
  destruct (publication_markers body) as [|m [|]]; try done.
  destruct (latest_handoff_digest chain) as [d|]; [|done]. cbn [is_some_and].
  intros ->%bool_decide_eq_true.
  rewrite strip_prefix_app. cbn [mbind option_bind]. rewrite strip_suffix_app. cbn.
  rewrite bool_decide_true by done. split; [done|]. by exists d.
Qed.
End proposals.

(** ** The theorems at a concrete assignment *)
Module HandoffWitness.
#[local] Existing Instance demo_hasher.
#[local] Existing Instance demo_secrets.
#[local] Existing Instance demo_time.
#[local] Existing Instance demo_uuid.
#[local] Existing Instance demo_binding.

Definition env : Env := mk_Env (Some "coordinator") None None.
Definition assigned1 : ReviewHandoff :=
  {| approval_policy := SourcePass; coordinator_digest := sha256_digest "coordinator";
     reviewer_digest := sha256_digest "reviewer"; review_author := "octo-reviewer";
     base_sha := demo_sha "c"; assigned_head := demo_sha "d"; returned_reason := None;
     assignment_generation := 1; surrendered := false; coordinator_transfer := None;
     base_ref := "main" |}.
Definition chain : ReviewStateChain :=
  demo_chain [demo_record 0 "h1" (P_ReviewHandoff assigned1)].
Definition head : string := demo_sha "e".
Definition args : RecoverArgs :=
  {| rc_expected_head := head; rc_expected_state := demo_digest 0;
     rc_reason := "reviewer-declined"; rc_coordinator_session := None; rc_base_sha := None |}.
Definition recovered : ReviewHandoff :=
  unwrap_or assigned1
    (propose_recover env demo_authority chain "o/r" head (demo_sha "f") "main" args).
Definition record : ReviewStateRecord :=
  set_assignment_generation (demo_record 1 "h1" (P_ReviewHandoff recovered)) (Some 2%N).

Lemma recovered_ok :
  propose_recover env demo_authority chain "o/r" head (demo_sha "f") "main" args = Ok recovered.
Proof. evaluates. Qed.

Definition report : string :=
  "Looks good." +:+ nl +:+ PUBLICATION_BINDING_PREFIX +:+ demo_digest 0 +:+ " -->".
End HandoffWitness.

Section handoff_witnesses.
#[local] Existing Instance demo_hasher.
#[local] Existing Instance demo_secrets.
#[local] Existing Instance demo_time.
#[local] Existing Instance demo_uuid.
#[local] Existing Instance demo_binding.

Lemma proposals_accepted_by_reader_witness :
  check_ownership (c_records HandoffWitness.chain) HandoffWitness.record = Ok tt.
Proof.
  refine (proposals_accepted_by_reader HandoffWitness.env demo_authority HandoffWitness.chain
    "o/r" HandoffWitness.head (demo_sha "f") "main" HandoffWitness.recovered
    HandoffWitness.record (proposes_recover _ _ _ _ _ _ _ HandoffWitness.args _
      HandoffWitness.recovered_ok) _ eq_refl eq_refl).
  intros h [= <-]. split; reflexivity.
Defined.

Lemma ownership_moves_only_by_right_witness :
  ∃ actor, actor_digest HandoffWitness.env = Ok actor.
Proof.
  assert (Happend : ensure_handoff_append HandoffWitness.env demo_authority None
    HandoffWitness.chain HandoffWitness.recovered = Ok tt) by evaluates.
  destruct (ownership_moves_only_by_right HandoffWitness.env demo_authority None
    HandoffWitness.chain HandoffWitness.assigned1 HandoffWitness.recovered eq_refl Happend)
    as (actor & H & _).
  exists actor. exact H.
Defined.

Lemma report_belongs_to_one_interval_witness :
  publication_is_known_other_interval HandoffWitness.chain HandoffWitness.report = false.
Proof.
  refine (proj1 (report_belongs_to_one_interval HandoffWitness.chain HandoffWitness.report _)).
  vm_compute. reflexivity.
Defined.
End handoff_witnesses.
