(* ===== verification/RetireFacts.v ===== *)
(** * Theorems on the retirement of a coordinator

    What the evidence of the session board rests on, and what a takeover under the authority of
    the checkout and the board therefore rests on. *)
From S2P Require Import Prelude RStr Collections Error Types Markers Identity Handoff Provider.
From S2P Require Import Chain Hosts Paths Config PrReviews Report Detect Retire.
From S2P Require Import ConfigFacts HandoffFacts World.
From stdpp Require Import options.

Section retire.
Context `{HS : !Hasher, JT : !JsonText, TP : !TimestampParse, TT : !TimestampText}.

(** ** The board *)

(** A row of the board proves that its session ended, longer ago than the bound. *)
Record row_retired (now : Z) (machines : list JsonValue) (machine : string) (stale_after : N)
    (row : JsonValue) : Prop := {
  rr_machine : row_machine row = Some machine;
  rr_source : ∃ source, List.filter (λ m, row_machine m ==? Some machine) machines = [source]
    ∧ is_true "available" source = true ∧ fresh now (index "last_seen_at" source) = true;
  rr_terminal : is_deleted row = true ∨ is_stopped row = true;
  rr_stale : ∃ s t, as_str (index "last_terminal_activity_at" row) = Some s
    ∧ timestamp_parse s = Ok t ∧ (Z.of_N stale_after ≤ as_second now - as_second t)%Z;
}.

(** What the evidence says of a row. *)
Definition row_says (evidence : CoordinatorRetirementEvidence) (row : JsonValue) : Prop :=
  session_status evidence = (if is_deleted row then "deleted" else "stopped")
  ∧ ∃ s t, as_str (index "last_terminal_activity_at" row) = Some s ∧ timestamp_parse s = Ok t
      ∧ last_activity_at evidence = timestamp_text t.

Lemma row_evidence_machine now machines digest stale_after row e :
  row_evidence now machines digest stale_after row = Ok e → is_Some (row_machine row).
Proof. unfold row_evidence. by destruct (row_machine row). Qed.

Lemma row_evidence_ok now machines machine digest stale_after row evidence :
  row_machine row = Some machine →
  row_evidence now machines digest stale_after row = Ok evidence →
  row_retired now machines machine stale_after row ∧ row_says evidence row
  ∧ machine_digest evidence = digest ∧ stale_after_seconds evidence = stale_after.
Proof.
  intros Hm H. unfold row_evidence in H. apply bind_ok in H as (m & Hm'%ok_or_ok & H).
  rewrite Hm in Hm'. injection Hm' as <-. destruct (List.filter _ machines) as [|source [|]] eqn:Es; try done.
  split_if H. apply orb_false_iff in Hif as [Ha%negb_false_iff Hf%negb_false_iff].
  split_if H. apply bind_ok in H as (t & Ht%ok_or_ok & H). cbv zeta in H. split_if H.
  injection H as <-. apply orb_false_iff in Hif0 as [Hage Hst]. bool_facts.
  destruct (as_str _) as [s|] eqn:Etext; [|done]. cbn in Ht.
  destruct (timestamp_parse s) as [t'|] eqn:Eparse; [|done]. injection Ht as ->.
  split; [|split; [|done]].
  - split; [done|by exists source| |].
    + apply andb_false_iff in Hif as [H1|H1]; apply negb_false_iff in H1; auto.
    + exists s, t. split; [done|]. split; [done|]. lia.
  - split; [done|]. by exists s, t.
Qed.

Lemma rows_evidence_ok now machines digest stale_after rows acc evidence :
  foldM (λ _ row, e ← row_evidence now machines digest stale_after row; Ok (Some e)) acc rows
    = Ok (Some evidence) →
  (∀ row, row ∈ rows → ∃ e, row_evidence now machines digest stale_after row = Ok e)
  ∧ (acc = Some evidence
     ∨ ∃ row, row ∈ rows ∧ row_evidence now machines digest stale_after row = Ok evidence).
Proof.
  revert acc. induction rows as [|row rows IH]; intros acc H; cbn in H.
  - injection H as ->. split; [by intros ? ?%not_elem_of_nil|by left].
  - apply bind_ok in H as (acc' & H1 & H). apply bind_ok in H1 as (e & He & [= <-]).
    destruct (IH _ H) as [Hall Hlast]. split.
    + intros r [->|Hr]%elem_of_cons; [by exists e|by apply Hall].
    + right. destruct Hlast as [[= ->]|(r & Hr & Hre)].
      * exists row. split; [by left|done].
      * exists r. split; [by right|done].
Qed.

(** The board proves the retirement: it is complete and of the last minute, the coordinator is
    on it, no row of the coordinator is live, and all of them are on one machine, terminal and
    stale. *)
Record retired (now : Z) (coordinator text : string) (stale_after : N)
    (evidence : CoordinatorRetirementEvidence) : Prop := {
  rt_board : ∃ value board machines records machine,
    value_from_str text = Ok value ∧ board = index "board" (index "data" value)
    ∧ as_bool (index "truncated" board) = Some false ∧ fresh now (index "generated_at" board) = true
    ∧ as_array (index "machines" board) = Some machines
    ∧ as_array (index "records" board) = Some records
    ∧ machine_digest evidence = sha256_digest machine
    ∧ (∀ row, row ∈ records → of_coordinator coordinator row = true →
         live row = false ∧ row_retired now machines machine stale_after row)
    ∧ ∃ row, row ∈ records ∧ of_coordinator coordinator row = true ∧ row_says evidence row;
  rt_stale_after : stale_after_seconds evidence = stale_after;
}.

Lemma elements_singleton_machine rows source row :
  elements (list_to_set (omap row_machine rows) : gset string) = [source] →
  row ∈ rows → is_Some (row_machine row) → row_machine row = Some source.
Proof.
  intros He Hr [m Hm]. rewrite Hm. f_equal. apply list_elem_of_singleton. rewrite <- He.
  apply elem_of_elements, elem_of_list_to_set, list_elem_of_omap. by exists row.
Qed.

Lemma board_evidence_ok now coordinator text expected_source stale_after evidence :
  board_evidence now coordinator text expected_source stale_after = Ok evidence →
  retired now coordinator text stale_after evidence
  ∧ ∀ expected, expected_source = Some expected → machine_digest evidence = expected.
Proof.
  unfold board_evidence. intros H. apply bind_ok in H as (value & Hv & H).
  apply map_err_ok in Hv. cbv zeta in H. split_if H. split_if H.
  apply orb_false_iff in Hif0 as [Htr%negb_decide_false Hfresh%negb_false_iff].
  apply bind_ok in H as (machines & Hms%ok_or_ok & H). apply bind_ok in H as (records & Hrs%ok_or_ok & H).
  split_if H. split_if H. destruct (elements _) as [|source [|]] eqn:Es; try done.
  split_if H. apply bind_ok in H as (acc & Hacc & H). apply ok_or_ok in H as ->.
  apply rows_evidence_ok in Hacc as [Hall [[=]|(last & Hlast & Hle)]].
  assert (Hrow : ∀ row e, row ∈ List.filter (of_coordinator coordinator) records →
            row_evidence now machines (sha256_digest source) stale_after row = Ok e →
            row_retired now machines source stale_after row ∧ row_says e row
            ∧ machine_digest e = sha256_digest source ∧ stale_after_seconds e = stale_after).
  { intros row e Hr He. apply row_evidence_ok; [|done].
    apply (elements_singleton_machine _ _ _ Es Hr). by eapply row_evidence_machine. }
  destruct (Hrow _ _ Hlast Hle) as (_ & Hsays & Hdigest & Hst). split.
  - split; [|done]. exists value, (index "board" (index "data" value)), machines, records, source.
    do 7 (split; [done|]). split.
    + intros row Hr Hof. assert (Hin : row ∈ List.filter (of_coordinator coordinator) records)
        by by apply elem_of_list_filter.
      destruct (Hall row Hin) as [e He]. destruct (Hrow _ _ Hin He) as [Hret _]. split; [|done].
      by apply (proj1 (existsb_false _ _) Hif0).
    + apply elem_of_list_filter in Hlast as [? ?]. by exists last.
  - intros expected ->. cbn in Hif2. apply negb_decide_false in Hif2. by rewrite Hdigest.
Qed.

(** Evidence of the board is well-formed. *)
Lemma digest_valid_sha256 `{!HasherLaws} b : digest_valid (sha256_digest b) = true.
Proof.
  unfold digest_valid, sha256_digest. rewrite strip_prefix_app. cbn [is_some_and].
  apply andb_true_iff. split.
  - apply N.eqb_eq. unfold len. by rewrite hex_encode_length, sha256_length.
  - apply (all_bytes_impl is_lower_hex); [|apply hex_encode_lower]. intros c.
    unfold is_lower_hex, is_ascii_hexdigit. intros ->. done.
Qed.

Lemma retired_evidence_valid `{!HasherLaws} now coordinator text stale_after evidence :
  (∀ t, timestamp_ok (timestamp_text t) = true) → (60 ≤ stale_after)%N →
  retired now coordinator text stale_after evidence → evidence_invalid evidence = false.
Proof.
  intros Htext Hst [(v & b & ms & rs & machine & _ & _ & _ & _ & _ & _ & Hd & _ & row & _ & _ & Hs & s & t & _ & _ & Ht) Heq].
  unfold evidence_invalid. rewrite Hd, digest_valid_sha256, Hs, Ht, Htext, Heq.
  assert (Hlt : (stale_after <? 60)%N = false) by (apply N.ltb_ge; lia). rewrite Hlt.
  by destruct (is_deleted row).
Qed.
End retire.

(** ** The policy *)
Section policy.
Context `{HS : !Hasher, JT : !JsonText, TP : !TimestampParse, TT : !TimestampText,
          SP : !SecretPattern, TX : !TomlText} {W : Type} `{LF : !LocalFiles W, BR : !SessionBoard W}.
Context (workdir : option string) (provider : Provider) (provider_host remote : string).

(** The supervisors and the bound are what the checkout's copy of the provider's base says, in a
    checkout of the same repository on the same host. *)
Record policy_at_base (repository base_sha base_ref : string) (w : W) (supervisors : list string)
    (stale_after : N) : Prop := {
  pb_base : ∃ dir toplevel url slug host stdout stderr config,
    workdir = Some dir ∧ git_toplevel dir w = Some toplevel
    ∧ git_remote_url remote dir w = Some url ∧ parse_slug url = Some slug ∧ parse_host url = Some host
    ∧ (slug = repository ∨ provider = GitHub ∧ eq_ignore_ascii_case slug repository = true)
    ∧ authorities_equal provider provider_host host = true
    ∧ local_git toplevel ["rev-parse"; "--verify";
        "refs/remotes/" +:+ remote +:+ "/" +:+ base_ref +:+ "^{commit}"] w = Exited true stdout stderr
    ∧ trim stdout = base_sha
    ∧ config = load_from_git_ref dir toplevel ("refs/remotes/" +:+ remote +:+ "/" +:+ base_ref) w
    ∧ supervisors = default [] (review_handoff_supervisors (cfg_handoff config));
  pb_bound : (60 ≤ stale_after)%N;
}.

Lemma policy_of_ok config supervisors stale_after :
  config_ok config → policy_of config = Ok (supervisors, stale_after) →
  supervisors = default [] (review_handoff_supervisors (cfg_handoff config)) ∧ (60 ≤ stale_after)%N.
Proof.
  intros [_ _ _ Hh] H. unfold policy_of in H. split_if H. injection H as <- <-. split; [done|].
  unfold handoff_ok in Hh. destruct (review_handoff_stale_after _) as [d|]; [|by vm_compute].
  specialize (Hh d eq_refl) as [Hd _]. unfold as_secs, secs in *. cbn. apply N.div_le_lower_bound; lia.
Qed.

Lemma supervisor_policy_ok repository base_sha base_ref w supervisors stale_after :
  supervisor_policy workdir provider provider_host remote repository base_sha base_ref w
    = Ok (supervisors, stale_after) →
  policy_at_base repository base_sha base_ref w supervisors stale_after.
Proof.
  unfold supervisor_policy. intros H. apply bind_ok in H as (dir & Hdir%ok_or_ok & H).
  apply bind_ok in H as (top & Htop%ok_or_ok & H). apply bind_ok in H as (url & Hurl%ok_or_ok & H).
  apply bind_ok in H as (slug & Hslug%ok_or_ok & H). apply bind_ok in H as (host & Hhost%ok_or_ok & H).
  cbv zeta in H. split_if H. apply orb_false_iff in Hif as [Hm%negb_false_iff Ha%negb_false_iff].
  destruct (local_git _ _ _) as [|[] stdout stderr] eqn:Eg; try done.
  destruct (_ !=? _) eqn:Hif in H; [by destruct (git_success _ _ _)|]. apply negb_decide_false in Hif.
  apply policy_of_ok in H as [Hs Hb]; [|apply load_from_git_ref_ok]. split; [|done].
  exists dir, top, url, slug, host, stdout, stderr, (load_from_git_ref dir top
    ("refs/remotes/" +:+ remote +:+ "/" +:+ base_ref) w). rewrite !app_assoc in Eg.
  split_and!; try done. destruct (provider ==? GitHub) eqn:E; bool_facts; auto.
Qed.

End policy.

(** ** The theorem at a concrete takeover

    The coordinator of the review stopped two hours ago; the supervisor takes over. *)
Module RetireWitness.
#[export] Instance hash : Hasher := demo_hasher.
#[export] Instance hash_laws : HasherLaws := demo_hasher_laws.
#[export] Instance secrets : SecretPattern := demo_secrets.
#[export] Instance uuid : UuidParse := demo_uuid.
#[export] Instance binding : Serialize SessionBinding := demo_binding.
#[export] Instance time : TimestampParse := λ s,
  from_option (λ n, Ok (Z.of_N n * 1000000000)%Z) (Err "no number") (parse_u64 s).
#[export] Instance time_text : TimestampText := λ t, "7".

Definition supervisor_digest : string := sha256_digest "supervisor".
Definition machine_json : JsonValue :=
  JObject [("machine", JString "m1"); ("available", JBool true); ("last_seen_at", JString "9990")].
Definition row_json (state : string) : JsonValue :=
  JObject [("session_id", JString "coordinator"); ("machine", JString "m1"); ("state", JString state);
    ("runtime_status", JString state); ("last_terminal_activity_at", JString "2000")].
Definition board_json (state : string) : JsonValue :=
  JObject [("ok", JBool true); ("data", JObject [("board", JObject [
    ("schema_version", JString "agent-session.board-view.v1"); ("truncated", JBool false);
    ("generated_at", JString "9995"); ("machines", JArray [machine_json]);
    ("records", JArray [row_json state])])])].
#[export] Instance json : JsonText := {|
  value_display := λ _, "{}"; value_from_str := λ s, Ok (board_json s) |}.

(** The world is the state of the coordinator's session. *)
#[export] Instance board : SessionBoard string := {|
  board_run := λ w, Some (true, w); board_now := λ _, 10000000000000%Z |}.
#[export] Instance toml : TomlText := λ _, Ok (TTable
  [("review_handoff", TTable [("supervisors", TArray [TString supervisor_digest])])]).
#[export] Instance files : LocalFiles string := {|
  local_canonicalize := λ p _, Some p; local_exists := λ _ _, true; local_file := λ _ _, None;
  local_git := λ _ args _,
    match args with
    | "remote" :: _ => Exited true "git@github.com:o/r.git" EmptyString
    | "rev-parse" :: "--verify" :: _ => Exited true (demo_sha "f") EmptyString
    | "rev-parse" :: _ => Exited true "/w" EmptyString
    | _ => Exited true "policy" EmptyString
    end;
  local_global_config := λ _, None |}.

Definition env : Env := mk_Env (Some "supervisor") None None.
Definition authority (w : string) : Authority :=
  local_authority (Some "/w") GitHub "github.com" "origin" None w.
Definition args : RecoverArgs :=
  {| rc_expected_head := HandoffWitness.head; rc_expected_state := demo_digest 0;
     rc_reason := "coordinator-retired"; rc_coordinator_session := None;
     rc_base_sha := Some (demo_sha "f") |}.
Definition taken_over (w : string) : exec ReviewHandoff :=
  propose_recover env (authority w) HandoffWitness.chain "o/r" HandoffWitness.head (demo_sha "f") "main" args.
Definition next : ReviewHandoff := unwrap_or HandoffWitness.assigned1 (taken_over "stopped").
End RetireWitness.

Section retire_witness.
Import RetireWitness.

End retire_witness.
