(* ===== verification/IoFacts.v ===== *)
(** * Lemmas on computations over a world

    Inversion of a computation that succeeded, step by step. *)
From S2P Require Import Prelude Error Provider PrView PrReviews LoopCommand Paths.
From stdpp Require Import options.

Section io.
Context {W : Type}.

Lemma io_bind_ok {A B} (m : io W A) (f : A → io W B) w b w' :
  (m ≫= f) w = (Ok b, w') ↔ ∃ a w1, m w = (Ok a, w1) ∧ f a w1 = (Ok b, w').
Proof.
  unfold mbind, io_bind. destruct (m w) as [[a|e] w1]; split.
  - intros H. by exists a, w1.
  - by intros (? & ? & [= -> ->] & H).
  - by intros [=].
  - by intros (? & ? & [=] & _).
Qed.

Lemma lift_ok {A} (m : exec A) (w : W) a w' : @lift W _ m w = (Ok a, w') ↔ m = Ok a ∧ w' = w.
Proof. unfold lift. naive_solver. Qed.

Lemma ret_ok {A} (x : A) (w : W) a w' : (mret x : io W A) w = (Ok a, w') ↔ x = a ∧ w' = w.
Proof. unfold mret, io_ret. naive_solver. Qed.

Lemma lift_bind_ok {A B} (m : exec A) (f : A → io W B) w b w' :
  (lift m ≫= f) w = (Ok b, w') ↔ ∃ a, m = Ok a ∧ f a w = (Ok b, w').
Proof.
  rewrite io_bind_ok. setoid_rewrite lift_ok. split.
  - by intros (a & ? & [Ha ->] & H); exists a.
  - by intros (a & Ha & H); exists a, w.
Qed.

Lemma lift_throw {A} e w (a : A) w' : @lift W A (throw e) w = (Ok a, w') ↔ False.
Proof. unfold lift, throw. naive_solver. Qed.

(** The result of a run that is known to succeed. *)
Lemma io_unwrap {A} (d : A) (m : io W A) w :
  is_ok (m w).1 = true → m w = (Ok (unwrap_or d (m w).1), (m w).2).
Proof. by destruct (m w) as [[]]. Qed.

Lemma try_ok {A} (m : io W A) w r w' :
  try_io m w = (Ok r, w') ↔
    match r with Ok a => m w = (Ok a, w') | Err e => m w = (Err (Fail e), w') end.
Proof.
  unfold try_io, caught. destruct (m w) as [[a|[]] w1], r; naive_solver.
Qed.
Lemma attempt_bind_inv {A B} (m : io W A) (f : exec A → io W B) w r w' :
  (attempt m ≫= f) w = (r, w') → ∃ x w1, m w = (x, w1) ∧ f x w1 = (r, w').
Proof.
  unfold attempt, mbind, io_bind. destruct (m w) as [x w1]. intros H. by exists x, w1.
Qed.
End io.

Lemma caught_ok {A} (m : exec A) r :
  caught m = Ok r ↔ match r with Ok a => m = Ok a | Err e => m = Err (Fail e) end.
Proof. unfold caught. destruct m as [a|[]], r; naive_solver. Qed.

(** ** What a computation does to the world

    A relation between the world before and the world after, whatever the outcome: nothing was
    posted, time did not go back. *)
Section keeps.
Context {W : Type} (R : W → W → Prop) `{PO : !PreOrder R}.

Definition keeps {A} (m : io W A) : Prop := ∀ w, R w (m w).2.

Lemma keeps_lift {A} (m : exec A) : keeps (lift m).
Proof using PO. by intros w. Qed.

Lemma keeps_ret {A} (a : A) : keeps (mret a).
Proof using PO. by intros w. Qed.

Lemma keeps_bind {A B} (m : io W A) (f : A → io W B) :
  keeps m → (∀ a, keeps (f a)) → keeps (m ≫= f).
Proof using PO.
  intros Hm Hf w. unfold mbind, io_bind. specialize (Hm w).
  destruct (m w) as [[a|e] w1]; cbn in *; [|done]. etrans; [done|apply Hf].
Qed.

Lemma keeps_attempt {A} (m : io W A) : keeps m → keeps (attempt m).
Proof. intros H w. specialize (H w). unfold attempt. by destruct (m w). Qed.

Lemma keeps_try {A} (m : io W A) : keeps m → keeps (try_io m).
Proof. intros H w. specialize (H w). unfold try_io. by destruct (m w). Qed.

(** Calls that do not write keep the relation. *)
Definition calls_keep `{!Backend W} : Prop := ∀ c w, is_write c = false → R w (run_call c w).2.

Lemma keeps_call `{!Backend W} c : calls_keep → is_write c = false → keeps (call c).
Proof. intros H Hc w. unfold call. specialize (H c w Hc). by destruct (run_call c w). Qed.

Lemma keeps_world {A} (f : W → exec A) : keeps (λ w, (f w, w)).
Proof using PO. by intros w. Qed.
End keeps.

(** ** Computations that answer or fail by a typed error *)
Section total.
Context {W : Type}.

Definition total {A} (m : io W A) : Prop := ∀ w, regular (m w).1 = true.

Lemma regular_call `{!Backend W} c (w : W) : regular (call c w).1 = true.
Proof. unfold call, fails, map_err. by destruct (run_call c w) as [[]]. Qed.

Lemma total_call `{!Backend W} c : total (call c).
Proof. intros w. apply regular_call. Qed.

Lemma total_lift {A} (m : exec A) : regular m = true → total (lift m).
Proof. by intros H w. Qed.

Lemma total_ret {A} (a : A) : total (mret a).
Proof. by intros w. Qed.

Lemma total_bind {A B} (m : io W A) (f : A → io W B) :
  total m → (∀ a, total (f a)) → total (m ≫= f).
Proof.
  intros Hm Hf w. unfold mbind, io_bind. specialize (Hm w). destruct (m w) as [[a|e] w1]; [|done].
  apply Hf.
Qed.

(** The answer of an attempt is itself regular. *)
Lemma total_attempt {A B} (m : io W A) (f : exec A → io W B) :
  total m → (∀ x, regular x = true → total (f x)) → total (attempt m ≫= f).
Proof.
  intros Hm Hf w. unfold attempt, mbind, io_bind. specialize (Hm w).
  destruct (m w) as [x w1]. by apply Hf.
Qed.

Lemma total_now `{!Clock W} : total now.
Proof. done. Qed.
End total.

(** [total_tac]: a computation made of calls, liftings and tests. *)
Ltac total_tac :=
  repeat lazymatch goal with
    | |- total (lift _) => apply total_lift; solve [done|auto 3 with ledger]
    | |- total (mret _) => apply total_ret
    | |- total (call _) => apply total_call
    | |- total now => apply total_now
    | |- total (attempt _ ≫= _) => apply total_attempt; [|intros ? ?]
    | |- total (_ ≫= _) => apply total_bind; [|intros ?]
    | |- total (if ?b then _ else _) => destruct b
    | |- total (match ?x with _ => _ end) => destruct x
    | |- total (let _ := _ in _) => progress cbv zeta
    | |- total _ => solve [auto 2]
    end.

(** ** Time passes *)
Section time.
Context {W : Type} `{BE : !Backend W, CK : !Clock W}.

(** Sleeping takes at least the time asked for, and no call turns the clock back. *)
Record clock_moves : Prop := {
  cm_sleep : ∀ d w, (clock_now w + d ≤ clock_now (clock_sleep d w))%N;
  cm_call : ∀ c w, (clock_now w ≤ clock_now (run_call c w).2)%N;
}.

Definition later (w w' : W) : Prop := (clock_now w ≤ clock_now w')%N.
#[export] Instance later_order : PreOrder later.
Proof. split; [intros w; unfold later; lia|]. intros w1 w2 w3. unfold later. lia. Qed.

Lemma later_calls : clock_moves → calls_keep later.
Proof. intros H c w _. apply H. Qed.

Lemma keeps_now (R : W → W → Prop) `{!PreOrder R} : keeps R now.
Proof. by intros w. Qed.
End time.

(** [keeps_tac]: a computation made of calls that do not write, liftings and tests. *)
Ltac keeps_tac :=
  repeat lazymatch goal with
    | |- keeps _ (lift _) => apply keeps_lift; typeclasses eauto
    | |- keeps _ (mret _) => apply keeps_ret; typeclasses eauto
    | |- keeps _ (_ ≫= _) => apply keeps_bind; [typeclasses eauto| |intros ?]
    | |- keeps _ (attempt _) => apply keeps_attempt
    | |- keeps _ (try_io _) => apply keeps_try
    | |- keeps _ (call _) => apply keeps_call; [done|reflexivity]
    | |- keeps _ now => apply keeps_now; typeclasses eauto
    | |- keeps _ (if ?b then _ else _) => destruct b
    | |- keeps _ (match ?x with _ => _ end) => destruct x
    | |- keeps _ (let _ := _ in _) => progress cbv zeta
    | |- keeps _ _ => solve [auto 2]
    end.

(** [io_inv H]: the first step of a computation that succeeded. *)
Ltac io_inv H :=
  first
    [ rewrite lift_throw in H; contradiction
    | rewrite lift_bind_ok in H
    | rewrite io_bind_ok in H
    | rewrite lift_ok in H
    | rewrite ret_ok in H ].

(** [io_if H]: case analysis on a test in front of a computation that succeeded. *)
Ltac io_if H :=
  match type of H with
  | (if ?b then _ else _) _ = _ =>
      let E := fresh "Hif" in destruct b eqn:E; try (rewrite lift_throw in H; contradiction)
  end.
