(* ===== verification/IssueTrackerFacts.v ===== *)
(** * Theorems on the tracker commands

    A write is an edit of the body that the command has just read, and what it writes is read
    back; the check of states judges an issue by all the rows that name it. *)
From S2P Require Import Prelude RStr Collections Payload Error Types Validations Provider Report Hosts Detect IssueTracker.
From S2P Require Import Tracker TrackerFacts TrackerEditFacts TrackerGraphFacts IoFacts.
From stdpp Require Import options.

Section commands.
Context {W : Type} `{BE : !Backend W, TF : !TextFiles W, JT : !JsonText, PE : !PayloadEnv}.

(** ** The writes of a command *)
Section writes.
Context (log : W → list BackendCall).

(** [log] is what has been written. *)
Record issue_log : Prop := {
  il_read : ∀ c w, is_write c = false → log (run_call c w).2 = log w;
  il_write : ∀ c w, is_write c = true → log (run_call c w).2 = log w ++ [c];
}.
Context (Log : issue_log).

Definition body_edit (ctx : ProviderContext) (id : N) (body : string) : BackendCall :=
  IssueEdit (cx_repo ctx) id None (Some body) [] [] [].

Lemma read_issue_world ctx id w : (read_issue ctx id w).2 = (run_call (build_view_call_with ctx id false) w).2.
Proof.
  unfold read_issue, call, mbind, io_bind, lift. by destruct (run_call _ w) as [[stdout|e] w1].
Qed.

Lemma read_issue_log ctx id w : log (read_issue ctx id w).2 = log w.
Proof using Log. rewrite read_issue_world. by apply (il_read Log). Qed.

Lemma read_text_world a b path (w : W) : (read_text a b path w).2 = w.
Proof. done. Qed.

Lemma built_edit ctx id body c : build_body_edit_call ctx id body = Ok c → c = body_edit ctx id body.
Proof. unfold build_body_edit_call. destruct (guard_body body); [|done]. by intros [= <-]. Qed.

(** The comment of the arguments: planned before any call, from the text of the file. *)
Lemma planned_comment_inv ctx args (w : W) r w1 :
  planned_comment ctx args w = (r, w1) →
  w1 = w ∧ ∀ c, r = Ok c →
    match ta_comment_file args with
    | None => c = None
    | Some path => ∃ text, c = Some (IssueComment (cx_repo ctx) (ta_id args) text)
    end.
Proof.
  unfold planned_comment. destruct (ta_comment_file args) as [path|].
  2:{ intros [= <- <-]. split; [done|]. by intros c [= <-]. }
  unfold comment_call, mbind, io_bind, lift, mret, io_ret, read_text.
  destruct (if path ==? "-" then _ else _) as [text|e]; [|intros [= <- <-]; by split].
  unfold build_guarded_comment_call. destruct (is_empty (trim text)); [intros [= <- <-]; by split|].
  destruct (_ ← _; _) as [c|] eqn:E; cbn; intros [= <- <-]; (split; [done|]); [|done].
  intros ? [= <-]. exists text. inv_ok. by subst.
Qed.

(** Once the row is ticked, the command reads and writes nothing. *)
Lemma ticked_reads_only dry_run ctx args (w : W) view w1 e :
  read_issue ctx (ta_id args) w = (Ok view, w1) →
  tick (iv_body view) (ta_item args) (ta_pr args) = Ok e → changed e = false →
  log (tick_compute dry_run ctx args w).2 = log w.
Proof using Log.
  intros Hread Ht Hc. pose proof (read_issue_log ctx (ta_id args) w) as Hlog. rewrite Hread in Hlog. cbn in Hlog.
  unfold tick_compute. destruct (is_some_and _ _); [done|].
  unfold mbind at 1, io_bind at 1. destruct (planned_comment ctx args w) as [comment w0] eqn:Ec.
  apply planned_comment_inv in Ec as [-> _]. destruct comment as [comment|]; [|done].
  unfold mbind at 1, io_bind at 1. rewrite Hread. unfold mbind, io_bind, lift. rewrite Ht. cbn. by rewrite Hc.
Qed.


(** ** The graph *)

(** A plan that writes: the graph of the rows, in a tracker that has no finding. *)
Lemma plan_writes target body write dry_run p new :
  graph_plan target body write dry_run = Ok (p, Some new) →
  write = true ∧ has_phase_table body = true ∧ row_findings (parse body) = Ok []
  ∧ new = ge_body (write_graph body (generate (tb_rows (parse body)))).
Proof.
  unfold graph_plan. destruct (write && negb (has_phase_table body)) eqn:E; [done|].
  destruct (row_findings (parse body)) as [[|f fs]|]; [|done..]. cbn.
  destruct write; [|done]. cbn in *. apply negb_false_iff in E.
  destruct (ge_change _ ==? Unchanged); [done|]. by intros [= _ <-].
Qed.

(** Planning again from the body that was written changes nothing. *)
Lemma plan_again target body write dry_run :
  has_phase_table body = true → row_findings (parse body) = Ok [] →
  ∃ p, graph_plan target (ge_body (write_graph body (generate (tb_rows (parse body))))) write dry_run = Ok (p, None)
    ∧ gp_current p = true ∧ gp_changed p = false ∧ gp_written p = false ∧ gp_findings p = []
    ∧ gp_graph p = Some (join nl (generate (tb_rows (parse body)))).
Proof.
  intros Ht Hf. destruct (written_graph body) as (Hs & Htable & _ & Hgen & Hagain).
  unfold graph_plan. rewrite Htable, Ht, andb_false_r.
  rewrite (same_table_clean _ _ (same_table_sym _ _ Hs) Hf). cbn [mbind result_bind]. rewrite Hgen, Hagain.
  cbn [ge_change]. rewrite (bool_decide_eq_true_2 (Unchanged = Unchanged)), orb_true_r by done.
  eexists. split; [done|]. done.
Qed.

(** C16: The graph command writes nothing, or it edits the issue once, with the graph of the rows that it
    has just read put in their body; from an issue that still holds that body the command reads
    that its graph is current, and writes nothing. *)
Theorem a_graph_edit_is_read_back_current dry_run ctx id write (w : W) r w' :
  graph_compute dry_run ctx id write w = (r, w') →
  (log w' = log w ∧ ∀ p, r = Ok p → gp_written p = false)
  ∨ ∃ view w1,
      let rows := tb_rows (parse (iv_body view)) in
      let body := ge_body (write_graph (iv_body view) (generate rows)) in
      read_issue ctx id w = (Ok view, w1) ∧ dry_run = false ∧ write = true
      ∧ row_findings (parse (iv_body view)) = Ok []
      ∧ log w' = log w ++ [body_edit ctx id body]
      ∧ (∀ p, r = Ok p → gp_written p = true)
      ∧ ∀ dry write w2 view' w3, read_issue ctx id w2 = (Ok view', w3) → iv_body view' = body →
          ∃ p, graph_compute dry ctx id write w2 = (Ok p, w3) ∧ log w3 = log w2
            ∧ gp_current p = true ∧ gp_changed p = false ∧ gp_written p = false ∧ gp_findings p = []
            ∧ gp_graph p = Some (join nl (generate rows)).
Proof using Log.
  intros H. unfold graph_compute in H.
  pose proof (read_issue_log ctx id w) as Hlog.
  unfold mbind at 1, io_bind at 1 in H. destruct (read_issue ctx id w) as [[view|e] w1] eqn:Hread; cbn in Hlog.
  2:{ injection H as <- <-. by left. }
  unfold mbind at 1, io_bind at 1, lift at 1 in H.
  destruct (graph_plan _ _ _ _) as [[p body]|] eqn:Hp; [|injection H as <- <-; by left].
  destruct body as [body|].
  2:{ injection H as <- <-. left. split; [done|]. intros ? [= <-]. unfold graph_plan in Hp.
      destruct (_ && _); [done|]. destruct (row_findings _) as [[|f fs]|]; [|by injection Hp as <-|done].
      cbn in Hp. destruct (_ || _); [by injection Hp as <-|done]. }
  destruct (plan_writes _ _ _ _ _ _ Hp) as (-> & Ht & Hf & ->).
  unfold mbind at 1, io_bind at 1, lift at 1 in H.
  destruct (build_body_edit_call _ _ _) as [edit|err] eqn:Hedit; cbn [fails map_err] in H.
  2:{ injection H as <- <-. by left. }
  apply built_edit in Hedit as ->. destruct dry_run.
  { injection H as <- <-. left. split; [done|]. by intros ? [= <-]. }
  right. exists view, w1. cbn zeta. do 3 (split; [done|]). split; [done|].
  set (edit := body_edit _ _ _) in *. pose proof (il_write Log edit w1 eq_refl) as Hw. rewrite Hlog in Hw.
  unfold mbind, io_bind, call in H. destruct (run_call edit w1) as [[out|err] w2];
    injection H as <- <-; (split; [done|]); (split; [by intros ? [= <-]|]).
  all: intros dry write w4 view' w5 Hread' Hbody; unfold graph_compute, mbind, io_bind; rewrite Hread', Hbody;
    destruct (plan_again (target_issue view') _ write dry Ht Hf) as (p' & Hplan & Hfacts);
    pose proof (read_issue_log ctx id w4) as Hlog'; rewrite Hread' in Hlog'; unfold lift; rewrite Hplan;
    by exists p'.
Qed.
End writes.

(** ** The check of states *)
Section states.
Context (own : option string).

(** The issue that a row names, whether a row names this issue, and whether all rows that do are
    done. *)
Definition row_key (row : Row) : option RefKey := key_of own <$> row_reference row.
Definition row_names (key : RefKey) (row : Row) : bool := bool_decide (row_key row = Some key).
Definition whole_done (rows : list Row) (key : RefKey) : bool :=
  forallb row_done (List.filter (row_names key) rows).

Lemma whole_done_app rows1 rows2 key : whole_done (rows1 ++ rows2) key = whole_done rows1 key && whole_done rows2 key.
Proof. unfold whole_done. by rewrite List.filter_app, forallb_app. Qed.

Lemma whole_done_unnamed rows key : key ∉ omap row_key rows → whole_done rows key = true.
Proof.
  intros H. apply forallb_forall. intros row [Hin Hn]%filter_In. exfalso. apply H.
  apply bool_decide_eq_true in Hn. apply list_elem_of_omap. exists row. by rewrite list_elem_of_In.
Qed.

Record refs_ok (rows : list Row) (acc : list RefKey * gmap RefKey bool) : Prop := {
  ro_distinct : NoDup acc.1;
  ro_keys : ∀ key, key ∈ acc.1 ↔ key ∈ omap row_key rows;
  ro_done : ∀ key, acc.2 !! key = if bool_decide (key ∈ acc.1) then Some (whole_done rows key) else None;
}.

Lemma refs_step rows acc row : refs_ok rows acc → refs_ok (rows ++ [row]) (note_ref own acc row).
Proof.
  intros [Hn Hk Hd]. unfold note_ref.
  assert (Hkey : omap row_key (rows ++ [row]) = omap row_key rows ++ option_list (row_key row))
    by (rewrite omap_app; cbn; by destruct (row_key row)).
  unfold row_key in Hkey at 3. destruct (row_reference row) as [reference|] eqn:Er; cbn [fmap option_fmap option_map option_list] in Hkey.
  2:{ rewrite List.app_nil_r in Hkey. split; [done| |].
      - intros key. by rewrite Hkey.
      - intros key. rewrite Hd, whole_done_app. unfold whole_done at 3. cbn.
        unfold row_names, row_key. rewrite Er. cbn. by rewrite andb_true_r. }
  set (key := key_of own reference) in *. pose proof (Hd key) as Hkd.
  change (option_list (Some key)) with [key] in Hkey.
  assert (Hnames : ∀ k, row_names k row = bool_decide (key = k)).
  { intros k. unfold row_names, row_key. rewrite Er. cbn. fold key. apply bool_decide_ext. naive_solver. }
  assert (Hone : ∀ k, whole_done [row] k = if bool_decide (key = k) then row_done row else true).
  { intros k. unfold whole_done. cbn. rewrite Hnames. destruct (bool_decide (key = k)); [cbn; by rewrite andb_true_r|done]. }
  assert (Hin : is_some (acc.2 !! key) = bool_decide (key ∈ acc.1)) by (rewrite Hkd; by destruct (bool_decide _)).
  rewrite Hin. split; cbn [fst snd].
  - case_bool_decide as E; [done|]. apply NoDup_app. split; [done|]. split; [|apply NoDup_singleton].
    intros x Hx ->%list_elem_of_singleton. done.
  - intros k. rewrite Hkey, elem_of_app, list_elem_of_singleton, <- Hk.
    case_bool_decide; [naive_solver|]. by rewrite elem_of_app, list_elem_of_singleton.
  - intros k. rewrite whole_done_app, Hone. destruct (decide (key = k)) as [<-|Hne].
    + rewrite lookup_insert_eq, Hkd, (bool_decide_eq_true_2 (key = key)) by done.
      case_bool_decide as E.
      * by rewrite bool_decide_eq_true_2.
      * rewrite bool_decide_eq_true_2 by (apply elem_of_app; right; by left).
        rewrite whole_done_unnamed; [done|]. by rewrite <- Hk.
    + rewrite lookup_insert_ne, (bool_decide_eq_false_2 (key = k)), andb_true_r, Hd by done.
      case_bool_decide as E; [done|].
      rewrite (bool_decide_ext (k ∈ acc.1 ++ [key]) (k ∈ acc.1)); [done|].
      rewrite elem_of_app, list_elem_of_singleton. naive_solver.
Qed.

Lemma refs_of_rows rows : refs_ok rows (fold_left (note_ref own) rows ([], ∅)).
Proof.
  induction rows as [|row rows IH] using rev_ind.
  - split; [constructor|done|]. intros key. cbn. by rewrite lookup_empty.
  - rewrite fold_left_app. cbn. by apply refs_step.
Qed.

(** What the check says of a row whose issue is in this state: it judges an issue that is open by all
    the rows that name it. *)
Definition verdict (rows : list Row) (state : RefKey → RefState) (row : Row) : option TrackerFinding :=
  reference ← row_reference row;
  let key := key_of own reference in
  match state key with
  | RefUnreadable why =>
      Some (mk_TrackerFinding "unreadable-ref" (Some (row_line row)) [row_id row]
              (row_id row +:+ " cannot read " +:+ ref_text reference +:+ ": " +:+ why))
  | RefClosed =>
      if row_done row then None
      else Some (state_mismatch row (" is not ticked but " +:+ ref_text reference +:+ " is closed"))
  | RefOpen =>
      if whole_done rows key
      then Some (state_mismatch row (" is ticked but " +:+ ref_text reference +:+ " is open"))
      else None
  end.

Lemma state_finding_verdict rows all_done states state row :
  row ∈ rows → (∀ key, key ∈ omap row_key rows → states !! key = Some (state key)) →
  (∀ key, key ∈ omap row_key rows → all_done !! key = Some (whole_done rows key)) →
  state_finding own all_done states row = Ok (verdict rows state row).
Proof.
  intros Hin Hs Hd. unfold state_finding, verdict. destruct (row_reference row) as [reference|] eqn:Er; [|done].
  assert (Hk : key_of own reference ∈ omap row_key rows)
    by (apply list_elem_of_omap; exists row; split; [done|]; unfold row_key; by rewrite Er).
  cbn [mbind option_bind]. rewrite Hs by done. cbn [expect mbind result_bind].
  destruct (state _); [|by destruct (row_done row)|done].
  rewrite Hd by done. cbn. by destruct (whole_done rows _).
Qed.

Lemma state_findings_verdicts rows all_done states state l :
  (∀ row, row ∈ l → row ∈ rows) → (∀ key, key ∈ omap row_key rows → states !! key = Some (state key)) →
  (∀ key, key ∈ omap row_key rows → all_done !! key = Some (whole_done rows key)) →
  mapR (state_finding own all_done states) l = Ok (verdict rows state <$> l).
Proof.
  intros Hl Hs Hd. induction l as [|row l IH]; [done|]. cbn.
  rewrite (state_finding_verdict rows _ _ state) by (done || (apply Hl; by left)). cbn.
  rewrite IH; [done|]. intros r Hr. apply Hl. by right.
Qed.
End states.

Lemma omap_id_fmap {A B} (f : A → option B) (l : list A) : omap id (f <$> l) = omap f l.
Proof. induction l as [|x l IH]; [done|]. cbn. rewrite IH. by destruct (f x). Qed.

(** Reading the issues, each of which the provider answers in the same way at any time. *)
Lemma read_states_answers ctx distinct states (w : W) answers :
  (∀ key w, (read_state ctx key w).1 = answers key) → NoDup distinct →
  match (read_states ctx distinct states w).1 with
  | Ok final => (∀ key, key ∈ distinct → ∃ s, answers key = Ok s ∧ final !! key = Some s)
                ∧ ∀ key, key ∉ distinct → final !! key = states !! key
  | Err e => ∃ key, key ∈ distinct ∧ answers key = Err e
  end.
Proof.
  intros Ha. revert states w. induction distinct as [|key distinct IH]; intros states w Hn.
  - cbn. split; [|done]. by intros key ?%elem_of_nil.
  - apply NoDup_cons in Hn as [Hnot Hn]. cbn [read_states]. unfold mbind, io_bind.
    specialize (Ha key w) as Hkey. destruct (read_state ctx key w) as [[s|e] w1]; cbn in Hkey.
    2:{ exists key. split; [by left|done]. }
    specialize (IH (<[key := s]> states) w1 Hn). destruct (read_states ctx distinct _ w1) as [[final|e] w2]; cbn in *.
    + destruct IH as [H1 H2]. split.
      * intros k [->|Hk]%elem_of_cons; [|by apply H1]. exists s. by rewrite H2, lookup_insert_eq.
      * intros k [Hne Hk]%not_elem_of_cons. by rewrite H2, lookup_insert_ne.
    + destruct IH as (k & Hk & He). exists k. split; [by right|done].
Qed.

End commands.

(** ** The theorems at a concrete tracker

    Issue 1 of [o/r] is a tracker with a row that is delivered by issue 2, which is open, and one by
    issue 3, which is closed; the world is what has been written. *)
Module TrackerWitness.
Definition mark (s : string) : string := s +:+ nl.
Definition body : string :=
  mark "## Phase table" +:+ mark "- [ ] **A1** First: #2" +:+ mark "- [ ] **A2** Second: #3"
  +:+ mark "- [x] **A3** Third: #2".

Definition issue (number : N) (state body : string) : JsonValue := JObject
  [("number", JNumber number); ("url", JString "https://github.com/o/r/issues/1"); ("state", JString state);
   ("title", JString "T"); ("body", JString body); ("labels", JArray []); ("assignees", JArray [])].

#[export] Instance json : JsonText := {|
  value_display := λ _, "{}";
  value_from_str := λ s,
    if s ==? "1" then Ok (issue 1 "OPEN" body)
    else if s ==? "2" then Ok (issue 2 "OPEN" EmptyString)
    else if s ==? "3" then Ok (issue 3 "CLOSED" EmptyString) else Err "not a known text" |}.
#[export] Instance backend : Backend (list BackendCall) := {|
  run_call := λ c w,
    (Ok match c with IssueView _ number _ => dec number | _ => "https://github.com/o/r/issues/1#c" end,
     if is_write c then w ++ [c] else w) |}.
#[export] Instance texts : TextFiles (list BackendCall) := {|
  text_stdin := λ _, Err "closed"; text_file := λ _ _, Ok "Delivered in #9."; text_write := λ _ _ w, (Ok tt, w) |}.
#[export] Instance env : PayloadEnv := {| env_allow_local_path := None; env_allow_agent_attribution := None |}.

Definition ctx : ProviderContext := mk_ProviderContext GitHub "github.com" FromFlag (Some "o/r").
Definition args : TickArgs := mk_TickArgs 1 "A1" (Some "#9") (Some "comment.md").

Lemma tracker_logged : issue_log (λ w : list BackendCall, w).
Proof. split; intros c w Hc; cbn; by rewrite Hc. Qed.


Lemma a_graph_edit_is_read_back_current_witness :
  ∃ text, (graph_compute false ctx 1 true []).2 = [body_edit ctx 1 text].
Proof.
  destruct (a_graph_edit_is_read_back_current (λ w, w) tracker_logged false ctx 1 true [] _ _ (surjective_pairing _))
    as [[H _]|(view & w1 & _ & _ & _ & _ & Hlog & _)]; [by vm_compute in H|].
  eexists. exact Hlog.
Defined.

(** The answers do not depend on the world. *)
Lemma steady key w : (read_state ctx key w).1 = (read_state ctx key []).1.
Proof.
  assert (H : ∀ c n, (read_state_of c n w).1 = (read_state_of c n []).1).
  { intros c n. unfold read_state_of, attempt, read_issue, call, mbind, io_bind, lift. cbn.
    by destruct (parse_view_output_with _ _ _) as [v|[[]| |]]. }
  destruct key as [[repo|] n]; apply H.
Qed.

(** The repository of another tracker is compared byte for byte: two spellings are two issues. *)
Example two_spellings_are_two_issues :
  key_of (Some "o/r") (mk_IssueRef (Some "Acme") (Some "web") 3)
  ≠ key_of (Some "o/r") (mk_IssueRef (Some "acme") (Some "web") 3)
  ∧ key_of (Some "o/r") (mk_IssueRef (Some "O") (Some "R") 3) = key_of (Some "o/r") (mk_IssueRef None None 3).
Proof. by split. Qed.

End TrackerWitness.
