(* ===== verification/LoopInputFacts.v ===== *)
(** * Theorems on what the commands read

    The findings file, the pages of comments, the approval comment and the provider's proof
    of a fast-forward. *)
From S2P Require Import Prelude RStr Collections Error Types Markers ReviewLoop Identity Record.
From S2P Require Import Handoff Correction Supersession Acceptance Chain Provider PrView.
From S2P Require Import PrReviews Append LoopInput LoopCommand IoFacts ReviewLoopFacts.
From S2P Require Import ReceiptFacts LedgerFacts World.
From stdpp Require Import options.

(** ** The findings file *)
Section validate.
Context `{JT : !JsonText, ES : !EnvelopeSerde}.

Definition count_of (st : ReviewFindingStatus) (l : list ReviewFindingObservation) : N :=
  count_if (λ o, o_status o ==? st) l.

Lemma count_if_cons {A} (p : A → bool) x l :
  count_if p (x :: l) = ((if p x then 1 else 0) + count_if p l)%N.
Proof. unfold count_if. cbn. destruct (p x); cbn; lia. Qed.

Definition tally (counts : list (string * N)) (n : ReviewFindingStatus → N) : Prop :=
  counts = (λ st, (status_as_str st, n st)) <$> ReviewFindingStatus_ALL.

Lemma bump_tally st counts n :
  tally counts n → ∃ counts', bump (status_as_str st) counts = Ok counts'
    ∧ tally counts' (λ st', (n st' + if st' ==? st then 1 else 0)%N).
Proof.
  intros ->. unfold tally. destruct st; cbn; eexists; (split; [reflexivity|]); cbn;
    repeat first [rewrite N.add_0_r | f_equal].
Qed.

Lemma bump_all l counts n :
  tally counts n → ∃ counts',
    foldM (λ counts o, bump (status_as_str (o_status o)) counts) counts l = Ok counts'
    ∧ tally counts' (λ st, (n st + count_of st l)%N).
Proof.
  revert counts n. induction l as [|o l IH]; intros counts n H; cbn [foldM].
  - exists counts. split; [done|]. unfold tally in *. rewrite H. apply list_fmap_ext.
    intros _ st _. cbn. by rewrite N.add_0_r.
  - destruct (bump_tally (o_status o) counts n H) as (c1 & -> & H1). cbn [mbind result_bind].
    destruct (IH c1 _ H1) as (c2 & -> & H2). exists c2. split; [done|]. unfold tally in *.
    rewrite H2. apply list_fmap_ext. intros _ st _. cbn. f_equal. unfold count_of.
    rewrite count_if_cons. replace (o_status o ==? st) with (st ==? o_status o); [lia|].
    apply bool_decide_ext. split; congruence.
Qed.

Lemma total_count l :
  foldr N.add 0%N ((λ st, count_of st l) <$> ReviewFindingStatus_ALL) = N.of_nat (length l).
Proof.
  induction l as [|o l IH]; [done|]. cbn [length]. rewrite Nat2N.inj_succ, <- IH.
  unfold count_of, ReviewFindingStatus_ALL. cbn. rewrite !count_if_cons.
  destruct (o_status o); repeat (case_bool_decide; try congruence); lia.
Qed.

(** [validate] decides exactly what an append decides offline: it accepts a findings file
    iff its rows parse and canonicalise, the very functions the append runs, and then every
    identity is counted once, under its disposition, so the counts sum to the number of
    identities; it never panics on the label it looks up. *)
Theorem validate_accepts_what_observe_accepts raw :
  (∀ p, validate_payload raw = Ok p ↔
    ∃ input canonical, ObservationInput_parse raw = Ok input
      ∧ canonical_observations (in_observations input) = Ok canonical
      ∧ vp_shape p = detect_findings_shape raw
      ∧ vp_row_count p = length (in_observations input)
      ∧ vp_identity_count p = size canonical
      ∧ vp_dispositions p = (λ st, (status_as_str st, count_of st (values canonical)))
                              <$> ReviewFindingStatus_ALL
      ∧ vp_blocking_count p = count_if o_blocking (values canonical)
      ∧ vp_duplicate_identities p =
          (if (size canonical <? length (in_observations input))%nat
           then collapsed_identities (in_observations input) else []))
  ∧ (∀ p, validate_payload raw = Ok p →
       foldr N.add 0%N (vp_dispositions p).*2 = N.of_nat (vp_identity_count p))
  ∧ (∀ e, validate_payload raw = Err e ↔
       ObservationInput_parse raw = Err e
       ∨ ∃ input, ObservationInput_parse raw = Ok input
           ∧ canonical_observations (in_observations input) = Err e).
Proof.
  unfold validate_payload. destruct (ObservationInput_parse raw) as [input|e0]; cbn [mbind result_bind].
  2:{ split; [|split]; [|done|].
      - intros p. split; [done|]. by intros (? & ? & [=] & _).
      - intros e. split; [intros [= ->]; by left|]. intros [[= ->]|(? & [=] & _)]. done. }
  destruct (canonical_observations (in_observations input)) as [canonical|e0] eqn:Ec; cbn [mbind result_bind].
  2:{ split; [|split]; [|done|].
      - intros p. split; [done|]. intros (i & c & [= ->] & H & _). congruence.
      - intros e. split; [intros [= ->]; right; by exists input|]. intros [[=]|(i & [= ->] & H)]. congruence. }
  destruct (bump_all (values canonical) _ (λ _, 0%N) eq_refl) as (counts & -> & ->). cbn [mbind result_bind].
  split; [|split].
  - intros p. split.
    + intros [= <-]. by exists input, canonical.
    + intros (i & c & [= <-] & Hc & H). rewrite Ec in Hc. injection Hc as <-.
      destruct p. cbn in *. destruct_and! H. by subst.
  - intros p [= <-]. transitivity (N.of_nat (length (values canonical))).
    + exact (total_count (values canonical)).
    + cbn [vp_identity_count]. unfold values. by rewrite length_fmap, length_entries.
  - intros e. split; [done|]. intros [[=]|(i & [= ->] & H)]. congruence.
Qed.
End validate.

(** ** The pages of comments *)
Section pages.
Context `{HS : !Hasher, LS : !LedgerSerde, JT : !JsonText, UP : !UrlParse,
          SP : !SecretPattern, TP : !TimestampParse} {W : Type} `{BE : !Backend W}.

(** The text of a page the provider answered, and what was read from it. *)
Definition page_of (page : ReviewStatePage) : Prop :=
  ∃ text, parse_review_state_page text = Ok page.

(** Who may write the ledger: the viewer (as an app, also without its suffix), or an author
    the provider reports as an owner, a member or a collaborator. *)
Definition trusted_author (viewer : string) (node : JsonValue) : Prop :=
  (∃ author, pointer ["author"; "login"] node ≫= as_str = Some author
     ∧ (author = viewer ∨ author ≠ EmptyString ∧ viewer = author +:+ "[bot]"))
  ∨ ∃ association, get_str "authorAssociation" node = Some association
     ∧ association ∈ ["OWNER"; "MEMBER"; "COLLABORATOR"].

Lemma trusted_node_author viewer node : trusted_node viewer node = true → trusted_author viewer node.
Proof.
  unfold trusted_node, trusted_author. intros [H|H]%orb_true_iff; [left|right].
  - destruct (pointer ["author"; "login"] node ≫= as_str) as [author|]; [|done]. exists author.
    split; [done|]. cbn in H. unfold github_comment_author_is_viewer in H.
    apply orb_true_iff in H as [H|H]; bool_facts; [by left|right].
    destruct (strip_suffix "[bot]" viewer) as [c|] eqn:E; [|done]. cbn in H.
    apply andb_true_iff in H as [H1 H2]. bool_facts. subst c.
    apply strip_suffix_some in E. split; [|done]. by intros ->.
  - destruct (get_str "authorAssociation" node) as [a|]; [|done]. exists a. split; [done|].
    cbn in H. rewrite !orb_true_iff, !bool_decide_eq_true in H. set_solver.
Qed.

(** A comment that was trusted on a page: its node names a trusted author. *)
Definition trusted_on (page : ReviewStatePage) (c : ReviewStateComment) : Prop :=
  ∃ node, trusted_node (pg_viewer_login page) node = true ∧ node_comment node = Some c.

Lemma page_trusted page c : page_of page → c ∈ pg_trusted_comments page → trusted_on page c.
Proof.
  intros [text H]. unfold parse_review_state_page in H. split_if H.
  apply bind_ok in H as (value & _ & H). split_if H.
  apply bind_ok in H as (viewer & _ & H). apply bind_ok in H as (comments & _ & H).
  apply bind_ok in H as (nodes & _ & H). cbv zeta in H. apply bind_ok in H as (info & _ & H).
  apply bind_ok in H as (next & _ & H). injection H as <-. cbn.
  intros (node & Hin & Hc)%list_elem_of_omap. exists node. split; [|done].
  by apply elem_of_list_filter in Hin as [? ?].
Qed.

(** What [n] pages from a cursor amount to. *)
Definition pages_read (n : nat) (repository : string) (number : N) (viewer : option string)
    (acc : list ReviewStateComment) (snapshot : ReviewStateSnapshot) : Prop :=
  ∃ pages, 0 < length pages ≤ n ∧ Forall page_of pages
    ∧ Forall (λ page, pg_viewer_login page = sn_viewer_login snapshot) pages
    ∧ (∀ v, viewer = Some v → v = sn_viewer_login snapshot)
    ∧ (∀ i page, pages !! i = Some page → pg_has_next_page page = negb (S i =? length pages)%nat)
    ∧ sn_trusted_comments snapshot = acc ++ concat (pg_trusted_comments <$> pages)
    ∧ parse_chain (rc_body <$> sn_trusted_comments snapshot) repository number
      = Ok (sn_chain snapshot).

Lemma read_pages_ok n repository number cursor seen viewer acc w snapshot w' :
  read_pages n repository number cursor seen viewer acc w = (Ok snapshot, w') →
  pages_read n repository number viewer acc snapshot.
Proof.
  revert cursor seen viewer acc w. induction n as [|n IH]; intros cursor seen viewer acc w H;
    cbn [read_pages] in H; [by rewrite lift_throw in H|].
  cbv zeta in H. io_inv H. destruct H as (text & w1 & _ & H). io_inv H. destruct H as (page & Hp & H).
  io_if H. assert (Hv : ∀ v, viewer = Some v → v = pg_viewer_login page).
  { intros v ->. cbn in Hif. by apply negb_decide_false in Hif. }
  assert (Hd : default (pg_viewer_login page) viewer = pg_viewer_login page)
    by (destruct viewer; cbn; auto). rewrite Hd in H.
  io_if H.
  - io_inv H. destruct H as (chain & Hc & H). io_inv H. destruct H as [<- _].
    exists [page]. cbn. apply negb_true_iff in Hif0. split; [lia|]. split; [constructor; [by exists text|done]|].
    do 2 (split; [by repeat constructor|]). split; [|by rewrite List.app_nil_r].
    intros [|i] p; [by intros [= <-]|done].
  - io_inv H. destruct H as (next & _ & H). apply negb_false_iff in Hif0. io_if H.
    apply IH in H as (pages & Hlen & Hall & Hview & Hv' & Hnext & Hcs & Hchain).
    assert (Hpage : pg_viewer_login page = sn_viewer_login snapshot) by (by apply Hv').
    exists (page :: pages). cbn [length fmap list_fmap concat]. split; [lia|].
    split; [constructor; [by exists text|done]|]. split; [by constructor|].
    split; [intros v Hv0; rewrite <- Hpage; by apply Hv|]. split; [|split; [|done]].
    + intros [|i] p; cbn.
      * intros [= <-]. rewrite Hif0. destruct pages; [cbn in Hlen; lia|done].
      * apply Hnext.
    + rewrite Hcs. by rewrite <- List.app_assoc.
Qed.

(** Only trusted authors write the ledger: the snapshot is read to its end in at most 100
    pages, all seen by one viewer; every comment it keeps was written by that viewer, an
    owner, a member or a collaborator; and the chain is the one those comments, and no
    others, parse to. *)
Theorem ledger_reads_only_trusted_authors repository number w snapshot w' :
  read_review_state_snapshot repository number w = (Ok snapshot, w') →
  (∃ pages, 0 < length pages ≤ MAX_REVIEW_STATE_PAGES
     ∧ (∀ i page, pages !! i = Some page → pg_has_next_page page = negb (S i =? length pages)%nat)
     ∧ sn_trusted_comments snapshot = concat (pg_trusted_comments <$> pages)
     ∧ Forall page_of pages)
  ∧ (∀ c, c ∈ sn_trusted_comments snapshot →
       ∃ node, trusted_author (sn_viewer_login snapshot) node ∧ node_comment node = Some c)
  ∧ parse_chain (rc_body <$> sn_trusted_comments snapshot) repository number
    = Ok (sn_chain snapshot).
Proof.
  intros (pages & Hlen & Hall & Hview & _ & Hnext & Hcs & Hchain)%read_pages_ok.
  split; [by exists pages|]. split; [|done]. intros c. rewrite Hcs. cbn [app].
  rewrite list_elem_of_In, in_concat. intros (cs & Hcs' & Hc).
  rewrite <- list_elem_of_In in Hcs'. rewrite <- list_elem_of_In in Hc. apply list_elem_of_fmap in Hcs' as (page & -> & Hpage).
  rewrite Forall_forall in Hall, Hview.
  destruct (page_trusted page c (Hall page Hpage) Hc) as (node & Ht & Hn).
  exists node. split; [|done]. apply trusted_node_author. by rewrite <- (Hview page Hpage).
Qed.
End pages.

(** ** The proof of a fast-forward *)
Lemma NoDup_sort_dedup l : NoDup l → length (sort_dedup l) = length l.
Proof.
  intros Hl. apply Permutation_length, NoDup_Permutation; [|done|intros x; apply elem_of_sort_dedup].
  apply slt_sorted_NoDup, sort_dedup_sorted.
Qed.

Section fast_forward.
Context `{JT : !JsonText} {W : Type} `{BE : !Backend W}.

(** The commits taken from rows the provider verified. *)
Definition proved_commit (from : string) (row : JsonValue) (sha : string) : Prop :=
  (pointer ["commit"; "verification"; "verified"] row ≫= as_bool) = Some true
  ∧ (pointer ["commit"; "verification"; "reason"] row ≫= as_str) = Some "valid"
  ∧ get_str "sha" row = Some sha ∧ full_commit_id sha = true ∧ sha ≠ from.

Definition verified_rows (from : string) (rows : list JsonValue) (commits : list string) : Prop :=
  Forall2 (proved_commit from) rows commits ∧ NoDup commits.

Lemma verify_commits_ok from rows acc commits :
  NoDup acc → foldM (verify_commit from) acc rows = Ok commits →
  ∃ added, commits = acc ++ added ∧ NoDup commits
    ∧ Forall2 (proved_commit from) rows added.
Proof.
  revert acc. induction rows as [|row rows IH]; intros acc Hnd H; cbn [foldM] in H.
  - injection H as <-. exists []. by rewrite List.app_nil_r.
  - apply bind_ok in H as (acc' & Hrow & H). unfold verify_commit in Hrow.
    split_if Hrow. apply negb_false_iff in Hif. apply bind_ok in Hrow as (sha & Hsha%ok_or_ok & Hrow).
    apply bind_Some in Hsha as (sha' & Hget & Hfull).
    destruct (full_commit_id sha') eqn:Ef; [|done]. injection Hfull as ->.
    split_if Hrow. injection Hrow as <-. bool_facts.
    apply IH in H as (added & -> & Hnd' & Hrows); [|apply NoDup_app; split; [done|]; split; [set_solver|apply NoDup_singleton]].
    exists (sha :: added). rewrite <- List.app_assoc. split; [done|]. split; [by rewrite <- List.app_assoc in Hnd'|].
    unfold verified_commit in *. bool_facts. by repeat constructor.
Qed.

Lemma proof_complete from to rows commits :
  commits ≠ [] → last commits = Some to → (N.of_nat (length commits) ≤ N.of_nat MAX_VERIFIED_COMMITS)%N →
  NoDup commits →
  Forall2 (proved_commit from) rows commits →
  proof_incomplete from to commits = false.
Proof.
  intros Hne Hlast Hlen Hnd Hrows. unfold proof_incomplete.
  rewrite (bool_decide_false _ Hne), Hlast, (NoDup_sort_dedup _ Hnd), Nat.eqb_refl.
  rewrite (bool_decide_true (Some to = Some to)) by done. cbn [negb orb].
  rewrite !orb_false_r. apply orb_false_iff. split; [apply Nat.ltb_ge; lia|].
  apply existsb_false. intros sha Hsha. apply list_elem_of_lookup in Hsha as [i Hi].
  destruct (Forall2_lookup_r _ _ _ _ _ Hrows Hi) as (row & _ & _ & _ & _ & -> & Hn).
  by rewrite bool_decide_false.
Qed.

(** A fast-forward that was accepted is complete: it was read from one answer of the
    provider that says [to] is ahead of [from] by exactly its commits and behind by none, with
    [from] as base and merge base; every commit carries a valid verified signature; and the
    list satisfies the proof check that the supersession receipt is later validated by (at
    most 100 distinct full ids, none of them [from], the last one [to]). *)
Theorem fast_forward_proof_is_complete repository from to w commits w' :
  verified_fast_forward repository from to w = (Ok commits, w') →
  proof_incomplete from to commits = false
  ∧ ∃ text value rows, call (Compare repository from to 1) w = (Ok text, w')
    ∧ value_from_str (trim text) = Ok value
    ∧ get_str "status" value = Some "ahead"
    ∧ (get "behind_by" value ≫= as_u64) = Some 0%N
    ∧ (get "ahead_by" value ≫= as_u64) = Some (N.of_nat (length commits))
    ∧ (pointer ["base_commit"; "sha"] value ≫= as_str) = Some from
    ∧ (pointer ["merge_base_commit"; "sha"] value ≫= as_str) = Some from
    ∧ (get "commits" value ≫= as_array) = Some rows ∧ verified_rows from rows commits.
Proof.
  unfold verified_fast_forward. cbn [fast_forward_pages]. intros H.
  io_inv H. destruct H as (text & w1 & Hcall & H). io_inv H. destruct H as (value & Hval%map_err_ok & H).
  io_inv H. destruct H as ([[total rows] cs] & Hpage & H).
  unfold verify_page in Hpage. apply bind_ok in Hpage as (n & Hn%ok_or_ok & Hpage).
  apply bind_Some in Hn as (n' & Hget & Hn). destruct (_ && _) eqn:Erange in Hn; [|done]. injection Hn as ->.
  split_if Hpage. apply bind_ok in Hpage as (rs & Hrs%ok_or_ok & Hpage).
  apply bind_Some in Hrs as (rs' & Hrows & Hrs). destruct (_ && _) eqn:Elen in Hrs; [|done]. injection Hrs as ->.
  apply bind_ok in Hpage as (cs' & Hcs & [= -> -> ->]).
  apply verify_commits_ok in Hcs as (added & -> & Hnd & Hadded); [|constructor]. cbn [app] in *.
  io_if H. io_if H.
  2:{ by io_if H. }
  io_if H. io_inv H. destruct H as [<- ->]. bool_facts.
  repeat match goal with Hx : negb _ = false |- _ => apply negb_false_iff in Hx end. bool_facts.
  split.
  - eapply proof_complete; [|done|lia|done|done]. intros ->. cbn in *. lia.
  - exists text, value, rows. repeat (split; [congruence|]). done.
Qed.
End fast_forward.

(** ** The theorems at concrete inputs *)
Module InputWitness.
#[local] Existing Instance demo_hasher.
#[local] Existing Instance demo_url.
#[local] Existing Instance demo_secrets.
#[local] Existing Instance demo_time.
#[export] Existing Instance LedgerWitness.serde.

Definition from : string := demo_sha "a".
Definition to : string := demo_sha "c".

Definition commit_json (sha : string) : JsonValue :=
  JObject [("sha", JString sha);
           ("commit", JObject [("verification", JObject [("verified", JBool true);
                                                         ("reason", JString "valid")])])].

(** The provider's comparison: two signed commits ahead of [from]. *)
Definition comparison : JsonValue :=
  JObject [("status", JString "ahead"); ("total_commits", JNumber 2); ("ahead_by", JNumber 2);
           ("behind_by", JNumber 0); ("base_commit", JObject [("sha", JString from)]);
           ("merge_base_commit", JObject [("sha", JString from)]);
           ("commits", JArray [commit_json (demo_sha "b"); commit_json to])].

#[export] Instance json : JsonText := world_json [("comparison", comparison)].
#[export] Instance backend : Backend World := demo_backend to.

Lemma comparison_ok :
  verified_fast_forward "o/r" from to [] = (Ok [demo_sha "b"; to], []).
Proof. vm_compute. reflexivity. Qed.

Definition blank : ReviewStateSnapshot :=
  mk_ReviewStateSnapshot (mk_ReviewStateChain [] None []) [] "" None.

Definition snapshot : ReviewStateSnapshot :=
  unwrap_or blank (read_review_state_snapshot "o/r" 1 LedgerWitness.comments).1.

Lemma snapshot_ok :
  is_ok (read_review_state_snapshot "o/r" 1 LedgerWitness.comments).1 = true.
Proof. vm_compute. reflexivity. Qed.

Definition row : JsonValue :=
  JObject [("fingerprint", JString F1); ("disposition", JString "fixed")].

#[export] Instance envelopes : EnvelopeSerde := {|
  acceptance_envelope := λ _, None; supersession_envelope := λ _, None;
  correction_envelope := λ _, None; observations_to_value := λ _, None |}.
End InputWitness.

Section input_witnesses.
#[local] Existing Instance demo_hasher.
#[local] Existing Instance demo_url.
#[local] Existing Instance demo_secrets.
#[local] Existing Instance demo_time.
Import InputWitness.

Lemma validate_accepts_what_observe_accepts_witness :
  ∃ p, validate_payload (JArray [row; row]) = Ok p
    ∧ foldr N.add 0%N (vp_dispositions p).*2 = N.of_nat (vp_identity_count p).
Proof.
  destruct (validate_payload (JArray [row; row])) as [p|e] eqn:E; [|vm_compute in E; discriminate].
  exists p. split; [reflexivity|].
  exact (proj1 (proj2 (validate_accepts_what_observe_accepts (JArray [row; row]))) p E).
Defined.

Lemma fast_forward_proof_is_complete_witness :
  proof_incomplete from to [demo_sha "b"; to] = false.
Proof.
  exact (proj1 (fast_forward_proof_is_complete "o/r" from to [] [demo_sha "b"; to] [] comparison_ok)).
Defined.

Lemma ledger_reads_only_trusted_authors_witness :
  parse_chain (rc_body <$> sn_trusted_comments snapshot) "o/r" 1 = Ok (sn_chain snapshot).
Proof.
  exact (proj2 (proj2 (ledger_reads_only_trusted_authors "o/r" 1 LedgerWitness.comments snapshot _
                         (io_unwrap blank _ _ snapshot_ok)))).
Defined.
End input_witnesses.
