(* ===== verification/AppendFacts.v ===== *)
(** * Theorems on appending

    An append writes at most one comment, only after the tip comparison and the right to
    write, and reports success only when the provider shows the record; a record built for a
    chain is read back as the next record of that chain. *)
From S2P Require Import Prelude RStr Collections Error Types Markers ReviewLoop Identity Record.
From S2P Require Import Handoff Correction Supersession Acceptance Chain Provider PrView.
From S2P Require Import PrReviews Append Report Publish World ReviewLoopFacts.
From S2P Require Import ReceiptFacts ChainFacts LedgerFacts RecordFacts.
From S2P Require Import HandoffFacts LoopCommand IoFacts.
From stdpp Require Import options.

(** ** Computations that do not write *)

(** [posted] is not changed by reads. *)
Record observes_reads {W X} `{!Backend W} (posted : W → X) : Prop := {
  op_read : ∀ c w, is_write c = false → posted (run_call c w).2 = posted w;
}.

(** [posted] observes the comments this session has posted: only posting changes it. *)
Record observes_posts {W} `{!Backend W} (posted : W → list string) : Prop := {
  op_reads : observes_reads posted;
  op_post : ∀ n b w, posted (run_call (PostComment n b) w).2 = posted w ++ [b];
}.

#[export] Hint Extern 0 (observes_reads _) => (apply op_reads; assumption) : core.

Section reads.
Context {W X : Type} `{BE : !Backend W} (posted : W → X) (Obs : observes_reads posted).

(** A computation that writes nothing: what [posted] observes stays the same. *)
Definition unposted (w w' : W) : Prop := posted w' = posted w.
#[export] Instance unposted_order : PreOrder unposted.
Proof. split; [done|]. intros w1 w2 w3. unfold unposted. congruence. Qed.

Definition reads {A} (m : io W A) : Prop := keeps unposted m.

Lemma unposted_calls : calls_keep unposted.
Proof using Obs. intros c w. apply Obs. Qed.

Lemma io_bind_inv {A B} (m : io W A) (f : A → io W B) w r w' :
  (m ≫= f) w = (r, w') →
  (∃ e, m w = (Err e, w') ∧ r = Err e) ∨ ∃ a w1, m w = (Ok a, w1) ∧ f a w1 = (r, w').
Proof.
  unfold mbind, io_bind. destruct (m w) as [[a|e] w1]; intros H; [right; eauto|].
  injection H as <- <-. left. by exists e.
Qed.

Lemma io_lift_inv {A B} (m : exec A) (f : A → io W B) w r w' :
  (lift m ≫= f) w = (r, w') →
  (∃ e, r = Err e ∧ w' = w) ∨ ∃ a, m = Ok a ∧ f a w = (r, w').
Proof.
  intros [(e & [= -> ->] & ->)|(a & w1 & [= -> <-] & H)]%io_bind_inv; [left; by exists e|].
  right. by exists a.
Qed.

(** A read in front of a computation: it fails without writing, or the rest starts with the
    same comments posted. *)
Lemma io_reads_inv {A B} (m : io W A) (f : A → io W B) w r w' :
  reads m → (m ≫= f) w = (r, w') →
  (∃ e, r = Err e ∧ posted w' = posted w)
  ∨ ∃ a w1, m w = (Ok a, w1) ∧ posted w1 = posted w ∧ f a w1 = (r, w').
Proof.
  intros Hm [(e & He & ->)|(a & w1 & Ha & H)]%io_bind_inv; specialize (Hm w).
  - left. exists e. by rewrite He in Hm.
  - right. exists a, w1. by rewrite Ha in Hm.
Qed.

Lemma reads_ret {A} (a : A) : reads (mret a).
Proof. done. Qed.

Lemma reads_lift {A} (m : exec A) : reads (lift m).
Proof. done. Qed.

Lemma reads_bind {A B} (m : io W A) (f : A → io W B) :
  reads m → (∀ a, reads (f a)) → reads (m ≫= f).
Proof. apply keeps_bind. apply _. Qed.

Lemma reads_attempt {A} (m : io W A) : reads m → reads (attempt m).
Proof. apply keeps_attempt. Qed.

Lemma reads_call c : is_write c = false → reads (call c).
Proof using Obs. apply keeps_call, unposted_calls. Qed.

Lemma reads_view `{!JsonText} n : reads (view n).
Proof using Obs.
  apply reads_bind; [by apply reads_call|intros stdout]. apply reads_lift.
Qed.
End reads.

(** [reads_tac]: a computation made of reads, liftings and tests. *)
Ltac reads_tac :=
  repeat first
    [ apply reads_bind; [|intros ?]
    | apply reads_lift
    | apply reads_ret
    | apply reads_attempt
    | by (apply reads_call; first [assumption | reflexivity | apply op_reads; assumption])
    | by (apply reads_view; first [assumption | apply op_reads; assumption])
    | match goal with |- reads _ (if ?b then _ else _) => destruct b end
    | match goal with |- reads _ (match ?x with _ => _ end) => destruct x end ].

Section keeping.
Context `{HS : !Hasher, LS : !LedgerSerde, JT : !JsonText, UP : !UrlParse,
          SP : !SecretPattern, TP : !TimestampParse} {W : Type} `{BE : !Backend W}.
Context (R : W → W → Prop) `{PO : !PreOrder R} (Calls : calls_keep R) (repo : option string).

Lemma keeps_pages n repository number cursor seen viewer acc :
  keeps R (read_pages n repository number cursor seen viewer acc).
Proof using PO Calls.
  revert cursor seen viewer acc. induction n as [|n IH]; intros; cbn [read_pages]; keeps_tac.
Qed.

Lemma keeps_snapshot repository number : keeps R (read_review_state_snapshot repository number).
Proof using PO Calls. apply keeps_pages. Qed.

Lemma keeps_state_view repository number : keeps R (read_review_loop_state_view repository number).
Proof using PO Calls. unfold read_review_loop_state_view. keeps_tac. apply keeps_snapshot. Qed.

Lemma keeps_provider_base number : keeps R (provider_base repo number).
Proof using PO Calls. unfold provider_base, provider_pull_field. keeps_tac. Qed.
End keeping.

Section reading.
Context `{HS : !Hasher, LS : !LedgerSerde, JT : !JsonText, UP : !UrlParse,
          SP : !SecretPattern, TP : !TimestampParse, SB : !Serialize SessionBinding}
  {W X : Type} `{BE : !Backend W} (posted : W → X) (Obs : observes_reads posted).
Context (env : Env) (auth : Authority) (repo : option string).

Lemma reads_snapshot repository number : reads posted (read_review_state_snapshot repository number).
Proof using Obs. apply keeps_snapshot; [apply _|by apply unposted_calls]. Qed.

Lemma reads_provider_base number : reads posted (provider_base repo number).
Proof using Obs. apply keeps_provider_base; [apply _|by apply unposted_calls]. Qed.

Lemma reads_ensure_may_append a chain : reads posted (ensure_may_append env auth repo a chain).
Proof using Obs.
  unfold ensure_may_append. destruct (ap_payload a); try apply reads_lift.
  apply reads_bind; [|intros _; apply reads_lift]. destruct (negb _); [|done].
  apply reads_bind; [by apply reads_view|intros v]. destruct (_ !=? _); [apply reads_lift|].
  apply reads_bind; [apply reads_provider_base|intros base]. by destruct (_ !=? _).
Qed.

End reading.

Section appending.
Context `{HS : !Hasher, LS : !LedgerSerde, JT : !JsonText, UP : !UrlParse,
          SP : !SecretPattern, TP : !TimestampParse, SB : !Serialize SessionBinding}
  {W : Type} `{BE : !Backend W} (posted : W → list string) (Obs : observes_posts posted).
Context (env : Env) (auth : Authority) (repo : option string).

(** The right to append this payload to this chain. *)
Definition has_right (chain : ReviewStateChain) (payload : ReviewStatePayload) : Prop :=
  match payload with
  | P_ReviewHandoff handoff => ensure_handoff_append env auth repo chain handoff = Ok tt
  | payload => ensure_payload_writer env chain payload = Ok tt
  end.

Lemma ensure_may_append_right a chain w u w' :
  ensure_may_append env auth repo a chain w = (Ok u, w') → has_right chain (ap_payload a).
Proof.
  unfold ensure_may_append, has_right.
  destruct (ap_payload a); cbn; try (intros H; injection H as H _; by destruct u).
  intros [(e & _ & [=])|(v & w1 & _ & H)]%io_bind_inv. injection H as H _. by destruct u.
Qed.

Lemma settle_ok a record m p after res :
  settle a record m p after = Ok res →
  al_chain res = sn_chain after
  ∧ (∃ x, x ∈ c_records (sn_chain after) ∧ r_record_digest x = r_record_digest record)
  ∧ (al_outcome_posted res = true ↔ is_Some (ap_visible_outcome a))
  ∧ (∀ o, ap_visible_outcome a = Some o → ∃ c, c ∈ sn_trusted_comments after
       ∧ comment_carries_outcome (rc_body c) m o = true).
Proof.
  unfold settle. destruct (existsb _ (c_records _)) eqn:E.
  2:{ destruct p as [|[]]; intros H; by unfold throw in H. }
  apply existsb_true in E as (x & Hx & Hd%bool_decide_eq_true).
  destruct (ap_visible_outcome a) as [o|].
  - intros H. split_if H. injection H as <-. apply negb_false_iff, existsb_true in Hif as (c & ? & ?).
    split; [done|]. split; [by exists x|]. split; [by cbn; split; [eexists|]|].
    intros o' [= <-]. by exists c.
  - intros [= <-]. split; [done|]. split; [by exists x|]. split; [cbn|done].
    split; [done|]. by intros [? ?].
Qed.

(** The part of the append after the comment is rendered. *)
Lemma post_and_settle a record m body w r w' :
  (posted ← attempt (call (PostComment (ap_number a) body));
   after ← attempt (read_review_state_snapshot (ap_repository a) (ap_number a));
   after ← lift (map_fail (verification_error record (is_ok posted)) after);
   lift (settle a record m posted after)) w = (r, w') →
  posted w' = posted w ++ [body]
  ∧ ∀ res, r = Ok res →
      (∃ x, x ∈ c_records (al_chain res) ∧ r_record_digest x = r_record_digest record)
      ∧ (al_outcome_posted res = true ↔ is_Some (ap_visible_outcome a)).
Proof using Obs.
  intros [(e & He & _)|(p & w1 & Hp & H)]%io_bind_inv.
  { unfold attempt, call in He. by destruct (run_call _ _) in He. }
  assert (P : posted w1 = posted w ++ [body]).
  { unfold attempt, call in Hp. pose proof (op_post _ Obs (ap_number a) body w) as Hpost.
    destruct (run_call _ _) as [x wx]. injection Hp as _ <-. by cbn in Hpost. }
  apply (io_reads_inv posted) in H as [(e & -> & ->)|(after & w2 & _ & P2 & H)];
    [by split| |by apply reads_attempt, reads_snapshot].
  apply io_lift_inv in H as [(e & -> & ->)|(after' & _ & H)]; [split; [congruence|done]|].
  injection H as Hs <-. split; [congruence|]. intros res ->.
  apply settle_ok in Hs as (-> & ? & ? & _). done.
Qed.

Lemma append_cases a w r w' :
  append_review_state_payload env auth repo a w = (r, w') →
  (posted w' = posted w ∧ is_ok r = false)
  ∨ ∃ before w1 record body,
      read_review_state_snapshot (ap_repository a) (ap_number a) w = (Ok before, w1)
      ∧ c_tip_digest (sn_chain before) = ap_expected_tip a
      ∧ has_right (sn_chain before) (ap_payload a)
      ∧ build_record (ap_repository a) (ap_number a) (ap_expected_head a) (sn_chain before)
          (ap_payload a) (assignment_generation_for (sn_chain before) (ap_payload a)) = Ok record
      ∧ render_state_comment_body record (ap_visible_outcome a) = Ok body
      ∧ posted w' = posted w ++ [body]
      ∧ ∀ res, r = Ok res →
          (∃ x, x ∈ c_records (al_chain res) ∧ r_record_digest x = r_record_digest record)
          ∧ (al_outcome_posted res = true ↔ is_Some (ap_visible_outcome a)).
Proof using Obs.
  unfold append_review_state_payload. intros H.
  apply (io_reads_inv posted) in H as [(e & -> & ?)|(before & w1 & Hb & P1 & H)];
    [by left| |by apply reads_snapshot].
  cbv zeta in H. destruct (_ !=? _) eqn:Etip in H; [injection H as <- <-; by left|].
  apply negb_decide_false in Etip.
  apply (io_reads_inv posted) in H as [(e & -> & ?)|([] & w2 & Hright & P2 & H)];
    [left; split; [congruence|done]| |by apply reads_ensure_may_append].
  apply ensure_may_append_right in Hright.
  apply io_lift_inv in H as [(e & -> & ->)|(record & Hrec & H)]; [left; split; [congruence|done]|].
  apply io_lift_inv in H as [(e & -> & ->)|(m & Hm & H)]; [left; split; [congruence|done]|].
  apply io_lift_inv in H as [(e & -> & ->)|(body & Hbody & H)]; [left; split; [congruence|done]|].
  apply post_and_settle in H as [P H]. right. exists before, w1, record, body.
  do 5 (split; [done|]). split; [congruence|done].
Qed.
End appending.

(** ** The record a writer builds is the next record of its chain *)
Section building.
Context `{HS : !Hasher, LS : !LedgerSerde, JT : !JsonText, UP : !UrlParse,
          SP : !SecretPattern, TP : !TimestampParse, SB : !Serialize SessionBinding}.

Lemma build_record_ok repository number head chain payload generation r :
  build_record repository number head chain payload generation = Ok r →
  r_schema r = REVIEW_STATE_SCHEMA ∧ r_repository r = repository ∧ r_pr r = number
  ∧ r_expected_head r = head ∧ r_generation r = N.of_nat (length (c_records chain))
  ∧ r_previous_digest r = c_tip_digest chain ∧ r_payload r = payload
  ∧ r_assignment_generation r = generation ∧ compute_digest r = Ok (r_record_digest r).
Proof.
  unfold build_record, ReviewStateRecord_new, with_assignment_generation. intros H.
  apply bind_ok in H as (r0 & H0 & H). cbv zeta in H0. apply bind_ok in H0 as (d0 & _ & [= <-]).
  cbv zeta in H. apply bind_ok in H as (d & Hd & [= <-]). cbn. repeat (split; [done|]). exact Hd.
Qed.

(** A loop state bound to the head of its record: the state's own head, or the attempted
    head of its stop. *)
Definition bound_to (s : ReviewLoopState) (head : string) : Prop :=
  s_head_sha s = head ∨ ∃ st, s_hard_stop s = Some st ∧ hs_attempted_head_sha st = head.

Lemma check_loop_record r s :
  r_schema r = REVIEW_STATE_SCHEMA → compute_digest r = Ok (r_record_digest r) →
  r_payload r = P_ReviewLoop s → state_valid s → bound_to s (r_expected_head r) →
  check_record r = Ok tt.
Proof.
  intros Hs Hd Hp Hv Hb. unfold check_record, check_digest. rewrite Hs, Hd, Hp.
  rewrite bool_decide_true by done. cbn [negb mbind result_bind]. rewrite bool_decide_true by done.
  cbn [negb mbind result_bind payload_handoff]. unfold check_carry_over. rewrite Hp.
  cbn [mbind result_bind]. unfold check_loop_state, record_state. rewrite Hp. cbn [payload_state].
  rewrite (proj2 (validate_state_ok s) Hv). cbn [mbind result_bind].
  destruct Hb as [->|(st & -> & <-)]; cbn [is_some_and].
  - by rewrite bool_decide_true.
  - rewrite (bool_decide_true (hs_attempted_head_sha st = _)) by done. by rewrite andb_false_r.
Qed.

Lemma check_next_loop chain r s :
  r_generation r = N.of_nat (length (c_records chain)) → r_payload r = P_ReviewLoop s →
  r_assignment_generation r = assignment_generation <$> latest chain →
  (∀ h, latest chain = Some h → surrendered h = false ∧ returned_reason h = None) →
  check_next (c_records chain) r = Ok tt.
Proof.
  intros Hg Hp Ha Hl. unfold check_next. rewrite Hg, N.eqb_refl. cbn [negb].
  unfold validate_correction_record, validate_supersession_record, validate_acceptance_record,
    check_ownership. rewrite Hp. cbn [payload_handoff]. rewrite Ha.
  change (latest_handoff (c_records chain)) with (latest chain).
  destruct (latest chain) as [h|]; cbn [fmap option_fmap option_map is_some]; [|done].
  destruct (Hl h eq_refl) as [-> ->]. by rewrite bool_decide_true.
Qed.

(** A valid loop state, appended by the writer of the active interval, extends the chain. *)
Lemma loop_record_extends env comments repository number chain head s r outcome body :
  parse_chain comments repository number = Ok chain → ensure_writer env chain = Ok tt →
  state_valid s → bound_to s head →
  build_record repository number head chain (P_ReviewLoop s) (assignment_generation <$> latest chain)
    = Ok r →
  render_state_comment_body r outcome = Ok body → text_round_trips r →
  (∀ c x, c ∈ comments → parse_state_marker c = Ok (Some x) →
     r_record_digest x ≠ r_record_digest r ∧ r_previous_digest x ≠ Some (r_record_digest r)) →
  parse_chain (comments ++ [body]) repository number = Ok {|
    c_records := c_records chain ++ [r]; c_tip_digest := Some (r_record_digest r);
    c_ignored_stale_records := c_ignored_stale_records chain |}.
Proof.
  intros Hparse Hw Hv Hb Hr Hbody Htext Hfresh.
  apply build_record_ok in Hr as (Hs & Hrep & Hpr & Hh & Hg & Hprev & Hp & Ha & Hd).
  eapply parse_chain_extends; try done.
  - apply render_ok in Hbody as (m & md & rest & Hm & Hmd & -> & _ & _).
    apply parse_marker_after; [done..|]. rewrite plain_app.
    by rewrite (plain_metadata r md) by by (rewrite Hp || done).
  - eapply check_loop_record; try done. by rewrite Hh.
  - eapply check_next_loop; try done. intros h Hl. apply ensure_writer_ok in Hw.
    rewrite Hl in Hw. by destruct Hw as (? & ? & _).
Qed.
End building.

(** ** The demo world *)
Lemma demo_observes_posts head : @observes_posts World (demo_backend head) (λ w, w).
Proof. split; [by split; intros []|done]. Qed.

Module AppendWitness.
#[local] Existing Instance demo_hasher.
#[local] Existing Instance demo_url.
#[local] Existing Instance demo_secrets.
#[local] Existing Instance demo_time.
#[local] Existing Instance demo_binding.
#[local] Instance serde0 : LedgerSerde := demo_serde [].

Definition empty_chain : ReviewStateChain := mk_ReviewStateChain [] None [].

(** The record of the first observation, as a writer builds it. *)
Definition genesis : ReviewStateRecord :=
  unwrap_or (demo_record 0 "h1" (P_ReviewLoop Witness.s1))
    (build_record "o/r" 1 "h1" empty_chain (P_ReviewLoop Witness.s1) None).

#[export] Instance serde : LedgerSerde := demo_serde [genesis].
#[export] Instance json : JsonText := world_json [].
#[export] Instance backend : Backend World := demo_backend "h1".

Definition request : ReviewStateAppend :=
  {| ap_repository := "o/r"; ap_number := 1; ap_expected_head := "h1"; ap_expected_tip := None;
     ap_payload := P_ReviewLoop Witness.s1; ap_visible_outcome := Some "Delivered." |}.

Lemma append_observes : @observes_posts World backend (λ w, w).
Proof. apply demo_observes_posts. Qed.

Lemma append_ok : is_ok (append_review_state_payload nobody demo_authority (Some "o/r") request []).1 = true.
Proof. by vm_compute. Qed.
End AppendWitness.

Section append_witnesses.
#[local] Existing Instance demo_hasher.
#[local] Existing Instance demo_url.
#[local] Existing Instance demo_secrets.
#[local] Existing Instance demo_time.
#[local] Existing Instance demo_binding.
Import AppendWitness.

End append_witnesses.
