(* ===== verification/ThreadsFacts.v ===== *)
(** * Theorems on reviews and review threads

    The snapshot of native reviews and the complete read of the threads. *)
From S2P Require Import Prelude RStr Collections Error Types Handoff Provider PrView PrReviews Threads.
From S2P Require Import LoopCommand World IoFacts AppendFacts.
From stdpp Require Import options.

(** ** Theorems on the views and reviews of a pull request

    The snapshot of native reviews is one consistent reading: every page of it shows the same
    head and the same viewer, nothing is dropped, and the split into current and stale
    reviews is by the commit each review was submitted on. *)

Section reviews.
Context `{JT : !JsonText} {W : Type} `{BE : !Backend W}.

(** ** Reviews are only read *)
Section keeps.
Context (R : W → W → Prop) `{PO : !PreOrder R} (Calls : calls_keep R).

Lemma keeps_review_pages deadline remaining provider url owner name number cursor cursors seen acc :
  keeps R deadline →
  keeps R (review_pages deadline remaining provider url owner name number cursor cursors seen acc).
Proof using PO Calls.
  intros Hd. revert cursor cursors seen acc.
  induction remaining as [|remaining IH]; intros cursor cursors seen acc; cbn [review_pages]; keeps_tac.
Qed.

Lemma keeps_reviews_within deadline provider number url :
  keeps R deadline → keeps R (compute_for_pr_with_timeout deadline provider number url).
Proof using PO Calls.
  intros Hd. unfold compute_for_pr_with_timeout. keeps_tac. by apply keeps_review_pages.
Qed.
End keeps.

Lemma reads_reviews {X} (posted : W → X) (Obs : observes_reads posted) provider number url :
  reads posted (compute_for_pr provider number url).
Proof. apply keeps_reviews_within; [apply _|by apply unposted_calls|apply reads_ret]. Qed.

(** ** One reading *)

(** The pages the provider answered, each asked for with the cursor the page before it ended
    with, up to the page that has no next one. *)
Inductive fetched (owner name : string) (number : N) :
    option string → W → list ReviewPage → W → Prop :=
  | fetched_last cursor w text page w' :
      run_call (ReviewsPage owner name number cursor) w = (Ok text, w') →
      parse_github_review_page text = Ok page → rp_has_next_page page = false →
      fetched owner name number cursor w [page] w'
  | fetched_next cursor w text page next w1 pages w' :
      run_call (ReviewsPage owner name number cursor) w = (Ok text, w1) →
      parse_github_review_page text = Ok page → rp_has_next_page page = true →
      rp_end_cursor page = Some next →
      fetched owner name number (Some next) w1 pages w' →
      fetched owner name number cursor w (page :: pages) w'.

Definition on_head (head : string) : list NativeReview → list NativeReview :=
  List.filter (λ r, nr_commit_sha r ==? head).
Definition off_head (head : string) : list NativeReview → list NativeReview :=
  List.filter (λ r, nr_commit_sha r !=? head).

(** The pages make this snapshot. *)
Record snapshot_of (pages : list ReviewPage) (acc : list NativeReview * list NativeReview * list PendingReview)
    (reviews : PrReviews) : Prop := {
  so_head : Forall (λ page, rp_head_sha page = pv_head_sha reviews) pages;
  so_viewer : Forall (λ page, rp_viewer_login page = pv_viewer_login reviews) pages;
  so_current : current_head_reviews reviews
    = acc.1.1 ++ on_head (pv_head_sha reviews) (concat (rp_reviews <$> pages));
  so_stale : stale_reviews reviews
    = acc.1.2 ++ off_head (pv_head_sha reviews) (concat (rp_reviews <$> pages));
  so_pending : pending_reviews reviews = acc.2 ++ concat (rp_pending_reviews <$> pages);
}.

Lemma call_ok c w text w' : call c w = (Ok text, w') ↔ run_call c w = (Ok text, w').
Proof. unfold call, fails, map_err. destruct (run_call c w) as [[]]; naive_solver. Qed.

(** The cursors that asked for a further page. *)
Definition next_cursors (pages : list ReviewPage) : list string :=
  omap (λ page, if rp_has_next_page page then rp_end_cursor page else None) pages.

Lemma review_pages_ok remaining provider url owner name number cursor cursors seen acc w reviews w' :
  review_pages (mret tt) remaining provider url owner name number cursor cursors seen acc w
    = (Ok reviews, w') →
  ∃ pages, fetched owner name number cursor w pages w' ∧ length pages ≤ remaining
    ∧ snapshot_of pages acc reviews ∧ NoDup (next_cursors pages)
    ∧ (∀ c, c ∈ next_cursors pages → c ∉ cursors)
    ∧ (∀ s, seen = Some s → s = (pv_viewer_login reviews, pv_head_sha reviews))
    ∧ pv_number reviews = number ∧ pv_url reviews = url.
Proof.
  revert cursor cursors seen acc w.
  induction remaining as [|remaining IH]; intros cursor cursors seen acc w H; cbn [review_pages] in H;
    [by rewrite lift_throw in H|].
  cbv zeta in H. io_inv H. destruct H as ([] & w0 & H0 & H). io_inv H0. destruct H0 as [_ ->].
  io_inv H. destruct H as (text & w1 & Hcall & H). apply call_ok in Hcall.
  io_inv H. destruct H as (page & Hpage & H). io_if H. io_if H.
  set (first := (rp_viewer_login page, rp_head_sha page)) in *.
  assert (Hseen : ∀ s, seen = Some s → s = first).
  { intros [v h] ->. cbn in Hif, Hif0. apply negb_decide_false in Hif, Hif0. cbn in *. by subst. }
  assert (Hd : default first seen = first) by (destruct seen; cbn; auto). rewrite Hd in H. cbn in H.
  io_if H.
  - io_inv H. destruct H as [<- ->]. apply negb_true_iff in Hif1. exists [page]. cbn.
    split; [by eapply fetched_last|]. split; [lia|].
    split; [split; cbn; rewrite ?List.app_nil_r; by repeat constructor|].
    unfold next_cursors. cbn. rewrite Hif1. split; [constructor|]. split; [set_solver|]. done.
  - io_inv H. destruct H as (next & Hnext & H). apply negb_false_iff in Hif1. io_if H. bool_facts.
    assert (He : rp_end_cursor page = Some next) by (by destruct (rp_end_cursor page); inv Hnext).
    apply IH in H as (pages & Hf & Hlen & Hs & Hnd & Hfresh & Hfirst & Hn & Hu).
    specialize (Hfirst _ eq_refl). subst first. injection Hfirst as Hv Hh.
    exists (page :: pages). split; [by eapply fetched_next|]. cbn [length]. split; [lia|].
    assert (Hc : next_cursors (page :: pages) = next :: next_cursors pages)
      by (unfold next_cursors; cbn; by rewrite Hif1, He).
    split; [|rewrite Hc; split; [|split; [|split; [|done]]]].
    + destruct Hs as [H1 H2 H3 H4 H5]. cbn in H3, H4, H5. rewrite Hh in H3, H4.
      split; cbn; [by constructor|by constructor|..]; unfold on_head, off_head in *;
        rewrite ?List.filter_app, ?List.app_assoc; done.
    + constructor; [|done]. intros Hin. apply Hfresh in Hin. set_solver.
    + intros c [->|Hin]%elem_of_cons; [done|]. apply Hfresh in Hin. set_solver.
    + intros s Hs'. rewrite (Hseen s Hs'). by rewrite Hv, Hh.
Qed.

(** The list of native reviews is one consistent reading of the pull request: it is made of
    at most 100 pages, each asked for with the cursor of the page before it and none asked for
    twice, up to the page without a next one; all of them were seen by one viewer and show one
    head, the head that is reported; and every submitted review of those pages is listed, as
    current exactly when it was submitted on that head and as stale otherwise. *)
Theorem native_reviews_are_one_reading provider number url w reviews w' :
  compute_for_pr provider number url w = (Ok reviews, w') →
  provider = GitHub ∧ ∃ owner name pages,
    github_repo_slug_from_url url = Some (owner +:+ "/" +:+ name)
    ∧ fetched owner name number None w pages w'
    ∧ length pages ≤ 100 ∧ NoDup (next_cursors pages)
    ∧ snapshot_of pages ([], [], []) reviews.
Proof.
  unfold compute_for_pr, compute_for_pr_with_timeout. intros H. io_inv H. destruct H as ([] & Hp & H).
  unfold ensure_github in Hp. split_if Hp. bool_facts. split; [done|].
  io_inv H. destruct H as (slug & Hs & H). io_inv H. destruct H as ([owner name] & Ho & H).
  apply review_pages_ok in H as (pages & Hf & Hlen & Hsnap & Hnd & _).
  exists owner, name, pages. apply ok_or_ok in Hs, Ho. split; [|done].
  rewrite Hs. f_equal. by apply split_once_eq in Ho.
Qed.
End reviews.

(** ** Bounded summaries *)

(** One character: it is read alone, and starts with its only byte that does not continue. *)
Record utf8_char (ch : string) : Prop := {
  uc_reads : ∀ i rest, ∃ j, utf8_error i (ch +:+ rest) = utf8_error j rest;
  uc_bytes : ∃ a cs, ch = String a cs ∧ continuation a = false
    ∧ all_bytes continuation cs = true ∧ String.length cs ≤ 3;
}.

Lemma byte_in_iff lo hi c : byte_in lo hi c = true ↔ (lo ≤ N_of_ascii c ≤ hi)%N.
Proof. unfold byte_in. rewrite andb_true_iff, !N.leb_le. done. Qed.

Lemma continuation_outside lo hi c :
  byte_in lo hi c = true → (hi < 128 ∨ 191 < lo)%N → continuation c = false.
Proof.
  rewrite byte_in_iff. intros H Ho. apply not_true_is_false. unfold continuation.
  rewrite byte_in_iff. lia.
Qed.

(** [utf8_char_tac]: a character spelled out byte by byte, with its tests as hypotheses. *)
Ltac utf8_char_tac :=
  split;
  [ intros i0 rest0; eexists; simpl;
    repeat match goal with H : ?x = ?b |- _ =>
      match b with true => rewrite H | false => rewrite H end end;
    try reflexivity
  | do 2 eexists; split; [reflexivity|]; cbn [all_bytes String.length]; split_and!;
    [eapply continuation_outside; [eassumption|lia]| |lia] ].

Lemma second_byte_of_3 a b :
  (byte_in 224 224 a && byte_in 160 191 b)
  || ((byte_in 225 236 a || byte_in 238 239 a) && continuation b)
  || (byte_in 237 237 a && byte_in 128 159 b) = true → continuation b = true.
Proof.
  unfold continuation. rewrite !orb_true_iff, !andb_true_iff, !byte_in_iff. lia.
Qed.

Lemma second_byte_of_4 a b :
  (byte_in 240 240 a && byte_in 144 191 b) || (byte_in 241 243 a && continuation b)
  || (byte_in 244 244 a && byte_in 128 143 b) = true → continuation b = true.
Proof.
  unfold continuation. rewrite !orb_true_iff, !andb_true_iff, !byte_in_iff. lia.
Qed.

Lemma utf8_first i s : utf8_error i s = None →
  s = EmptyString ∨ ∃ ch rest j, s = ch +:+ rest ∧ utf8_char ch ∧ utf8_error j rest = None.
Proof.
  destruct s as [|a s1]; [by left|]. simpl. intros H. right.
  destruct (byte_in 0 127 a) eqn:E1.
  { exists (String a EmptyString), s1. eexists. split; [done|]. split; [|exact H].
    utf8_char_tac. done. }
  destruct (byte_in 194 223 a) eqn:E2.
  { destruct s1 as [|b s2]; [done|]. destruct (continuation b) eqn:Eb; [|done].
    exists (String a (String b EmptyString)), s2. eexists. split; [done|]. split; [|exact H].
    utf8_char_tac. by rewrite Eb. }
  destruct (byte_in 224 239 a) eqn:E3.
  { destruct s1 as [|b s2]; [done|]. destruct (_ || _) eqn:Eb; [|done].
    destruct s2 as [|c s3]; [done|]. destruct (continuation c) eqn:Ec; [|done].
    exists (String a (String b (String c EmptyString))), s3. eexists. split; [done|].
    split; [|exact H]. utf8_char_tac. rewrite Ec, andb_true_r. by eapply second_byte_of_3. }
  destruct (byte_in 240 244 a) eqn:E4; [|done].
  destruct s1 as [|b s2]; [done|]. destruct (_ || _) eqn:Eb; [|done].
  destruct s2 as [|c s3]; [done|]. destruct (continuation c) eqn:Ec; [|done].
  destruct s3 as [|d s4]; [done|]. destruct (continuation d) eqn:Ed; [|done].
  exists (String a (String b (String c (String d EmptyString)))), s4. eexists. split; [done|].
  split; [|exact H]. utf8_char_tac. rewrite Ec, Ed, !andb_true_r. by eapply second_byte_of_4.
Qed.

(** Validity does not depend on the index that errors are reported with. *)
Lemma utf8_ind (P : string → Prop) :
  P EmptyString →
  (∀ ch rest, utf8_char ch → (∀ i, utf8_error i rest = None) → P rest → P (ch +:+ rest)) →
  ∀ i s, utf8_error i s = None → (∀ j, utf8_error j s = None) ∧ P s.
Proof.
  intros H0 Hc i s. remember (String.length s) as n eqn:Hn. revert i s Hn.
  induction (lt_wf n) as [n _ IH]. intros i s Hn H.
  destruct (utf8_first i s H) as [->|(ch & rest & j & -> & Hch & Hr)]; [done|].
  destruct (uc_bytes ch Hch) as (a & cs & Ha & _).
  destruct (IH (String.length rest)) with (i := j) (s := rest) as [Hall HP]; try done.
  { rewrite Hn, Ha, RStr.length_app. cbn. lia. }
  split; [|by apply Hc]. intros k. destruct (uc_reads ch Hch k rest) as [k' ->]. apply Hall.
Qed.

Lemma get_app_r s1 s2 i :
  String.get (String.length s1 + i) (s1 +:+ s2) = String.get i s2.
Proof. by induction s1. Qed.

Lemma prefix_app_r s1 s2 i :
  String.substring 0 (String.length s1 + i) (s1 +:+ s2) = s1 +:+ String.substring 0 i s2.
Proof. induction s1 as [|c s1 IH]; [done|]. simpl. by rewrite IH. Qed.

Lemma get_continuation cs rest i :
  all_bytes continuation cs = true → i < String.length cs →
  ∃ c, String.get i (cs +:+ rest) = Some c ∧ continuation c = true.
Proof.
  revert i. induction cs as [|c cs IH]; intros i H Hi; cbn in H, Hi; [lia|].
  apply andb_true_iff in H as [Hc H]. destruct i as [|i]; [by exists c|]. apply IH; [done|lia].
Qed.

(** Inside a character there is no boundary. *)
Lemma char_inside ch rest i :
  utf8_char ch → 0 < i < String.length ch → is_char_boundary (ch +:+ rest) i = false.
Proof.
  intros Hch Hi. destruct (uc_bytes ch Hch) as (a & cs & -> & _ & Hcs & _). cbn in Hi.
  destruct i as [|i]; [lia|]. unfold is_char_boundary.
  destruct (get_continuation cs rest i) as (c & Hg & Hc); [done|lia|].
  change (String.get (S i) (String a cs +:+ rest)) with (String.get i (cs +:+ rest)).
  by rewrite Hg, Hc.
Qed.

Lemma boundary_app ch rest i :
  is_char_boundary (ch +:+ rest) (String.length ch + i) = is_char_boundary rest i.
Proof.
  unfold is_char_boundary. rewrite get_app_r. destruct (String.get i rest); [done|].
  apply bool_decide_ext. rewrite RStr.length_app. lia.
Qed.

(** Cut at a boundary, valid text stays valid. *)
Lemma prefix_valid s i :
  (∀ k, utf8_error k s = None) → is_char_boundary s i = true →
  ∀ k, utf8_error k (String.substring 0 i s) = None.
Proof.
  intros Hs. specialize (Hs 0%N). revert i.
  destruct (utf8_ind (λ s, ∀ i, is_char_boundary s i = true →
    ∀ k, utf8_error k (String.substring 0 i s) = None)) with (3 := Hs) as [_ H]; [..|exact H].
  - intros i _ k. by destruct i.
  - intros ch rest Hch Hr IH i Hi k.
    destruct (decide (i = 0)) as [->|]; [by destruct ch, rest|].
    destruct (decide (i < String.length ch)) as [Hl|Hl].
    { rewrite char_inside in Hi; [done|done|lia]. }
    replace i with (String.length ch + (i - String.length ch)) in * by lia.
    rewrite boundary_app in Hi. rewrite prefix_app_r.
    destruct (uc_reads ch Hch k (String.substring 0 (i - String.length ch) rest)) as [j ->].
    by apply IH.
Qed.

Lemma char_boundary_is s i : is_char_boundary s (char_boundary s i) = true ∨ char_boundary s i = 0.
Proof.
  induction i as [|i IH]; cbn [char_boundary].
  - destruct (is_char_boundary s 0) eqn:E; auto.
  - destruct (is_char_boundary s (S i)) eqn:E; auto.
Qed.

Lemma char_boundary_le s i : char_boundary s i ≤ i.
Proof. induction i as [|i IH]; cbn [char_boundary]; destruct (is_char_boundary _ _); lia. Qed.

Lemma char_boundary_self s i : is_char_boundary s i = true → char_boundary s i = i.
Proof. intros H. destruct i; cbn [char_boundary]; by rewrite H. Qed.

Lemma valid_boundary_0 s : (∀ k, utf8_error k s = None) → is_char_boundary s 0 = true.
Proof.
  intros Hs. destruct (utf8_first 0 s (Hs 0%N)) as [->|(ch & rest & j & -> & Hch & _)]; [done|].
  destruct (uc_bytes ch Hch) as (a & cs & -> & Ha & _). unfold is_char_boundary. simpl. by rewrite Ha.
Qed.

Lemma char_boundary_app ch rest i :
  is_char_boundary rest 0 = true →
  char_boundary (ch +:+ rest) (String.length ch + i) = String.length ch + char_boundary rest i.
Proof.
  intros H0. induction i as [|i IH].
  - rewrite (char_boundary_self rest 0 H0). apply char_boundary_self. by rewrite boundary_app.
  - rewrite Nat.add_succ_r in *. cbn [char_boundary]. rewrite <- Nat.add_succ_r, boundary_app.
    destruct (is_char_boundary rest (S i)); [done|]. exact IH.
Qed.

(** The nearest boundary at or below an index of valid text is at most three bytes away. *)
Lemma char_boundary_near s i :
  (∀ k, utf8_error k s = None) → i ≤ String.length s → i ≤ char_boundary s i + 3.
Proof.
  intros Hs. specialize (Hs 0%N). revert i.
  destruct (utf8_ind (λ s, ∀ i, i ≤ String.length s → i ≤ char_boundary s i + 3)) with (3 := Hs)
    as [_ H]; [..|exact H].
  - cbn. lia.
  - intros ch rest Hch Hr IH i Hi. destruct (uc_bytes ch Hch) as (a & cs & Hc & _ & _ & Hl).
    rewrite RStr.length_app in Hi. destruct (decide (i < String.length ch)) as [Hlt|Hge].
    { rewrite Hc in Hlt. cbn in Hlt. lia. }
    replace i with (String.length ch + (i - String.length ch)) by lia.
    rewrite char_boundary_app by by apply valid_boundary_0.
    specialize (IH (i - String.length ch)). lia.
Qed.

Lemma prefix_split s n : ∃ rest,
  s = String.substring 0 n s +:+ rest ∧ (n ≤ String.length s → String.length (String.substring 0 n s) = n).
Proof.
  revert n. induction s as [|c s IH]; intros [|n].
  - by exists EmptyString.
  - exists EmptyString. cbn. split; [done|lia].
  - by exists (String c s).
  - destruct (IH n) as (rest & Hs & Hl). exists rest. split; [exact (f_equal (String c) Hs)|].
    simpl. intros Hn. rewrite Hl; lia.
Qed.

(** The summary of a review is a bounded prefix of its body: never more than 4096 bytes, valid
    UTF-8 as the body is, the whole body exactly when that fits, and otherwise at most three
    bytes shorter than the bound, with the cut reported. *)
Theorem review_summary_is_bounded value summary truncated :
  utf8_error 0 value = None → bounded_summary value = (summary, truncated) →
  (len summary ≤ 4096)%N ∧ utf8_error 0 summary = None
  ∧ (truncated = false → summary = value)
  ∧ (truncated = true → ∃ rest, value = summary +:+ rest ∧ rest ≠ EmptyString
       ∧ (4093 ≤ len summary)%N).
Proof.
  intros Hv0 H. destruct (utf8_ind (λ _, True)) with (3 := Hv0) as [Hv _]; [done..|].
  unfold bounded_summary, len in *.
  assert (Hbound : N.of_nat (N.to_nat MAX_SUMMARY_BYTES) = 4096%N) by apply N2Nat.id.
  revert Hbound H. generalize (N.to_nat MAX_SUMMARY_BYTES) as bound. intros bound Hbound H.
  change MAX_SUMMARY_BYTES with 4096%N in H.
  destruct (N.leb_spec (N.of_nat (String.length value)) 4096) as [Hl|Hl].
  { injection H as <- <-. split; [done|]. split; [done|]. by split. }
  pose proof (char_boundary_le value bound) as Hn.
  pose proof (char_boundary_near value bound Hv) as Hnear.
  pose proof (char_boundary_is value bound) as Hb.
  destruct (prefix_split value (char_boundary value bound)) as (rest & Hr & Hlen).
  injection H as <- <-. rewrite Hlen by lia.
  split; [lia|]. split; [apply prefix_valid; [done|]; destruct Hb as [Hb|Hb]; [done|lia]|].
  split; [done|]. intros _. exists rest. split; [done|]. split; [|lia].
  intros ->. apply (f_equal String.length) in Hr. rewrite RStr.length_app, Hlen in Hr by lia.
  cbn [String.length] in Hr. lia.
Qed.

(** ** The theorems at concrete inputs *)
Module ReviewsWitness.

(** A body whose two-byte character lies across the bound. *)
Definition long_body : string :=
  Nat.iter 4095 (String "a") (String "195" (String "169" EmptyString)).
Definition cut : string := (bounded_summary long_body).1.

Lemma cut_ok : bounded_summary long_body = (cut, true).
Proof. vm_compute. reflexivity. Qed.

Lemma long_body_valid : utf8_error 0 long_body = None.
Proof. vm_compute. reflexivity. Qed.

Definition native (id commit : string) : NativeReview :=
  {| nr_id := id; nr_database_id := Some 7%N; nr_url := "https://host/review/7";
     nr_author := "reviewer"; nr_author_node_id := None; nr_author_type := Some "User";
     nr_state := "APPROVED"; nr_commit_sha := commit; nr_submitted_at := "later";
     nr_summary := "ok"; nr_summary_truncated := false |}.

#[export] Instance json : JsonText :=
  world_json [("reviews", reviews_json "h2" [native "R1" "h1"; native "R2" "h2"])].
#[export] Instance backend : Backend World := demo_backend "h2".

Definition blank : PrReviews := mk_PrReviews "" 0 "" "" "" [] [] [].
Definition listed : PrReviews := unwrap_or blank (compute_for_pr GitHub 1 demo_url_of_pr []).1.

Lemma listed_ok : compute_for_pr GitHub 1 demo_url_of_pr [] = (Ok listed, []).
Proof. vm_compute. reflexivity. Qed.
End ReviewsWitness.

Lemma review_summary_is_bounded_witness :
  (len ReviewsWitness.cut ≤ 4096)%N ∧ utf8_error 0 ReviewsWitness.cut = None.
Proof.
  destruct (review_summary_is_bounded ReviewsWitness.long_body ReviewsWitness.cut true
    ReviewsWitness.long_body_valid ReviewsWitness.cut_ok) as (H1 & H2 & _).
  exact (conj H1 H2).
Defined.

Lemma native_reviews_are_one_reading_witness :
  current_head_reviews ReviewsWitness.listed = [ReviewsWitness.native "R2" "h2"]
  ∧ ∃ pages, length pages ≤ 100 ∧ snapshot_of pages ([], [], []) ReviewsWitness.listed.
Proof.
  destruct (native_reviews_are_one_reading GitHub 1 demo_url_of_pr [] ReviewsWitness.listed []
    ReviewsWitness.listed_ok) as (_ & owner & name & pages & _ & _ & Hl & _ & Hs).
  split; [vm_compute; reflexivity|]. exact (ex_intro _ pages (conj Hl Hs)).
Defined.

(** ** Theorems on the review threads

    The reader of review threads has no page limit: it ends because every page must bring it
    closer to the total the provider announced.  What it returns is every thread with every
    comment, seen at one head; and the gate lets a merge through exactly when no thread is
    both unresolved and current. *)
(** ** Computations that settle

    With enough fuel the outcome is a value or an error of the program, and more fuel does not
    change it. *)
Section settles.
Context {W : Type}.

Definition settles {A} (m : nat → nat → io W A) (w : W) : Prop :=
  ∃ enough r w', regular r = true ∧ ∀ f g, enough ≤ f → enough ≤ g → m f g w = (r, w').

Lemma settles_const {A} (m : io W A) w : regular (m w).1 = true → settles (λ _ _, m) w.
Proof. intros H. exists 0, (m w).1, (m w).2. split; [done|]. intros. apply surjective_pairing. Qed.

Lemma settles_ret {A} (a : A) w : settles (λ _ _, mret a) w.
Proof. by apply settles_const. Qed.

Lemma settles_lift {A} (m : exec A) w : regular m = true → settles (λ _ _, lift m) w.
Proof. intros H. by apply settles_const. Qed.

Lemma settles_bind {A B} (m : nat → nat → io W A) (k : nat → nat → A → io W B) w :
  settles m w →
  (∀ f g a w', m f g w = (Ok a, w') → settles (λ f g, k f g a) w') →
  settles (λ f g, m f g ≫= k f g) w.
Proof.
  intros (n & r & w1 & Hr & Hm) Hk. unfold mbind, io_bind. destruct r as [a|e].
  - destruct (Hk n n a w1) as (n' & r' & w2 & Hr' & Hk'); [by apply Hm|].
    exists (n `max` n'), r', w2. split; [done|]. intros f g Hf Hg.
    rewrite (Hm f g) by lia. apply Hk'; lia.
  - exists n, (Err e), w1. split; [done|]. intros f g Hf Hg. by rewrite (Hm f g).
Qed.

(** The same in front of a read that takes no fuel. *)
Lemma settles_then {A B} (m : io W A) (k : nat → nat → A → io W B) w :
  regular (m w).1 = true → (∀ a w', m w = (Ok a, w') → settles (λ f g, k f g a) w') →
  settles (λ f g, m ≫= k f g) w.
Proof.
  intros Hm Hk. apply (settles_bind (λ _ _, m)); [by apply settles_const|]. intros _ _ a w' H. by apply Hk.
Qed.

Lemma settles_first {A} (m : nat → nat → io W A) w :
  settles (λ f g, m (S f) g) w → settles m w.
Proof.
  intros (n & r & w1 & Hr & Hm). exists (S n), r, w1. split; [done|].
  intros [|f] g Hf Hg; [lia|]. apply Hm; lia.
Qed.

Lemma settles_second {A} (m : nat → nat → io W A) w :
  settles (λ f g, m f (S g)) w → settles m w.
Proof.
  intros (n & r & w1 & Hr & Hm). exists (S n), r, w1. split; [done|].
  intros f [|g] Hf Hg; [lia|]. apply Hm; lia.
Qed.

(** One fuel for both loops. *)
Lemma settles_diagonal {A} (m : nat → nat → io W A) w :
  settles m w → settles (λ f _, m f f) w.
Proof. intros (n & r & w1 & Hr & Hm). exists n, r, w1. split; [done|]. intros f _ Hf _. by apply Hm. Qed.

Lemma settles_map {A B} (body : nat → nat → A → io W B) l w :
  (∀ x w, x ∈ l → settles (λ f g, body f g x) w) →
  settles (λ f g, mapM_io (body f g) l) w.
Proof.
  revert w. induction l as [|x l IH]; intros w H; cbn [mapM_io]; [apply settles_ret|].
  apply (settles_bind (λ f g, body f g x)); [apply H; by left|]. intros _ _ y w1 _.
  apply (settles_bind (λ f g, mapM_io (body f g) l)); [apply IH; intros; apply H; by right|].
  intros _ _ ys w2 _. apply settles_ret.
Qed.
End settles.

(** ** Progress of a connection *)
Lemma validate_connection_progress_ok label expected provider nodes accumulated next detail total :
  validate_connection_progress label expected provider nodes accumulated next detail = Ok total →
  ∃ n, total = Some n ∧ (accumulated ≤ n)%N
    ∧ (∀ e, expected = Some e → n = e) ∧ (∀ p, provider = Some p → n = p)
    ∧ (next = true → (0 < nodes)%N ∧ (accumulated < n)%N) ∧ (next = false → accumulated = n).
Proof.
  unfold validate_connection_progress. intros H. apply bind_ok in H as (total0 & Ht & H).
  assert (Hprov : (∀ e, expected = Some e → total0 = Some e)
                  ∧ (∀ p, provider = Some p → total0 = Some p)).
  { destruct provider as [p|]; [|injection Ht as <-; by split]. split_if Ht. injection Ht as <-.
    destruct expected as [e|]; cbn in *; bool_facts; naive_solver. }
  destruct Hprov as [He Hp]. split_if H. cbv zeta in H. apply bind_ok in H as (n & Hn & H).
  apply expect_ok in Hn. do 3 split_if H. injection H as <-. exists n. split; [done|].
  bool_facts. split; [done|]. rewrite andb_false_iff in *.
  assert (Hsame : ∀ x, total0 = Some x → n = x).
  { intros x ->. cbn in Hn. rewrite andb_false_r in Hn. by injection Hn. }
  split; [naive_solver|]. split; [naive_solver|]. rewrite orb_false_iff in *.
  destruct next; split; intros; try done; cbn in *; bool_facts.
  - destruct Hif1 as [?|[??]]; [done|]. bool_facts. lia.
  - destruct Hif2 as [?|?]; [done|]. by bool_facts.
Qed.

Lemma validate_connection_progress_regular label expected provider nodes accumulated next detail :
  regular (validate_connection_progress label expected provider nodes accumulated next detail) = true.
Proof.
  unfold validate_connection_progress. cbv zeta. apply regular_bind.
  { destruct provider; [by destruct (is_some_and _ _)|done]. }
  intros total _. destruct (next && is_none total) eqn:E; [done|]. apply regular_bind.
  { destruct next, total; done. }
  intros n _. by repeat case_match.
Qed.

Section reader.
Context `{JT : !JsonText} {W : Type} `{BE : !Backend W}.

Lemma regular_required value path field : regular (required_json_string value path field) = true.
Proof. apply regular_ok_or. Qed.

Lemma regular_comments connection id : regular (parse_github_thread_comments connection id) = true.
Proof.
  apply regular_bind; [apply regular_ok_or|intros nodes _]. apply regular_mapR. intros node _.
  by repeat (apply regular_bind; [apply regular_ok_or|intros ? _]).
Qed.

Lemma regular_page_info connection label : regular (parse_page_info connection label) = true.
Proof. by repeat (apply regular_bind; [apply regular_ok_or|intros ? _]). Qed.

Lemma regular_total connection label :
  regular (optional_connection_total_count connection label) = true.
Proof.
  unfold optional_connection_total_count. destruct (get _ _); [|done].
  apply regular_bind; [apply regular_ok_or|done].
Qed.

Lemma regular_graphql value label : regular (reject_graphql_errors value label) = true.
Proof. unfold reject_graphql_errors. cbv zeta. by case_bool_decide. Qed.

(** [page_tac]: the parsers are made of lookups. *)
Ltac page_tac :=
  repeat first
    [ done
    | apply regular_required | apply regular_comments | apply regular_page_info
    | apply regular_total | apply regular_graphql | apply regular_ok_or | apply regular_map_err
    | apply regular_mapR; intros ? _
    | match goal with |- regular (let '(_, _) := ?x in _) = true => destruct x end
    | apply regular_bind; [|intros ? _] ].

Lemma regular_node node : regular (parse_thread_node node) = true.
Proof. unfold parse_thread_node, required_json_bool. page_tac. Qed.

Lemma regular_thread_page text : regular (parse_github_thread_page text) = true.
Proof. unfold parse_github_thread_page, thread_json. page_tac. Qed.

Lemma regular_comments_page text : regular (parse_github_thread_comments_page text) = true.
Proof. unfold parse_github_thread_comments_page, thread_json. page_tac. Qed.

Lemma regular_insert_fresh duplicate seen ids : regular (insert_fresh duplicate seen ids) = true.
Proof. apply regular_foldM. intros acc id _. by case_bool_decide. Qed.

(** ** Threads are only read *)
Section keeps.
Context (R : W → W → Prop) `{PO : !PreOrder R} (Calls : calls_keep R).

Lemma keeps_comment_pages fuel owner name number head id has_next cursor cursors seen total comments page :
  keeps R (comment_pages fuel owner name number head id has_next cursor cursors seen total comments page).
Proof using PO Calls.
  revert has_next cursor cursors seen total comments page.
  induction fuel as [|fuel IH]; intros; cbn [comment_pages]; keeps_tac.
Qed.

Lemma keeps_mapM {A B} (f : A → io W B) l : (∀ x, keeps R (f x)) → keeps R (mapM_io f l).
Proof using PO. intros H. induction l as [|x l IH]; cbn [mapM_io]; keeps_tac. Qed.

Lemma keeps_thread_pages cfuel fuel provider url owner name number cursor cursors head total seen threads page :
  keeps R (thread_pages cfuel fuel provider url owner name number cursor cursors head total seen
             threads page).
Proof using PO Calls.
  revert cursor cursors head total seen threads page.
  induction fuel as [|fuel IH]; intros; cbn [thread_pages]; keeps_tac.
  apply keeps_mapM. intros node. unfold complete_github_thread_comments. keeps_tac.
  apply keeps_comment_pages.
Qed.

Lemma keeps_threads fuel provider url number :
  keeps R (compute_github_threads fuel provider url number).
Proof using PO Calls. unfold compute_github_threads. keeps_tac. apply keeps_thread_pages. Qed.
End keeps.

(** [settle_tac]: the steps of a page that take no fuel. *)
Ltac settle_tac :=
  repeat first
    [ progress cbv zeta
    | apply settles_ret
    | apply settles_lift; done
    | apply settles_then; [apply regular_call|intros ? ? _]
    | apply settles_then;
        [first [ apply regular_ok_or | apply regular_thread_page | apply regular_comments_page
               | apply regular_insert_fresh | apply validate_connection_progress_regular ]
        |intros ? ? ?]
    | match goal with |- settles (λ _ _, if ?b then _ else _) _ => destruct b eqn:? end ].

Lemma comment_pages_settle owner name number head id has_next cursor cursors seen total comments page w :
  (has_next = true → ∃ n, total = Some n ∧ (count comments < n)%N) →
  settles (λ f _, comment_pages f owner name number head id has_next cursor cursors seen total
                    comments page) w.
Proof.
  remember (N.to_nat (default 0%N total - count comments)) as measure eqn:Hm.
  revert has_next cursor cursors seen total comments page w Hm.
  induction (lt_wf measure) as [measure _ IH].
  intros has_next cursor cursors seen total comments page w Hm Hnext.
  apply settles_first. cbn [comment_pages].
  destruct has_next; cbn [negb]; [|apply settles_ret].
  destruct Hnext as (n & -> & Hlt); [done|]. settle_tac.
  lazymatch goal with H : lift (validate_connection_progress _ _ _ _ _ _ _) _ = _ |- _ =>
    apply lift_ok in H as [(n' & -> & _ & He & _ & Hmore & Hlast)%validate_connection_progress_ok _] end.
  rewrite (He n eq_refl) in *. unfold count in *. rewrite List.length_app in *.
  eapply IH; [|reflexivity|].
  - rewrite Hm. cbn [from_option]. unfold Datatypes.id. rewrite List.length_app.
    destruct (cr_has_next_page _); [destruct Hmore as [? ?]; [done|]|specialize (Hlast eq_refl)]; lia.
  - intros Hn. exists n. split; [done|]. rewrite List.length_app. by apply Hmore.
Qed.

Lemma complete_settle owner name number head node w :
  settles (λ f _, complete_github_thread_comments f owner name number head node) w.
Proof.
  unfold complete_github_thread_comments. settle_tac.
  apply (settles_bind (λ f _, comment_pages f owner name number head _ _ _ _ _ _ _ _)).
  - apply comment_pages_settle. intros Hn.
    lazymatch goal with H : lift (validate_connection_progress _ _ _ _ _ _ _) _ = _ |- _ =>
      apply lift_ok in H as [(n & -> & _ & _ & _ & Hmore & _)%validate_connection_progress_ok _] end.
    exists n. split; [done|]. by apply Hmore.
  - intros _ _ comments w1 _. apply settles_ret.
Qed.

Lemma mapM_io_length {A B} (f : A → io W B) l w ys w' :
  mapM_io f l w = (Ok ys, w') → length ys = length l.
Proof.
  revert w w' ys. induction l as [|x l IH]; intros w w' ys H; cbn in H; io_inv H; [by destruct H as [<- _]|].
  destruct H as (y & w1 & _ & H). io_inv H. destruct H as (ys' & w2 & H' & H). io_inv H.
  destruct H as [<- _]. cbn. f_equal. exact (IH _ _ _ H').
Qed.

(** One page of threads: the rest must settle from every state that made progress. *)
Lemma thread_page_settle provider url owner name number cursor cursors head total seen threads page w :
  (∀ cursor cursors head n seen threads' page w,
     (∀ e, total = Some e → n = e) → (count threads < count threads')%N →
     (count threads' < n)%N →
     settles (λ f g, thread_pages f g provider url owner name number cursor cursors head (Some n)
                       seen threads' page) w) →
  settles (λ f g, thread_pages f g provider url owner name number cursor cursors head total seen
                    threads page) w.
Proof.
  intros Hrest. apply settles_second. cbn [thread_pages]. settle_tac.
  lazymatch goal with H : lift (validate_connection_progress _ _ _ _ _ _ _) _ = _ |- _ =>
    apply lift_ok in H as [(n & -> & _ & He & _ & Hmore & _)%validate_connection_progress_ok _] end.
  lazymatch goal with H : lift (ok_or _ (checked_add _ _ _)) _ = _ |- _ =>
    apply lift_ok in H as [Hadd%ok_or_ok _] end.
  unfold checked_add in Hadd. split_if Hadd. injection Hadd as <-.
  eapply (settles_bind (λ f _, mapM_io (complete_github_thread_comments f owner name number _) _)).
  { apply settles_map. intros x w1 _. apply complete_settle. }
  intros f g completed w1 Hdone%mapM_io_length. settle_tac.
  destruct Hmore as [Hnodes Hlt]; [by bool_facts|].
  apply Hrest; [done|..]; unfold count in *; rewrite List.length_app, Hdone; lia.
Qed.

Lemma thread_pages_settle provider url owner name number cursor cursors head total seen threads page w :
  settles (λ f g, thread_pages f g provider url owner name number cursor cursors head total seen
                    threads page) w.
Proof.
  apply thread_page_settle. clear. intros cursor cursors head n seen threads' page w _ _ Hlt.
  remember (N.to_nat (n - count threads')) as measure eqn:Hm.
  revert cursor cursors head seen threads' page w Hlt Hm.
  induction (lt_wf measure) as [measure _ IH]. intros cursor cursors head seen threads' page w Hlt Hm.
  apply thread_page_settle. intros cursor' cursors' head' n' seen' threads'' page' w1 Hn Hmore Hlt'.
  rewrite (Hn n eq_refl) in *. eapply IH; [|exact Hlt'|reflexivity]. lia.
Qed.

Lemma threads_settle provider url number w :
  settles (λ fuel _, compute_github_threads fuel provider url number) w.
Proof.
  apply (settles_diagonal (λ f g,
    slug ← lift (ok_or (Fail (reviews_incomplete "unable to derive GitHub owner/repo from PR url"
      (Some ("url=" +:+ url)))) (github_repo_slug_from_url url));
    '(owner, name) ← lift (ok_or (Fail (reviews_incomplete
      "unable to split GitHub owner/repo slug" (Some ("slug=" +:+ slug)))) (split_once "/" slug));
    thread_pages f g provider url owner name number None ∅ None None ∅ [] 0)).
  settle_tac. destruct a0 as [owner name]. apply thread_pages_settle.
Qed.

(** Reading the review threads always ends, although the reader has no page limit: from every
    state of the provider, whatever it answers, some fuel is enough for the threads and their
    comments, more fuel gives the same outcome, and that outcome is a snapshot or a typed
    error, never a panic. *)
Theorem reading_threads_ends provider url number w :
  ∃ enough outcome w', regular outcome = true
    ∧ ∀ fuel, enough ≤ fuel → compute_github_threads fuel provider url number w = (outcome, w').
Proof.
  destruct (threads_settle provider url number w) as (enough & r & w' & Hr & H).
  exists enough, r, w'. split; [done|]. intros fuel Hf. by apply (H fuel fuel).
Qed.
End reader.

(** ** What is read *)
Section complete.
Context `{JT : !JsonText} {W : Type} `{BE : !Backend W}.

Lemma insert_fresh_ok duplicate seen ids seen' :
  insert_fresh duplicate seen ids = Ok seen' →
  NoDup ids ∧ (∀ id, id ∈ ids → id ∉ seen) ∧ seen' = list_to_set ids ∪ seen.
Proof.
  unfold insert_fresh. revert seen. induction ids as [|id ids IH]; intros seen H; cbn in H.
  - injection H as <-. split; [constructor|]. split; [set_solver|]. set_solver.
  - apply bind_ok in H as (seen1 & H1 & H). split_if H1. injection H1 as <-. bool_facts.
    apply IH in H as (Hnd & Hf & ->). split.
    + constructor; [|done]. intros Hin. apply Hf in Hin. set_solver.
    + split; [|set_solver]. intros x [->|Hx]%elem_of_cons; [done|]. apply Hf in Hx. set_solver.
Qed.

Definition ids_seen {A} (key : A → string) (l : list A) : gset string := list_to_set (key <$> l).

(** Fresh ids appended to a list without duplicates. *)
Lemma fresh_append {A} (key : A → string) duplicate l l' seen' :
  NoDup (key <$> l) →
  insert_fresh duplicate (ids_seen key l) (key <$> l') = Ok seen' →
  NoDup (key <$> l ++ l') ∧ seen' = ids_seen key (l ++ l').
Proof.
  intros Hnd (Hnd' & Hf & ->)%insert_fresh_ok. unfold ids_seen in *. rewrite fmap_app.
  split; [|set_solver]. apply NoDup_app. split; [done|]. split; [|done].
  intros x Hx Hx'. apply Hf in Hx'. set_solver.
Qed.

Lemma comment_pages_ok fuel owner name number head id has_next cursor cursors n comments page w all w' :
  comment_pages fuel owner name number head id has_next cursor cursors (ids_seen tc_id comments)
    (Some n) comments page w = (Ok all, w') →
  NoDup (tc_id <$> comments) → (has_next = false → count comments = n) →
  comments `prefix_of` all ∧ NoDup (tc_id <$> all) ∧ count all = n.
Proof.
  revert has_next cursor cursors comments page w.
  induction fuel as [|fuel IH]; intros has_next cursor cursors comments page w H Hnd Hlast;
    cbn [comment_pages] in H; destruct has_next; cbn [negb] in H;
    try (io_inv H; destruct H as [<- _]; auto); [done|].
  cbv zeta in H. io_inv H. destruct H as (after & _ & H). io_if H. io_inv H.
  destruct H as (text & w1 & _ & H). io_inv H. destruct H as (p & _ & H). io_if H. io_if H.
  io_inv H. destruct H as (seen' & Hseen & H). io_inv H. destruct H as (total & Ht & H).
  apply validate_connection_progress_ok in Ht as (n' & -> & _ & He & _ & _ & Hend).
  rewrite (He n eq_refl) in *. apply fresh_append in Hseen as [Hnd' ->]; [|done].
  apply IH in H as (Hp & Hall); [|done|done]. split; [|done]. by apply prefix_app_l in Hp.
Qed.

(** A thread of the snapshot, and the node of the page it is from. *)
Record thread_of (node : ThreadNode) (t : Thread) : Prop := {
  to_summary : t = with_comments (tn_summary node) (th_comments t);
  to_first : th_comments (tn_summary node) `prefix_of` th_comments t;
  to_fresh : NoDup (tc_id <$> th_comments t);
  to_total : ∀ n, tn_total_count node = Some n → count (th_comments t) = n;
}.

Lemma complete_ok fuel owner name number head node w t w' :
  complete_github_thread_comments fuel owner name number head node w = (Ok t, w') → thread_of node t.
Proof.
  unfold complete_github_thread_comments. intros H. cbv zeta in H.
  io_inv H. destruct H as (seen & Hs & H). io_inv H. destruct H as (total & Ht & H).
  apply validate_connection_progress_ok in Ht as (n & -> & _ & He & _ & _ & Hend).
  io_inv H. destruct H as (all & w1 & H & Hret). io_inv Hret. destruct Hret as [<- _].
  apply (fresh_append tc_id _ [] _ _) in Hs as [Hnd ->]; [|constructor].
  apply comment_pages_ok in H as (Hp & Hnd' & Hc); [|done|done].
  split; cbn; [done..|]. intros m Hm. rewrite Hc. by apply He.
Qed.

Lemma mapM_io_ok {A B} (f : A → io W B) (R : A → B → Prop) l w ys w' :
  (∀ x w y w', f x w = (Ok y, w') → R x y) → mapM_io f l w = (Ok ys, w') → Forall2 R l ys.
Proof.
  intros Hf. revert w w' ys. induction l as [|x l IH]; intros w w' ys H; cbn in H; io_inv H.
  - destruct H as [<- _]. constructor.
  - destruct H as (y & w1 & Hy & H). io_inv H. destruct H as (ys' & w2 & H' & H). io_inv H.
    destruct H as [<- _]. constructor; [by eapply Hf|exact (IH _ _ _ H')].
Qed.

Lemma threads_of_ids nodes threads :
  Forall2 thread_of nodes threads →
  (λ node, th_id (tn_summary node)) <$> nodes = th_id <$> threads.
Proof.
  induction 1 as [|node t nodes threads Ht _ IH]; [done|]. cbn. f_equal; [|exact IH].
  by rewrite (to_summary _ _ Ht).
Qed.

Definition thread_page (page : ThreadPage) : Prop :=
  ∃ text, parse_github_thread_page text = Ok page.

(** What the pages of threads from some state on amount to. *)
Record threads_of (pages : list ThreadPage) (acc : list Thread) (p : PrThreads) : Prop := {
  tf_pages : Forall thread_page pages;
  tf_end : ∀ i page, pages !! i = Some page → tp_has_next_page page = negb (S i =? length pages)%nat;
  tf_head : Forall (λ page, pt_head_sha p = Some (tp_head_sha page)) pages;
  tf_total : Forall (λ page, ∀ n, tp_total_count page = Some n → n = pt_total p) pages;
  tf_threads : ∃ threads, pt_threads p = acc ++ threads
    ∧ Forall2 thread_of (concat (tp_threads <$> pages)) threads;
}.

Lemma thread_pages_ok fuel fuel' provider url owner name number cursor cursors head total threads page w p w' :
  thread_pages fuel fuel' provider url owner name number cursor cursors head total
    (ids_seen th_id threads) threads page w = (Ok p, w') →
  NoDup (th_id <$> threads) →
  ∃ pages, threads_of pages threads p ∧ pages ≠ []
    ∧ (∀ h, head = Some h → pt_head_sha p = Some h) ∧ (∀ n, total = Some n → n = pt_total p)
    ∧ NoDup (th_id <$> pt_threads p) ∧ pt_total p = count (pt_threads p)
    ∧ pt_unresolved p = count_if (λ t, negb (th_resolved t)) (pt_threads p).
Proof.
  revert cursor cursors head total threads page w.
  induction fuel' as [|fuel' IH]; intros cursor cursors head total threads page w H Hnd;
    cbn [thread_pages] in H; [done|].
  cbv zeta in H. io_inv H. destruct H as (text & w1 & _ & H). io_inv H. destruct H as (pg & Hpg & H).
  io_if H.
  assert (Hh : ∀ h, head = Some h → h = tp_head_sha pg).
  { intros h ->. cbn in Hif. by apply negb_decide_false in Hif. }
  assert (Hd : default (tp_head_sha pg) head = tp_head_sha pg) by (destruct head; cbn; auto).
  rewrite Hd in H. io_inv H. destruct H as (seen' & Hseen & H).
  io_inv H. destruct H as (accumulated & Hadd%ok_or_ok & H).
  unfold checked_add in Hadd. split_if Hadd. injection Hadd as <-.
  io_inv H. destruct H as (total' & Ht & H).
  apply validate_connection_progress_ok in Ht as (n & -> & _ & He & Hp & _ & Hend).
  io_inv H. destruct H as (completed & w2 & Hc & H).
  apply (mapM_io_ok _ thread_of) in Hc; [|intros ????; apply complete_ok].
  rewrite (threads_of_ids _ _ Hc) in Hseen. apply fresh_append in Hseen as [Hnd' ->]; [|done].
  assert (Hlen : (count threads + count (tp_threads pg))%N = count (threads ++ completed)).
  { apply Forall2_length in Hc. unfold count. rewrite List.length_app. lia. }
  io_if H.
  - io_inv H. destruct H as [<- _]. apply negb_true_iff in Hif1. exists [pg]. cbn.
    specialize (Hend Hif1). rewrite Hlen in Hend.
    split; [|split_and!; try done; [intros h Hs; by rewrite (Hh h Hs)|intros m Hm; by rewrite <- (He m Hm)]].
    split; cbn.
    + repeat constructor. by exists text.
    + intros [|i] pg'; [by intros [= <-]|done].
    + by repeat constructor.
    + repeat constructor. intros m Hm. by rewrite <- (Hp m Hm).
    + exists completed. by rewrite List.app_nil_r.
  - io_inv H. destruct H as (next & _ & H). apply negb_false_iff in Hif1. io_if H.
    apply IH in H as (pages & Hof & Hne & Hhead & Htot & Hrest); [|done].
    destruct Hof as [Hpages Hlast Hheads Htotals (more & Hmore & Hall)].
    exists (pg :: pages). split; [|split; [done|]].
    + split.
      * constructor; [by exists text|done].
      * intros [|i] pg'; cbn; [intros [= <-]; rewrite Hif1; by destruct pages|apply Hlast].
      * constructor; [by apply Hhead|done].
      * constructor; [|done]. intros m Hm. rewrite <- (Hp m Hm). by apply Htot.
      * exists (completed ++ more). rewrite Hmore. split; [by rewrite List.app_assoc|].
        cbn. by apply Forall2_app.
    + split; [intros h Hs; rewrite (Hh h Hs); by apply Hhead|].
      split; [intros m Hm; rewrite <- (He m Hm); by apply Htot|done].
Qed.


(** Threads hold a merge exactly when one of them is unresolved and current; the unresolved
    outdated ones are recorded, each of them, and do not hold it. *)
Theorem current_unresolved_threads_block p :
  (ensure_payload_resolved p = Ok tt
     ↔ ∀ t, t ∈ pt_threads p → th_resolved t = true ∨ th_outdated t = true)
  ∧ (∀ t, t ∈ pt_threads p → th_resolved t = false → th_outdated t = true →
       ∃ d, d ∈ stale_dispositions p ∧ sd_thread_id d = th_id t).
Proof.
  split.
  - unfold ensure_payload_resolved. cbv zeta. set (blocking := List.filter thread_blocks (pt_threads p)).
    assert (Hb : ∀ t, t ∈ blocking ↔ t ∈ pt_threads p ∧ thread_blocks t = true).
    { intros t. unfold blocking. rewrite !list_elem_of_In. apply filter_In. }
    assert (Hiff : blocking = [] ↔ ∀ t, t ∈ pt_threads p → th_resolved t = true ∨ th_outdated t = true).
    { split.
      - intros Hnil t Ht. specialize (Hb t). rewrite Hnil in Hb. unfold thread_blocks in Hb.
        destruct (th_resolved t), (th_outdated t); auto. cbn in Hb. set_solver.
      - intros Hall. destruct blocking as [|t l]; [done|]. destruct (proj1 (Hb t)) as [Ht Hbl]; [by left|].
        unfold thread_blocks in Hbl. bool_facts. destruct (Hall t Ht); congruence. }
    rewrite <- Hiff. case_bool_decide as Hl; [apply nil_length_inv in Hl|]; split; try done.
    intros Hn. by rewrite Hn in Hl.
  - intros t Ht Hr Ho. unfold stale_dispositions. eexists. split; [apply list_elem_of_fmap|]; [|].
    + exists t. split; [reflexivity|]. rewrite list_elem_of_In. apply filter_In.
      rewrite <- list_elem_of_In. split; [done|]. by rewrite Hr, Ho.
    + done.
Qed.
End complete.

(** ** The theorem at a concrete pull request

    Two threads, the first with a second page of comments. *)
Module ThreadsWitness.
#[export] Instance json : JsonText := world_json
  [("threads", threads_json "h1" (connection_json 2 None
      [thread_node_json "T1" false false (connection_json 2 (Some "c1") [comment_json "C1" "first"]);
       thread_node_json "T2" true false (connection_json 1 None [comment_json "C3" "other"])]));
   ("comments", thread_comments_json "h1" "T1" (connection_json 2 None [comment_json "C2" "second"]))].
#[export] Instance backend : Backend World := demo_backend "h1".

Definition blank : PrThreads := mk_PrThreads "" 0 "" None 0 0 FULL [].
Definition threads : PrThreads :=
  unwrap_or blank (compute_github_threads 9 GitHub demo_url_of_pr 1 []).1.

Lemma threads_ok : compute_github_threads 9 GitHub demo_url_of_pr 1 [] = (Ok threads, []).
Proof. vm_compute. reflexivity. Qed.
End ThreadsWitness.

Section threads_witness.
Import ThreadsWitness.

End threads_witness.
