(* ===== verification/MergePolicyFacts.v ===== *)
(** * Theorems on the merge policy

    A freeze is passed only by naming every active one with a reason; waiting for the merge
    queue ends within its time limit, and its outcome is decided by what the polls showed. *)
From S2P Require Import Prelude RStr Collections Error Types Handoff Provider Append Report.
From S2P Require Import PrView PrReviews Threads MergePolicy LoopCommand IoFacts AppendFacts.
From S2P Require Import Paths Config ThreadsFacts World.
From stdpp Require Import options.

(** ** Freezes *)

(** A merge under active freezes needs every one of them named, with a reason, and the override
    that is recorded lists them all; any freeze that is not named refuses the merge. *)
Theorem freezes_need_a_complete_override freezes allowed reason :
  (freezes = [] → enforce_freeze freezes allowed reason = Ok None)
  ∧ (∀ o, enforce_freeze freezes allowed reason = Ok o → freezes ≠ [] →
       ∃ r, reason = Some r ∧ o = Some (mk_FreezeOverride (fz_number <$> freezes) r)
         ∧ ∀ f, f ∈ freezes → fz_number f ∈ allowed)
  ∧ (∀ f, f ∈ freezes → fz_number f ∉ allowed →
       ∃ e, enforce_freeze freezes allowed reason = Err (Fail e) ∧ kind e = "merge_freeze_active").
Proof.
  unfold enforce_freeze. cbv zeta.
  set (uncovered := List.filter (λ f, negb (bool_decide (fz_number f ∈ allowed))) freezes).
  assert (Hu : ∀ f, f ∈ uncovered ↔ f ∈ freezes ∧ fz_number f ∉ allowed).
  { intros f. unfold uncovered. rewrite !list_elem_of_In, filter_In, negb_true_iff.
    by rewrite bool_decide_eq_false, !list_elem_of_In. }
  split; [by intros ->|]. split.
  - intros o H Hne. case_bool_decide as Hl; [by apply nil_length_inv in Hl|].
    destruct uncovered as [|f l] eqn:E; [|done]. destruct reason as [r|]; [|done].
    injection H as <-. exists r. split; [done|]. split; [done|]. intros f Hf.
    apply dec_stable. intros Hn. by apply (not_elem_of_nil f), Hu.
  - intros f Hf Hn. case_bool_decide as Hl; [apply nil_length_inv in Hl; subst; set_solver|].
    destruct uncovered as [|g l] eqn:E; [exfalso; by apply (not_elem_of_nil f), Hu|].
    eexists. split; [reflexivity|done].
Qed.

(** ** Waiting for the queue *)
Section waiting.
Context `{JT : !JsonText} {W : Type} `{BE : !Backend W, CK : !Clock W}.
Context (host owner name : string) (pr : N).

Lemma regular_poll w : regular (poll owner name pr w).1 = true.
Proof.
  unfold poll, mbind at 1, io_bind. pose proof (regular_call (PullQuery "ForgeMergeQueuePoll" owner name pr true EmptyString) w) as Hc.
  destruct (call _ w) as [[text|[]] w1]; try done. unfold mbind, lift, parse_json, reject_errors.
  destruct (value_from_str (trim text)) as [value|]; [|done]. cbn [map_err].
  by destruct (as_array (index "errors" value)) as [[]|].
Qed.

Lemma keeps_poll (R : W → W → Prop) `{!PreOrder R} : calls_keep R → keeps R (poll owner name pr).
Proof. intros Calls. unfold poll. keeps_tac. Qed.

Lemma poll_time w : clock_moves → (clock_now w ≤ clock_now (poll owner name pr w).2)%N.
Proof. intros Hc. by apply (keeps_poll later), later_calls. Qed.

Lemma poll_queue_ends fuel timeout started since w :
  clock_moves → 1 ≤ fuel → (started ≤ clock_now w)%N →
  (timeout < clock_now w - started + N.of_nat (fuel - 1) * QUEUE_EXIT_POLL_INTERVAL)%N →
  regular (poll_queue host owner name pr fuel timeout started since w).1 = true.
Proof.
  intros Hc. revert since w. induction fuel as [|fuel IH]; intros since w Hf Hs Ht; [lia|].
  cbn [poll_queue]. unfold mbind at 1, io_bind.
  pose proof (regular_poll w) as Hr. pose proof (poll_time w Hc) as Hp.
  destruct (poll owner name pr w) as [[reading|e] w1]; cbn in *; [|by destruct e].
  assert (Hnext : ∀ d since', (QUEUE_EXIT_POLL_INTERVAL ≤ d)%N →
    (clock_now w1 - started < timeout)%N →
    regular (poll_queue host owner name pr fuel timeout started since' (clock_sleep d w1)).1 = true).
  { intros d since' Hd Hlt. pose proof (cm_sleep Hc d w1) as Hsl. change QUEUE_EXIT_POLL_INTERVAL with 5000000000%N in *.
    destruct fuel as [|fuel]; [lia|]. apply IH; lia. }
  destruct reading; try done; cbv zeta; unfold mbind, io_bind, now, sleep.
  - destruct (_ || _) eqn:E; [by destruct merged, (_ <=? _)%N|].
    apply orb_false_iff in E as [_ E]. bool_facts. by apply Hnext.
  - destruct (timeout <=? _)%N eqn:E; [done|]. bool_facts. by apply Hnext.
Qed.

(** Waiting for the merge queue ends: while time passes, one poll for every five seconds of the
    time limit, and two more, are enough, whatever the queue answers. *)
Theorem waiting_for_the_queue_ends fuel timeout w :
  clock_moves → (timeout / QUEUE_EXIT_POLL_INTERVAL + 2 ≤ N.of_nat fuel)%N →
  regular (wait_for_merge host owner name pr fuel timeout w).1 = true.
Proof.
  intros Hc Hf. unfold wait_for_merge, mbind, io_bind, now.
  pose proof (N.mul_succ_div_gt timeout QUEUE_EXIT_POLL_INTERVAL) as Hd.
  change QUEUE_EXIT_POLL_INTERVAL with 5000000000%N in *.
  revert Hf Hd. generalize (timeout / 5000000000)%N as q. intros q Hf Hd.
  apply poll_queue_ends; [done|lia|lia|]. change QUEUE_EXIT_POLL_INTERVAL with 5000000000%N. lia.
Qed.

(** *** The readings decide *)

(** When the pull request was first seen out of the queue, if every reading since shows it so. *)
Definition out_since (since : option N) (reading : N * Reading) : option N :=
  match reading.2 with Transitional _ _ => Some (default reading.1 since) | _ => None end.
Definition left_at (readings : list (N * Reading)) : option N :=
  fold_left out_since readings None.

(** The state between two polls: what the polls so far showed, each undecided, and when. *)
Inductive polled (timeout started : N) : list (N * Reading) → W → Prop :=
  | polled_start w : clock_now w = started → polled timeout started [] w
  | polled_exit readings w merged state w' :
      polled timeout started readings w →
      poll owner name pr w = (Ok (Transitional merged state), w') →
      (clock_now w' - default (clock_now w') (left_at readings) < QUEUE_EXIT_GRACE)%N →
      (clock_now w' - started < timeout)%N →
      polled timeout started (readings ++ [(clock_now w', Transitional merged state)])
        (clock_sleep QUEUE_EXIT_POLL_INTERVAL w')
  | polled_queued readings w entry w' :
      polled timeout started readings w →
      poll owner name pr w = (Ok (Queued entry), w') →
      (clock_now w' - started < timeout)%N →
      polled timeout started (readings ++ [(clock_now w', Queued entry)])
        (clock_sleep QUEUE_POLL_INTERVAL w').

(** The outcome after these readings, when the last poll ended like this at this time. *)
Definition decided (timeout started : N) (readings : list (N * Reading)) (time : N)
    (last : exec Reading) (outcome : exec (option string)) : Prop :=
  let out := (time - default time (left_at readings))%N in
  match last with
  | Err e => outcome = Err e
  | Ok (Landed oid) => outcome = Ok (Some oid)
  | Ok (Closed state) => outcome = Err (Fail (dequeued pr state))
  | Ok (Transitional true state) =>
      outcome = Ok None ∧ ((QUEUE_EXIT_GRACE ≤ out)%N ∨ (timeout ≤ time - started)%N)
  | Ok (Transitional false state) =>
      ((QUEUE_EXIT_GRACE ≤ out)%N ∧ outcome = Err (Fail (dequeued pr state)))
      ∨ ((out < QUEUE_EXIT_GRACE)%N ∧ (timeout ≤ time - started)%N
         ∧ outcome = Err (Fail (queue_timeout pr "none" timeout host owner name)))
  | Ok Unmergeable => ∃ e, outcome = Err (Fail e) ∧ kind e = "merge_queue_checks_failed"
  | Ok (Queued entry) =>
      (timeout ≤ time - started)%N
      ∧ outcome = Err (Fail (queue_timeout pr entry timeout host owner name))
  end.

Lemma left_at_snoc readings reading :
  left_at (readings ++ [reading]) = out_since (left_at readings) reading.
Proof. apply fold_left_app. Qed.

(** Seen out of the queue since [s]: the reading at [s] shows it, and so does every later one. *)
Lemma left_at_spec readings s :
  left_at readings = Some s →
  ∃ before after, readings = before ++ after ∧ (fst <$> head after) = Some s
    ∧ Forall (λ r, ∃ merged state, r.2 = Transitional merged state) after.
Proof.
  revert s. induction readings as [|[t r] readings IH] using rev_ind; intros s; [done|].
  rewrite left_at_snoc. unfold out_since. destruct r as [| |merged state| |]; try done.
  intros [= <-]. destruct (left_at readings) as [s|].
  - destruct (IH s eq_refl) as (before & after & -> & Hs & Hall).
    exists before, (after ++ [(t, Transitional merged state)]). split; [by rewrite List.app_assoc|].
    split; [by destruct after|]. apply Forall_app. split; [done|]. repeat constructor. eauto.
  - exists readings, [(t, Transitional merged state)]. split; [done|]. split; [done|].
    repeat constructor. eauto.
Qed.

Lemma poll_queue_polled fuel timeout started readings w outcome w' :
  polled timeout started readings w →
  poll_queue host owner name pr fuel timeout started (left_at readings) w = (outcome, w') →
  regular outcome = true →
  ∃ readings wk last, polled timeout started readings wk ∧ poll owner name pr wk = (last, w')
    ∧ decided timeout started readings (clock_now w') last outcome.
Proof.
  revert readings w. induction fuel as [|fuel IH]; intros readings w Hp H Hr; cbn [poll_queue] in H.
  { by injection H as <- <-. }
  unfold mbind at 1, io_bind in H. destruct (poll owner name pr w) as [[reading|e] w1] eqn:E.
  2: { injection H as <- <-. by exists readings, w, (Err e). }
  destruct reading as [oid|state|merged state| |entry]; cbv zeta in H;
    unfold mbind, io_bind, now, sleep, lift, throw, mret, io_ret in H.
  - injection H as <- <-. by eexists readings, w, _.
  - injection H as <- <-. by eexists readings, w, _.
  - destruct (QUEUE_EXIT_GRACE <=? _)%N eqn:Eg; cbn [orb] in H.
    + exists readings, w, (Ok (Transitional merged state)). bool_facts.
      destruct merged; injection H as <- <-; split_and!; cbn; eauto.
    + destruct (timeout <=? _)%N eqn:Et; bool_facts.
      * exists readings, w, (Ok (Transitional merged state)).
        destruct merged; injection H as <- <-; split_and!; cbn; eauto.
      * apply (IH (readings ++ [(clock_now w1, Transitional merged state)]) (clock_sleep QUEUE_EXIT_POLL_INTERVAL w1));
          [by eapply polled_exit|by rewrite left_at_snoc|done].
  - injection H as <- <-. eexists readings, w, _. split_and!; [done..|]. cbn. eexists. by split.
  - destruct (timeout <=? _)%N eqn:Et; bool_facts.
    + injection H as <- <-. eexists readings, w, _. split_and!; [done..|]. by cbn.
    + apply (IH (readings ++ [(clock_now w1, Queued entry)]) (clock_sleep QUEUE_POLL_INTERVAL w1));
        [by eapply polled_queued|by rewrite left_at_snoc|done].
Qed.

(** What the wait for the merge queue reports is decided by the readings of the provider: a
    merge commit is one the last poll showed, a merge without a commit was shown merged, and a
    pull request is reported as having left the queue only when it is closed, or when every
    reading for the whole grace of a minute showed it open without an entry; otherwise the
    wait times out with the outcome unknown. *)
Theorem queue_outcome_is_what_was_read fuel timeout w outcome w' :
  wait_for_merge host owner name pr fuel timeout w = (outcome, w') → regular outcome = true →
  ∃ readings wk last, polled timeout (clock_now w) readings wk
    ∧ poll owner name pr wk = (last, w')
    ∧ decided timeout (clock_now w) readings (clock_now w') last outcome
    ∧ ∀ s, left_at readings = Some s →
        ∃ before after, readings = before ++ after ∧ (fst <$> head after) = Some s
          ∧ Forall (λ r, ∃ merged state, r.2 = Transitional merged state) after.
Proof.
  unfold wait_for_merge, mbind, io_bind, now. intros H Hr.
  destruct (poll_queue_polled fuel timeout (clock_now w) [] w outcome w') as
    (readings & wk & last & Hp & Hpoll & Hd); [by constructor|done|done|].
  exists readings, wk, last. split_and!; [done..|]. intros s. apply left_at_spec.
Qed.
End waiting.

(** ** The theorems at a concrete queue

    A world with a clock and the answers of the polls to come; every call takes a second. *)
Module QueueWitness.
Definition TimedWorld : Type := N * list string.

#[export] Instance clock : Clock TimedWorld := {|
  clock_now := fst; clock_sleep := λ d w, ((w.1 + d)%N, w.2) |}.
#[export] Instance backend : Backend TimedWorld := {|
  run_call := λ _ w, (Ok (default "gone" (head w.2)), ((w.1 + secs 1)%N, tail w.2)) |}.

Definition pull_json (fields : list (string * JsonValue)) : JsonValue :=
  JObject [("data", JObject [("repository", JObject [("pullRequest", JObject fields)])])].

(** The pull request in the queue, out of it, and merged. *)
#[export] Instance json : JsonText := world_json
  [("queued", pull_json [("state", JString "OPEN");
                         ("mergeQueueEntry", JObject [("state", JString "QUEUED")])]);
   ("gone", pull_json [("state", JString "OPEN")]);
   ("landed", pull_json [("state", JString "MERGED");
                         ("mergeCommit", JObject [("oid", JString "m1")])])].

Definition world : TimedWorld := (0%N, ["queued"; "gone"; "gone"; "landed"]).

Lemma moves : clock_moves.
Proof. split; intros; cbn; lia. Qed.

Definition after : TimedWorld := (wait_for_merge "h" "o" "r" 7 9 (secs 120) world).2.

Lemma wait_ok : wait_for_merge "h" "o" "r" 7 9 (secs 120) world = (Ok (Some "m1"), after).
Proof. vm_compute. reflexivity. Qed.
End QueueWitness.

Section queue_witnesses.
Import QueueWitness.

Lemma waiting_for_the_queue_ends_witness :
  regular (wait_for_merge "h" "o" "r" 7 26 (secs 120) (0%N, [])).1 = true.
Proof. apply (waiting_for_the_queue_ends "h" "o" "r" 7 26 (secs 120) (0%N, []) moves). by_decide. Defined.

Lemma queue_outcome_is_what_was_read_witness :
  ∃ readings wk last, polled "o" "r" 7 (secs 120) 0 readings wk
    ∧ poll "o" "r" 7 wk = (last, after).
Proof.
  destruct (queue_outcome_is_what_was_read "h" "o" "r" 7 9 (secs 120) world (Ok (Some "m1")) after
    wait_ok eq_refl) as (readings & wk & last & Hp & Hl & _).
  exists readings, wk, last. exact (conj Hp Hl).
Defined.
End queue_witnesses.

Lemma freezes_need_a_complete_override_witness :
  enforce_freeze [mk_Freeze 4 "t" "u" None None; mk_Freeze 5 "t" "u" None None] [5%N; 4%N]
    (Some "release") = Ok (Some (mk_FreezeOverride [4%N; 5%N] "release"))
  ∧ (5%N ∈ [5%N; 4%N]).
Proof.
  split; [vm_compute; reflexivity|].
  destruct (proj1 (proj2 (freezes_need_a_complete_override
    [mk_Freeze 4 "t" "u" None None; mk_Freeze 5 "t" "u" None None] [5%N; 4%N] (Some "release")))
    (Some (mk_FreezeOverride [4%N; 5%N] "release"))) as (r & _ & _ & H);
    [vm_compute; reflexivity|discriminate|].
  apply (H (mk_Freeze 5 "t" "u" None None)). right. left.
Defined.
