(* ===== verification/ConvergenceFacts.v ===== *)
(** * Theorems on review convergence

    Who requests changes is each reviewer's latest opinion; converging ends, and what it lets
    through was quiet for the whole window; the recheck before the merge sees the same activity
    at the same head. *)
From S2P Require Import Prelude RStr Collections Error Types Markers ReviewLoop Handoff Provider.
From S2P Require Import PrView PrReviews Threads LoopCommand Paths Config Convergence IoFacts.
From S2P Require Import AppendFacts ThreadsFacts World.
From stdpp Require Import options.

(** ** Comparisons *)
Record ordering {A} (cmp : A → A → comparison) : Prop := {
  or_opp : ∀ x y, cmp y x = CompOpp (cmp x y);
  or_eq : ∀ x y z, cmp x y = Eq → cmp x z = cmp y z;
  or_trans : ∀ x y z, cmp x y = Lt → cmp y z = Lt → cmp x z = Lt;
}.

Lemma ordering_on {A B} (f : A → B) cmp : ordering cmp → ordering (λ x y, cmp (f x) (f y)).
Proof. intros []. split; eauto. Qed.

Lemma ordering_then {A} (c d : A → A → comparison) :
  ordering c → ordering d → ordering (λ x y, then_with (c x y) (d x y)).
Proof.
  intros [Co Ce Ct] [Do De Dt]. split.
  - intros x y. rewrite (Co x y), (Do x y). by destruct (c x y).
  - intros x y z H. destruct (c x y) eqn:Ex; try done. by rewrite (Ce x y z Ex), (De x y z H).
  - intros x y z Hxy Hyz. destruct (c x y) eqn:Ex; try done; cbn in Hxy.
    + rewrite (Ce x y z Ex). destruct (c y z); try done. cbn in *. by eapply Dt.
    + destruct (c y z) eqn:Ey; try done.
      * assert (Hz : c z y = Eq) by (by rewrite (Co y z), Ey).
        assert (c z x = Gt). { rewrite (Ce z y x Hz), (Co x y), Ex. done. }
        by rewrite (Co z x), H.
      * by rewrite (Ct x y z).
Qed.

Lemma ordering_N : ordering N.compare.
Proof.
  split.
  - intros. apply N.compare_antisym.
  - intros x y z H%N.compare_eq. by subst.
  - intros x y z. rewrite !N.compare_lt_iff. lia.
Qed.

Lemma ordering_string : ordering String.compare.
Proof.
  split.
  - intros. apply String.compare_antisym.
  - intros x y z H%String.compare_eq_iff. by subst.
  - assert (Ha : ∀ a b, Ascii.compare a b = N.compare (N_of_ascii a) (N_of_ascii b)) by done.
    induction x as [|a x IH]; intros [|b y] [|c z]; try done. cbn. rewrite !Ha.
    destruct (N_of_ascii a ?= N_of_ascii b)%N eqn:Ex; try done;
      destruct (N_of_ascii b ?= N_of_ascii c)%N eqn:Ey; try done; intros Hx Hy.
    + rewrite (or_eq _ ordering_N _ _ _ Ex), Ey. by eapply IH.
    + by rewrite (or_eq _ ordering_N _ _ _ Ex), Ey.
    + apply N.compare_eq in Ey. by rewrite <- Ey, Ex.
    + by rewrite (or_trans _ ordering_N _ _ _ Ex Ey).
Qed.

Lemma ordering_ids : ordering compare_ids.
Proof.
  split.
  - intros [x|] [y|]; try done. apply (or_opp _ ordering_N).
  - intros [x|] [y|] [z|]; try done. apply (or_eq _ ordering_N).
  - intros [x|] [y|] [z|]; try done. apply (or_trans _ ordering_N).
Qed.

Lemma ordering_reviews : ordering review_order.
Proof.
  apply (ordering_then (λ l r, String.compare (nr_submitted_at l) (nr_submitted_at r))).
  - apply (ordering_on nr_submitted_at), ordering_string.
  - apply (ordering_then (λ l r, compare_ids (nr_database_id l) (nr_database_id r))).
    + apply (ordering_on nr_database_id), ordering_ids.
    + apply (ordering_on nr_id), ordering_string.
Qed.

(** ** The latest opinion of a reviewer *)

(** [r] is the first of the latest opinions of its author among these reviews. *)
Definition latest_opinion (reviews : list NativeReview) (r : NativeReview) : Prop :=
  opinionated r = true
  ∧ ∃ before after, reviews = before ++ r :: after
    ∧ (∀ o, o ∈ before → opinionated o = true → review_identity o = review_identity r →
         review_order o r = Lt)
    ∧ (∀ o, o ∈ after → opinionated o = true → review_identity o = review_identity r →
         review_order o r ≠ Gt).

Lemma latest_opinions_snoc reviews r :
  latest_opinions (reviews ++ [r]) = note_review (latest_opinions reviews) r.
Proof. apply fold_left_app. Qed.

(** Every reviewer with an opinion is there. *)
Lemma latest_opinions_present reviews o :
  o ∈ reviews → opinionated o = true → is_Some (latest_opinions reviews !! review_identity o).
Proof.
  induction reviews as [|y reviews IH] using rev_ind; [by intros ?%not_elem_of_nil|].
  rewrite latest_opinions_snoc. unfold note_review. cbv zeta. intros Hin Ho.
  assert (Hk : o ∈ reviews ∨ o = y) by set_solver. clear Hin.
  destruct (opinionated y) eqn:Ey; cbn [negb]; [|destruct Hk as [?| ->]; [by apply IH|congruence]].
  destruct (is_none_or _ _) eqn:E.
  - destruct Hk as [Hin| ->]; [|rewrite lookup_insert_eq; eauto].
    apply lookup_insert_is_Some'. right. by apply IH.
  - destruct Hk as [Hin| ->]; [by apply IH|].
    by destruct (latest_opinions reviews !! review_identity y).
Qed.

(** The latest among the reviews before stays the latest unless the new one is later. *)
Lemma latest_opinion_old reviews x r :
  latest_opinion reviews r →
  (opinionated x = true → review_identity x = review_identity r → review_order x r ≠ Gt) →
  latest_opinion (reviews ++ [x]) r.
Proof.
  intros (Ho & before & after & -> & Hb & Ha) Hx. split; [done|].
  exists before, (after ++ [x]). rewrite <- List.app_assoc. split; [done|]. split; [done|].
  intros o Hin. apply elem_of_app in Hin as [Hin|Hin]; [by apply Ha|].
  apply list_elem_of_singleton in Hin as ->. exact Hx.
Qed.

(** A later opinion than the latest one before is later than all of its author. *)
Lemma latest_opinion_above reviews c x o :
  latest_opinion reviews c → review_order x c = Gt → o ∈ reviews → opinionated o = true →
  review_identity o = review_identity c → review_order o x = Lt.
Proof.
  intros (_ & before & after & -> & Hb & Ha) Hgt Hin Ho Hid.
  assert (Hxc : review_order c x = Lt) by (by rewrite (or_opp _ ordering_reviews x c), Hgt).
  assert (Hle : o = c ∨ review_order o c ≠ Gt).
  { apply elem_of_app in Hin as [Hin|Hin]; [right; by rewrite Hb|].
    apply elem_of_cons in Hin as [Hin|Hin]; [by left|right; by apply Ha]. }
  destruct Hle as [->|Hle]; [done|]. destruct (review_order o c) eqn:Eoc; [|..].
  - by rewrite (or_eq _ ordering_reviews _ _ _ Eoc).
  - by eapply (or_trans _ ordering_reviews).
  - done.
Qed.

Lemma latest_opinions_sound reviews k r :
  latest_opinions reviews !! k = Some r → review_identity r = k ∧ latest_opinion reviews r.
Proof.
  revert k r. induction reviews as [|x reviews IH] using rev_ind; intros k r; [done|].
  rewrite latest_opinions_snoc. unfold note_review. cbv zeta.
  destruct (opinionated x) eqn:Eo; cbn [negb].
  2:{ intros H. destruct (IH k r H). split; [done|]. apply latest_opinion_old; [done|congruence]. }
  destruct (is_none_or _ _) eqn:E.
  - intros [[Hk <-]|[Hk H]]%lookup_insert_Some.
    + split; [done|]. split; [done|]. exists reviews, []. split; [done|].
      split; [|by intros o ?%not_elem_of_nil]. intros o Hin Hop Hid.
      destruct (latest_opinions_present reviews o Hin Hop) as [c Hc]. rewrite Hid in Hc.
      rewrite Hc in E. cbn in E. apply bool_decide_eq_true in E.
      destruct (IH _ _ Hc) as [Hcid Hlast]. eapply latest_opinion_above; [done..|congruence].
    + destruct (IH k r H) as [Hid ?]. split; [done|]. apply latest_opinion_old; [done|congruence].
  - intros H. destruct (IH k r H) as [Hid ?]. split; [done|]. apply latest_opinion_old; [done|].
    intros _ Hx Hgt. rewrite Hx, Hid, H in E. cbn in E. by apply bool_decide_eq_false in E.
Qed.

Lemma list_eq_split {A} (before after : list A) x b a y :
  before ++ x :: after = b ++ y :: a →
  x = y ∨ (x ∈ b ∧ y ∈ after) ∨ (y ∈ before ∧ x ∈ a).
Proof.
  revert b. induction before as [|z before IH]; intros [|z' b]; cbn; intros [= -> H].
  - by left.
  - subst. right. left. split; set_solver.
  - subst. right. right. split; set_solver.
  - destruct (IH b H) as [?|[[??]|[??]]]; set_solver.
Qed.

(** A review is some reviewer's latest opinion exactly when the map holds it. *)
Lemma latest_opinions_spec reviews r :
  (∃ k, latest_opinions reviews !! k = Some r) ↔ latest_opinion reviews r.
Proof.
  split; [intros [k H]; by apply latest_opinions_sound in H as [_ ?]|].
  intros Hr. exists (review_identity r). pose proof Hr as (Ho & before & after & Heq & Hb & Ha).
  destruct (latest_opinions_present reviews r) as [c Hc]; [subst; set_solver|done|].
  rewrite Hc. f_equal. destruct (latest_opinions_sound _ _ _ Hc) as (Hid & Hoc & b & a & Heq' & Hb' & Ha').
  symmetry. rewrite Heq in Heq'.
  destruct (list_eq_split before after r b a c Heq') as [->|[[Hin Hin']|[Hin Hin']]]; [done|..].
  - exfalso. apply (Ha c Hin' Hoc Hid). rewrite (or_opp _ ordering_reviews r c).
    assert (Hr' : r ∈ reviews) by (subst; set_solver). by rewrite (Hb' r Hin Ho (eq_sym Hid)).
  - exfalso. apply (Ha' r Hin' Ho (eq_sym Hid)). rewrite (or_opp _ ordering_reviews c r).
    by rewrite (Hb c Hin Hoc Hid).
Qed.

(** The reviewers who request changes are those whose latest opinion on the head says so: a
    comment does not clear a request, a later approval or dismissal does, and of two opinions of
    the same instant and number the first one read counts. *)
Theorem changes_are_requested_by_latest_opinions reviews name :
  name ∈ effective_changes_requested_by reviews ↔
  ∃ r, latest_opinion reviews r ∧ nr_state r = "CHANGES_REQUESTED"
       ∧ name = review_display_identity r.
Proof.
  unfold effective_changes_requested_by. rewrite list_elem_of_fmap. split.
  - intros (r & -> & Hin). apply elem_of_list_filter in Hin as [Hin Hs]. apply elem_of_values in Hin as [k Hk].
    exists r. split; [|split; [|done]]; [by apply latest_opinions_spec; exists k|].
    apply latest_opinions_sound in Hk as (_ & Ho & _). unfold opinionated in Ho. bool_facts.
    repeat (apply elem_of_cons in Ho as [Ho|Ho]; [rewrite Ho in *; done|]).
    by apply not_elem_of_nil in Ho.
  - intros (r & Hr & Hs & ->). exists r. split; [done|]. apply elem_of_list_filter. split.
    + apply elem_of_values. by apply latest_opinions_spec.
    + by rewrite Hs.
Qed.

(** ** Reading the reviews gives a snapshot or a typed error *)
Section total.
Context `{JT : !JsonText} {W : Type} `{BE : !Backend W}.

Lemma regular_review_node node : regular (parse_review_node node) = true.
Proof.
  unfold parse_review_node. destruct (bounded_summary _). cbv zeta.
  do 2 (apply regular_bind; [apply regular_ok_or|intros ? _]). apply regular_bind.
  { unfold required_review_state. apply regular_bind; [apply regular_ok_or|intros state _].
    by case_bool_decide. }
  intros state _. case_bool_decide; [done|].
  by do 2 (apply regular_bind; [apply regular_ok_or|intros ? _]).
Qed.

Lemma regular_review_page text : regular (parse_github_review_page text) = true.
Proof.
  unfold parse_github_review_page. apply regular_bind; [apply regular_map_err|intros value _]. cbv zeta.
  destruct (negb _); [done|].
  do 5 (apply regular_bind; [apply regular_ok_or|intros ? _]).
  apply regular_bind; [|done]. apply regular_mapR. intros node _. apply regular_review_node.
Qed.

Lemma total_reviews deadline provider number url :
  total deadline → total (compute_for_pr_with_timeout deadline provider number url).
Proof.
  intros Hd. unfold compute_for_pr_with_timeout. apply total_bind; [|intros _].
  { apply total_lift. unfold ensure_github. by case_bool_decide. }
  apply total_bind; [apply total_lift, regular_ok_or|intros slug].
  apply total_bind; [apply total_lift, regular_ok_or|intros [owner name]].
  generalize MAX_REVIEW_PAGES at 1 as remaining. intros remaining. generalize (None : option string) as cursor.
  generalize (∅ : gset string) as cursors. generalize (None : option (string * string)) as seen.
  generalize (([], [], []) : list NativeReview * list NativeReview * list PendingReview) as acc.
  induction remaining as [|remaining IH]; intros acc seen cursors cursor; cbn [review_pages];
    [by apply total_lift|].
  cbv zeta. apply total_bind; [done|intros _].
  apply total_bind; [intros w; apply regular_call|intros output].
  apply total_bind; [apply total_lift, regular_review_page|intros page].
  destruct (is_some_and _ _); [by apply total_lift|]. destruct (is_some_and _ _); [by apply total_lift|].
  destruct (default _ _). destruct (negb _); [by apply total_lift|].
  apply total_bind; [apply total_lift, regular_ok_or|intros next].
  case_bool_decide; [by apply total_lift|apply IH].
Qed.
End total.

(** ** Converging *)
Section converge.
Context `{HS : !Hasher, JT : !JsonText} {W : Type} `{BE : !Backend W, CK : !Clock W, WC : !WallClock W}.
Context (policy : ReviewConvergencePolicy) (thread_fuel : nat) (number : N) (pr_url : string)
        (expected : option string).

(** What a poll showed of the configured bots. *)
Definition activity (reviews : PrReviews) (threads : PrThreads) : list string :=
  cv_semantic_activity (build_snapshot policy reviews threads 0).

Lemma read_activity_ok also timeout w reviews threads w' :
  read_activity policy thread_fuel number pr_url expected also timeout w = (Ok (reviews, threads), w') →
  (∀ h, expected = Some h → pv_head_sha reviews = h)
  ∧ (∀ h, also = Some h → pv_head_sha reviews = h)
  ∧ pt_head_sha threads = Some (pv_head_sha reviews)
  ∧ ∃ w1, reviews_within timeout number pr_url w = (Ok reviews, w1)
      ∧ compute_github_threads thread_fuel GitHub pr_url number w1 = (Ok threads, w').
Proof.
  unfold read_activity. intros H. io_inv H. destruct H as (o & w1 & Ho & H).
  unfold attempt in Ho. destruct (reviews_within _ _ _ w) as [r w2] eqn:Er. injection Ho as <- <-.
  io_inv H. destruct H as (reviews' & Hr & H). apply map_err_ok in Hr as ->.
  io_inv H. destruct H as ([] & He & H). io_inv H. destruct H as ([] & Ha & H).
  io_inv H. destruct H as (threads' & w3 & Ht & H). io_inv H. destruct H as ([] & Hh & H).
  io_inv H. destruct H as [[= -> ->] ->].
  unfold ensure_expected_head, ensure_thread_head in *. split_if He. split_if Ha. split_if Hh.
  bool_facts. split_and!; try done.
  - intros h ->. cbn in Hif. by bool_facts.
  - intros h ->. cbn in Hif0. by bool_facts.
  - by exists w2.
Qed.

(** The polls so far, with the time each ended; none of them showed a request for changes. *)
Inductive polls_from (deadline : N) (w0 : W) : list (N * list string) → W → Prop :=
  | polls_none : polls_from deadline w0 [] w0
  | polls_more polls w reviews threads w1 d :
      polls_from deadline w0 polls w →
      read_activity policy thread_fuel number pr_url expected None (deadline - clock_now w) w
        = (Ok (reviews, threads), w1) →
      effective_changes_requested_by (current_head_reviews reviews) = [] →
      polls_from deadline w0 (polls ++ [(clock_now w1, activity reviews threads)]) (clock_sleep d w1).

(** Consecutive polls from one at [since] on: none shows anything the poll before it did not. *)
Inductive calm_since (since : N) : list (N * list string) → list string → Prop :=
  | calm_first a : calm_since since [(since, a)] a
  | calm_next polls last t a :
      calm_since since polls last → a ⊆ last → calm_since since (polls ++ [(t, a)]) a.

(** The loop's own record of the quiet window describes the polls. *)
Definition quiet_ok (quiet : Quiet) (polls : list (N * list string)) : Prop :=
  match quiet with
  | None => polls = []
  | Some (since, _, last) => ∃ before calm, polls = before ++ calm ∧ calm_since since calm last
  end.

Lemma has_new_activity_false previous current :
  has_new_activity previous current = false → current ⊆ previous.
Proof.
  unfold has_new_activity. rewrite existsb_false. intros H x Hx. specialize (H x Hx).
  by apply negb_decide_false in H.
Qed.

Lemma quiet_since_ok quiet polls act time w since label w' :
  quiet_ok quiet polls → quiet_since policy quiet act time w = (Ok (since, label), w') →
  w' = w ∧ quiet_ok (Some (since, label, act)) (polls ++ [(time, act)]).
Proof.
  intros Hq H. assert (Hnew : quiet_ok (Some (time, label, act)) (polls ++ [(time, act)])).
  { exists polls, [(time, act)]. split; [done|constructor]. }
  unfold quiet_since in H. destruct quiet as [[[s l] last]|].
  - destruct (has_new_activity last act) eqn:E.
    + io_inv H. destruct H as (l' & w1 & [= <- <-] & H). io_inv H. by destruct H as [[= <- <-] ->].
    + io_inv H. destruct H as [[= <- <-] ->]. split; [done|].
      destruct Hq as (before & calm & -> & Hc). exists before, (calm ++ [(time, act)]).
      split; [by rewrite List.app_assoc|]. econstructor; [done|by apply has_new_activity_false].
  - io_inv H. destruct H as (l' & w1 & [= <- <-] & H). io_inv H. by destruct H as [[= <- <-] ->].
Qed.

(** What a converged snapshot rests on. *)
Definition converged (deadline : N) (w0 : W) (s : ConvergenceSnapshot) (w' : W) : Prop :=
  ∃ polls w reviews threads waited label,
    polls_from deadline w0 polls w
    ∧ read_activity policy thread_fuel number pr_url expected None (deadline - clock_now w) w
        = (Ok (reviews, threads), w')
    ∧ (clock_now w' < deadline)%N
    ∧ s = with_wait (build_snapshot policy reviews threads waited)
            (cv_latest_activity_at (build_snapshot policy reviews threads waited)) label waited
    ∧ effective_changes_requested_by (current_head_reviews reviews) = []
    ∧ (activity reviews threads = [] ∨ cp_quiet_period policy = 0%N
       ∨ ∃ before calm since, polls ++ [(clock_now w', activity reviews threads)] = before ++ calm
           ∧ calm_since since calm (activity reviews threads)
           ∧ (cp_quiet_period policy ≤ clock_now w' - since)%N).

Lemma converge_from_ok fuel started deadline quiet w0 polls w s w' :
  polls_from deadline w0 polls w → quiet_ok quiet polls →
  converge_from policy thread_fuel number pr_url expected fuel started deadline quiet w = (Ok s, w') →
  converged deadline w0 s w'.
Proof.
  revert quiet polls w. induction fuel as [|fuel IH]; intros quiet polls w Hp Hq H; [done|].
  cbn [converge_from] in H. io_inv H. destruct H as (time & w1 & [= <- <-] & H). io_if H; [done|].
  io_inv H. destruct H as ([reviews threads] & w1 & Hread & H). cbv zeta in H.
  io_inv H. destruct H as (time & w2 & [= <- <-] & H).
  io_inv H. destruct H as (time & w2 & [= <- <-] & H). io_if H; [done|]. bool_facts.
  io_if H. cbn [cv_changes_requested_by build_snapshot] in Hif1.
  apply negb_decide_false, nil_length_inv in Hif1.
  destruct (_ || _) eqn:E in H.
  - io_inv H. destruct H as [<- <-]. exists polls, w, reviews, threads, (duration_ms (clock_now w' - started)), None.
    split_and!; [done..|]. apply orb_true_iff in E as [E|E]; bool_facts; [left|right; by left].
    by apply nil_length_inv in E.
  - io_inv H. destruct H as (time & w2 & [= <- <-] & H).
    io_inv H. destruct H as ([since label] & w2 & Hs & H).
    apply (quiet_since_ok _ polls) in Hs as [-> Hq']; [|done].
    destruct (_ <=? _)%N eqn:El in H; bool_facts.
    + io_inv H. destruct H as [<- <-]. exists polls, w, reviews, threads, (duration_ms (clock_now w' - started)), label.
      split_and!; [done..|]. right. right. destruct Hq' as (before & calm & Heq & Hc).
      by exists before, calm, since.
    + io_if H; [done|]. io_inv H. destruct H as ([] & w3 & [= <-] & H).
      eapply IH; [by econstructor|exact Hq'|exact H].
Qed.

(** *** Converging ends *)
Lemma total_reviews_within timeout : total (reviews_within timeout number pr_url).
Proof.
  unfold reviews_within. apply total_bind; [done|intros started]. apply total_reviews.
  unfold remaining_timeout. apply total_bind; [done|intros time]. by destruct (_ =? _)%N.
Qed.

Lemma regular_heads head reviews : regular (ensure_expected_head head reviews) = true.
Proof. unfold ensure_expected_head. by destruct (is_none_or _ _). Qed.

Lemma read_activity_settles also timeout w :
  settles (λ f _, read_activity policy f number pr_url expected also timeout) w.
Proof.
  unfold read_activity. apply settles_then.
  { unfold attempt. by destruct (reviews_within _ _ _ w). }
  intros outcome w1 Ho. unfold attempt in Ho. pose proof (total_reviews_within timeout w) as Hr.
  destruct (reviews_within timeout number pr_url w) as [r w2]. injection Ho as <- <-. cbn in Hr.
  apply settles_then; [destruct r as [|[]]; done|]. intros reviews w3 _.
  apply settles_then; [apply regular_heads|intros [] w4 _].
  apply settles_then; [apply regular_heads|intros [] w5 _].
  apply (settles_bind (λ f _, compute_github_threads f GitHub pr_url number)); [apply threads_settle|].
  intros _ _ threads w6 _. apply settles_then; [|intros; apply settles_ret].
  unfold lift, ensure_thread_head. by case_bool_decide.
Qed.

Lemma keeps_read_activity (R : W → W → Prop) `{!PreOrder R} fuel also timeout :
  calls_keep R → keeps R (read_activity policy fuel number pr_url expected also timeout).
Proof.
  intros Calls. unfold read_activity. keeps_tac; [|by apply keeps_threads].
  unfold reviews_within. keeps_tac. apply keeps_reviews_within; [done|done|].
  unfold remaining_timeout. keeps_tac.
Qed.

Lemma quiet_since_total quiet act time w :
  ∃ since label, quiet_since policy quiet act time w = (Ok (since, label), w).
Proof.
  unfold quiet_since. destruct quiet as [[[s l] last]|]; [destruct (has_new_activity _ _)|];
    by repeat eexists.
Qed.

Lemma converge_from_settles started deadline quiet w :
  clock_moves →
  settles (λ f g, converge_from policy f number pr_url expected g started deadline quiet) w.
Proof.
  intros Hc. remember (N.to_nat (deadline - clock_now w)) as measure eqn:Hm. revert quiet w Hm.
  induction (lt_wf measure) as [measure _ IH]. intros quiet w Hm.
  apply settles_second. cbn [converge_from]. apply settles_then; [done|].
  intros time w0 [= <- <-]. destruct (_ =? _)%N; [by apply settles_lift|].
  apply (settles_bind (λ f _, read_activity policy f number pr_url expected None _)).
  { apply read_activity_settles. }
  intros f _ [reviews threads] w1 Hread. cbv zeta.
  assert (Htime : later w w1).
  { pose proof (keeps_read_activity later f None (deadline - clock_now w) (later_calls Hc) w) as H.
    by rewrite Hread in H. }
  apply settles_then; [done|]. intros t1 w2 [= <- <-].
  apply settles_then; [done|]. intros t2 w2 [= <- <-].
  destruct (_ <=? _)%N eqn:Ed; [by apply settles_lift|]. bool_facts.
  destruct (negb _); [by apply settles_lift|]. destruct (_ || _) eqn:Eq; [apply settles_ret|].
  apply settles_then; [done|]. intros t3 w2 [= <- <-].
  destruct (quiet_since_total quiet (cv_semantic_activity (build_snapshot policy reviews threads
    (duration_ms (clock_now w1 - started)))) (clock_now w1) w1) as (since & label & Hs).
  apply settles_then; [by rewrite Hs|]. intros [since' label'] w2 Hs'. rewrite Hs in Hs'.
  injection Hs' as <- <- <-. destruct (_ <=? _)%N eqn:El; [apply settles_ret|]. bool_facts.
  destruct (_ <=? _)%N; [by apply settles_lift|].
  apply settles_then; [done|]. intros [] w2 [= <-].
  pose proof (cm_sleep Hc (N.min (N.min POLL_INTERVAL (cp_quiet_period policy - (clock_now w1 - since)))
    (deadline - clock_now w1)) w1) as Hsleep.
  eapply IH; [|reflexivity]. unfold later in Htime. unfold POLL_INTERVAL, secs in *. lia.
Qed.

(** Waiting for the reviews to converge ends, for every policy and whatever the provider
    answers, while time passes: some fuel is enough for the polls and the threads each of them
    reads, more fuel changes nothing, and the outcome is a snapshot or a typed error. *)
Theorem convergence_ends w :
  clock_moves →
  ∃ enough outcome w', regular outcome = true ∧ ∀ fuel, enough ≤ fuel →
    converge policy fuel number pr_url expected fuel w = (outcome, w').
Proof.
  intros Hc. destruct (converge_from_settles (clock_now w)
    (default (clock_now w) (instant_checked_add (clock_now w) (cp_timeout policy))) None w Hc)
    as (enough & r & w' & Hr & H).
  exists enough, r, w'. split; [done|]. intros fuel Hf. by apply H.
Qed.


(** The recheck before the merge passes only at the head that converged, with the activity that
    converged, with no reviewer requesting changes; and unless the caller allows it, with no
    review thread open. *)
Theorem recheck_confirms_the_converged_activity previous allow w s w' :
  recheck_before_merge policy thread_fuel number pr_url expected previous allow w = (Ok s, w') →
  cv_head_sha s = cv_head_sha previous
  ∧ cv_semantic_digest s = cv_semantic_digest previous
  ∧ cv_changes_requested_by s = []
  ∧ (allow = false → cv_unresolved_threads s = 0%N)
  ∧ ∃ reviews threads w1, reviews_within (cp_timeout policy) number pr_url w = (Ok reviews, w1)
      ∧ compute_github_threads thread_fuel GitHub pr_url number w1 = (Ok threads, w')
      ∧ pt_head_sha threads = Some (cv_head_sha s)
      ∧ cv_semantic_activity s = activity reviews threads.
Proof.
  unfold recheck_before_merge. intros H. io_inv H. destruct H as ([reviews threads] & w1 & Hr & H).
  cbv zeta in H. io_if H. apply negb_decide_false, nil_length_inv in Hif.
  io_inv H. destruct H as ([] & Hgate & H). io_if H. io_inv H. destruct H as [<- ->].
  apply negb_decide_false in Hif0. apply read_activity_ok in Hr as (He & Ha & Ht & w2 & Hr & Hth).
  split; [by apply Ha|]. split; [done|]. split; [done|]. split.
  - intros ->. unfold ensure_payload_resolved in Hgate. cbv zeta in Hgate. split_if Hgate.
    bool_facts. cbn. change open_thread with thread_blocks. by rewrite Hif1.
  - by exists reviews, threads, w2.
Qed.
End converge.

(** ** The theorems at a concrete pull request

    A bot has commented on the head once; polls are a few seconds long. *)
Module ConvergeWitness.
Definition ClockWorld : Type := N.
#[export] Instance clock : Clock ClockWorld := {| clock_now := λ t, t; clock_sleep := λ d t, (t + d)%N |}.
#[export] Instance backend : Backend ClockWorld := {|
  run_call := λ c t, ((@run_call World (demo_backend "h1") c []).1, (t + secs 1)%N) |}.
#[export] Instance wall : WallClock ClockWorld := λ d t, Some (dec (t + d)).
#[export] Instance hasher : Hasher := demo_hasher.

Definition bot_review : NativeReview :=
  {| nr_id := "R1"; nr_database_id := Some 1%N; nr_url := "u"; nr_author := "bot";
     nr_author_node_id := None; nr_author_type := Some "Bot"; nr_state := "COMMENTED";
     nr_commit_sha := "h1"; nr_submitted_at := "t1"; nr_summary := "a nit";
     nr_summary_truncated := false |}.

#[export] Instance json : JsonText := world_json
  [("reviews", reviews_json "h1" [bot_review]);
   ("threads", threads_json "h1" (connection_json 1 None
      [thread_node_json "T1" true false (connection_json 1 None [comment_json "C1" "done"])]))].

Definition policy : ReviewConvergencePolicy :=
  mk_ConvergencePolicy true (secs 15) (secs 120) [mk_Bot "bot" Observed].
Definition blank : ConvergenceSnapshot :=
  mk_ConvergenceSnapshot false "" [] [] [] "" 0 [] [] None None 0 0 0 [].
Definition snapshot : ConvergenceSnapshot := 
  unwrap_or blank (converge policy 9 1 demo_url_of_pr (Some "h1") 9 0%N).1.

Lemma converges_ok :
  converge policy 9 1 demo_url_of_pr (Some "h1") 9 0%N = (Ok snapshot, 19000000000%N).
Proof. vm_compute. reflexivity. Qed.

Definition checked : ConvergenceSnapshot :=
  unwrap_or blank (recheck_before_merge policy 9 1 demo_url_of_pr (Some "h1") snapshot false 0%N).1.
Lemma checked_ok :
  recheck_before_merge policy 9 1 demo_url_of_pr (Some "h1") snapshot false 0%N
  = (Ok checked, 2000000000%N).
Proof. vm_compute. reflexivity. Qed.

Lemma converging_moves : clock_moves (W := ClockWorld).
Proof. split; intros; cbn; unfold ClockWorld in *; lia. Qed.
End ConvergeWitness.

Section converge_witness.
Import ConvergeWitness.

Lemma convergence_ends_witness :
  ∃ enough outcome w', regular outcome = true ∧ ∀ fuel, enough ≤ fuel →
    converge policy fuel 1 demo_url_of_pr (Some "h1") fuel 0%N = (outcome, w').
Proof. exact (convergence_ends policy 1 demo_url_of_pr (Some "h1") 0%N converging_moves). Defined.


Lemma recheck_confirms_the_converged_activity_witness :
  cv_semantic_digest checked = cv_semantic_digest snapshot ∧ cv_unresolved_threads checked = 0%N.
Proof.
  destruct (recheck_confirms_the_converged_activity policy 9 1 demo_url_of_pr (Some "h1") snapshot
    false 0%N checked 2000000000%N checked_ok) as (_ & Hd & _ & Hopen & _).
  exact (conj Hd (Hopen eq_refl)).
Defined.
End converge_witness.
