(* ===== verification/ChecksFacts.v ===== *)
(** * Theorems on the required checks

    The gate of a merge, and waiting for it. *)
From S2P Require Import Prelude RStr Collections Error Types Handoff Provider Hosts Paths Config PrView.
From S2P Require Import PrReviews Threads Append Report Detect Checks WaitChecks LoopCommand World IoFacts.
From S2P Require Import AppendFacts ThreadsFacts.
From stdpp Require Import options.

(** ** Theorems on the required-check gate

    A green gate means that every requirement configured for the base branch was reported
    passing, by the app it asks for, on the head the pull request had before and after. *)

(** ** The aggregate *)
Definition failing : list string := ["failure"; "cancelled"; "timed_out"].
Definition passing : list string := ["success"; "skipped"; "neutral"].

Lemma check_as_str_cases s : check_as_str s ∈ failing ++ ["pending"] ++ passing.
Proof. destruct s; by_decide. Qed.

Lemma filter_nil {A} (p : A → bool) l : List.filter p l = [] ↔ ∀ x, x ∈ l → p x = false.
Proof.
  split.
  - intros H x Hx. apply not_true_is_false. intros Hp.
    apply (not_elem_of_nil x). rewrite <- H. by apply elem_of_list_filter.
  - intros H. induction l as [|x l IH]; [done|]. cbn. rewrite (H x) by by left.
    apply IH. intros y Hy. apply H. by right.
Qed.

(** The classification lets a snapshot through when nothing in its gate fails or is pending. *)
Lemma classify_ok snapshot presence s :
  classify snapshot presence = Ok s →
  s = snapshot ∧ pk_failed snapshot = [] ∧ pk_pending snapshot = []
  ∧ (presence = PresenceRequired → nothing_was_checked snapshot = false).
Proof.
  unfold classify. intros H. do 3 split_if H. injection H as <-. bool_facts.
  split; [done|]. split; [by apply nil_length_inv|]. split; [by apply nil_length_inv|].
  intros ->. by rewrite bool_decide_true in Hif1.
Qed.

Lemma aggregate_green provider checks :
  pk_failed (aggregate provider checks true None) = [] →
  pk_pending (aggregate provider checks true None) = [] →
  ∀ c, c ∈ checks → ck_required c = true → ck_state c ∉ failing ++ ["pending"].
Proof.
  intros Hf%fmap_nil_inv Hp%fmap_nil_inv c Hc Hr.
  rewrite filter_nil in Hf, Hp. assert (Hg : c ∈ List.filter ck_required checks) by by apply elem_of_list_filter.
  specialize (Hf c Hg). specialize (Hp c Hg). unfold in_state in *. bool_facts. set_solver.
Qed.

(** ** Requirements against rows *)

(** The same row, required at least as before. *)
Record same_row (row row' : Row) : Prop := {
  sr_app : rw_app row' = rw_app row;
  sr_status : rw_is_status row' = rw_is_status row;
  sr_name : ck_name (rw_check row') = ck_name (rw_check row);
  sr_state : ck_state (rw_check row') = ck_state (rw_check row);
  sr_required : ck_required (rw_check row) = true → ck_required (rw_check row') = true;
}.

(** The requirement asks for this row: its name, and its app unless it is a commit status. *)
Definition asks_for (q : Requirement) (row : Row) : Prop :=
  ck_name (rw_check row) = rq_name q ∧ (matches_app q row = true ∨ rw_is_status row = true).

(** It is answered by this row: a check of its name by the app it names. *)
Definition answered_by (q : Requirement) (row : Row) : Prop :=
  ck_name (rw_check row) = rq_name q ∧ matches_app q row = true.

Lemma same_row_refl row : same_row row row.
Proof. by split. Qed.

Lemma same_row_trans a b c : same_row a b → same_row b c → same_row a c.
Proof. intros [] []. split; [congruence..|auto]. Qed.

Lemma mark_row_same q row : same_row row (mark_row q row).
Proof.
  unfold mark_row. case_bool_decide; [|apply same_row_refl]. split; try done. cbn. by intros ->.
Qed.

Lemma mark_row_asked q row : asks_for q row → ck_required (rw_check (mark_row q row)) = true.
Proof.
  intros [Hn Ha]. unfold mark_row. rewrite bool_decide_true by done. cbn.
  destruct Ha as [-> | ->]; by rewrite ?orb_true_r.
Qed.

Lemma asks_for_same q row row' : same_row row row' → asks_for q row → asks_for q row'.
Proof.
  intros [Ha Hs Hn _ _] [H1 H2]. split; [congruence|]. unfold matches_app in *.
  by rewrite Ha, Hs.
Qed.

Lemma found_same q row row' : same_row row row' → found_row q row' = found_row q row.
Proof. intros [Ha _ Hn _ _]. unfold found_row, matches_app. by rewrite Ha, Hn. Qed.

Lemma mark_all required rows missing rows' missing' :
  fold_left mark_requirement required (rows, missing) = (rows', missing') →
  (∀ row, row ∈ rows → ∃ row', row' ∈ rows' ∧ same_row row row'
     ∧ ∀ q, q ∈ required → asks_for q row → ck_required (rw_check row') = true)
  ∧ missing ⊆ missing'
  ∧ (∀ q, q ∈ required → (∃ row, row ∈ rows ∧ answered_by q row)
                       ∨ pending_row (rq_name q) ∈ missing').
Proof.
  revert rows missing. induction required as [|q required IH]; intros rows missing H; cbn in H.
  - injection H as <- <-. split; [|set_solver]. intros row Hrow. exists row.
    split; [done|]. split; [apply same_row_refl|set_solver].
  - apply IH in H as (Hrows & Hmissing & Hall). split; [|split].
    + intros row Hrow. destruct (Hrows (mark_row q row)) as (row' & Hrow' & Hs & Hq);
        [by apply list_elem_of_fmap_2|].
      pose proof (mark_row_same q row) as Hm. exists row'. split; [done|].
      split; [by eapply same_row_trans|]. intros q' [->|Hq']%elem_of_cons Ha.
      * apply (sr_required _ _ Hs). by apply mark_row_asked.
      * eapply Hq; [done|]. by eapply asks_for_same.
    + cbn in Hmissing. destruct (existsb (found_row q) rows); set_solver.
    + intros q' [->|Hq']%elem_of_cons.
      * cbn in Hmissing. destruct (existsb (found_row q) rows) eqn:E; [|right; set_solver].
        left. apply existsb_true in E as (row & Hrow & Hf). exists row. split; [done|].
        unfold found_row in Hf. apply andb_true_iff in Hf as [Hf1 Hf2]. bool_facts. by split.
      * destruct (Hall q' Hq') as [(row & Hrow & Hn & Ha)|Hp]; [left|by right].
        apply list_elem_of_fmap in Hrow as (row0 & -> & Hrow). exists row0. split; [done|].
        assert (Hf : found_row q' row0 = true).
        { rewrite <- (found_same q' _ _ (mark_row_same q row0)). unfold found_row.
          rewrite Hn, Ha, andb_true_r. by apply bool_decide_true. }
        unfold found_row in Hf. apply andb_true_iff in Hf as [Hf1 Hf2]. bool_facts. by split.
Qed.

(** The states of parsed rows are those of [CheckState]. *)
Lemma mapR_elem {A B} (f : A → exec B) l ys y :
  mapR f l = Ok ys → y ∈ ys → ∃ x, x ∈ l ∧ f x = Ok y.
Proof.
  revert ys. induction l as [|x l IH]; intros ys H Hy; cbn in H; inv_ok; [by inv Hy|].
  apply elem_of_cons in Hy as [->|Hy]; [exists x; split; [by left|done]|].
  edestruct IH as (x' & ? & ?); [done..|]. exists x'. split; [by right|done].
Qed.

Lemma parsed_state runs statuses rows row :
  parse_rows runs statuses = Ok rows → row ∈ rows → ∃ s, ck_state (rw_check row) = check_as_str s.
Proof.
  unfold parse_rows. intros H Hrow. apply bind_ok in H as (xs & Hx & H).
  apply bind_ok in H as (ys & Hy & H). injection H as <-.
  apply elem_of_app in Hrow as [Hrow|Hrow].
  - destruct (mapR_elem _ _ _ _ Hx Hrow) as (x & _ & Hp).
    apply bind_ok in Hp as (check & Hp & [= <-]). apply bind_ok in Hp as (name & _ & [= <-]). by eexists.
  - destruct (mapR_elem _ _ _ _ Hy Hrow) as (x & _ & Hp).
    apply bind_ok in Hp as (check & Hp & [= <-]). apply bind_ok in Hp as (name & _ & [= <-]). by eexists.
Qed.

Lemma state_passes s : check_as_str s ∉ failing ++ ["pending"] → check_as_str s ∈ passing.
Proof. destruct s; intros H; [by_decide|exfalso; apply H; by_decide|exfalso; apply H; by_decide|exfalso; apply H; by_decide|by_decide|by_decide|exfalso; apply H; by_decide]. Qed.

(** ** A green gate *)
Section gate.
Context `{JT : !JsonText, UP : !UrlParse, UE : !UrlEncode} {W : Type} `{BE : !Backend W}.
Context (host : string) (repo : option string).

Definition commit_path (head : Head) : string :=
  "repos/" +:+ hd_repo head +:+ "/commits/" +:+ hd_sha head.

(** What the gate read: the head, the check runs and statuses of its commit, the requirements
    of its base branch, and the head again. *)
Definition gate_reads (id : string) (w : W) (head : Head) (rows : list Row)
    (required : list Requirement) (w' : W) : Prop :=
  ∃ w1 w2 w3 w4 runs statuses run_rows status_rows,
    read_head host repo id w = (Ok head, w1)
    ∧ api (commit_path head +:+ "/check-runs?per_page=100") w1 = (Ok runs, w2)
    ∧ api (commit_path head +:+ "/status?per_page=100") w2 = (Ok statuses, w3)
    ∧ get "check_runs" runs ≫= as_array = Some run_rows
    ∧ get "statuses" statuses ≫= as_array = Some status_rows
    ∧ parse_rows run_rows status_rows = Ok rows
    ∧ total_count_exceeds runs (length run_rows) = false
    ∧ total_count_exceeds statuses (length status_rows) = false
    ∧ requirements head w3 = (Ok required, w4)
    ∧ read_head host repo id w4 = (Ok head, w').

(** What a snapshot is made of: the reads, and what they amount to. *)
Lemma gate_snapshot_ok id required_only w full w' :
  gate_snapshot host repo id required_only w = (Ok full, w') →
  ∃ head again rows required truncated run_rows status_rows,
    full = aggregate GitHub (gate_rows rows required truncated (again !=? head)) required_only None
    ∧ parse_rows run_rows status_rows = Ok rows
    ∧ (again = head → truncated = false → gate_reads id w head rows required w').
Proof.
  unfold gate_snapshot. intros H. io_inv H. destruct H as (head & w1 & Hhead & H). cbv zeta in H.
  io_inv H. destruct H as (runs & w2 & Hruns & H). io_inv H. destruct H as (statuses & w3 & Hst & H).
  io_inv H. destruct H as (run_rows & Hrr & H). io_inv H. destruct H as (status_rows & Hsr & H).
  io_inv H. destruct H as (rows & Hrows & H). io_inv H. destruct H as (required & w4 & Hreq & H).
  io_inv H. destruct H as (again & w5 & Hagain & H). io_inv H. destruct H as [<- ->].
  exists head, again, rows, required, (total_count_exceeds runs (length run_rows)
    || total_count_exceeds statuses (length status_rows)), run_rows, status_rows.
  do 2 (split; [done|]). intros -> [Ht1 Ht2]%orb_false_iff. apply ok_or_ok in Hrr, Hsr.
  by exists w1, w2, w3, w4, runs, statuses, run_rows, status_rows.
Qed.

(** Rows none of which fails or is pending where it is required. *)
Lemma green_rows rows required truncated changed run_rows status_rows :
  parse_rows run_rows status_rows = Ok rows →
  (∀ c, c ∈ gate_rows rows required truncated changed → ck_required c = true →
     ck_state c ∉ failing ++ ["pending"]) →
  changed = false ∧ truncated = false
  ∧ (∀ q, q ∈ required → ∃ row, row ∈ rows ∧ answered_by q row ∧ ck_state (rw_check row) ∈ passing)
  ∧ (∀ q row, q ∈ required → row ∈ rows → asks_for q row → ck_state (rw_check row) ∈ passing)
  ∧ (gate_rows rows required truncated changed ≠ [] → rows ≠ []).
Proof.
  intros Hrows. unfold gate_rows.
  destruct (fold_left mark_requirement required (rows, [])) as [rows' missing] eqn:E.
  pose proof E as Hmark. apply mark_all in Hmark as (Hall & _ & Hans). intros Hgreen.
  destruct changed.
  { exfalso. eapply (Hgreen (pending_row "github-pr-head-changed")); [by left|done|by_decide]. }
  destruct truncated.
  { exfalso. eapply (Hgreen (pending_row "github-checks-pagination-truncated")); [|done|by_decide].
    apply elem_of_app. right. by left. }
  assert (Hpass : ∀ q row, q ∈ required → row ∈ rows → asks_for q row →
    ck_state (rw_check row) ∈ passing).
  { intros q row Hq Hrow Ha. destruct (Hall row Hrow) as (row' & Hrow' & Hs & Hr).
    destruct (parsed_state _ _ _ _ Hrows Hrow) as (s & Hstate). rewrite Hstate.
    apply state_passes. rewrite <- Hstate, <- (sr_state _ _ Hs). apply Hgreen; [|by eapply Hr].
    apply elem_of_app. left. by apply list_elem_of_fmap_2. }
  assert (Hanswered : ∀ q, q ∈ required → ∃ row, row ∈ rows ∧ answered_by q row).
  { intros q Hq. destruct (Hans q Hq) as [Hrow|Hmiss]; [done|]. exfalso.
    eapply (Hgreen (pending_row (rq_name q))); [|done|by_decide]. apply elem_of_app. by right. }
  do 2 (split; [done|]). split; [|split; [exact Hpass|]].
  - intros q Hq. destruct (Hanswered q Hq) as (row & Hrow & Ha). exists row. do 2 (split; [done|]).
    apply (Hpass q row Hq Hrow). destruct Ha as [Hn Hm]. split; [done|by left].
  - intros Hne ->. destruct required as [|q required].
    + simpl in E. by injection E as <- <-.
    + destruct (Hanswered q) as (row & Hrow & _); [by left|]. by apply not_elem_of_nil in Hrow.
Qed.

(** C11: The required-check gate is green only on complete evidence for one head: the head is the
    same before and after the reads and none of them was truncated; every requirement of the
    base branch is answered by a row of that head, by the app it names; every row a requirement
    asks for, commit statuses of its name included, passes; and unless the caller allows a
    head without checks, some check was reported. *)
Theorem green_gate_rests_on_the_head id presence w snapshot w' :
  ensure_required_checks_green host repo id presence w = (Ok snapshot, w') →
  ∃ head rows required, gate_reads id w head rows required w'
    ∧ (∀ q, q ∈ required → ∃ row, row ∈ rows ∧ answered_by q row ∧ ck_state (rw_check row) ∈ passing)
    ∧ (∀ q row, q ∈ required → row ∈ rows → asks_for q row → ck_state (rw_check row) ∈ passing)
    ∧ (presence = PresenceRequired → rows ≠ []).
Proof.
  unfold ensure_required_checks_green. intros H. io_inv H. destruct H as (full & w0 & H & Hclass).
  io_inv Hclass. destruct Hclass as [Hclass ->].
  apply gate_snapshot_ok in H as (head & again & rows & required & tr & rr & sr & -> & Hrows & Hreads).
  apply classify_ok in Hclass as (-> & Hf & Hp & Hpres).
  destruct (green_rows _ _ _ _ _ _ Hrows (aggregate_green _ _ Hf Hp))
    as (Hsame%negb_decide_false & -> & Hans & Hpass & Hne).
  exists head, rows, required. split; [by apply Hreads|]. do 2 (split; [done|]).
  intros Hq. apply Hne. intros Hnil. specialize (Hpres Hq). by rewrite Hnil in Hpres.
Qed.

(** ** The gate answers, or fails by a typed error *)
Lemma total_read_head id : total (read_head host repo id).
Proof.
  unfold read_head, checks_json. total_tac. apply total_lift. unfold parse_head, or_invalid.
  regular_tac.
Qed.

Lemma total_api endpoint : total (api endpoint).
Proof. unfold api, checks_json. total_tac. Qed.

Lemma regular_parse_rows runs statuses : regular (parse_rows runs statuses) = true.
Proof.
  unfold parse_rows, parse_github_rest_check_run, parse_github_rest_status.
  apply regular_bind; [apply regular_mapR; intros; regular_tac|intros ? _].
  apply regular_bind; [apply regular_mapR; intros; regular_tac|done].
Qed.

Lemma regular_requirement value key : regular (requirement value key) = true.
Proof. unfold requirement, or_invalid. regular_tac. Qed.

Lemma regular_protection value : regular (protection_requirements value) = true.
Proof.
  unfold protection_requirements, or_invalid. destruct (is_some_and _ _); [done|].
  do 2 (apply regular_bind; [apply regular_ok_or|intros ? _]). destruct (is_null _); [done|].
  apply regular_bind; [apply regular_ok_or|intros rows _]. apply regular_mapR. intros row _.
  unfold protection_requirement, or_invalid.
  apply regular_bind; [apply regular_requirement|intros item _]. regular_tac.
Qed.

Lemma regular_add_rule acc rule : regular (add_rule acc rule) = true.
Proof.
  unfold add_rule, or_invalid. destruct (_ ==? _); [done|]. destruct (_ ==? _); [|done].
  apply regular_bind; [apply regular_ok_or|intros rows _]. apply regular_foldM. intros ? row _.
  apply regular_bind; [apply regular_requirement|done].
Qed.

Lemma total_requirements head : total (requirements head).
Proof.
  unfold requirements, or_invalid, checks_json. apply total_bind; [total_tac|intros [owner name]].
  do 2 (apply total_bind; [total_tac|intros ?]).
  apply total_bind; [apply total_lift, regular_protection|intros required].
  apply total_attempt; [apply total_api|intros x Hx].
  destruct x as [rules|[e| |]]; try done; [|by destruct (is_free_plan_rules_limitation e)].
  apply total_bind; [total_tac|intros l]. destruct (100 <=? _)%nat; [done|].
  apply total_lift, regular_foldM. intros acc x _. apply regular_add_rule.
Qed.

Lemma total_gate id required_only : total (gate_snapshot host repo id required_only).
Proof.
  unfold gate_snapshot, or_invalid. apply total_bind; [apply total_read_head|intros head]. cbv zeta.
  do 2 (apply total_bind; [apply total_api|intros ?]).
  do 2 (apply total_bind; [total_tac|intros ?]).
  apply total_bind; [apply total_lift, regular_parse_rows|intros rows].
  apply total_bind; [apply total_requirements|intros required].
  apply total_bind; [apply total_read_head|intros again]. apply total_ret.
Qed.
End gate.

(** ** The theorem at a concrete head

    The base branch requires the check [ci] of app 7; a commit status of that name passes too. *)
Module GateReadsWitness.
#[export] Instance urls : UrlParse := demo_url.
#[export] Instance encode : UrlEncode := λ s, s.
Definition commit : string := "repos/o/r/commits/h1".
#[export] Instance json : JsonText := world_json
  [("protection", protection_json [("ci", 7%N)]);
   ("repos/o/r/rules/branches/main?per_page=100", JArray []);
   (commit +:+ "/check-runs?per_page=100",
    rows_json "check_runs" [check_run_json "ci" "success" 7; check_run_json "docs" "failure" 7]);
   (commit +:+ "/status?per_page=100", rows_json "statuses" [status_json "ci" "success"])].
#[export] Instance backend : Backend World := demo_backend "h1".

Definition blank : PrChecks := mk_PrChecks "" "" "" 0 0 [] [] [] None [].
Definition green : PrChecks :=
  unwrap_or blank (ensure_required_checks_green "host" (Some "o/r") "1" PresenceRequired []).1.

Lemma green_ok :
  ensure_required_checks_green "host" (Some "o/r") "1" PresenceRequired [] = (Ok green, []).
Proof. vm_compute. reflexivity. Qed.
End GateReadsWitness.

Section gate_witness.
Import GateReadsWitness.

Lemma green_gate_rests_on_the_head_witness :
  pk_success_count green = 2%N ∧ length (pk_checks green) = 3
  ∧ ∃ head rows required, gate_reads "host" (Some "o/r") "1" [] head rows required [] ∧ rows ≠ [].
Proof.
  destruct (green_gate_rests_on_the_head "host" (Some "o/r") "1" PresenceRequired [] green []
    green_ok) as (head & rows & required & Hreads & _ & _ & Hne).
  split; [vm_compute; reflexivity|]. split; [vm_compute; reflexivity|].
  exists head, rows, required. split; [exact Hreads|]. exact (Hne eq_refl).
Defined.
End gate_witness.

(** ** Theorems on waiting for the checks *)
(** ** The deadline *)
Section deadline.
Context {W : Type} `{BE : !Backend W, CK : !Clock W}.

(** A call under a deadline answers only before it. *)
Lemma deadline_call_ok deadline c w output w' :
  @run_call W (deadline_backend deadline) c w = (Ok output, w') →
  run_call c w = (Ok output, w') ∧ (clock_now w' < deadline)%N.
Proof.
  cbn. destruct (_ <=? _)%N; [done|]. destruct (run_call c w) as [[text|e] w1]; [|done].
  destruct (deadline <=? clock_now w1)%N eqn:E; [done|]. intros [= <- <-]. bool_facts. by split.
Qed.

Lemma deadline_calls deadline : clock_moves → @calls_keep W later (deadline_backend deadline).
Proof.
  intros Hc c w _. cbn. unfold later. destruct (_ <=? _)%N; [done|]. pose proof (cm_call Hc c w) as H.
  destruct (run_call c w) as [[text|e] w1]; [|done]. by destruct (_ <=? _)%N.
Qed.
End deadline.

Section wait.
Context `{JT : !JsonText, UP : !UrlParse, UE : !UrlEncode} {W : Type}
  `{BE : !Backend W, CK : !Clock W}.
Context (host : string) (repo : option string) (args : PrWaitChecksArgs).
Context (Moves : clock_moves (W := W)).

Lemma later_read_gate start deadline last ever :
  keeps later (read_gate host repo args start deadline last ever).
Proof using Moves.
  pose proof (deadline_calls deadline Moves) as Calls. unfold read_gate.
  apply keeps_bind; [apply _| |intros reading].
  - apply keeps_attempt. unfold gate_snapshot, requirements, read_head, api. keeps_tac.
  - keeps_tac.
Qed.

Lemma later_probe start deadline last ever probed :
  keeps later (probe_workflows repo args start deadline last ever probed).
Proof using Moves.
  pose proof (deadline_calls deadline Moves) as Calls.
  unfold probe_workflows, github_repo_has_no_workflows. keeps_tac.
Qed.

Lemma total_read_gate start deadline last ever : total (read_gate host repo args start deadline last ever).
Proof.
  unfold read_gate. apply total_attempt; [apply @total_gate|intros x Hx].
  apply total_bind; [apply total_now|intros time]. destruct x as [s|[e| |]]; total_tac.
Qed.

Lemma total_probe start deadline last ever probed :
  total (probe_workflows repo args start deadline last ever probed).
Proof.
  unfold probe_workflows, github_repo_has_no_workflows. total_tac.
Qed.
(** ** The wait ends *)

(** The start of a wait and its deadline: those set for the command, or the time limit from
    now on. *)
Definition start_of (budget : option (N * N)) (w : W) : N := from_option fst (clock_now w) budget.
Definition deadline_of (budget : option (N * N)) (w : W) : option N :=
  fallback ← instant_checked_add (start_of budget w) (wc_timeout args);
  Some (from_option snd fallback budget).

Lemma poll_ends fuel start deadline last ever probed w :
  (0 < wc_interval args)%N → 1 ≤ fuel →
  (deadline < clock_now w + N.of_nat (fuel - 1) * wc_interval args)%N →
  regular (poll_until_terminal host repo args fuel start deadline last ever probed w).1 = true.
Proof using Moves.
  intros Hi. revert last ever probed w. induction fuel as [|fuel IH]; intros last ever probed w Hf Ht; [lia|].
  cbn [poll_until_terminal]. unfold mbind at 1, io_bind.
  pose proof (total_read_gate start deadline last ever w) as Hr.
  pose proof (later_read_gate start deadline last ever w) as Hl. unfold later in Hl.
  destruct (read_gate _ _ _ _ _ _ _ w) as [[[outcome|[snapshot t]]|e] w1]; cbn in Hl; [done| |done].
  cbv zeta. destruct (is_terminal _ _); [done|]. unfold mbind at 1, io_bind.
  match goal with |- context [probe_workflows repo args start deadline ?l ?e probed w1] =>
    pose proof (total_probe start deadline l e probed w1) as Hr2;
    pose proof (later_probe start deadline l e probed w1) as Hl2; unfold later in Hl2;
    destruct (probe_workflows repo args start deadline l e probed w1) as [[[outcome|probed']|x] w2] end;
    cbn in Hl2; [done| |done].
  unfold mbind, io_bind, now, sleep. pose proof (cm_sleep Moves
    (N.min (wc_interval args) (deadline - clock_now w2)) w2) as Hs.
  destruct (deadline <=? _)%N eqn:E; [done|]. bool_facts. destruct fuel as [|fuel]; [lia|].
  apply IH; lia.
Qed.

(** C13: The wait ends: while time passes and there is a pause between the polls, as many polls as
    pauses fit before the deadline, and two more, are enough, whatever the provider answers;
    the outcome is one of the four, or a typed error. *)
Theorem waiting_for_checks_ends fuel budget deadline w :
  deadline_of budget w = Some deadline → (0 < wc_interval args)%N →
  ((deadline - clock_now w) / wc_interval args + 2 ≤ N.of_nat fuel)%N →
  regular (wait_for_checks host repo args fuel budget w).1 = true.
Proof using Moves.
  intros Hd Hi Hf. unfold wait_for_checks, wait_deadline, mbind, io_bind, now, lift.
  unfold deadline_of, start_of in Hd. destruct (instant_checked_add _ _) as [fallback|]; [|done].
  injection Hd as Hd. cbn. rewrite Hd. clear Hd.
  pose proof (N.mul_succ_div_gt (deadline - clock_now w) (wc_interval args) ltac:(lia)) as Hm.
  revert Hf Hm. generalize ((deadline - clock_now w) / wc_interval args)%N. intros polls Hf Hm.
  assert (N.succ polls ≤ N.of_nat (fuel - 1))%N as Hq by lia.
  pose proof (N.mul_le_mono_l _ _ (wc_interval args) Hq). apply poll_ends; [done|lia|lia].
Qed.
End wait.

(** ** What a green wait rests on *)

Lemma aggregate_success checks required_only duration :
  pk_state (aggregate GitHub checks required_only duration) = "success" →
  ∀ c, c ∈ checks → (required_only = true → ck_required c = true) →
  ck_state c ∉ failing ++ ["pending"].
Proof.
  unfold aggregate. cbn [pk_state]. cbv zeta.
  set (gating := if required_only then _ else _). intros H c Hc Hr.
  assert (Hg : c ∈ gating).
  { subst gating. destruct required_only; [|done]. apply elem_of_list_filter. auto. }
  revert H. do 4 (match goal with |- context [existsb ?p gating] =>
    destruct (existsb p gating) eqn:?; [done|] end). intros _.
  repeat match goal with H : existsb _ gating = false |- _ =>
    rewrite existsb_false in H; specialize (H c Hg); unfold in_state in H end.
  bool_facts. set_solver.
Qed.

(** The rows start out as not required. *)
Lemma parsed_optional runs statuses rows row :
  parse_rows runs statuses = Ok rows → row ∈ rows → ck_required (rw_check row) = false.
Proof.
  unfold parse_rows. intros H Hrow. apply bind_ok in H as (xs & Hx & H).
  apply bind_ok in H as (ys & Hy & H). injection H as <-.
  apply elem_of_app in Hrow as [Hrow|Hrow].
  - destruct (mapR_elem _ _ _ _ Hx Hrow) as (x & _ & Hp).
    apply bind_ok in Hp as (check & Hp & [= <-]). by apply bind_ok in Hp as (name & _ & [= <-]).
  - destruct (mapR_elem _ _ _ _ Hy Hrow) as (x & _ & Hp).
    apply bind_ok in Hp as (check & Hp & [= <-]). by apply bind_ok in Hp as (name & _ & [= <-]).
Qed.

(** A snapshot whose state is success under the wait's gating set: every row of the set passes,
    and the set is all the rows unless some are required and only those are asked for. *)
Lemma gated_success required_only checks :
  let full := aggregate GitHub checks required_only None in
  pk_state (gate_visible_checks_when_none_required required_only full) = "success" →
  (∀ c, c ∈ checks → ck_required c = true → ck_state c ∉ failing ++ ["pending"])
  ∧ (required_only = false ∨ (∀ c, c ∈ checks → ck_required c = false) →
     ∀ c, c ∈ checks → ck_state c ∉ failing ++ ["pending"]).
Proof.
  cbv zeta. unfold gate_visible_checks_when_none_required. destruct required_only; cbn [negb orb].
  - destruct (_ || _) eqn:E; intros H.
    + pose proof (aggregate_success _ _ _ H) as Hs. split; [by auto|].
      intros [?|Hnone] c Hc; [done|]. exfalso. apply orb_true_iff in E as [E|E]; bool_facts.
      * cbn in E. apply E. replace (List.filter ck_required checks) with (@nil CheckItem); [done|].
        symmetry. by apply filter_nil.
      * cbn in E. apply nil_length_inv in E as ->. by apply not_elem_of_nil in Hc.
    + split; intros; by apply (aggregate_success checks false None).
  - intros H. split; intros; by apply (aggregate_success checks false None).
Qed.

Lemma gated_checks required_only s :
  pk_checks (gate_visible_checks_when_none_required required_only s) = pk_checks s.
Proof. unfold gate_visible_checks_when_none_required. by destruct (_ || _). Qed.

Lemma nothing_without_checks required_only s checks :
  s = aggregate GitHub checks required_only None → checks = [] →
  nothing_was_checked (gate_visible_checks_when_none_required required_only s) = true.
Proof. intros -> ->. by destruct required_only. Qed.

(** Every row of the head is in the gate's set, with its state. *)
Lemma gate_rows_hold rows required row :
  row ∈ rows → ∃ c, c ∈ gate_rows rows required false false ∧ ck_state c = ck_state (rw_check row).
Proof.
  unfold gate_rows. destruct (fold_left _ _ _) as [rows' missing] eqn:E.
  apply mark_all in E as (Hall & _). intros Hrow. destruct (Hall row Hrow) as (row' & Hrow' & Hs & _).
  exists (rw_check row'). split; [|apply (sr_state _ _ Hs)].
  apply elem_of_app. left. by apply list_elem_of_fmap_2.
Qed.

(** ** The polls of one wait *)
Section outcomes.
Context `{JT : !JsonText, UP : !UrlParse, UE : !UrlEncode} {W : Type}
  `{BE : !Backend W, CK : !Clock W}.
Context (host : string) (repo : option string) (args : PrWaitChecksArgs).

(** A pause between two readings. *)
Definition paused (start deadline : N) (w w' : W) : Prop :=
  w' = w ∨ ∃ last ever probed probed' w1 d,
    probe_workflows repo args start deadline last ever probed w = (Ok (inr probed'), w1)
    ∧ w' = clock_sleep d w1.

(** The readings that were admitted so far, up to the state after the last one; the wait went
    on because none before the last was terminal. *)
Inductive polled (start deadline : N) (w0 : W) : list PrChecks → W → Prop :=
  | polled_none : polled start deadline w0 [] w0
  | polled_more seen w last ever w1 snapshot t w2 :
      polled start deadline w0 seen w →
      Forall (λ s, is_terminal s (presence args) = false) seen →
      paused start deadline w w1 →
      read_gate host repo args start deadline last ever w1 = (Ok (inr (snapshot, t)), w2) →
      polled start deadline w0 (seen ++ [snapshot]) w2.

(** Some reading showed a check. *)
Definition shown (seen : list PrChecks) : bool := existsb (λ s, negb (nothing_was_checked s)) seen.

(** What an outcome says about the readings. *)
Definition outcome_means (seen : list PrChecks) (outcome : WaitOutcome) : Prop :=
  match outcome with
  | WaitSuccess s =>
      ∃ snapshot d, last seen = Some snapshot ∧ s = with_duration snapshot d
        ∧ is_terminal snapshot (presence args) = true ∧ pk_state snapshot = "success"
  | WaitFailed s =>
      ∃ snapshot d, last seen = Some snapshot ∧ s = with_duration snapshot d
        ∧ is_terminal snapshot (presence args) = true ∧ pk_state snapshot ≠ "success"
  | WaitTimedOut _ => shown seen = true
  | WaitNotRegistered _ _ => shown seen = false
  end.

(** The outcome was reached at a reading. *)
Definition is_terminal_outcome (outcome : WaitOutcome) : bool :=
  match outcome with WaitSuccess _ | WaitFailed _ => true | _ => false end.

Lemma read_gate_left start deadline last ever w outcome w' :
  read_gate host repo args start deadline last ever w = (Ok (inl outcome), w') →
  outcome = expired last start (clock_now w') ever.
Proof.
  unfold read_gate. intros H. io_inv H. destruct H as (reading & w1 & _ & H).
  io_inv H. destruct H as (time & w2 & [= <- <-] & H). destruct reading as [s|[e| |]].
  - io_if H; [|done]. io_inv H; destruct H as [H <-]; by injection H as <-.
  - io_if H. io_inv H. destruct H as [H <-]. by injection H as <-.
  - done.
  - done.
Qed.
Lemma read_gate_right start deadline last ever w snapshot t w' :
  read_gate host repo args start deadline last ever w = (Ok (inr (snapshot, t)), w') →
  ∃ full, snapshot = gate_visible_checks_when_none_required (wc_required_only args) full
    ∧ gate_snapshot (BE := deadline_backend deadline) host repo (wc_id args) (wc_required_only args) w
      = (Ok full, w')
    ∧ (clock_now w' < deadline)%N.
Proof.
  unfold read_gate. intros H. apply attempt_bind_inv in H as (reading & w1 & Hr & H).
  io_inv H. destruct H as (time & w2 & [= <- <-] & H). destruct reading as [full|[e| |]].
  - io_if H; io_inv H; destruct H as [H <-]; [done|]. injection H as <- <-. bool_facts. by exists full.
  - by io_if H.
  - done.
  - done.
Qed.

(** What one probe can end the wait with. *)
Lemma probe_left start deadline last ever probed w outcome w' :
  probe_workflows repo args start deadline last ever probed w = (Ok (inl outcome), w') →
  ever = false ∧ ∃ s cause, outcome = WaitNotRegistered s cause.
Proof.
  unfold probe_workflows. intros H. io_inv H. destruct H as (time & w1 & [= <- <-] & H).
  io_if H; [|io_inv H; by destruct H]. bool_facts. io_inv H. destruct H as (none & w2 & _ & H).
  io_inv H. destruct H as (time & w3 & [= <- <-] & H). subst ever. split; [done|].
  unfold expired in H. destruct (_ <=? _)%N in H; [|destruct none]; io_inv H; destruct H as [H _];
    [injection H as <-; by do 2 eexists..|done].
Qed.

Lemma expired_means seen last start time ever :
  ever = shown seen → outcome_means seen (expired last start time ever).
Proof. intros ->. unfold expired. by destruct (shown seen) eqn:E. Qed.

Lemma poll_means fuel start deadline w0 seen last probed w w1 outcome w' :
  polled start deadline w0 seen w → paused start deadline w w1 →
  Forall (λ s, is_terminal s (presence args) = false) seen →
  poll_until_terminal host repo args fuel start deadline last (shown seen) probed w1 = (Ok outcome, w') →
  ∃ seen' w2, polled start deadline w0 seen' w2 ∧ outcome_means seen' outcome
    ∧ (is_terminal_outcome outcome = true → w2 = w').
Proof.
  revert seen last probed w w1. induction fuel as [|fuel IH]; intros seen last probed w w1 Hp Hw Hs H; [done|].
  cbn [poll_until_terminal] in H. io_inv H. destruct H as ([o|[snapshot t]] & w2 & Hr & H).
  { io_inv H. destruct H as [<- <-]. exists seen, w. split; [done|].
    apply read_gate_left in Hr as ->. split; [by apply expired_means|].
    unfold expired. by destruct (negb (shown _)). }
  cbv zeta in H. pose proof (polled_more _ _ _ _ _ _ _ _ _ _ _ Hp Hs Hw Hr) as Hp'.
  destruct (is_terminal _ _) eqn:Et in H.
  { io_inv H. destruct H as [<- <-]. exists (seen ++ [snapshot]), w'. split; [done|].
    split; [|done]. case_bool_decide; exists snapshot; eexists; by rewrite last_snoc. }
  change (nothing_was_checked (with_duration snapshot (ms_between start t)))
    with (nothing_was_checked snapshot) in H.
  assert (Hshown : shown seen || negb (nothing_was_checked snapshot) = shown (seen ++ [snapshot])).
  { unfold shown. rewrite existsb_app. cbn. by destruct (nothing_was_checked snapshot). }
  rewrite Hshown in H. io_inv H. destruct H as ([o|probed'] & w3 & Hprobe & H).
  { io_inv H. destruct H as [<- <-]. apply probe_left in Hprobe as (He & s & cause & ->).
    by exists (seen ++ [snapshot]), w2. }
  io_inv H. destruct H as (time & w4 & [= <- <-] & H).
  io_inv H. destruct H as ([] & w4 & [= <-] & H).
  io_inv H. destruct H as (time & w4 & [= <- <-] & H). destruct (_ <=? _)%N in H.
  { io_inv H. destruct H as [<- <-]. exists (seen ++ [snapshot]), w2. split; [done|].
    split; [by apply expired_means|]. unfold expired. by destruct (negb (shown _)). }
  eapply IH; [exact Hp'| |by rewrite Forall_app, Forall_singleton|exact H].
  right. by do 6 eexists.
Qed.
End outcomes.

Section results.
Context `{JT : !JsonText, UP : !UrlParse, UE : !UrlEncode} {W : Type}
  `{BE : !Backend W, CK : !Clock W}.
Context (host : string) (repo : option string) (args : PrWaitChecksArgs).

Lemma wait_means fuel budget w outcome w' :
  wait_for_checks host repo args fuel budget w = (Ok outcome, w') →
  ∃ start deadline seen w1, deadline_of args budget w = Some deadline
    ∧ polled host repo args start deadline w seen w1
    ∧ outcome_means args seen outcome ∧ (is_terminal_outcome outcome = true → w1 = w').
Proof.
  unfold wait_for_checks. intros H. io_inv H. destruct H as (time & w1 & [= <- <-] & H). cbv zeta in H.
  io_inv H. destruct H as (deadline & Hd & H).
  eapply (poll_means _ _ _ _ _ _ _ []) in H as (seen & w2 & Hp & Ho & Ht);
    [|constructor|by left|constructor].
  exists (start_of budget w), deadline, seen, w2. split; [|by split_and!].
  unfold wait_deadline in Hd. apply bind_ok in Hd as (fallback & Hf & [= <-]).
  apply expect_ok in Hf. unfold deadline_of, start_of. by rewrite Hf.
Qed.

(** Each outcome of the wait says what the admitted readings showed: success and failure, that
    the last one had nothing pending, and whether it passed; a time-out, that some reading
    showed a check; and no registered checks, that none did. *)
Theorem wait_outcomes_tell_the_readings fuel budget w outcome w' :
  wait_for_checks host repo args fuel budget w = (Ok outcome, w') →
  ∃ start deadline seen w1, deadline_of args budget w = Some deadline
    ∧ polled host repo args start deadline w seen w1 ∧ outcome_means args seen outcome.
Proof.
  intros (start & deadline & seen & w1 & Hd & Hp & Ho & _)%wait_means. by exists start, deadline, seen, w1.
Qed.

(** C12: Waiting succeeds only on complete evidence for one head, read before the deadline: every
    requirement of the base branch is answered by a passing row of the app it names and every
    row one asks for passes; where nothing is required, or the caller asks for all checks, every
    row passes; and unless the caller allows a head without checks, some check was reported. *)
Theorem a_green_wait_rests_on_the_head fuel budget w p w' :
  wait_for_checks host repo args fuel budget w = (Ok (WaitSuccess p), w') →
  ∃ deadline w1 head rows required, deadline_of args budget w = Some deadline
    ∧ (clock_now w' < deadline)%N
    ∧ gate_reads (BE := deadline_backend deadline) host repo (wc_id args) w1 head rows required w'
    ∧ (∀ q, q ∈ required → ∃ row, row ∈ rows ∧ answered_by q row ∧ ck_state (rw_check row) ∈ passing)
    ∧ (∀ q row, q ∈ required → row ∈ rows → asks_for q row → ck_state (rw_check row) ∈ passing)
    ∧ (wc_required_only args = false ∨ required = [] →
       ∀ row, row ∈ rows → ck_state (rw_check row) ∈ passing)
    ∧ (wc_allow_no_checks args = false → rows ≠ []).
Proof.
  intros H. apply wait_means in H as (start & deadline & seen & w1 & Hd & Hp & Ho & Hw).
  specialize (Hw eq_refl) as ->. destruct Ho as (snapshot & d & Hlast & _ & Ht & Hs).
  destruct Hp as [|seen w2 last ever w3 snapshot' t w' Hp _ Hpause Hr]; [done|].
  rewrite last_snoc in Hlast. injection Hlast as ->.
  apply read_gate_right in Hr as (full & -> & Hg & Htime).
  apply gate_snapshot_ok in Hg as (head & again & rows & required & tr & rr & sr & -> & Hrows & Hreads).
  apply gated_success in Hs as [Hreq Hall].
  destruct (green_rows _ _ _ _ _ _ Hrows Hreq) as (Hsame & -> & Hans & Hpass & Hne).
  exists deadline, w3, head, rows, required. do 2 (split; [done|]).
  split; [by apply Hreads; [apply negb_decide_false in Hsame|]|].
  do 2 (split; [done|]). split.
  - intros Hcase row Hrow. destruct (gate_rows_hold rows required row Hrow) as (c & Hc & Hstate).
    rewrite Hsame in Hall. destruct (parsed_state _ _ _ _ Hrows Hrow) as (cs & Hcs).
    rewrite Hcs in *. apply state_passes. rewrite <- Hstate. apply Hall; [|done].
    destruct Hcase as [?| ->]; [by left|right]. intros c' Hc'.
    cbn in Hc'. rewrite List.app_nil_r in Hc'. apply list_elem_of_fmap in Hc' as (row' & -> & Hrow').
    by eapply parsed_optional.
  - intros Hallow. apply Hne. intros Hnil. unfold is_terminal, presence, from_allow_no_checks in Ht.
    rewrite Hallow, (nothing_without_checks _ _ _ eq_refl Hnil) in Ht. done.
Qed.
End results.

(** ** The theorems at a concrete head

    A call takes ten seconds.  The head's only check is pending for the first two minutes and
    passes from then on. *)
Module WaitWitness.
#[export] Instance urls : UrlParse := demo_url.
#[export] Instance encode : UrlEncode := λ s, s.
Definition ClockWorld : Type := N.
#[export] Instance clock : Clock ClockWorld :=
  {| clock_now := λ t, t; clock_sleep := λ d t, (t + d)%N |}.

Definition commit : string := "repos/o/r/commits/h1".
Definition status_endpoint : string := commit +:+ "/status?per_page=100".
#[export] Instance json : JsonText := world_json
  [("protection", protection_json []);
   ("repos/o/r/rules/branches/main?per_page=100", JArray []);
   (commit +:+ "/check-runs?per_page=100", rows_json "check_runs" []);
   (status_endpoint, rows_json "statuses" [status_json "ci" "pending"]);
   ("late", rows_json "statuses" [status_json "ci" "success"])].

#[export] Instance backend : Backend ClockWorld := {|
  run_call := λ c t,
    (if (secs 120 <=? t)%N && match c with ApiGet e => e ==? status_endpoint | _ => false end then Ok "late"
     else (@run_call World (demo_backend "h1") c []).1, (t + secs 10)%N) |}.

Definition args : PrWaitChecksArgs := mk_PrWaitChecksArgs "1" (secs 600) (secs 20) false true.

Definition outcome : exec WaitOutcome :=
  (wait_for_checks "host" (Some "o/r") args 9 (Some (0, secs 600)%N) 0%N).1.
Definition green : PrChecks :=
  match outcome with Ok (WaitSuccess s) => s | _ => aggregate GitHub [] true None end.

Lemma wait_green_ok :
  wait_for_checks "host" (Some "o/r") args 9 (Some (0, secs 600)%N) 0%N
  = (Ok (WaitSuccess green), secs 220).
Proof. vm_compute. reflexivity. Qed.

Lemma waiting_moves : clock_moves (W := ClockWorld).
Proof. split; intros; cbn; unfold ClockWorld in *; lia. Qed.
End WaitWitness.

Section wait_witness.
Import WaitWitness.

Lemma waiting_for_checks_ends_witness :
  regular (wait_for_checks "host" (Some "o/r") args 32 (Some (0, secs 600)%N) 0%N).1 = true.
Proof.
  apply (waiting_for_checks_ends "host" (Some "o/r") args waiting_moves 32 _ (secs 600)).
  - reflexivity.
  - reflexivity.
  - vm_compute. discriminate.
Defined.

Lemma wait_outcomes_tell_the_readings_witness :
  pk_gate_scope green = "visible_fallback"
  ∧ ∃ start deadline seen w1, polled "host" (Some "o/r") args start deadline 0%N seen w1
      ∧ outcome_means args seen (WaitSuccess green).
Proof.
  destruct (wait_outcomes_tell_the_readings "host" (Some "o/r") args 9 _ 0%N _ _ wait_green_ok)
    as (start & deadline & seen & w1 & _ & Hp & Ho).
  split; [vm_compute; reflexivity|]. exists start, deadline, seen, w1. exact (conj Hp Ho).
Defined.

Lemma a_green_wait_rests_on_the_head_witness :
  pk_checks green ≠ []
  ∧ ∃ w1 head rows required,
      gate_reads (BE := deadline_backend (secs 600)) "host" (Some "o/r") "1" w1 head rows required (secs 220)
      ∧ rows ≠ [].
Proof.
  destruct (a_green_wait_rests_on_the_head "host" (Some "o/r") args 9 _ 0%N _ _ wait_green_ok)
    as (deadline & w1 & head & rows & required & Hd & _ & Hreads & _ & _ & _ & Hne).
  split; [vm_compute; discriminate|]. injection Hd as <-.
  exists w1, head, rows, required. exact (conj Hreads (Hne eq_refl)).
Defined.
End wait_witness.

(** A time limit that leads past the last instant ends the command before it looks anything up,
    and [parse_duration] accepts such a limit. *)
Lemma an_unrepresentable_deadline_panics start timeout :
  (INSTANT_MAX < start + timeout)%N → regular (command_budget start timeout) = false.
Proof.
  intros H. unfold command_budget, instant_checked_add, checked_add.
  by rewrite (proj2 (N.leb_gt _ _) H).
Qed.

Example limit_of_all_seconds : parse_duration "9223372036854775808s" = Ok (secs 9223372036854775808).
Proof. vm_compute. reflexivity. Qed.
