(* ===== verification/BranchesFacts.v ===== *)
(** * Theorems on stacked branches

    A source branch is only free to be deleted when no other open pull request targets it, or
    when the caller overrode that; and an automatic deletion is refused before the merge. *)
From S2P Require Import Prelude RStr Collections Error Types Provider Append Report Branches.
From S2P Require Import IoFacts ThreadsFacts World.
From stdpp Require Import options.

Lemma or_unavailable_ok {A} (o : option A) a : or_unavailable o = Ok a → o = Some a.
Proof. unfold or_unavailable. destruct o; by intros [=]; subst. Qed.

(** An open pull request of the answer that targets the branch, other than the merging one. *)
Definition dependent (branch : string) (merging : option N) (pages : JsonValue) (number : N) : Prop :=
  ∃ l page rows row, pages = JArray l ∧ page ∈ l ∧ page = JArray rows ∧ row ∈ rows
    ∧ get "number" row ≫= as_u64 = Some number ∧ get "state" row ≫= as_str = Some "open"
    ∧ pointer ["base"; "ref"] row ≫= as_str = Some branch ∧ Some number ≠ merging.

Lemma mapR_in {A B} (f : A → exec B) l ys x :
  mapR f l = Ok ys → x ∈ l → ∃ y, f x = Ok y ∧ y ∈ ys.
Proof.
  revert ys. induction l as [|a l IH]; intros ys H Hx; [by apply not_elem_of_nil in Hx|].
  cbn in H. apply bind_ok in H as (y & Hy & H). apply bind_ok in H as (ys' & Hys & [= <-]).
  apply elem_of_cons in Hx as [->|Hx].
  - exists y. split; [done|]. by left.
  - destruct (IH ys' Hys Hx) as (y' & ? & ?). exists y'. split; [done|]. by right.
Qed.

Lemma collect_pages_complete branch merging pages found number :
  collect_pages branch merging pages = Ok found → dependent branch merging pages number →
  ∃ p, p ∈ found ∧ dp_number p = number.
Proof.
  unfold collect_pages. intros H (l & page & rows & row & -> & Hpage & -> & Hrow & Hn & Hst & Hb & Hm).
  cbn in H. apply bind_ok in H as (lists & Hl & [= <-]).
  destruct (mapR_in _ _ _ _ Hl Hpage) as (prs & Hp & Hin). unfold collect_rows in Hp. cbn in Hp.
  apply bind_ok in Hp as (os & Hos & [= <-]).
  destruct (mapR_in _ _ _ _ Hos Hrow) as (o & Ho & Hoin). unfold dependent_row in Ho.
  rewrite Hn, Hst, Hb in Ho. cbn in Ho. apply bind_ok in Ho as (url & _ & [= <-]).
  rewrite (bool_decide_false _ Hm), !(bool_decide_true _ eq_refl) in Hoin. cbn in Hoin.
  exists (mk_DependentPr number url). split; [|done]. apply list_elem_of_In, in_concat.
  exists (omap (M:=list) (λ o, o) os). rewrite <- !list_elem_of_In. split; [done|].
  apply list_elem_of_omap. by exists (Some (mk_DependentPr number url)).
Qed.

(** ** The listing *)
Lemma dedup_numbers_elem l n : n ∈ dp_number <$> dedup_numbers l ↔ n ∈ dp_number <$> l.
Proof.
  induction l as [|x l IH]; [done|]. cbn [dedup_numbers]. rewrite fmap_cons, elem_of_cons, <- IH.
  destruct (dedup_numbers l) as [|y r]; [by rewrite fmap_cons, elem_of_cons|].
  destruct (dp_number x ==? dp_number y) eqn:E; [|by rewrite !fmap_cons, !elem_of_cons].
  apply bool_decide_eq_true in E. rewrite !fmap_cons, !elem_of_cons, E. tauto.
Qed.

Lemma dedup_numbers_head x l : hd_error (dp_number <$> dedup_numbers (x :: l)) = Some (dp_number x).
Proof. cbn. destruct (dedup_numbers l) as [|y r]; [done|]. by destruct (_ ==? _). Qed.

Lemma dedup_numbers_sorted l :
  StronglySorted by_number l → StronglySorted N.lt (dp_number <$> dedup_numbers l).
Proof.
  induction 1 as [|x l Hs IH Hx]; [constructor|].
  assert (Hle : Forall (λ n, (dp_number x ≤ n)%N) (dp_number <$> dedup_numbers l)).
  { apply Forall_forall. intros n. rewrite dedup_numbers_elem. intros (p & -> & Hp)%list_elem_of_fmap.
    by apply (proj1 (Forall_forall _ _) Hx). }
  cbn [dedup_numbers]. destruct (dedup_numbers l) as [|y r] eqn:E; [repeat constructor|].
  rewrite !fmap_cons in *. inversion IH as [|? ? Hr Hy]; subst. inversion Hle as [|? ? Hxy _]; subst.
  destruct (dp_number x ==? dp_number y) eqn:Exy.
  - apply bool_decide_eq_true in Exy. rewrite fmap_cons, Exy. by constructor.
  - apply bool_decide_eq_false in Exy. rewrite !fmap_cons. constructor; [done|].
    constructor; [lia|]. eapply Forall_impl; [exact Hy|]. cbn. intros n. lia.
Qed.

Section check.
Context `{JT : !JsonText} {W : Type} `{BE : !Backend W}.

Lemma any_unavailable_ok {E A} (m : result E A) a : any_unavailable m = Ok a → m = Ok a.
Proof. by intros H%map_err_ok. Qed.

Lemma attempt_call_ok c w r w' :
  attempt (call c) w = (Ok r, w') ↔ call c w = (r, w').
Proof. unfold attempt. destruct (call c w) as [x y]. split; [by intros [= -> ->]|by intros [= -> ->]]. Qed.

(** The branch may be deleted automatically by nobody. *)
Definition no_auto_delete (target_repo : string) : Prop :=
  ∃ w1 text w2 answer, call (ApiGet ("repos/" +:+ target_repo)) w1 = (Ok text, w2)
    ∧ value_from_str text = Ok answer ∧ get "delete_branch_on_merge" answer ≫= as_bool = Some false.

Lemma refuse_auto_delete_ok target_repo numbers w w' :
  refuse_auto_delete target_repo numbers w = (Ok tt, w') → no_auto_delete target_repo.
Proof.
  unfold refuse_auto_delete. intros H. io_inv H. destruct H as (output & w1 & Ho%attempt_call_ok & H).
  io_inv H. destruct H as (text & ->%any_unavailable_ok & H).
  io_inv H. destruct H as (answer & Ha%any_unavailable_ok & H).
  io_inv H. destruct H as (auto & Hd%or_unavailable_ok & H). io_if H. by exists w, text, w1, answer.
Qed.

Lemma check_overridden target_repo source branch merging overridden w c w' :
  check target_repo source branch merging overridden w = (Ok (Some c), w') →
  bc_overridden c = overridden.
Proof.
  unfold check. cbv zeta. intros H. do 5 (io_inv H; first [destruct H as (? & ? & ? & H)|destruct H as (? & ? & H)]).
  io_if H; [by io_inv H; destruct H|]. io_inv H. destruct H as ([] & ? & _ & H). io_inv H.
  by destruct H as [[= <-] _].
Qed.

(** A branch nobody is said to depend on has no open pull request on it in the provider's
    pages, the merging one of the same repository apart.  Otherwise the dependents are listed
    completely, each once and in order, and without an override the repository of the merge
    does not delete branches by itself. *)
Theorem free_branches_have_no_dependents target_repo source branch merging overridden w res w' :
  check target_repo source branch merging overridden w = (Ok res, w') →
  ∃ src stdout w1 pages, source = Some src
    ∧ call (ApiPages (open_pulls src branch)) w = (Ok stdout, w1) ∧ value_from_str stdout = Ok pages
    ∧ let same := eq_ignore_ascii_case src target_repo in
      let depends := dependent branch (if same then Some merging else None) pages in
      match res with
      | None => ∀ n, ¬ depends n
      | Some c => bc_branch c = branch ∧ bc_overridden c = overridden
          ∧ (∀ n, depends n → n ∈ dp_number <$> bc_dependents c)
          ∧ StronglySorted N.lt (dp_number <$> bc_dependents c)
          ∧ (overridden = false → same = true → no_auto_delete target_repo)
      end.
Proof.
  unfold check. cbv zeta. intros H. io_inv H. destruct H as (src & ->%or_unavailable_ok & H).
  io_inv H. destruct H as (output & w1 & Ho%attempt_call_ok & H).
  io_inv H. destruct H as (stdout & ->%any_unavailable_ok & H).
  io_inv H. destruct H as (pages & Hp%any_unavailable_ok & H).
  io_inv H. destruct H as (found & Hf & H).
  exists src, stdout, w1, pages. do 3 (split; [done|]).
  assert (Hall : ∀ n, dependent branch (if eq_ignore_ascii_case src target_repo then Some merging
                                        else None) pages n → n ∈ dp_number <$> found).
  { intros n (p & Hin & <-)%(collect_pages_complete _ _ _ _ _ Hf). by apply list_elem_of_fmap_2. }
  case_bool_decide as Hn.
  - io_inv H. destruct H as [<- _]. apply length_zero_iff_nil in Hn. subst found.
    by intros n ?%Hall%not_elem_of_nil.
  - io_inv H. destruct H as ([] & w2 & Hr & H). io_inv H. destruct H as [<- _]. cbn.
    split_and!; try done.
    + intros n Hd. apply dedup_numbers_elem. rewrite merge_sort_Permutation. by apply Hall.
    + apply dedup_numbers_sorted, StronglySorted_merge_sort.
      * intros x y z. unfold by_number. lia.
      * intros x y. unfold by_number. lia.
    + intros -> Hsame. rewrite Hsame in Hr. by apply refuse_auto_delete_ok in Hr.
Qed.
End check.

(** ** The theorem at a concrete branch

    Pull requests 9 and 4 still target the branch, and 4 is shown on two pages; nothing deletes
    branches automatically. *)
Module BranchWitness.
Definition pull (number : N) (state : string) : JsonValue :=
  JObject [("number", JNumber number); ("state", JString state);
           ("base", JObject [("ref", JString "topic")]); ("html_url", JString "u")].

#[export] Instance json : JsonText :=
  world_json [(open_pulls "o/r" "topic", JArray [JArray [pull 9 "open"; pull 4 "open"; pull 1 "open"];
                                                 JArray [pull 4 "open"; pull 3 "closed"]]);
              ("repos/o/r", JObject [("delete_branch_on_merge", JBool false)])].
#[export] Instance backend : Backend World := demo_backend "h".

Definition cleanup : BranchCleanup :=
  mk_BranchCleanup "topic" [mk_DependentPr 4 "u"; mk_DependentPr 9 "u"] false
    "branch deletion skipped: 'topic' is the base of open PRs/MRs #4, #9; retarget them before cleanup or explicitly use --delete-branch-even-if-stacked".

Lemma cleanup_ok : check "o/r" (Some "o/r") "topic" 1 false [] = (Ok (Some cleanup), []).
Proof. vm_compute. reflexivity. Qed.
End BranchWitness.

Section branch_witness.
Import BranchWitness.

Lemma free_branches_have_no_dependents_witness : no_auto_delete "o/r".
Proof.
  destruct (free_branches_have_no_dependents "o/r" (Some "o/r") "topic" 1 false [] (Some cleanup) []
              cleanup_ok) as (? & ? & ? & ? & [= <-] & _ & _ & _ & _ & _ & _ & H).
  by apply H.
Defined.
End branch_witness.
