(* ===== verification/PublishFacts.v ===== *)
(** * Theorems on the designated review

    What an admission rests on, and what the policy and the carry-over add to it. *)
From S2P Require Import Prelude RStr Collections Error Types Markers ReviewLoop Identity Record.
From S2P Require Import Handoff Correction Chain Provider PrView PrReviews Append Report.
From S2P Require Import Publish LoopCommand IoFacts World.
From stdpp Require Import sorting options.

(** The test-change gate leaves the relation alone. *)
Definition tests_keep {W} `{!ReviewReads W} (R : W → W → Prop) : Prop :=
  ∀ n head author report w, R w (test_integrity_ensure n head author report w).2.

Section publish.
Context `{HS : !Hasher, JT : !JsonText, TP : !TimestampParse, SB : !Serialize SessionBinding} {W : Type}
  `{BE : !Backend W, RR : !ReviewReads W}.
Context (env : Env) (repo : option string) (open_objects : result string Objects).

(** A report that was read and does not decide: it belongs to another interval of this
    ledger, or it is an empty comment that only carries thread replies. *)
Definition skipped (number : N) (chain : ReviewStateChain) (handoff : ReviewHandoff)
    (r : NativeReview) : Prop :=
  ∃ w w1 body, report_body number handoff r w = (Ok body, w1)
    ∧ (publication_is_known_other_interval chain body = true
       ∨ nr_state r = "COMMENTED" ∧ is_empty (trim body) = true
         ∧ ∃ w2, native_review_contains_only_replies repo number r w1 = (Ok true, w2)).

(** The report [r] with this body decides, and passes. *)
Record decides (number : N) (url : string) (chain : ReviewStateChain) (handoff : ReviewHandoff)
    (after : Z) (r : NativeReview) (body : string) : Prop := {
  dc_body : ∃ w w1, report_body number handoff r w = (Ok body, w1);
  dc_about : validate_reviewable body repo number url (Some (nr_commit_sha r)) = Ok tt;
  dc_interval : publication_matches_interval chain body = true;
  dc_report : validate_specialist_review_report body = Ok tt;
  dc_state : nr_state r = "APPROVED" ∨ nr_state r = "COMMENTED";
  dc_time : ∃ t, timestamp_parse (nr_submitted_at r) = Ok t ∧ (after < t)%Z;
  dc_verdict : ∃ line, line ∈ lines body
    ∧ (trim line = "- Lens verdict: pass" ∨ trim line = "- Lens verdict: follow-up-pass");
}.

Lemma passes_ok after r body :
  passes after r body = true →
  validate_specialist_review_report body = Ok tt
  ∧ (nr_state r = "APPROVED" ∨ nr_state r = "COMMENTED")
  ∧ (∃ t, timestamp_parse (nr_submitted_at r) = Ok t ∧ (after < t)%Z)
  ∧ ∃ line, line ∈ lines body
    ∧ (trim line = "- Lens verdict: pass" ∨ trim line = "- Lens verdict: follow-up-pass").
Proof.
  unfold passes. rewrite !andb_true_iff. intros [[[Hv Hs] Ht] Hl]. split; [|split; [|split]].
  - by destruct (validate_specialist_review_report body) as [[]|].
  - apply orb_true_iff in Hs as [Hs|Hs]; bool_facts; auto.
  - destruct (timestamp_parse (nr_submitted_at r)) as [t|]; [|done]. exists t.
    split; [done|]. by apply Z.ltb_lt.
  - apply existsb_exists in Hl as (line & Hin%list_elem_of_In & Hl). exists line. split; [done|].
    unfold verdict_line in Hl. apply orb_true_iff in Hl as [Hl|Hl]; bool_facts; auto.
Qed.

(** [x] was submitted no later than [r]; at the same time its id is not greater. *)
Definition not_newer (x r : NativeReview) : Prop :=
  (nr_submitted_at x = nr_submitted_at r ∧ id_le (nr_database_id x) (nr_database_id r) = true)
  ∨ (nr_submitted_at x ≠ nr_submitted_at r
     ∧ String.le (nr_submitted_at x) (nr_submitted_at r)).

Lemma newer_first_iff a b : newer_first a b = true ↔ not_newer b a.
Proof.
  unfold newer_first, not_newer. case_bool_decide as H; [naive_solver|].
  rewrite bool_decide_eq_true. naive_solver.
Qed.

#[local] Instance newer_first_trans : Transitive (λ a b, Is_true (newer_first a b)).
Proof.
  intros a b c. rewrite !Is_true_true, !newer_first_iff. unfold not_newer.
  assert (Hid : ∀ x y z, id_le x y = true → id_le y z = true → id_le x z = true).
  { intros [x|] [y|] [z|]; cbn; rewrite ?N.leb_le; try done. lia. }
  intros [[E1 L1]|[N1 L1]] [[E2 L2]|[N2 L2]].
  - left. split; [congruence|eauto].
  - right. rewrite <- E1. done.
  - right. rewrite E2. done.
  - right. split; [|by etrans]. intros E. apply N1.
    apply (anti_symm String.le); [done|]. by rewrite <- E.
Qed.

#[local] Instance newer_first_total : Total (λ a b, Is_true (newer_first a b)).
Proof.
  intros a b. rewrite !Is_true_true, !newer_first_iff. unfold not_newer.
  destruct (decide (nr_submitted_at a = nr_submitted_at b)) as [E|E].
  - destruct (nr_database_id a) as [x|], (nr_database_id b) as [y|]; cbn; rewrite ?N.leb_le; try by auto.
    destruct (N.le_ge_cases x y); auto.
  - destruct (total String.le (nr_submitted_at a) (nr_submitted_at b)); [right|left]; right; split; auto.
Qed.

Lemma owning_report_ok number url chain handoff after l w r body w' :
  owning_report repo number url chain handoff after l w = (Ok (Some (r, body)), w') →
  ∃ newer older, l = newer ++ r :: older ∧ Forall (skipped number chain handoff) newer
    ∧ decides number url chain handoff after r body.
Proof.
  revert w. induction l as [|x l IH]; intros w H; cbn [owning_report] in H.
  { io_inv H. by destruct H. }
  io_inv H. destruct H as (b & w1 & Hb & H). io_inv H. destruct H as (replies & w2 & Hr & H).
  destruct (replies || _) eqn:Eskip.
  - apply IH in H as (newer & older & -> & Hn & Hd). exists (x :: newer), older.
    split; [done|]. split; [|done]. constructor; [|done]. exists w, w1, b. split; [done|].
    destruct (publication_is_known_other_interval chain b) eqn:E; [by left|]. right.
    rewrite orb_false_r in Eskip. subst replies. destruct (_ && _) eqn:Ecase in Hr.
    + bool_facts. split; [done|]. split; [done|]. by exists w2.
    + io_inv Hr. by destruct Hr.
  - io_inv H. destruct H as ([] & Hrev & H).
    io_if H. apply negb_false_iff in Hif. io_inv H. destruct H as [Hp _].
    split_if Hp. injection Hp as <- <-. exists [], l. split; [done|]. split; [constructor|].
    match goal with Hq : passes _ _ _ = true |- _ => apply passes_ok in Hq as (? & ? & ? & ?) end.
    split; [by exists w, w1| |done..].
    destruct (validate_reviewable _ _ _ _ _) as [[]|[]]; try discriminate; done.
Qed.

(** ** What an admission rests on *)
Definition designated_pass (number : N) (url head : string) (chain : ReviewStateChain)
    (created : option string) (adm : Admission) : Prop :=
  ∃ handoff state created_at after reviews r body,
    latest chain = Some handoff
    ∧ surrendered handoff = false ∧ returned_reason handoff = None
    ∧ owned_state chain = Some state ∧ blocked_state state = false
    ∧ created = Some created_at ∧ ok (timestamp_parse created_at) = Some after
    ∧ pv_head_sha reviews = head
    ∧ r ∈ current_head_reviews reviews ++ stale_reviews reviews
    ∧ matches_designated_author r (review_author handoff) = true
    ∧ (∀ x, x ∈ current_head_reviews reviews ++ stale_reviews reviews →
         matches_designated_author x (review_author handoff) = true →
         nr_commit_sha x = head ∨ (s_head_sha state ≠ head ∧ nr_commit_sha x = s_head_sha state) →
         skipped number chain handoff x ∨ not_newer x r)
    ∧ decides number url chain handoff after r body
    ∧ approval adm = Some (from_review r head)
    ∧ ((s_head_sha state = head ∧ nr_commit_sha r = head ∧ sync_carry_over adm = None
        ∧ ∃ w w1, provider_base repo number w = (Ok (base_sha handoff), w1))
       ∨ ∃ objects merge base, s_head_sha state ≠ head
         ∧ (nr_commit_sha r = head ∨ nr_commit_sha r = s_head_sha state)
         ∧ open_objects = Ok objects ∧ verify_merge objects (s_head_sha state) head = Ok merge
         ∧ (∃ w w1, provider_base_scope repo number w = (Ok (base, base_ref handoff), w1))
         ∧ verify_on_target objects (base_sha handoff) base = Ok tt
         ∧ verify_on_target objects (sm_base_commit merge) base = Ok tt
         ∧ sync_carry_over adm = Some {|
             review_url := nr_url r; reviewed_head := s_head_sha state; co_head := head;
             base_commit := sm_base_commit merge; merge_tree := sm_merge_tree merge |}).

Lemma assigned_some chain h :
  assigned env chain = Ok (Some h) →
  latest chain = Some h ∧ surrendered h = false ∧ returned_reason h = None.
Proof.
  unfold assigned. intros H. apply bind_ok in H as (q & _ & H). destruct (latest chain) as [h'|].
  - split_if H. split_if H. injection H as ->. bool_facts.
    by destruct (returned_reason h).
  - by destruct (is_some q).
Qed.

Lemma or_refused_ok {A} (r : result string A) a : or_refused r = Ok a ↔ r = Ok a.
Proof. unfold or_refused, map_err. destruct r; naive_solver. Qed.

Lemma sync_merge_ok reviewed head sync :
  sync_merge open_objects reviewed head = Ok sync →
  (reviewed = head ∧ sync = None)
  ∨ ∃ objects merge, reviewed ≠ head ∧ open_objects = Ok objects
      ∧ verify_merge objects reviewed head = Ok merge ∧ sync = Some (objects, merge).
Proof.
  unfold sync_merge. case_bool_decide as Heq; [intros [= <-]; by left|]. intros H. right.
  apply bind_ok in H as (o & Ho%or_refused_ok & H). apply bind_ok in H as (m & Hm%or_refused_ok & H).
  injection H as <-. by exists o, m.
Qed.

Lemma candidates_elem handoff head reviewed synced reviews r :
  r ∈ candidates handoff head reviewed synced reviews →
  r ∈ current_head_reviews reviews ++ stale_reviews reviews
  ∧ candidate handoff head reviewed synced r = true.
Proof.
  unfold candidates. rewrite merge_sort_Permutation. rewrite list_elem_of_In, filter_In.
  by rewrite <- list_elem_of_In.
Qed.

Lemma candidates_newest handoff head reviewed synced reviews newer r older x :
  candidates handoff head reviewed synced reviews = newer ++ r :: older →
  x ∈ current_head_reviews reviews ++ stale_reviews reviews →
  candidate handoff head reviewed synced x = true → x ∈ newer ∨ not_newer x r.
Proof.
  intros Hc Hx Hcand.
  assert (Hin : x ∈ candidates handoff head reviewed synced reviews).
  { unfold candidates. rewrite merge_sort_Permutation, list_elem_of_In, filter_In.
    by rewrite <- list_elem_of_In. }
  assert (Hs : StronglySorted (λ a b, Is_true (newer_first a b)) (newer ++ r :: older))
    by (rewrite <- Hc; apply StronglySorted_merge_sort; apply _).
  rewrite Hc in Hin. apply elem_of_app in Hin as [Hin|[->|Hin]%elem_of_cons]; [by left| |].
  - right. destruct (total (λ a b, Is_true (newer_first a b)) r r) as [H|H];
      by rewrite Is_true_true, newer_first_iff in H.
  - right. apply StronglySorted_app_1_r, StronglySorted_inv in Hs as [_ Hs].
    rewrite Forall_forall in Hs. specialize (Hs x Hin). by rewrite Is_true_true, newer_first_iff in Hs.
Qed.

Lemma check_base_plain number handoff w w' :
  check_base repo number handoff None w = (Ok tt, w') →
  ∃ w0 w1, provider_base repo number w0 = (Ok (base_sha handoff), w1).
Proof.
  unfold check_base. intros H. io_inv H. destruct H as (base & w1 & Hb & H).
  io_if H. apply negb_decide_false in Hif. subst base. by exists w, w1.
Qed.

Lemma check_base_synced number handoff objects merge w w' :
  check_base repo number handoff (Some (objects, merge)) w = (Ok tt, w') →
  ∃ base, (∃ w0 w1, provider_base_scope repo number w0 = (Ok (base, base_ref handoff), w1))
    ∧ verify_on_target objects (base_sha handoff) base = Ok tt
    ∧ verify_on_target objects (sm_base_commit merge) base = Ok tt.
Proof.
  unfold check_base. intros H. io_inv H. destruct H as ([base branch] & w1 & Hb & H).
  io_if H. apply negb_decide_false in Hif. subst branch.
  io_inv H. destruct H as ([] & H1%map_err_ok & H). io_inv H. destruct H as [H2%or_refused_ok _].
  exists base. split; [by exists w, w1|done].
Qed.

Lemma admit_published_ok number url head chain created w adm w' :
  admit_published env repo open_objects number url head chain created w = (Ok adm, w') →
  (latest chain = None ∧ adm = mk_Admission None None)
  ∨ designated_pass number url head chain created adm.
Proof.
  unfold admit_published. intros H. io_inv H. destruct H as (handoff & Ha & H).
  destruct handoff as [handoff|].
  2:{ io_inv H. destruct H as [<- _]. left. split; [|done]. unfold assigned in Ha.
      apply bind_ok in Ha as (q & _ & Ha). destruct (latest chain); [|done]. by repeat split_if Ha. }
  right. apply assigned_some in Ha as (Hl & Hs & Hrr).
  io_inv H. destruct H as (state & Hst%ok_or_ok & H). io_if H. rename Hif into Hblocked.
  io_inv H. destruct H as (sync & Hsync & H). io_inv H. destruct H as ([] & w1 & Hbase & H).
  io_inv H. destruct H as (reviews & w2 & _ & H). io_if H. apply negb_decide_false in Hif.
  io_inv H. destruct H as (after & Hafter%ok_or_ok & H).
  apply bind_Some in Hafter as (created_at & Hc & Hafter).
  io_inv H. destruct H as (passing & w3 & Hown & H).
  io_inv H. destruct H as ([r body] & ->%ok_or_ok & H).
  apply owning_report_ok in Hown as (newer & older & Hcand & Hnewer & Hdec).
  io_inv H. destruct H as ([] & w4 & _ & H). io_inv H. destruct H as [<- _].
  assert (Hr : r ∈ candidates handoff head (s_head_sha state) (is_some sync) reviews)
    by (rewrite Hcand; set_solver).
  apply candidates_elem in Hr as [Hin Hr]. unfold candidate in Hr. apply andb_true_iff in Hr as [Hauth Hr].
  apply sync_merge_ok in Hsync as [[Hhead ->]|(objects & merge & Hhead & Ho & Hm & ->)];
    exists handoff, state, created_at, after, reviews, r, body; do 10 (split; [done|]);
    (split; [intros x Hx Ha' Hc'; apply (candidates_newest _ _ _ _ _ _ _ _ x Hcand) in Hx as [Hx|Hx];
       [left; rewrite Forall_forall in Hnewer; by apply Hnewer|by right|]|split; [done|split; [done|]]]).
  1,3: unfold candidate; rewrite Ha'; apply orb_true_iff; destruct Hc' as [Hc'|[Hne Hc']];
         [left|right]; rewrite ?Hc', ?bool_decide_true by done; done.
  - left. apply check_base_plain in Hbase. split; [done|]. split; [|done].
    apply orb_true_iff in Hr as [Hr|Hr]; by bool_facts.
  - right. apply check_base_synced in Hbase as (base & Hscope & H1 & H2).
    exists objects, merge, base. split; [done|]. split; [|done].
    apply orb_true_iff in Hr as [Hr|Hr]; bool_facts; auto.
Qed.

(** A pass that satisfies the final-approval policy approves the very head. *)
Lemma final_pass_approves number url head chain created adm :
  designated_pass number url head chain created adm →
  require_policy (approval adm) FinalApproval = Ok tt →
  ∃ a, approval adm = Some a ∧ pa_native_state a = "APPROVED" ∧ pa_reviewed_head a = head.
Proof.
  intros (handoff & state & ? & ? & ? & r & ? & Hpass) Hpol. destruct_and! Hpass.
  match goal with Ha : approval adm = _ |- _ => rewrite Ha in Hpol |- * end.
  unfold require_policy in Hpol. rewrite bool_decide_true in Hpol by done. cbn [andb] in Hpol.
  split_if Hpol. exists (from_review r head).
  split; [done|]. unfold from_review in *. cbn in *. destruct (_ && _) eqn:E; [|done]. by bool_facts.
Qed.


(** What the policy and the ledger add: under a final-approval policy the admitted review
    approves the very head (state APPROVED, commit equal to it), never an older one; and a
    carried pass counts only when the same carry-over is already recorded in the interval. *)
Theorem final_policy_needs_current_approval number url head chain created w adm w' :
  published_admission env repo open_objects number url head chain created w = (Ok adm, w') →
  (∀ h, latest chain = Some h → approval_policy h = FinalApproval →
     ∃ a, approval adm = Some a ∧ pa_native_state a = "APPROVED" ∧ pa_reviewed_head a = head)
  ∧ (∀ c, sync_carry_over adm = Some c → recorded_carry_over chain head = Some c).
Proof.
  unfold published_admission. intros H. io_inv H. destruct H as (adm0 & w1 & Hadm & H).
  io_inv H. destruct H as ([] & Hpol & H). io_if H. io_inv H. destruct H as [-> _]. split.
  - intros h Hl Hp. rewrite Hl in Hpol. cbn [from_option] in Hpol. rewrite Hp in Hpol.
    apply admit_published_ok in Hadm as [[Hnone _]|Hpass]; [congruence|].
    by eapply final_pass_approves.
  - intros c Hc. rewrite Hc in Hif. cbn in Hif. by apply negb_decide_false in Hif.
Qed.
End publish.

(** ** The theorems at a concrete review

    A reviewer is assigned under a final-approval policy, observes no findings at the head,
    and publishes an approving report bound to the interval. *)
Module PublishWitness.
#[local] Existing Instance demo_hasher.
#[local] Existing Instance demo_time.
#[local] Existing Instance demo_binding.
#[export] Instance serde : LedgerSerde := demo_serde [].
#[export] Instance backend : Backend World := demo_backend (demo_sha "d").

Definition handoff : ReviewHandoff :=
  {| approval_policy := FinalApproval; coordinator_digest := demo_digest 100;
     reviewer_digest := demo_digest 101; review_author := "reviewer";
     base_sha := demo_sha "c"; assigned_head := demo_sha "d"; returned_reason := None;
     assignment_generation := 1; surrendered := false; coordinator_transfer := None;
     base_ref := "main" |}.

Definition chain : ReviewStateChain :=
  demo_chain [demo_record 0 (demo_sha "d") (P_ReviewHandoff handoff);
              demo_record 1 (demo_sha "d") (P_ReviewLoop (genesis_state (demo_sha "d") ∅))].

Definition report : string := RStr.join nl
  [REPORT_MARKER; "## Review Report"; "- Reviewable: PR #1 at " +:+ demo_sha "d";
   "- Lens: correctness"; "- Lens verdict: pass"; "- Scope: the whole change";
   "- Evidence reviewed: the diff"; TABLE_HEADER; TABLE_SEPARATOR; "| none | - | - | - | - |"].

Definition review : NativeReview :=
  {| nr_id := "R1"; nr_database_id := Some 7%N; nr_url := "https://host/review/7";
     nr_author := "Reviewer"; nr_author_node_id := None; nr_author_type := Some "User";
     nr_state := "APPROVED"; nr_commit_sha := demo_sha "d"; nr_submitted_at := "later";
     nr_summary := bind_native_report chain report; nr_summary_truncated := false |}.

#[export] Instance json : JsonText :=
  world_json [("reviews", reviews_json (demo_sha "d") [review])].
#[export] Instance reviews : ReviewReads World := {|
  test_integrity_ensure := λ _ _ _ _ w, (Ok tt, w) |}.

Definition blank : Admission := mk_Admission None None.
Definition admission : Admission :=
  unwrap_or blank (published_admission nobody (Some "o/r") (Err "head-unavailable") 1
                     demo_url_of_pr (demo_sha "d") chain (Some "t") []).1.

Lemma admission_ok :
  published_admission nobody (Some "o/r") (Err "head-unavailable") 1 demo_url_of_pr (demo_sha "d")
    chain (Some "t") [] = (Ok admission, []).
Proof. vm_compute. reflexivity. Qed.
End PublishWitness.

Section publish_witnesses.
#[local] Existing Instance demo_hasher.
#[local] Existing Instance demo_time.
#[local] Existing Instance demo_binding.
Import PublishWitness.


Lemma final_policy_needs_current_approval_witness :
  ∃ a, approval admission = Some a ∧ pa_reviewed_head a = demo_sha "d".
Proof.
  destruct (proj1 (final_policy_needs_current_approval nobody (Some "o/r") (Err "head-unavailable")
              1 demo_url_of_pr (demo_sha "d") chain (Some "t") [] admission [] admission_ok)
              handoff eq_refl eq_refl) as (a & Ha & _ & Hh).
  exists a. exact (conj Ha Hh).
Defined.
End publish_witnesses.
