(* ===== verification/TestChangesFacts.v ===== *)
(** * Theorems on the test-change gate

    What the gate admits was read in full: every changed file is inspected, or is no source
    code, or is an import that equals its pinned upstream blob; and every finding is declared
    and confirmed by the reviewer for exactly this comparison. *)
From S2P Require Import Prelude RStr Collections Error Types Markers Identity Handoff Provider.
From S2P Require Import Report Checks TestDiff Provenance Publish TestChanges PublishFacts.
From S2P Require Import PrView PrReviews LoopCommand Paths IoFacts TestDiffFacts World.
From stdpp Require Import options.

(** ** The list of changed files is complete *)

(** A file as the provider must describe it. *)
Record well_described (f : ChangedFile) : Prop := {
  wd_path : valid_path (cf_filename f) = true;
  wd_previous : ∀ p, cf_previous_filename f = Some p → valid_path p = true;
  wd_sha : valid_sha (cf_sha f) = true;
  wd_status : cf_status f ∈ CHANGE_STATUSES;
  wd_renamed : cf_status f = "renamed" ↔ is_Some (cf_previous_filename f);
}.

(** All files the subject counts, each once. *)
Record complete (subject : Subject) (files : list ChangedFile) : Prop := {
  cp_count : sj_changed_files subject = Some (N.of_nat (length files));
  cp_bound : length files < 3000;
  cp_unique : NoDup (cf_filename <$> files);
  cp_described : ∀ f, f ∈ files → well_described f;
}.

Section files.
Context `{JT : !JsonText}.

(** The files and the paths of the loop. *)
Definition noted (acc : list ChangedFile * gset string) : Prop :=
  acc.2 = list_to_set (cf_filename <$> acc.1) ∧ NoDup (cf_filename <$> acc.1)
  ∧ ∀ f, f ∈ acc.1 → well_described f.

Lemma note_changed_file_ok acc f acc' :
  noted acc → note_changed_file acc f = Ok acc' → noted acc' ∧ acc'.1 = acc.1 ++ [f].
Proof.
  destruct acc as [files paths]. intros (Hpaths & Hnd & Hwd) H. unfold note_changed_file in H.
  cbn [fst snd] in *. split_if H. split_if H. injection H as <-. cbn [fst snd].
  apply orb_false_iff in Hif as [Hpath%negb_false_iff Hprev].
  apply orb_false_iff in Hif0 as [[[Hfresh Hsha]%orb_false_iff Hstatus]%orb_false_iff Hren].
  apply negb_false_iff, eqb_prop in Hren. bool_facts.
  split; [|done]. unfold noted. cbn [fst snd]. rewrite fmap_app. split; [|split].
  - rewrite list_to_set_app_L, Hpaths. cbn. set_solver.
  - apply NoDup_app. split; [done|]. split; [|apply NoDup_singleton].
    intros x Hx ->%list_elem_of_singleton. apply Hfresh. rewrite Hpaths. by apply elem_of_list_to_set.
  - intros g [Hg|Hg%list_elem_of_singleton]%elem_of_app; [by apply Hwd|subst g]. split; try done.
    + intros p Hp. rewrite Hp in Hprev. cbn in Hprev. by apply negb_false_iff in Hprev.
    + destruct (cf_previous_filename f) as [p|]; cbn in Hren; bool_facts; [naive_solver|].
      split; [done|]. by intros [? ?].
Qed.

Lemma note_changed_files_ok batch acc acc' :
  noted acc → foldM note_changed_file acc batch = Ok acc' → noted acc' ∧ acc'.1 = acc.1 ++ batch.
Proof.
  revert acc. induction batch as [|f batch IH]; intros acc Ha H; cbn in H.
  - injection H as <-. by rewrite List.app_nil_r.
  - apply bind_ok in H as (acc1 & H1 & H). apply note_changed_file_ok in H1 as [H1 Heq]; [|done].
    apply IH in H as [H2 Heq2]; [|done]. split; [done|]. by rewrite Heq2, Heq, <- List.app_assoc.
Qed.
End files.

Section comparison.
Context `{HS : !Hasher, JT : !JsonText, SP : !SecretPattern, UE : !UrlEncode, CS : !ChangeSerde,
          WA : !WideAlphanumeric, B64 : !Base64Decode, SH : !Sha1Hex}
  {W : Type} `{BE : !Backend W, TD : !TextDiff W}.
Context (host : string) (repo : option string) (number : N).

Lemma file_pages_ok metadata_only endpoint count pages acc w files w' :
  noted acc → (N.of_nat (length acc.1) ≤ count)%N →
  file_pages metadata_only endpoint count pages acc w = (Ok files, w') →
  (∃ paths, noted (files, paths))
  ∧ N.of_nat (length files) = N.min count (N.of_nat (length acc.1) + 100 * N.of_nat (length pages)).
Proof.
  revert acc w. induction pages as [|page pages IH]; intros acc w Ha Hc H; cbn [file_pages] in H.
  - io_inv H. destruct H as [<- _]. split; [exists acc.2; by destruct acc|]. cbn. lia.
  - cbv zeta in H. io_inv H. destruct H as (batch & w1 & _ & H). io_if H. bool_facts.
    io_inv H. destruct H as (acc1 & Hn & H). apply note_changed_files_ok in Hn as [Hn Heq]; [|done].
    assert (Hlen : N.of_nat (length acc1.1) = N.min count (N.of_nat (length acc.1) + 100)).
    { rewrite Heq, List.length_app. lia. }
    apply IH in H as [H1 H2]; [|done|lia]. split; [done|]. rewrite H2, Hlen. cbn [length]. lia.
Qed.

Lemma merge_sort_files l : merge_sort filename_le l ≡ₚ l.
Proof. apply merge_sort_Permutation. Qed.

Lemma files_ok subject metadata_only w fs w' :
  files repo number subject metadata_only w = (Ok fs, w') → complete subject fs.
Proof.
  unfold files. intros H. io_inv H. destruct H as (count & Hcount & H). io_if H. bool_facts.
  io_inv H. destruct H as (repo' & _ & H). io_inv H. destruct H as (l & w1 & Hl & H).
  io_inv H. destruct H as [<- _].
  apply file_pages_ok in Hl as [(paths & _ & Hnd & Hwd) Hlen];
    [|by split; [|split; [apply NoDup_nil_2|intros f ?%not_elem_of_nil]]|cbn; lia].
  cbn [fst] in *. apply ok_or_ok in Hcount.
  assert (Heq : N.of_nat (length l) = count).
  { rewrite Hlen, length_seq. cbn [length]. rewrite N2Nat.id. unfold div_ceil.
    pose proof (N.div_mod (count + (100 - 1)) 100 ltac:(done)).
    pose proof (N.mod_lt (count + (100 - 1)) 100 ltac:(done)). lia. }
  assert (Hcomplete : complete subject l).
  { split; [by rewrite Heq|lia|done|done]. }
  destruct metadata_only; [done|]. pose proof (merge_sort_files l) as Hp. destruct Hcomplete. split.
  - by rewrite Hp.
  - by rewrite Hp.
  - by rewrite (fmap_Permutation _ _ _ Hp).
  - intros f. rewrite Hp. apply Hwd.
Qed.

(** ** What the import verifies *)

(** The complete tree of the pinned commit. *)
Definition upstream_tree (d : Declaration) (tree : gmap string Entry) : Prop :=
  ∃ commit response,
    gc_sha commit = dc_commit d ∧ tr_sha response = gc_tree commit ∧ tr_truncated response = false
    ∧ NoDup (en_path <$> tr_tree response)
    ∧ ∀ path e, tree !! path = Some e ↔ e ∈ tr_tree response ∧ en_path e = path.

(** An added file that equals the blob its path is mapped to: a regular file of that tree. *)
Definition verified (d : Declaration) (tree : gmap string Entry) (f : ChangedFile) : Prop :=
  cf_status f = "added" ∧ (cf_filename f ∉ dc_additions d)
  ∧ ∃ m rest blob, m ∈ dc_mappings d ∧ cf_filename f = (mp_destination m +:+ rest)
      ∧ tree !! (mp_source m +:+ rest) = Some blob ∧ en_kind blob = "blob"
      ∧ en_mode blob ∈ ["100644"; "100755"] ∧ en_sha blob = cf_sha f.

Lemma add_entries_ok entries tree :
  foldM add_entry ∅ entries = Ok tree →
  NoDup (en_path <$> entries) ∧ ∀ path e, tree !! path = Some e ↔ e ∈ entries ∧ en_path e = path.
Proof.
  intros H. refine (foldM_inv add_entry (λ seen acc, NoDup (en_path <$> seen)
    ∧ ∀ path e, acc !! path = Some e ↔ e ∈ seen ∧ en_path e = path) _ entries [] ∅ tree _ H);
    [|split].
  - intros seen acc x acc' [Hnd Hacc] Hx. unfold add_entry in Hx. split_if Hx. injection Hx as <-.
    apply orb_false_iff in Hif as [_ Hfresh]. apply contains_key_false in Hfresh. split.
    + rewrite fmap_app. apply NoDup_app. split; [done|]. split; [|apply NoDup_singleton].
      intros y (e & -> & He)%list_elem_of_fmap Heq%list_elem_of_singleton.
      assert (acc !! en_path x = Some e) by (apply Hacc; by split). congruence.
    + intros path e. rewrite elem_of_app, list_elem_of_singleton, lookup_insert_Some, Hacc.
      split; [intros [[<- <-]|[? [? ?]]]; auto|]. intros [[He| ->] Heq]; [right|by left].
      split; [|done]. intros Hp. rewrite Hp in Hfresh. rewrite <- Heq in Hfresh.
      assert (acc !! en_path e = Some e) by (apply Hacc; by split). congruence.
  - apply NoDup_nil_2.
  - intros path e. rewrite lookup_empty. split; [done|]. by intros [?%not_elem_of_nil _].
Qed.

Lemma upstream_ok d w tree w' : upstream host d w = (Ok tree, w') → upstream_tree d tree.
Proof.
  unfold upstream. intros H. io_inv H. destruct H as (scope & _ & H). cbv zeta in H.
  io_inv H. destruct H as (commit & w1 & _ & H). io_if H. apply orb_false_iff in Hif as [Hc _].
  io_inv H. destruct H as (response & w2 & _ & H). io_if H. io_if H.
  io_inv H. destruct H as [H _]. apply add_entries_ok in H as [Hnd Htree].
  apply negb_decide_false in Hc, Hif0. by exists commit, response.
Qed.

Lemma file_origin_verified d tree f path sha :
  file_origin d tree f = Ok (Some (Verified path sha)) → verified d tree f.
Proof.
  unfold file_origin. destruct (_ ==? _) eqn:Ea; [|done]. destruct (find_map _ _) as [p|] eqn:Ef; [|done].
  intros H. apply bind_ok in H as (o & Ho & [= ->]). unfold origin in Ho. split_if Ho.
  { by destruct (contains_key _ _). }
  apply bind_ok in Ho as (blob & Hblob & Ho). apply ok_or_ok in Hblob.
  split_if Ho. destruct (en_sha blob ==? cf_sha f) eqn:Es; [|by split_if Ho].
  apply find_map_some in Ef as (l1 & m & l2 & Hm & Hp & _). unfold upstream_path in Hp.
  destruct (strip_prefix _ _) as [rest|] eqn:Er; [|done]. injection Hp as <-.
  apply strip_prefix_some in Er. apply orb_false_iff in Hif0 as [Hk Hmode].
  apply negb_decide_false in Hk. apply negb_false_iff in Hmode. bool_facts.
  split; [done|]. split; [done|]. exists m, rest, blob. rewrite Hm. set_solver.
Qed.

(** A mapped addition that is not verified is declared as adapted or added. *)
Definition mapped (d : Declaration) (f : ChangedFile) : Prop :=
  cf_status f = "added" ∧ ∃ m, m ∈ dc_mappings d ∧ is_Some (strip_prefix (mp_destination m) (cf_filename f)).

Lemma file_origin_unmapped d tree f : file_origin d tree f = Ok None → ¬ mapped d f.
Proof.
  unfold file_origin. intros H [Ha (m & Hm & [rest Hr])]. rewrite bool_decide_true in H by done.
  destruct (find_map _ _) as [p|] eqn:Ef; [by apply bind_ok in H as (o & _ & [=])|].
  rewrite find_map_none in Ef. specialize (Ef m Hm). unfold upstream_path in Ef. by rewrite Hr in Ef.
Qed.

(** ** Every other file is inspected *)

(** The text of a file that the scan of the diff sees: its patch, or the one made of its blobs. *)
Definition inspected (subject : Subject) (f : ChangedFile) (text : string) : Prop :=
  ∃ base w w', file_patch host repo subject base f w = (Ok text, w').

(** Every file of the list that is not skipped is inspected, and what the scan of all their texts
    finds is among the findings. *)
Definition covered (skip : ChangedFile → Prop) (subject : Subject) (files : list ChangedFile)
    (findings : list Finding) : Prop :=
  ∃ texts found,
    (∀ f t, (f, t) ∈ texts → inspected subject f t)
    ∧ (∀ f, f ∈ files → skip f
         ∨ ∃ f' t, (f', t) ∈ texts ∧ with_patch f' None = with_patch f None)
    ∧ detect (join EmptyString (texts.*2)) = Ok found ∧ found ⊆ findings.

Lemma note_origin_grows st f o :
  im_adaptations st ⊆ im_adaptations (note_origin st f o)
  ∧ im_additions st ⊆ im_additions (note_origin st f o)
  ∧ (o = Some Adapted → cf_filename f ∈ im_adaptations (note_origin st f o))
  ∧ (o = Some Added → cf_filename f ∈ im_additions (note_origin st f o)).
Proof. destruct o as [[]|]; cbn; split_and!; try done; set_solver. Qed.

Lemma note_origin_residual st f o : im_residual (note_origin st f o) = im_residual st.
Proof. by destruct o as [[]|]. Qed.

(** A mapped addition is verified, or noted as one of the two kinds of exception. *)
Definition accounted (d : Declaration) (tree : gmap string Entry) (st : Import) (f : ChangedFile)
    : Prop :=
  mapped d f → verified d tree f ∨ cf_filename f ∈ im_adaptations st ∨ cf_filename f ∈ im_additions st.

(** One file: it is verified, or it leaves its text in the residual diff. *)
Lemma import_file_step subject d tree base file files st w st' w' :
  import_files host repo subject d tree base (file :: files) st w = (Ok st', w') →
  ∃ o st1 w1, file_origin d tree file = Ok o
    ∧ import_files host repo subject d tree base files st1 w1 = (Ok st', w')
    ∧ im_adaptations st1 = im_adaptations (note_origin st file o)
    ∧ im_additions st1 = im_additions (note_origin st file o)
    ∧ (verified d tree file ∧ im_residual st1 = im_residual st
       ∨ ∃ text, inspected subject file text ∧ im_residual st1 = im_residual st +:+ text).
Proof.
  cbn [import_files]. intros H. io_inv H. destruct H as (o & Ho & H). cbv zeta in H.
  assert (Hcases : (∃ path sha, o = Some (Verified path sha))
      ∧ import_files host repo subject d tree base files (note_origin st file o) w = (Ok st', w')
    ∨ ∃ text w1, file_patch host repo subject base file w = (Ok text, w1)
      ∧ import_files host repo subject d tree base files (add_residual (note_origin st file o) text) w1
        = (Ok st', w')).
  { destruct o as [[path sha| |]|]; [left; split; [by do 2 eexists|done]|right..];
      io_inv H; destruct H as (text & w1 & Ht & H); by exists text, w1. }
  destruct Hcases as [[(path & sha & ->) Hrun]|(text & w1 & Htext & Hrun)].
  - exists (Some (Verified path sha)), (note_origin st file (Some (Verified path sha))), w.
    split_and!; try done. left. split; [by eapply file_origin_verified|done].
  - exists o, (add_residual (note_origin st file o) text), w1. split_and!; try done.
    right. exists text. split; [by exists base, w, w1|]. cbn. by rewrite note_origin_residual.
Qed.

Lemma import_files_ok subject d tree base files st w st' w' :
  import_files host repo subject d tree base files st w = (Ok st', w') →
  im_adaptations st ⊆ im_adaptations st' ∧ im_additions st ⊆ im_additions st'
  ∧ (∀ f, f ∈ files → accounted d tree st' f)
  ∧ ∃ texts, im_residual st' = im_residual st +:+ join EmptyString (texts.*2)
      ∧ (∀ f t, (f, t) ∈ texts → inspected subject f t)
      ∧ (∀ f, f ∈ files → verified d tree f ∨ ∃ t, (f, t) ∈ texts).
Proof.
  revert st w. induction files as [|file files IH]; intros st w H.
  { cbn [import_files] in H. io_inv H. destruct H as [<- _]. do 2 (split; [done|]).
    split; [by intros f ?%not_elem_of_nil|]. exists []. cbn. rewrite app_nil_r. split; [done|].
    split; [by intros f t ?%not_elem_of_nil|by intros f ?%not_elem_of_nil]. }
  apply import_file_step in H as (o & st1 & w1 & Ho & H & Ha1 & Hb1 & Hcase).
  destruct (note_origin_grows st file o) as (Ha & Hb & Hadapted & Hadded).
  apply IH in H as (Ha2 & Hb2 & Hacc & texts & Hres & Hins & Hall). rewrite Ha1 in Ha2. rewrite Hb1 in Hb2.
  split; [by etrans|]. split; [by etrans|]. split.
  - intros f [->|Hf]%elem_of_cons; [|by apply Hacc]. intros Hm.
    destruct o as [[path sha| |]|].
    + left. by eapply file_origin_verified.
    + right. left. apply Ha2. by apply Hadapted.
    + right. right. apply Hb2. by apply Hadded.
    + by apply file_origin_unmapped in Ho.
  - destruct Hcase as [[Hver Hr]|(text & Htext & Hr)]; rewrite Hr in Hres.
    + exists texts. split_and!; try done. intros f [->|Hf]%elem_of_cons; [by left|by apply Hall].
    + exists ((file, text) :: texts). cbn [fmap list_fmap]. rewrite join_empty_cons, Hres, app_assoc.
      split_and!; try done.
      * by intros f t [[= -> ->]|Hft]%elem_of_cons; [|apply Hins].
      * intros f [->|Hf]%elem_of_cons; [right; exists text; by left|].
        destruct (Hall f Hf) as [?|(t & ?)]; [by left|right; exists t; by right].
Qed.

Lemma elem_of_sort_findings f l : f ∈ sort_findings l ↔ f ∈ l.
Proof. unfold sort_findings. by rewrite merge_sort_Permutation. Qed.

(** An import covers the pull request: what it skips equals the pinned upstream tree, and what
    differs from it is a finding. *)
Lemma import_comparison_ok subject d w binding findings w' :
  import_comparison host repo number subject d w = (Ok (binding, findings), w') →
  ∃ files tree, complete subject files ∧ upstream_tree d tree
    ∧ covered (verified d tree) subject files findings
    ∧ (∀ f, f ∈ files → mapped d f → verified d tree f
         ∨ mk_Finding (cf_filename f) "import-adaptation" ∈ findings
         ∨ mk_Finding (cf_filename f) "import-addition" ∈ findings)
    ∧ ∃ l, binding = PREFIX +:+ value_display (JObject l).
Proof.
  unfold import_comparison. intros H. io_inv H. destruct H as (fs & w1 & Hfiles & H).
  io_inv H. destruct H as (tree & w2 & Htree & H). io_inv H. destruct H as (base & w3 & _ & H).
  io_inv H. destruct H as (import & w4 & Himport & H). io_if H.
  io_inv H. destruct H as (found & Hfound & H). cbv zeta in H.
  io_inv H. destruct H as (b & Hb & H). io_inv H. destruct H as [[= <- <-] _].
  apply import_files_ok in Himport as (_ & _ & Hacc & texts & Hres & Hins & Hall).
  cbn [im_residual] in Hres. rewrite app_empty in Hres. rewrite Hres in Hfound.
  exists fs, tree. split; [by eapply files_ok|]. split; [by eapply upstream_ok|]. split; [|split].
  - exists texts, found. split; [done|]. split.
    + intros f Hf. destruct (Hall f Hf) as [?|(t & Ht)]; [by left|right; by exists f, t].
    + split; [done|]. intros f Hf. apply elem_of_sort_findings, elem_of_app. by left.
  - intros f Hf Hm. rewrite !elem_of_sort_findings, !elem_of_app.
    destruct (Hacc f Hf Hm) as [?|[?|?]]; [by left|right; left|right; right]; right.
    + left. apply list_elem_of_fmap. exists (cf_filename f). by rewrite elem_of_sorted_elements.
    + right. apply list_elem_of_fmap. exists (cf_filename f). by rewrite elem_of_sorted_elements.
  - unfold import_binding in Hb. inv_ok. by eexists.
Qed.

(** *** The comparison without an import *)
Lemma map_failure_ok {A} f (m : io W A) w a w' :
  map_failure f m w = (Ok a, w') ↔ m w = (Ok a, w').
Proof. unfold map_failure. destruct (m w) as [[b|e] w1]; cbn; naive_solver. Qed.

Lemma selected_patch_ok repo' index metadata w file w' :
  selected_patch number repo' index metadata w = (Ok file, w') → with_patch file None = metadata.
Proof.
  unfold selected_patch. intros H. io_inv H. destruct H as (stdout & w1 & _ & H).
  io_inv H. destruct H as (batch & _ & H). destruct batch as [|f [|]]; [done| |done].
  io_if H. io_if H. io_inv H. destruct H as [<- _]. by apply negb_decide_false in Hif.
Qed.

Lemma ordinary_patches_ok subject repo' paths selected base patch w patch' base' w' :
  ordinary_patches host repo number subject repo' paths selected base patch w
    = (Ok (patch', base'), w') →
  ∃ texts, patch' = patch +:+ join EmptyString (texts.*2)
    ∧ (∀ f t, (f, t) ∈ texts → inspected subject f t)
    ∧ (∀ i m, (i, m) ∈ selected → ∃ f t, (f, t) ∈ texts ∧ with_patch f None = m).
Proof.
  revert base patch w. induction selected as [|[index m] selected IH]; intros base patch w H;
    cbn [ordinary_patches] in H.
  { io_inv H. destruct H as [[= <- <-] _]. exists []. cbn. rewrite app_nil_r. split; [done|].
    split; [by intros f t ?%not_elem_of_nil|by intros i m ?%not_elem_of_nil]. }
  io_inv H. destruct H as (file & w1 & Hfile & H). apply selected_patch_ok in Hfile.
  io_inv H. destruct H as (base1 & w2 & _ & H). io_inv H. destruct H as (text & w3 & Htext & H).
  apply map_failure_ok in Htext. io_if H. apply IH in H as (texts & -> & Hins & Hall).
  exists ((file, text) :: texts). cbn [fmap list_fmap snd]. rewrite join_empty_cons, app_assoc.
  split; [done|]. split.
  - intros f t [[= -> ->]|Hft]%elem_of_cons; [by exists base1, w2, w3|by apply Hins].
  - intros i m' [[= -> ->]|Him]%elem_of_cons; [exists file, text; split; [by left|done]|].
    destruct (Hall i m' Him) as (f & t & Hft & ?). exists f, t. split; [by right|done].
Qed.

(** Without an import every file that is or was source code is inspected. *)
Lemma ordinary_comparison_ok subject w binding findings w' :
  ordinary_comparison host repo number subject w = (Ok (binding, findings), w') →
  ∃ files, complete subject files ∧ covered (λ f, selected f = false) subject files findings
    ∧ ∃ patch base, binding = value_display (ordinary_binding files patch base)
        ∧ detect patch = Ok findings.
Proof.
  unfold ordinary_comparison. intros H. io_inv H. destruct H as (fs & w1 & Hfiles & H). cbv zeta in H.
  io_if H. io_inv H. destruct H as (repo' & _ & H).
  io_inv H. destruct H as ([patch base] & w2 & Hp & H). io_inv H. destruct H as (found & Hfound & H).
  io_inv H. destruct H as [[= <- <-] _]. apply ordinary_patches_ok in Hp as (texts & -> & Hins & Hall).
  exists fs. split; [by eapply files_ok|].
  split; [|by eexists _, _; split; [done|]]. exists texts, found. split; [done|]. split; [|by split].
  intros f Hf. destruct (selected f) eqn:Es; [right|by left].
  apply list_elem_of_lookup in Hf as [i Hi]. destruct (Hall i f) as (f' & t & Hft & <-).
  - apply elem_of_list_filter. split; [|done]. apply list_elem_of_lookup. exists i.
    by rewrite list_lookup_imap, Hi.
  - exists f', t. by destruct f'.
Qed.

(** ** The gate *)

(** What a comparison rests on: the files without an import, or those of the import that the
    description declares. *)
Definition plain_inspection (subject : Subject) (binding : string) (findings : list Finding) : Prop :=
  ∃ files patch base, parse_declaration (sj_body subject) = Ok None ∧ complete subject files
    ∧ binding = value_display (ordinary_binding files patch base) ∧ detect patch = Ok findings
    ∧ covered (λ f, selected f = false) subject files findings.

Definition import_inspection (subject : Subject) (binding : string) (findings : list Finding) : Prop :=
  ∃ d files tree l, parse_declaration (sj_body subject) = Ok (Some d)
    ∧ complete subject files ∧ upstream_tree d tree ∧ binding = PREFIX +:+ value_display (JObject l)
    ∧ covered (verified d tree) subject files findings
    ∧ ∀ f, f ∈ files → mapped d f → verified d tree f
        ∨ mk_Finding (cf_filename f) "import-adaptation" ∈ findings
        ∨ mk_Finding (cf_filename f) "import-addition" ∈ findings.

Record compared (head : string) (subject : Subject) (binding : string) (findings : list Finding)
    (w w' : W) : Prop := {
  co_head : sj_head subject = head;
  co_head_sha : valid_sha (sj_head subject) = true;
  co_base_sha : valid_sha (sj_base subject) = true;
  co_inspection : plain_inspection subject binding findings
                  ∨ import_inspection subject binding findings;
  co_stable : ∃ r w1 w2, repo = Some r ∧ read_subject r number w = (Ok subject, w1)
    ∧ read_subject r number w2 = (Ok subject, w');
}.

Lemma change_comparison_ok head w subject binding findings w' :
  comparison host repo number head w = (Ok (subject, binding, findings), w') →
  compared head subject binding findings w w'.
Proof.
  unfold comparison. intros H. io_inv H. destruct H as (r & Hr & H). apply ok_or_ok in Hr.
  io_inv H. destruct H as (s & w1 & Hs & H). io_if H.
  apply orb_false_iff in Hif as [[[Hhead Hsha]%orb_false_iff Hbase]%orb_false_iff _].
  apply negb_decide_false in Hhead. apply negb_false_iff in Hsha, Hbase.
  io_inv H. destruct H as (declaration & Hd & H). io_inv H. destruct H as ([b l] & w2 & Hcmp & H).
  io_inv H. destruct H as (again & w3 & Hagain & H). io_if H. apply negb_decide_false in Hif as ->.
  io_inv H. destruct H as [[= <- <- <-] <-]. split; [done|by rewrite Hhead|done| |].
  - destruct declaration as [d|].
    + right. apply import_comparison_ok in Hcmp as (fs & tree & ? & ? & ? & ? & j & ->).
      by exists d, fs, tree, j.
    + left. apply ordinary_comparison_ok in Hcmp as (fs & ? & ? & patch & base & -> & ?).
      by exists fs, patch, base.
  - by exists r, w1, w2.
Qed.

(** A row of the description that declares a finding. *)
Definition declares (body : string) (f : Finding) : Prop :=
  ∃ line allow reason, line ∈ lines (declarations body) ∧ allow ∈ [""; "allow "]
    ∧ trim line = "- " +:+ allow +:+ fd_path f +:+ " | " +:+ fd_kind f +:+ " | " +:+ reason
    ∧ (12 ≤ len (trim reason))%N.

Lemma is_declared_ok body f :
  is_declared (declared_rows (declarations body)) f = true → declares body f.
Proof.
  unfold is_declared. intros H. bool_facts. unfold declared_rows in H.
  apply list_elem_of_omap in H as (line & Hline & H). unfold declaration_row in H.
  destruct (strip_prefix "- " (trim line)) as [row|] eqn:E1; [|done]. cbn [mbind option_bind] in H.
  destruct (split_once " | " row) as [[path rest]|] eqn:E2; [|done]. cbn [mbind option_bind] in H.
  destruct (split_once " | " rest) as [[kind reason]|] eqn:E3; [|done]. cbn [mbind option_bind] in H.
  destruct (_ <=? _)%N eqn:E4; [|done]. bool_facts. apply (inj Some) in H; apply pair_equal_spec in H as [Hpath Hkind].
  apply strip_prefix_some in E1. apply split_once_eq in E2, E3.
  destruct (strip_prefix "allow " path) as [p|] eqn:E5; unfold default, from_option, id in Hpath.
  - apply strip_prefix_some in E5. exists line, "allow ", reason. split; [done|].
    split; [by right; left|]. split; [|done].
    by rewrite E1, E2, E3, E5, Hpath, Hkind, !app_assoc.
  - exists line, "", reason. split; [done|]. split; [by left|]. split; [|done].
    by rewrite E1, E2, E3, Hpath, Hkind, ?app_assoc.
Qed.


(** *** What the confirmation binds *)

(** [serde_json] prints an object on one line, from its brace on, and tells objects apart. *)
Record object_texts : Prop := {
  ot_line : ∀ l, all_bytes (λ c, negb (Ascii.eqb c newline)) (value_display (JObject l)) = true;
  ot_brace : ∀ l, starts_with "{" (value_display (JObject l)) = true;
  ot_inj : ∀ l l', value_display (JObject l) = value_display (JObject l') → l = l';
}.

Lemma cut_line a b a' b' :
  all_bytes (λ c, negb (Ascii.eqb c newline)) a = true →
  all_bytes (λ c, negb (Ascii.eqb c newline)) a' = true →
  a +:+ nl +:+ b = a' +:+ nl +:+ b' → a = a' ∧ b = b'.
Proof.
  assert (Hnl : ∀ t, nl +:+ t = String newline t) by done.
  revert a'. induction a as [|c a IH]; intros [|c' a']; rewrite ?app_cons, ?app_empty, ?Hnl; cbn.
  - by intros _ _ [= ->].
  - intros _ [Hc _]%andb_true_iff [= <- _]. done.
  - intros [Hc _]%andb_true_iff _ [= -> _]. done.
  - intros [_ Ha]%andb_true_iff [_ Ha']%andb_true_iff [= -> H]. rewrite <- !Hnl in H.
    by destruct (IH a' Ha Ha' H) as [-> ->].
Qed.

Lemma sha_line s : valid_sha s = true → all_bytes (λ c, negb (Ascii.eqb c newline)) s = true.
Proof.
  intros [_ H]%andb_true_iff. revert H. apply all_bytes_impl. intros c Hc.
  apply negb_true_iff. by destruct (Ascii.eqb_spec c newline) as [->|].
Qed.

Lemma binding_cut l l' r r' :
  object_texts → value_display (JObject l) +:+ nl +:+ r = value_display (JObject l') +:+ nl +:+ r' →
  value_display (JObject l) = value_display (JObject l') ∧ r = r'.
Proof. intros [Hline _ _]. by apply cut_line. Qed.

Lemma binding_prefix l l' r r' :
  object_texts → PREFIX +:+ value_display (JObject l) +:+ r ≠ value_display (JObject l') +:+ r'.
Proof.
  intros [_ Hbrace _] H. destruct (proj1 (starts_with_true _ _) (Hbrace l')) as [t Ht].
  rewrite Ht in H. discriminate.
Qed.

Lemma bindings_cut s b fs s' b' fs' r r' :
  object_texts →
  plain_inspection s b fs ∨ import_inspection s b fs →
  plain_inspection s' b' fs' ∨ import_inspection s' b' fs' →
  b +:+ nl +:+ r = b' +:+ nl +:+ r' →
  b = b' ∧ r = r' ∧ (parse_declaration (sj_body s) = Ok None → fs = fs').
Proof.
  intros HT [(f1 & p1 & b1 & Hd1 & _ & -> & Hf1 & _)|(d1 & f1 & t1 & l1 & Hd1 & _ & _ & -> & _)]
    [(f2 & p2 & b2 & Hd2 & _ & -> & Hf2 & _)|(d2 & f2 & t2 & l2 & Hd2 & _ & _ & -> & _)] H.
  - apply binding_cut in H as [Hv ->]; [|done]. split; [done|split; [done|intros _]].
    apply (ot_inj HT) in Hv. injection Hv as _ -> _. congruence.
  - symmetry in H. rewrite !app_assoc in H. by apply binding_prefix in H.
  - rewrite !app_assoc in H. by apply binding_prefix in H.
  - rewrite !app_assoc in H. apply (f_equal (strip_prefix PREFIX)) in H.
    rewrite !strip_prefix_app in H. apply (inj Some) in H.
    apply binding_cut in H as [-> ->]; [|done]. split; [done|split; [done|congruence]].
Qed.
End comparison.

Section confirmation.
Context `{HS : !Hasher, JT : !JsonText, SP : !SecretPattern, UE : !UrlEncode, CS : !ChangeSerde,
          WA : !WideAlphanumeric, B64 : !Base64Decode, SH : !Sha1Hex}
  {W : Type} `{BE : !Backend W, TD : !TextDiff W}.
Context (host : string) (repo : option string) (number : N).

End confirmation.

(** ** The gate only reads *)
Lemma keeps_map_failure {W A} (R : W → W → Prop) f (m : io W A) : keeps R m → keeps R (map_failure f m).
Proof. intros Hm w. unfold map_failure. specialize (Hm w). by destruct (m w). Qed.

Section keeps.
Context `{HS : !Hasher, JT : !JsonText, SP : !SecretPattern, UE : !UrlEncode, CS : !ChangeSerde,
          WA : !WideAlphanumeric, B64 : !Base64Decode, SH : !Sha1Hex}
  {W : Type} `{BE : !Backend W, TD : !TextDiff W}.
Context (host : string) (repo : option string).
Context (R : W → W → Prop) `{PO : !PreOrder R} (Calls : calls_keep R)
  (Diffs : ∀ before after w, R w (no_index_diff before after w).2).

Lemma keeps_read {T} `{!Deserialize T} failure c : is_write c = false → keeps R (read (T := T) failure c).
Proof using PO Calls.
  intros Hc. unfold read. apply keeps_bind; [done|by apply keeps_call|]. intros ?. by apply keeps_lift.
Qed.

Lemma keeps_file_pages metadata_only endpoint count pages acc :
  keeps R (file_pages metadata_only endpoint count pages acc).
Proof using PO Calls.
  revert acc. induction pages as [|page pages IH]; intros acc; cbn [file_pages]; keeps_tac.
  apply keeps_read. by destruct metadata_only.
Qed.

Lemma keeps_files number subject metadata_only : keeps R (files repo number subject metadata_only).
Proof using PO Calls. unfold files. keeps_tac. apply keeps_file_pages. Qed.

Lemma keeps_upstream d : keeps R (upstream host d).
Proof using PO Calls. unfold upstream. keeps_tac; by apply keeps_read. Qed.

Lemma scoped_calls scope : @calls_keep W R (scoped_backend scope).
Proof using Calls. intros c w Hc. by apply (Calls (InScope scope c)). Qed.

Lemma keeps_merge_base subject : keeps R (merge_base host repo subject).
Proof using PO Calls. unfold merge_base. keeps_tac. Qed.

Lemma keeps_file_bytes path commit expected : keeps R (file_bytes repo path commit expected).
Proof using PO Calls. unfold file_bytes. keeps_tac; by apply keeps_read. Qed.

Lemma keeps_text_hunks before after : keeps R (text_hunks before after).
Proof using Diffs.
  intros w. unfold text_hunks. specialize (Diffs before after w).
  by destruct (no_index_diff before after w).
Qed.
End keeps.

Section gate.
Context `{HS : !Hasher, JT : !JsonText, SP : !SecretPattern, UE : !UrlEncode, CS : !ChangeSerde,
          WA : !WideAlphanumeric, B64 : !Base64Decode, SH : !Sha1Hex}
  {W : Type} `{BE : !Backend W, TD : !TextDiff W}.
Context (host : string) (repo : option string) (number : N).
Context (R : W → W → Prop) `{PO : !PreOrder R} (Calls : calls_keep R)
  (Diffs : ∀ before after w, R w (no_index_diff before after w).2).

Lemma keeps_file_patch subject base file : keeps R (file_patch host repo subject base file).
Proof using PO Calls Diffs.
  unfold file_patch, reconstructed_patch. keeps_tac.
  all: first [by apply keeps_text_hunks|apply keeps_file_bytes; [done|by apply scoped_calls]].
Qed.

Lemma keeps_import_files subject d tree base fs st :
  keeps R (import_files host repo subject d tree base fs st).
Proof using PO Calls Diffs.
  revert st. induction fs as [|f fs IH]; intros st; cbn [import_files]; keeps_tac; apply keeps_file_patch.
Qed.

Lemma keeps_ordinary_patches subject repo' paths selected base patch :
  keeps R (ordinary_patches host repo number subject repo' paths selected base patch).
Proof using PO Calls Diffs.
  revert base patch. induction selected as [|[index f] selected IH]; intros base patch;
    cbn [ordinary_patches]; keeps_tac.
  - unfold selected_patch. keeps_tac. apply keeps_map_failure. keeps_tac.
  - unfold needed_base. keeps_tac. by apply keeps_merge_base.
  - apply keeps_map_failure, keeps_file_patch.
Qed.

Lemma keeps_comparison head : keeps R (comparison host repo number head).
Proof using PO Calls Diffs.
  assert (Hs : ∀ r, keeps R (read_subject r number)) by (intros r; unfold read_subject; keeps_tac).
  unfold comparison. keeps_tac.
  - unfold import_comparison. keeps_tac; try apply keeps_import_files.
    all: first [by apply keeps_files|by apply keeps_upstream|by apply keeps_merge_base].
  - unfold ordinary_comparison. keeps_tac; [by apply keeps_files|apply keeps_ordinary_patches].
Qed.
End gate.

(** A command that goes through the gate writes nothing there. *)
Lemma gate_keeps `{HS : !Hasher, JT : !JsonText, SP : !SecretPattern, UE : !UrlEncode,
    CS : !ChangeSerde, WA : !WideAlphanumeric, B64 : !Base64Decode, SH : !Sha1Hex}
    {W : Type} `{BE : !Backend W, TD : !TextDiff W} host repo (R : W → W → Prop) `{PO : !PreOrder R} :
  calls_keep R → (∀ before after w, R w (no_index_diff before after w).2) →
  @tests_keep W (test_gate host repo) R.
Proof.
  intros Calls Diffs n head author report. cbn [test_integrity_ensure test_gate].
  change (keeps R (ensure host repo n head author report)). unfold ensure. keeps_tac.
  by apply keeps_comparison.
Qed.

(** ** The theorems at a concrete pull request

    The world is the description of a pull request that drops an assertion of a test. *)
Module GateWitness.
(** A text of every value: constructors, and strings byte by byte, so that no two agree. *)
Fixpoint bits (p : positive) : string :=
  match p with xH => EmptyString | xO p => String "0" (bits p) | xI p => String "1" (bits p) end.
Lemma bits_inj p q : bits p = bits q → p = q.
Proof. revert q. induction p as [p IH|p IH|]; intros [q|q|] [=]; f_equal; auto. Qed.
Lemma bits_line p : all_bytes (λ c, negb (Ascii.eqb c newline)) (bits p) = true.
Proof. by induction p. Qed.

Fixpoint tree_of (v : JsonValue) : gen_tree (unit + bool + N + string + string) :=
  match v with
  | JNull => GenLeaf (inl (inl (inl (inl ()))))
  | JBool b => GenLeaf (inl (inl (inl (inr b))))
  | JNumber n => GenLeaf (inl (inl (inr n)))
  | JReal t => GenLeaf (inl (inr t))
  | JString s => GenLeaf (inr s)
  | JArray l => GenNode 0 (map tree_of l)
  | JObject l => GenNode 1 (map (λ kv, GenNode 2 [GenLeaf (inr kv.1); tree_of kv.2]) l)
  end.

Lemma tree_of_inj : ∀ v v', tree_of v = tree_of v' → v = v'.
Proof.
  fix IH 1. intros [| | | | |l|l] [| | | | |l'|l'] H; try discriminate H; try (cbn in H; congruence).
  - cbn in H. injection H as H. f_equal. revert l' H. induction l as [|v l IHl]; intros [|v' l'] [=]; [done|].
    f_equal; [by apply IH|by apply IHl].
  - cbn in H. injection H as H. f_equal. revert l' H.
    induction l as [|[k v] l IHl]; intros [|[k' v'] l'] H; try discriminate H; [done|].
    cbn in H. injection H as Hk Hv H. cbn in *. subst k'. f_equal; [by rewrite (IH v v' Hv)|by apply IHl].
Qed.

#[export] Instance json : JsonText := {|
  value_display := λ v, "{" +:+ bits (encode (tree_of v)); value_from_str := λ _, Err "unread" |}.

Lemma json_objects : object_texts.
Proof.
  split; intros l; [cbn; apply bits_line|done|]. intros l' H. cbn in H. injection H as H.
  apply bits_inj, encode_inj in H. apply (tree_of_inj (JObject l) (JObject l')) in H. by injection H.
Qed.

(** The provider: the subject and its changed file, at the texts of their two endpoints. *)
Definition removed_file : ChangedFile :=
  mk_ChangedFile "tests/a.rs" "modified" (demo_sha "a") 0 1 None None.
Definition its_patch : string :=
  "@@ -1,3 +1,2 @@" +:+ nl +:+ " fn t() {" +:+ nl +:+ "-  assert_eq!(f(), 1);" +:+ nl +:+ " }".
Definition subject (body : string) : Subject :=
  mk_Subject (demo_sha "c") (demo_sha "b") "author" body (Some 1%N).

#[export] Instance hash : Hasher := demo_hasher.
#[export] Instance secrets : SecretPattern := demo_secrets.
#[export] Instance encoder : UrlEncode := id.
#[export] Instance wide : WideAlphanumeric := λ _, true.
#[export] Instance base64 : Base64Decode := Some.
#[export] Instance sha1 : Sha1Hex := id.
#[export] Instance serde : ChangeSerde := {|
  subject_serde := λ s, Ok (subject s);
  files_serde := λ s, if s ==? "metadata" then Ok [removed_file]
                      else Ok [with_patch removed_file (Some its_patch)];
  declaration_serde := λ _, Err "unread"; commit_serde := λ _, Err "unread";
  tree_serde := λ _, Err "unread"; content_serde := λ _, Err "unread";
  blob_serde := λ _, Err "unread"; object_serde := λ _, Err "unread";
  manifest_bytes := λ _, Ok EmptyString; files_bytes := λ _, Ok EmptyString |}.
#[export] Instance no_diff : TextDiff string := λ _ _ w, (Err OtherFailure, w).
#[export] Instance backend : Backend string := {| run_call := λ c w,
  match c with
  | ApiJq endpoint jq =>
      (Ok (if jq ==? SUBJECT_JQ then w else if jq ==? "map(del(.patch))" then "metadata" else "file"), w)
  | _ => (Err (unavailable "s" "no" "no" None), w)
  end |}.

Definition body (about : string) : string :=
  "## Summary" +:+ nl +:+ about +:+ nl +:+ "## Test changes" +:+ nl
  +:+ "- allow tests/a.rs | assertion-change | covered by the new test of f".
Definition compare_at (about : string) : Subject * string * list Finding :=
  unwrap_or (subject EmptyString, EmptyString, [])
    (comparison "github.com" (Some "o/r") 7 (demo_sha "c") (body about)).1.

Definition report : string :=
  "## Review" +:+ nl +:+ confirmation (change_digest (compare_at "x").1.1 (compare_at "x").1.2).
Definition unconfirmed_report : string := "## Review".
End GateWitness.

Section gate_witness.
Import GateWitness.


End gate_witness.
