(* ===== verification/MergeGateFacts.v ===== *)
(** * Theorems on the merge gate

    What a merge may rely on when the gate, or its recheck right before the merge, lets it
    through. *)
From S2P Require Import Prelude RStr Collections Error Types Markers ReviewLoop Identity Record.
From S2P Require Import Handoff Correction Chain Provider PrView PrReviews Append Report.
From S2P Require Import Publish LoopInput LoopCommand MergeGate IoFacts ReviewLoopFacts.
From S2P Require Import ReceiptFacts LedgerFacts AppendFacts ThreadsFacts PublishFacts.
From S2P Require Import World.
From stdpp Require Import options.

Section gate.
Context `{HS : !Hasher, LS : !LedgerSerde, JT : !JsonText, UP : !UrlParse, SP : !SecretPattern,
          TP : !TimestampParse, SB : !Serialize SessionBinding} {W : Type}
  `{BE : !Backend W, RR : !ReviewReads W}.
Context (env : Env) (repo : option string) (open_objects : result string Objects).

(** ** No gate writes *)
Section keeps.
Context (R : W → W → Prop) `{PO : !PreOrder R} (Calls : calls_keep R) (Tests : tests_keep R).

Lemma keeps_ensure_tests n head author report : keeps R (ensure_test_changes n head author report).
Proof using Tests.
  intros w. unfold ensure_test_changes. pose proof (Tests n head author report w) as H.
  by destruct (test_integrity_ensure n head author report w).
Qed.

Lemma keeps_base_scope number : keeps R (provider_base_scope repo number).
Proof using PO Calls. unfold provider_base_scope, provider_pull_field. keeps_tac. Qed.

Lemma keeps_owning_report number url chain handoff after l :
  keeps R (owning_report repo number url chain handoff after l).
Proof using PO Calls.
  induction l as [|r l IH]; cbn [owning_report];
    unfold report_body, read_complete_report, native_review_contains_only_replies; keeps_tac.
Qed.

Lemma keeps_check_base number handoff sync : keeps R (check_base repo number handoff sync).
Proof using PO Calls.
  unfold check_base. keeps_tac; first [apply keeps_base_scope|by apply keeps_provider_base].
Qed.

Lemma keeps_admit_published number url head chain created :
  keeps R (admit_published env repo open_objects number url head chain created).
Proof using PO Calls Tests.
  unfold admit_published.
  keeps_tac; first [ apply keeps_check_base | apply keeps_owning_report | apply keeps_ensure_tests
                   | apply keeps_reviews_within; [done|done|by apply keeps_ret] ].
Qed.

Lemma keeps_ensure_published number url head chain created :
  keeps R (ensure_published env repo open_objects number url head chain created).
Proof using PO Calls Tests.
  unfold ensure_published, published_admission. keeps_tac. apply keeps_admit_published.
Qed.

Lemma keeps_merge_ready url number head required :
  keeps R (ensure_merge_ready env repo open_objects url number head required).
Proof using PO Calls Tests.
  unfold ensure_merge_ready. keeps_tac; first [by apply keeps_state_view|apply keeps_ensure_published].
Qed.
End keeps.

(** ** What the gate relies on *)
Lemma open_blocking_nil s :
  open_blocking s = [] ↔
  ∀ k f, s_findings s !! k = Some f → f_blocking f = true → f_status f ≠ Open.
Proof.
  unfold open_blocking. split.
  - intros H k f Hk Hb Ho. assert (Hin : (k, f) ∈ @nil (string * ReviewLoopFinding)).
    { apply fmap_nil_inv in H. rewrite <- H. apply list_elem_of_In, filter_In. split.
      - apply list_elem_of_In. by apply elem_of_entries.
      - unfold open_finding. by rewrite Ho, Hb. }
    by apply not_elem_of_nil in Hin.
  - intros H. destruct (List.filter _ _) as [|[k f] l] eqn:E; [done|].
    assert (Hin : (k, f) ∈ List.filter (λ '(_, finding), open_finding finding && f_blocking finding)
                    (entries (s_findings s))) by (rewrite E; by left).
    apply list_elem_of_In, filter_In in Hin as [Hin Hf]. apply list_elem_of_In, elem_of_entries in Hin.
    apply andb_true_iff in Hf as [Ho Hb]. by apply bool_decide_eq_true, (H k f Hin Hb) in Ho.
Qed.

(** The chain lets a merge of [head] through, and [gate] says so. *)
Record gate_open (chain : ReviewStateChain) (head : string) (gate : ReviewLoopMergeGate) : Prop := {
  go_state : ∃ state, latest_review_loop_state chain = Some state
    ∧ s_hard_stop state = None
    ∧ (∀ k f, s_findings state !! k = Some f → f_blocking f = true → f_status f ≠ Open)
    ∧ mg_head_sha gate = s_head_sha state
    ∧ (s_head_sha state = head
       ∨ ∃ c, recorded_carry_over chain head = Some c ∧ reviewed_head c = s_head_sha state);
  go_tip : c_tip_digest chain = Some (mg_state_tip_digest gate);
  go_none_open : mg_open_blocking_findings gate = [];
}.

Lemma ensure_published_recorded number url head chain created w c w' :
  ensure_published env repo open_objects number url head chain created w = (Ok (Some c), w') →
  recorded_carry_over chain head = Some c.
Proof.
  unfold ensure_published, published_admission. intros H. io_inv H. destruct H as (adm & w1 & H & Hc).
  io_inv Hc. destruct Hc as [Hc _]. io_inv H. destruct H as (adm0 & w2 & _ & H).
  io_inv H. destruct H as ([] & _ & H). io_if H. io_inv H. destruct H as [-> _].
  rewrite Hc in Hif. cbn in Hif. by apply negb_decide_false in Hif.
Qed.

Lemma merge_gate_ok chain state carried head gate :
  latest_review_loop_state chain = Some state →
  (∀ c, carried = Some c → recorded_carry_over chain head = Some c) →
  merge_gate chain state carried head = Ok gate → gate_open chain head gate.
Proof.
  unfold merge_gate. intros Hst Hc H. destruct (s_hard_stop state) eqn:Estop; [done|].
  split_if H. split_if H. apply negb_decide_false in Hif0.
  apply bind_ok in H as (tip & Htip%ok_or_ok & [= <-]). split; [|done|done].
  exists state. do 2 (split; [done|]). split; [by apply open_blocking_nil|]. split; [done|].
  apply andb_false_iff in Hif as [Hif|Hif]; [left; by apply negb_decide_false in Hif|right].
  destruct carried as [c|]; [|done]. cbn in Hif. apply negb_decide_false in Hif. exists c. auto.
Qed.

Lemma merge_ready_ok url number head required w res w' :
  ensure_merge_ready env repo open_objects url number head required w = (Ok res, w') →
  ∃ repository snapshot w1, github_repo_slug_from_url url = Some repository
    ∧ read_review_state_snapshot repository number w = (Ok snapshot, w1)
    ∧ match res with
      | Some gate => gate_open (sn_chain snapshot) head gate
      | None => required = false ∧ latest_review_loop_state (sn_chain snapshot) = None
      end.
Proof.
  unfold ensure_merge_ready. intros H.
  io_inv H. destruct H as (repository & Hrep%ok_or_ok & H). io_inv H. destruct H as (v & w1 & Hv & H).
  unfold read_review_loop_state_view in Hv. io_inv Hv. destruct Hv as (snapshot & w2 & Hs & Hv).
  io_inv Hv. destruct Hv as [<- ->]. exists repository, snapshot, w2. do 2 (split; [done|]).
  io_inv H. destruct H as (carried & w3 & Hpub & H). cbn in Hpub, H.
  destruct (latest_review_loop_state (sn_chain snapshot)) as [state|] eqn:Est.
  - io_inv H. destruct H as [H _]. destruct (merge_gate _ _ _ _) as [gate|] eqn:Eg; [|done].
    injection H as <-. eapply merge_gate_ok; [done| |done]. intros c ->.
    by eapply ensure_published_recorded.
  - destruct required; [by rewrite lift_throw in H|]. by io_inv H; destruct H as [<- _].
Qed.

(** C3: The merge gate opens only for a clean, bound ledger: it posts nothing, and when it
    answers with a gate the chain it read from the trusted comments ends in a loop state
    without a hard stop and without an open blocking finding, observed at the merge head or
    at the reviewed head of a carry-over recorded for it; the gate carries that chain's tip.
    Without a loop state it answers nothing, and only when no ledger is required. *)
Theorem merge_gate_needs_clean_bound_state {X} (posted : W → X) (Obs : observes_reads posted)
    (Tests : tests_keep (unposted posted)) url number head required w res w' :
  ensure_merge_ready env repo open_objects url number head required w = (Ok res, w') →
  posted w' = posted w
  ∧ ∃ repository snapshot w1, github_repo_slug_from_url url = Some repository
    ∧ read_review_state_snapshot repository number w = (Ok snapshot, w1)
    ∧ match res with
      | Some gate => gate_open (sn_chain snapshot) head gate
      | None => required = false ∧ latest_review_loop_state (sn_chain snapshot) = None
      end.
Proof.
  intros H. split; [|by apply merge_ready_ok in H].
  assert (Hp : keeps (unposted posted) (ensure_merge_ready env repo open_objects url number head required)).
  { apply keeps_merge_ready; [apply _|by apply unposted_calls|done]. }
  specialize (Hp w). by rewrite H in Hp.
Qed.

(** The recheck sees the same ledger: it succeeds only when the chain read again still
    opens the gate for the head and ends at the tip the first gate reported, so a record
    appended in between is noticed. *)
Theorem recheck_sees_the_same_tip url number head previous w gate w' :
  recheck_merge_ready env repo open_objects url number head previous w = (Ok gate, w') →
  ∃ repository snapshot w1, github_repo_slug_from_url url = Some repository
    ∧ read_review_state_snapshot repository number w = (Ok snapshot, w1)
    ∧ gate_open (sn_chain snapshot) head gate
    ∧ c_tip_digest (sn_chain snapshot) = Some (mg_state_tip_digest previous).
Proof.
  unfold recheck_merge_ready. intros H. io_inv H. destruct H as (current & w1 & Hc & H).
  io_inv H. destruct H as (g & ->%ok_or_ok & H). io_if H. apply negb_decide_false in Hif.
  io_inv H. destruct H as [-> _].
  apply merge_ready_ok in Hc as (repository & snapshot & w2 & Hr & Hs & Hg).
  exists repository, snapshot, w2. do 3 (split; [done|]). rewrite <- Hif. by destruct Hg.
Qed.
End gate.

(** ** The theorems at a concrete pull request

    The ledger of [PublishFacts] as comments of the provider: the assignment and a clean
    observation; the designated reviewer approved the head. *)
Module GateWitness.
#[local] Existing Instance demo_hasher.
#[local] Existing Instance demo_url.
#[local] Existing Instance demo_secrets.
#[local] Existing Instance demo_time.
#[local] Existing Instance demo_binding.

Definition head : string := demo_sha "d".
Definition r0 : ReviewStateRecord :=
  LedgerWitness.make head 0 None (P_ReviewHandoff PublishWitness.handoff) 1.
Definition r1 : ReviewStateRecord :=
  LedgerWitness.make head 1 (Some r0) (P_ReviewLoop (genesis_state head ∅)) 1.

#[export] Instance serde : LedgerSerde := demo_serde [r0; r1].
#[export] Instance backend : Backend World := demo_backend head.

Definition comment (r : ReviewStateRecord) : string :=
  "Review ledger" +:+ nl +:+ unwrap_or EmptyString (marker r).
Definition world : World := [comment r0; comment r1].

Definition review : NativeReview :=
  {| nr_id := "R1"; nr_database_id := Some 7%N; nr_url := "https://host/review/7";
     nr_author := "Reviewer"; nr_author_node_id := None; nr_author_type := Some "User";
     nr_state := "APPROVED"; nr_commit_sha := head; nr_submitted_at := "later";
     nr_summary := bind_native_report (demo_chain [r0; r1]) PublishWitness.report;
     nr_summary_truncated := false |}.

#[export] Instance json : JsonText := world_json [("reviews", reviews_json head [review])].
#[export] Instance reviews : ReviewReads World := {|
  test_integrity_ensure := λ _ _ _ _ w, (Ok tt, w) |}.

Definition gate : ReviewLoopMergeGate :=
  {| mg_state_tip_digest := r_record_digest r1; mg_head_sha := head; mg_round := 0;
     mg_no_progress_rounds := 0; mg_open_blocking_findings := [] |}.

Lemma gate_observes : @observes_posts World backend (λ w, w).
Proof. apply demo_observes_posts. Qed.

Lemma reviews_read : @tests_keep World reviews (unposted (λ w, w)).
Proof. done. Qed.

Lemma ready_ok :
  ensure_merge_ready nobody (Some "o/r") (Err "head-unavailable") demo_url_of_pr 1 head true world
  = (Ok (Some gate), world).
Proof. vm_compute. reflexivity. Qed.

Lemma recheck_ok :
  recheck_merge_ready nobody (Some "o/r") (Err "head-unavailable") demo_url_of_pr 1 head gate world
  = (Ok gate, world).
Proof. vm_compute. reflexivity. Qed.
End GateWitness.

Section gate_witnesses.
#[local] Existing Instance demo_hasher.
#[local] Existing Instance demo_url.
#[local] Existing Instance demo_secrets.
#[local] Existing Instance demo_time.
#[local] Existing Instance demo_binding.
Import GateWitness.

Lemma merge_gate_needs_clean_bound_state_witness :
  ∃ chain, c_tip_digest chain = Some (r_record_digest r1) ∧ gate_open chain head gate.
Proof.
  destruct (merge_gate_needs_clean_bound_state nobody (Some "o/r") (Err "head-unavailable") (λ w, w)
              (op_reads _ gate_observes) reviews_read demo_url_of_pr 1 head true world (Some gate) world ready_ok)
    as (_ & _ & snapshot & _ & _ & _ & H).
  exists (sn_chain snapshot). split; [exact (go_tip _ _ _ H)|exact H].
Defined.

Lemma recheck_sees_the_same_tip_witness :
  ∃ chain, gate_open chain head gate ∧ c_tip_digest chain = Some (r_record_digest r1).
Proof.
  destruct (recheck_sees_the_same_tip nobody (Some "o/r") (Err "head-unavailable") demo_url_of_pr 1
              head gate world gate world recheck_ok) as (_ & snapshot & _ & _ & _ & H & Ht).
  exists (sn_chain snapshot). exact (conj H Ht).
Defined.
End gate_witnesses.
