(* ===== verification/HandoffRunFacts.v ===== *)
(** * Theorems on the [pr review-handoff] command *)
From S2P Require Import Prelude RStr Collections Error Types Markers ReviewLoop Identity Record.
From S2P Require Import Handoff Correction Chain Provider PrView PrReviews Append Report.
From S2P Require Import Publish HandoffRun World ReviewLoopFacts HandoffFacts IoFacts.
From S2P Require Import LedgerFacts AppendFacts ThreadsFacts PublishFacts MergeGateFacts.
From stdpp Require Import options.

Section run.
Context `{HS : !Hasher, LS : !LedgerSerde, JT : !JsonText, UP : !UrlParse, SP : !SecretPattern,
          TP : !TimestampParse, UU : !UuidParse, SB : !Serialize SessionBinding}
  {W : Type} `{BE : !Backend W, RR : !ReviewReads W}.
Context (env : Env) (auth : Authority) (repo : option string)
  (open_objects : result string Objects).

(** ** Which records the command appends *)

(** The command intends to append this payload to the chain it read. *)
Definition intended (command : HandoffCommand) (repository : string) (number : N)
    (url head view_base base branch : string) (state : ReviewLoopStateView)
    (payload : ReviewStatePayload) : Prop :=
  let chain := sv_chain state in
  match payload with
  | P_ReviewHandoff next =>
      validate_handoff next = Ok tt
      ∧ match command with
        | Assign a => propose_assign env chain head base branch a = Ok next
        | Surrender expected_head expected_state =>
            propose_surrender env chain head expected_head expected_state = Ok next
        | Recover a => propose_recover env auth chain repository head base view_base a = Ok next
        | Inspect _ _ | CheckReview _ _ => False
        end
  | P_ReviewSyncCarryOver carry =>
      (∃ policy, command = CheckReview head policy)
      ∧ recorded_carry_over chain head ≠ Some carry
      ∧ ∃ adm, designated_pass repo open_objects number url head chain
                 (sv_handoff_created_at state) adm
          ∧ sync_carry_over adm = Some carry
  | _ => False
  end.

Context (posted : W → list string) (Obs : observes_posts posted).
Context (Tests : tests_keep (unposted posted)).

(** The comment of a record that was built under the tip of [chain], by right. *)
Definition appended_by_right (repository : string) (number : N) (head : string)
    (chain : ReviewStateChain) (payload : ReviewStatePayload) (body : string) : Prop :=
  ∃ before record, c_tip_digest before = c_tip_digest chain
    ∧ has_right env auth repo before payload
    ∧ build_record repository number head before payload
        (assignment_generation_for before payload) = Ok record
    ∧ render_state_comment_body record None = Ok body.

(** What a run has posted, and why. *)
Definition posts_intended (dry_run : bool) (command : HandoffCommand) (repository : string)
    (number : N) (url head view_base base branch : string) (state : ReviewLoopStateView)
    (w w' : W) : Prop :=
  posted w' = posted w
  ∨ dry_run = false ∧ ∃ payload body,
      intended command repository number url head view_base base branch state payload
      ∧ appended_by_right repository number head (sv_chain state) payload body
      ∧ posted w' = posted w ++ [body].

Lemma reads_admission number url head chain created :
  reads posted (admit_published env repo open_objects number url head chain created).
Proof using Obs Tests.
  apply keeps_admit_published; [apply _|apply unposted_calls, op_reads, Obs|done].
Qed.

Lemma reads_published number url head chain created :
  reads posted (published env repo open_objects number url head chain created).
Proof using Obs Tests.
  apply reads_bind; [apply reads_attempt, reads_bind; [apply reads_admission|]|]; intros; reads_tac.
Qed.

Lemma reads_inspect number url head expected author base state :
  reads posted (run_inspect env repo open_objects number url head expected author base state).
Proof using Obs Tests.
  unfold run_inspect. do 2 (apply reads_bind; [apply reads_lift|intros ?]).
  apply reads_bind; [|intros ?; apply reads_ret].
  destruct (_ ==? _); [apply reads_published|apply reads_ret].
Qed.

Lemma append_intended a chain w r w' :
  c_tip_digest chain = ap_expected_tip a → ap_visible_outcome a = None →
  append_review_state_payload env auth repo a w = (r, w') →
  posted w' = posted w
  ∨ ∃ body, appended_by_right (ap_repository a) (ap_number a) (ap_expected_head a) chain
              (ap_payload a) body
      ∧ posted w' = posted w ++ [body].
Proof using Obs.
  intros Htip Hout [[? _]|(before & w1 & record & body & _ & Ht & Hr & Hb & Hbody & Hp & _)]
    %(append_cases posted); [by left| |done].
  right. exists body. split; [|done]. exists (sn_chain before), record. rewrite Hout in Hbody.
  split; [congruence|done].
Qed.
Lemma handoff_commit_posts a chain w (x : exec ReviewStateChain) w' :
  c_tip_digest chain = ap_expected_tip a → ap_visible_outcome a = None →
  (res ← append_review_state_payload env auth repo a; mret (al_chain res)) w = (x, w') →
  posted w' = posted w
  ∨ ∃ body, appended_by_right (ap_repository a) (ap_number a) (ap_expected_head a) chain
              (ap_payload a) body
      ∧ posted w' = posted w ++ [body].
Proof using Obs.
  intros Ht Ho [(e & H & _)|(res & w1 & H & Hret)]%io_bind_inv;
    [|injection Hret as _ <-]; by eapply append_intended.
Qed.

Lemma require_head_ok actual expected :
  require_head actual expected = Ok tt → actual = expected.
Proof.
  unfold require_head. intros H. split_if H. apply orb_false_iff in Hif as [_ Hif].
  by apply negb_decide_false in Hif.
Qed.

Lemma check_posts dry_run expected policy repository number url head view_base base branch state
    w r w' :
  run_check env auth repo open_objects repository number url head dry_run expected policy state w
    = (r, w') →
  posts_intended dry_run (CheckReview expected policy) repository number url head view_base base
    branch state w w'.
Proof using Obs Tests.
  unfold run_check. intros H.
  apply io_lift_inv in H as [(e & -> & ->)|([] & <-%require_head_ok & H)]; [by left|].
  apply io_lift_inv in H as [(e & -> & ->)|(requested & _ & H)]; [by left|].
  destruct (is_none requested); [injection H as _ <-; by left|].
  apply io_bind_inv in H as [(e & Hadm & _)|(adm & w1 & Hadm & H)];
    pose proof (reads_admission number url head (sv_chain state) (sv_handoff_created_at state) w) as P;
    rewrite Hadm in P; [by left|].
  apply io_lift_inv in H as [(e & -> & ->)|([] & _ & H)]; [by left|].
  assert (∃ x, (match sync_carry_over adm with
                | Some c =>
                    if (recorded_carry_over (sv_chain state) head !=? Some c) && negb dry_run then
                      res ← append_review_state_payload env auth repo
                              (carry_append repository number head (sv_chain state) c);
                      mret (al_chain res)
                    else mret (sv_chain state)
                | None => mret (sv_chain state)
                end) w1 = (x, w')) as [x Hx].
  { apply io_bind_inv in H as [(e & H & _)|(chain & w2 & H & Hret)]; [|injection Hret as _ <-];
      by eexists. }
  clear H. destruct (sync_carry_over adm) as [c|] eqn:Hc; [|injection Hx as _ <-; by left].
  destruct (_ && _) eqn:Hif; [|injection Hx as _ <-; by left].
  apply andb_true_iff in Hif as [Hrec Hdry%negb_true_iff]. apply negb_true_iff, bool_decide_eq_false in Hrec.
  apply handoff_commit_posts with (chain := sv_chain state) in Hx as [Hx|(body & Hright & Hx)]; try done.
  { left. unfold unposted in P. cbn in P. congruence. }
  right. split; [done|]. exists (P_ReviewSyncCarryOver c), body. cbn in P. split.
  - split; [by exists policy|]. split; [done|]. exists adm. split; [|done].
    apply admit_published_ok in Hadm as [[_ ->]|Hpass]; [done|exact Hpass].
  - split; [exact Hright|]. unfold unposted in P. congruence.
Qed.

Lemma record_posts dry_run repository number head chain handoff w r w' :
  record_handoff env auth repo repository number head dry_run chain handoff w = (r, w') →
  posted w' = posted w
  ∨ dry_run = false ∧ validate_handoff handoff = Ok tt ∧ ∃ body,
      appended_by_right repository number head chain (P_ReviewHandoff handoff) body
      ∧ posted w' = posted w ++ [body].
Proof using Obs.
  unfold record_handoff. intros H.
  apply io_lift_inv in H as [(e & -> & ->)|([] & Hv & H)]; [by left|].
  destruct dry_run; cbn [negb] in H.
  { left. apply (io_reads_inv posted) in H as [(e & _ & ?)|(c & w1 & _ & P & H)]; [done| |].
    - injection H as _ <-. done.
    - apply reads_bind; [apply reads_lift|intros ?; apply reads_ret]. }
  assert (∃ x, (res ← append_review_state_payload env auth repo
                        (handoff_append repository number head chain handoff);
                mret (al_chain res)) w = (x, w')) as [x Hx].
  { apply io_bind_inv in H as [(e & H & _)|(c & w2 & H & Hret)]; [|injection Hret as _ <-];
      by eexists. }
  apply handoff_commit_posts with (chain := chain) in Hx as [Hx|(body & Hright & Hx)]; [by left| |done|done].
  right. do 2 (split; [done|]). by exists body.
Qed.

Lemma command_posts dry_run command repository number url head view_base base base_branch state
    w r w' :
  run_command env auth repo open_objects repository number url head dry_run command view_base base
    base_branch state w = (r, w') →
  posts_intended dry_run command repository number url head view_base base
    (default EmptyString base_branch) state w w'.
Proof using Obs Tests.
  destruct command as [expected author|expected policy|a|expected tip|a]; cbn [run_command]; intros H.
  1: { left. pose proof (reads_inspect number url head expected author base state w) as P.
       by rewrite H in P. }
  1: by eapply check_posts.
  all: apply io_lift_inv in H as [(e & -> & ->)|(next & Hnext & H)]; [by left|].
  all: apply record_posts in H as [H|(-> & Hv & body & Hright & H)]; [by left|].
  all: right; (split; [done|]); exists (P_ReviewHandoff next), body; split; [by split|by split].
Qed.

Lemma reads_command_base command id : reads posted (command_base repo command id).
Proof using Obs.
  unfold command_base. destruct command; apply reads_bind; try intros [? ?]; try intros ?;
    try apply reads_ret; first [by apply reads_provider_base, op_reads | idtac].
  apply keeps_base_scope; [apply _|by apply unposted_calls, op_reads].
Qed.

(** ** The command *)

(** The [pr review-handoff] command appends at most one record, and only by right: a run
    leaves the provider untouched, or it was no dry run and posted one comment, the rendering
    of a record built under the tip it read, after the right to write was established.  The
    record is the ownership change that its subcommand proposes on the chain and the pull
    request it read, and valid; or, from [check] alone, a base-sync carry-over that the ledger
    did not hold and that a designated pass proves.  [inspect] never writes. *)
Theorem handoff_command_writes_by_right provider dry_run command id w r w' :
  handoff_run env auth repo open_objects provider dry_run command id w = (r, w') →
  posted w' = posted w
  ∨ provider = GitHub ∧ dry_run = false ∧ ∃ v repository head state base branch payload body,
      github_repo_slug_from_url (v_url v) = Some repository ∧ v_head_sha v = Some head
      ∧ (∃ w0 w1, view id w0 = (Ok v, w1))
      ∧ (∃ w0 w1, read_review_loop_state_view repository id w0 = (Ok state, w1))
      ∧ (∃ w0 w1, command_base repo command id w0 = (Ok (base, branch), w1))
      ∧ intended command repository id (v_url v) head (v_base v) base
          (default EmptyString branch) state payload
      ∧ appended_by_right repository id head (sv_chain state) payload body
      ∧ posted w' = posted w ++ [body].
Proof using Obs Tests.
  unfold handoff_run. destruct (_ !=? _) eqn:Hp; intros H; [injection H as _ <-; by left|].
  apply negb_decide_false in Hp as ->.
  apply (io_reads_inv posted) in H as [(e & _ & ?)|(v & w1 & Hv & P1 & H)];
    [by left| |by apply reads_view, op_reads].
  apply io_lift_inv in H as [(e & _ & ->)|(repository & Hrep%ok_or_ok & H)]; [by left|].
  apply io_lift_inv in H as [(e & _ & ->)|(head & Hhead%ok_or_ok & H)]; [by left|].
  apply (io_reads_inv posted) in H as [(e & _ & ?)|(state & w2 & Hs & P2 & H)];
    [left; congruence| |apply keeps_state_view; [apply _|by apply unposted_calls, op_reads]].
  apply (io_reads_inv posted) in H as [(e & _ & ?)|([base branch] & w3 & Hb & P3 & H)];
    [left; congruence| |apply reads_command_base].
  assert (posts_intended dry_run command repository id (v_url v) head (v_base v) base
            (default EmptyString branch) state w3 w') as [Hw|(-> & payload & body & Hi & Ha & Hw)].
  { apply io_bind_inv in H as [(e & H & _)|(p & w4 & H & Hret)]; [|injection Hret as _ <-];
      by eapply command_posts. }
  { left. congruence. }
  right. do 2 (split; [done|]). exists v, repository, head, state, base, branch, payload, body.
  split_and!; try done; try (by eexists _, _). congruence.
Qed.
End run.

(** ** The status [reviewed] *)
Section status.
Context `{HS : !Hasher, LS : !LedgerSerde, JT : !JsonText, UP : !UrlParse, SP : !SecretPattern,
          TP : !TimestampParse, UU : !UuidParse, SB : !Serialize SessionBinding}
  {W : Type} `{BE : !Backend W, RR : !ReviewReads W}.
Context (env : Env) (auth : Authority) (repo : option string)
  (open_objects : result string Objects).

Lemma handoff_status_reviewed h : handoff_status h ≠ "reviewed".
Proof. unfold handoff_status. by destruct (is_some _), (surrendered h). Qed.

Lemma inspect_status_reviewed author base chain status :
  inspect_status env author base chain = Ok status → status ≠ "reviewed".
Proof.
  unfold inspect_status. destruct (latest chain) as [h|]; [|by intros [= <-]].
  intros (d & _ & H)%bind_ok. split_if H. injection H as <-. destruct (_ !=? _); [done|].
  apply handoff_status_reviewed.
Qed.

(** What stands behind the status: a designated pass that satisfies the policy. *)
Definition reviewed_by (number : N) (url head : string) (state : ReviewLoopStateView)
    (p : Progress) : Prop :=
  ∃ adm, designated_pass repo open_objects number url head (sv_chain state)
           (sv_handoff_created_at state) adm
    ∧ require_policy (approval adm) (pg_approval_policy p) = Ok tt
    ∧ pg_approval p = approval adm.

Lemma inspect_reviewed number url head expected author base state w p w' :
  run_inspect env repo open_objects number url head expected author base state w = (Ok p, w') →
  pg_status p = "reviewed" → reviewed_by number url head state p.
Proof.
  unfold run_inspect. intros H Hstatus. io_inv H. destruct H as ([] & _ & H).
  io_inv H. destruct H as (status & Hs%inspect_status_reviewed & H).
  io_inv H. destruct H as (appr & w1 & Happr & H). io_inv H. destruct H as [<- _].
  cbn [pg_status] in Hstatus. destruct appr as [a|]; [|done].
  destruct (status ==? _); [|by io_inv Happr; destruct Happr as [[=] _]].
  apply attempt_bind_inv in Happr as ([adm|e] & w2 & Hadm & Happr).
  2:{ destruct e as [e| |]; try done. by destruct (pending_admission e). }
  io_inv Happr. destruct Happr as [Ha _].
  io_inv Hadm. destruct Hadm as (adm' & w3 & Hadm & Hpol).
  io_inv Hpol. destruct Hpol as ([] & Hpol & Hret). io_inv Hret. destruct Hret as [-> _].
  exists adm. split; [|by split].
  apply admit_published_ok in Hadm as [[_ ->]|Hpass]; [done|exact Hpass].
Qed.
(** Without a handoff, an admission needs that no reviewer is configured either. *)
Lemma admit_unassigned number url head chain created w adm w' :
  admit_published env repo open_objects number url head chain created w = (Ok adm, w') →
  latest chain = None → assignment_digest env = Ok None.
Proof.
  unfold admit_published. intros H Hl. io_inv H. destruct H as (h & H & _).
  unfold assigned in H. apply bind_ok in H as (q & Hq & H). rewrite Hl in H.
  destruct q; [done|exact Hq].
Qed.

Lemma check_reviewed repository number url head dry_run expected policy state w p w' :
  run_check env auth repo open_objects repository number url head dry_run expected policy state w
    = (Ok p, w') → reviewed_by number url head state p.
Proof.
  unfold run_check. intros H. io_inv H. destruct H as ([] & _ & H).
  io_inv H. destruct H as (requested & Hreq & H). io_if H.
  io_inv H. destruct H as (adm & w1 & Hadm & H). io_inv H. destruct H as ([] & Hpol & H).
  io_inv H. destruct H as (chain & w2 & _ & H). io_inv H. destruct H as [<- _].
  exists adm. split; [|by split].
  pose proof (admit_unassigned _ _ _ _ _ _ _ _ Hadm) as Hnone.
  apply admit_published_ok in Hadm as [[Hl _]|Hpass]; [|exact Hpass].
  specialize (Hnone Hl). rewrite Hl in Hreq. cbn [is_none] in Hreq.
  rewrite Hnone in Hreq. injection Hreq as <-. discriminate.
Qed.

Lemma command_reviewed repository number url head dry_run command view_base base base_branch state
    w p w' :
  run_command env auth repo open_objects repository number url head dry_run command view_base base
    base_branch state w = (Ok p, w') →
  pg_status p = "reviewed" → reviewed_by number url head state p.
Proof.
  destruct command; cbn [run_command]; intros H Hs.
  1: by eapply inspect_reviewed. 1: by eapply check_reviewed.
  all: io_inv H; destruct H as (next & _ & H); unfold record_handoff in H.
  all: io_inv H; destruct H as ([] & _ & H); io_inv H; destruct H as (c & w1 & _ & H).
  all: io_inv H; destruct H as [<- _]; by apply handoff_status_reviewed in Hs.
Qed.

(** A review is reported as reviewed only when a designated pass of the reported head stands
    behind it: the approval that is shown is the one the admission rests on, and where the
    reported policy asks for a final approval it approves that very head. *)
Theorem reviewed_rests_on_a_designated_pass provider dry_run command id w p w' :
  handoff_run env auth repo open_objects provider dry_run command id w = (Ok p, w') →
  hp_status p = "reviewed" →
  ∃ state w0 w1 repository adm a,
    read_review_loop_state_view repository id w0 = (Ok state, w1)
    ∧ designated_pass repo open_objects id (hp_url p) (hp_head_sha p) (sv_chain state)
        (sv_handoff_created_at state) adm
    ∧ hp_approval p = Some a ∧ approval adm = Some a
    ∧ (hp_approval_policy p = FinalApproval →
         pa_native_state a = "APPROVED" ∧ pa_reviewed_head a = hp_head_sha p).
Proof.
  unfold handoff_run. intros H Hs. io_if H. io_inv H. destruct H as (v & w1 & _ & H).
  io_inv H. destruct H as (repository & _ & H). io_inv H. destruct H as (head & _ & H).
  io_inv H. destruct H as (state & w2 & Hstate & H). io_inv H. destruct H as ([base br] & w3 & _ & H).
  io_inv H. destruct H as (pg & w4 & H & Hret). io_inv Hret. destruct Hret as [<- _].
  apply command_reviewed in H as (adm & Hpass & Hpol & Happr); [|exact Hs].
  pose proof Hpass as (h & st & ? & ? & ? & r & ? & Hp). destruct_and! Hp.
  match goal with Ha : approval adm = Some ?x |- _ => rename Ha into Hadm end.
  exists state, w1, w2, repository, adm, (from_review r head).
  cbn [handoff_payload hp_approval hp_approval_policy hp_head_sha hp_url].
  do 2 (split; [done|]). split; [congruence|]. split; [done|]. intros Hfinal.
  rewrite Hfinal in Hpol.
  destruct (final_pass_approves _ _ _ _ _ _ _ _ Hpass Hpol) as
    (a & Ha & Hfinal_approved).
  rewrite Hadm in Ha. injection Ha as <-. exact Hfinal_approved.
Qed.
End status.

(** ** The theorems at a concrete command

    A coordinator assigns a reviewer on a fresh pull request; and the review that the assigned
    reviewer published is inspected. *)
Module HandoffRunWitness.
#[local] Existing Instance demo_hasher.
#[local] Existing Instance demo_url.
#[local] Existing Instance demo_secrets.
#[local] Existing Instance demo_time.
#[local] Existing Instance demo_uuid.
#[local] Existing Instance demo_binding.
#[local] Instance serde0 : LedgerSerde := demo_serde [].

Definition env : Env := mk_Env (Some "coordinator") None None.
Definition head : string := demo_sha "d".
Definition args : AssignArgs :=
  {| as_approval_policy := Some FinalApproval; as_reviewer_session := "reviewer";
     as_review_author := "reviewer"; as_base_sha := demo_sha "c"; as_expected_head := head;
     as_expected_state := "none" |}.

Definition next : ReviewHandoff :=
  unwrap_or PublishWitness.handoff
    (propose_assign env AppendWitness.empty_chain head (demo_sha "c") "main" args).
Definition blank : ReviewStateRecord := demo_record 0 head (P_ReviewHandoff next).
Definition r0 : ReviewStateRecord :=
  unwrap_or blank (build_record "o/r" 1 head AppendWitness.empty_chain (P_ReviewHandoff next) (Some 1%N)).
Definition assigned_chain : ReviewStateChain :=
  mk_ReviewStateChain [r0] (Some (r_record_digest r0)) [].
Definition r1 : ReviewStateRecord :=
  unwrap_or blank (build_record "o/r" 1 head assigned_chain
                     (P_ReviewLoop (genesis_state head ∅)) (Some 1%N)).
Definition reviewed_chain : ReviewStateChain :=
  mk_ReviewStateChain [r0; r1] (Some (r_record_digest r1)) [].

#[export] Instance serde : LedgerSerde := demo_serde [r0; r1].
Definition comment (r : ReviewStateRecord) : string :=
  "Review ledger" +:+ nl +:+ unwrap_or EmptyString (marker r).
Definition review : NativeReview :=
  {| nr_id := "R1"; nr_database_id := Some 7%N; nr_url := "https://host/review/7";
     nr_author := "Reviewer"; nr_author_node_id := None; nr_author_type := Some "User";
     nr_state := "APPROVED"; nr_commit_sha := head; nr_submitted_at := "later";
     nr_summary := bind_native_report reviewed_chain PublishWitness.report;
     nr_summary_truncated := false |}.

#[export] Instance json : JsonText := world_json [("reviews", reviews_json head [review])].
#[export] Instance backend : Backend World := demo_backend head.
#[export] Instance tests : ReviewReads World := {|
  test_integrity_ensure := λ _ _ _ _ w, (Ok tt, w) |}.

Definition assign (dry_run : bool) : exec HandoffPayload * World :=
  handoff_run env demo_authority (Some "o/r") (Err "head-unavailable") GitHub dry_run
    (Assign args) 1 [].
Definition inspect : exec HandoffPayload * World :=
  handoff_run nobody demo_authority (Some "o/r") (Err "head-unavailable") GitHub false
    (Inspect None None) 1 [comment r0; comment r1].

Lemma command_observes : @observes_posts World backend (λ w, w).
Proof. apply demo_observes_posts. Qed.
Lemma command_tests : tests_keep (unposted (λ w : World, w)).
Proof. done. Qed.
Lemma assign_posts : bool_decide ((assign false).2 = []) = false.
Proof. by vm_compute. Qed.

Definition no_payload : HandoffPayload :=
  handoff_payload 0 EmptyString EmptyString EmptyString
    (mk_Progress AppendWitness.empty_chain EmptyString None SourcePass None).
Definition inspected : HandoffPayload := unwrap_or no_payload inspect.1.
Lemma inspect_ok : inspect = (Ok inspected, [comment r0; comment r1]).
Proof. vm_compute. reflexivity. Qed.
Lemma inspect_says : hp_status inspected = "reviewed" ∧ hp_approval_policy inspected = FinalApproval.
Proof. vm_compute. split; reflexivity. Qed.
End HandoffRunWitness.

Section handoff_run_witnesses.
#[local] Existing Instance demo_hasher.
#[local] Existing Instance demo_url.
#[local] Existing Instance demo_secrets.
#[local] Existing Instance demo_time.
#[local] Existing Instance demo_uuid.
#[local] Existing Instance demo_binding.
Import HandoffRunWitness.

Lemma handoff_command_writes_by_right_witness :
  ∃ payload body, validate_handoff next = Ok tt ∧ payload = P_ReviewHandoff next
    ∧ (assign false).2 = [body].
Proof.
  destruct (handoff_command_writes_by_right env demo_authority (Some "o/r") (Err "head-unavailable")
              (λ w : World, w) command_observes command_tests GitHub false (Assign args) 1 []
              (assign false).1 (assign false).2 (surjective_pairing (assign false))) as [H|H].
  - exfalso. pose proof assign_posts as Hp. rewrite H in Hp. discriminate Hp.
  - destruct H as (_ & _ & v & repository & h & st & base & branch & payload & body & H).
    exists (P_ReviewHandoff next), body. split; [vm_compute; reflexivity|]. split; [reflexivity|].
    apply H.
Defined.

Lemma reviewed_rests_on_a_designated_pass_witness :
  ∃ a, hp_approval inspected = Some a ∧ pa_native_state a = "APPROVED"
    ∧ pa_reviewed_head a = hp_head_sha inspected.
Proof.
  destruct inspect_says as [Hs Hp].
  destruct (reviewed_rests_on_a_designated_pass nobody demo_authority (Some "o/r")
              (Err "head-unavailable") GitHub false (Inspect None None) 1 [comment r0; comment r1]
              inspected [comment r0; comment r1] inspect_ok Hs)
    as (st & w0 & w1 & repository & adm & a & _ & _ & Ha & _ & Hfinal).
  exists a. exact (conj Ha (Hfinal Hp)).
Defined.
End handoff_run_witnesses.
