(* ===== verification/PrMergeFacts.v ===== *)
(** * Theorems on [pr merge]

    The gates write nothing; the one write of a merge comes after all of them and names the
    head they saw; and what each gate established is known of the pull request that is merged. *)
From S2P Require Import Prelude RStr Collections Error Types Validations Markers ReviewLoop Identity Record.
From S2P Require Import Handoff Correction Chain Provider Hosts Paths Config PrView PrReviews.
From S2P Require Import Threads Append Report Detect MergePolicy Checks Tasks Branches RepoView.
From S2P Require Import Publish LoopInput LoopCommand MergeGate PrMerge Convergence.
From S2P Require Import IoFacts AppendFacts ThreadsFacts MergePolicyFacts.
From S2P Require Import ConvergenceFacts MergeGateFacts BranchesFacts PublishFacts LedgerFacts.
From S2P Require Import World.
From stdpp Require Import options.

Section merge.
Context `{HS : !Hasher, LS : !LedgerSerde, JT : !JsonText, UP : !UrlParse, SP : !SecretPattern,
          TP : !TimestampParse, SB : !Serialize SessionBinding, UE : !UrlEncode, TT : !TomlText}
  {W : Type} `{BE : !Backend W, RR : !ReviewReads W, CK : !Clock W, WC : !WallClock W,
               LF : !LocalFiles W}.
Context (env : Env) (host : string) (repo : option string) (open_objects : result string Objects)
        (workdir remote : string) (fuel : nat).

(** ** What a gate leaves alone *)
Section keeps.
Context (R : W → W → Prop) `{PO : !PreOrder R} (Calls : calls_keep R)
        (Sleeps : ∀ d w, R w (clock_sleep d w)).

Lemma keeps_sleep d : keeps R (sleep d).
Proof using Sleeps. intros w. apply Sleeps. Qed.

Lemma keeps_wait owner name pr timeout : keeps R (wait_for_merge host owner name pr fuel timeout).
Proof using PO Calls Sleeps.
  unfold wait_for_merge. keeps_tac. generalize (@None N).
  induction fuel as [|f IH]; intros since; cbn [poll_queue]; [by intros w|].
  apply keeps_bind; [done|by apply keeps_poll|intros reading].
  destruct reading; keeps_tac; apply keeps_sleep.
Qed.

Lemma keeps_quiet_since policy quiet act time : keeps R (quiet_since policy quiet act time).
Proof using PO.
  intros w. destruct (quiet_since_total policy quiet act time w) as (since & label & H).
  by rewrite H.
Qed.

Lemma keeps_converge policy number url head f : keeps R (converge policy fuel number url head f).
Proof using PO Calls Sleeps.
  unfold converge. keeps_tac. match goal with |- keeps _ (converge_from _ _ _ _ _ _ _ ?d _) => generalize d end.
  intros deadline. generalize (@None (N * option string * list string)).
  induction f as [|f IH]; intros q; cbn [converge_from]; [by intros w|].
  keeps_tac; first [ by apply keeps_read_activity | apply keeps_quiet_since | apply keeps_sleep
                   | apply keeps_lift, PO ].
Qed.

Lemma keeps_recheck policy number url head previous allow :
  keeps R (recheck_before_merge policy fuel number url head previous allow).
Proof using PO Calls. unfold recheck_before_merge. keeps_tac. by apply keeps_read_activity. Qed.

Lemma keeps_green id presence : keeps R (ensure_required_checks_green host repo id presence).
Proof using PO Calls.
  unfold ensure_required_checks_green, gate_snapshot, requirements, read_head, api. keeps_tac.
Qed.

Lemma keeps_clear id base labels : keeps R (ensure_clear repo id base labels).
Proof using PO Calls. unfold ensure_clear, read_base_config. keeps_tac. Qed.

Lemma keeps_view id : keeps R (fetch_pr_view GitHub id).
Proof using PO Calls. unfold fetch_pr_view. keeps_tac. Qed.

Lemma keeps_merge_sha id : keeps R (fetch_merge_sha GitHub id).
Proof using PO Calls. unfold fetch_merge_sha. keeps_tac. Qed.

Lemma keeps_repo_view : keeps R (repo_view_compute GitHub).
Proof using PO Calls. unfold repo_view_compute. keeps_tac. Qed.

Lemma keeps_policy args rv pr configured : keeps R (apply_merge_policy args rv pr configured).
Proof using PO Calls. unfold apply_merge_policy, read_policy, read_freezes_only. keeps_tac. Qed.

Lemma keeps_branch args settings pr rv : keeps R (branch_gate args settings pr rv).
Proof using PO Calls. unfold branch_gate, Branches.check, refuse_auto_delete. keeps_tac. Qed.

Lemma keeps_thread_gate args pr snapshot : keeps R (thread_gate fuel args pr snapshot).
Proof using PO Calls. unfold thread_gate. keeps_tac. by apply keeps_threads. Qed.
End keeps.

(** ** Worlds that only reads lie between *)
Inductive read_step : W → W → Prop :=
  | step_call c w : is_write c = false → read_step w (run_call c w).2
  | step_tests n head author report w :
      read_step w (test_integrity_ensure n head author report w).2
  | step_sleep d w : read_step w (clock_sleep d w).

Definition reading : W → W → Prop := rtc read_step.
#[export] Instance reading_order : PreOrder reading.
Proof. apply rtc_po. Qed.

Lemma reading_calls : calls_keep reading.
Proof. intros c w H. by apply rtc_once, step_call. Qed.
Lemma reading_tests : tests_keep reading.
Proof. intros n head author report w. apply rtc_once, step_tests. Qed.
Lemma reading_sleeps d w : reading w (clock_sleep d w).
Proof. apply rtc_once, step_sleep. Qed.

Lemma reading_review_gate args policy pr :
  keeps reading (review_gate env repo open_objects args policy pr).
Proof.
  pose proof reading_calls as Calls. pose proof reading_order as Order. unfold review_gate, review_ready, observed_merge_ready.
  keeps_tac; first [ by apply keeps_state_view | apply keeps_merge_ready; [done|done|apply reading_tests] ].
Qed.

Lemma reading_recheck url number head previous :
  keeps reading (review_recheck env repo open_objects url number head previous).
Proof.
  pose proof reading_calls as Calls. pose proof reading_order as Order. unfold review_recheck, recheck_merge_ready.
  keeps_tac; first [ by apply keeps_state_view | apply keeps_merge_ready; [done|done|apply reading_tests] ].
Qed.

Lemma reading_still args pr gate : keeps reading (review_still env repo open_objects args pr gate).
Proof. unfold review_still. keeps_tac. apply reading_recheck. Qed.

Lemma reading_converge policy number url head f :
  keeps reading (converge policy fuel number url head f).
Proof. apply keeps_converge; [apply _|apply reading_calls|apply reading_sleeps]. Qed.

Lemma reading_evidence args settings pr head no_checks :
  keeps reading (evidence_gates env host repo open_objects fuel args settings pr head no_checks).
Proof.
  pose proof reading_calls as Calls. pose proof reading_order as Order. unfold evidence_gates. cbv zeta.
  keeps_tac; first [ by apply keeps_green | by apply reading_review_gate | by apply keeps_thread_gate
                   | by apply keeps_recheck | by apply reading_converge ].
Qed.

Lemma reading_gates args settings :
  keeps reading (lockdown_gates env host repo open_objects workdir remote fuel args settings).
Proof.
  pose proof reading_calls as Calls. pose proof reading_order as Order. unfold lockdown_gates.
  keeps_tac; first [ by apply keeps_view | by apply keeps_clear | by apply keeps_repo_view
                   | by apply keeps_policy | by apply keeps_branch | by apply reading_evidence
                   | by apply reading_still | by intros w ].
Qed.

(** [m] gave [a] somewhere between the two worlds, with nothing but reads around it. *)
Definition seen {A} (w w' : W) (m : io W A) (a : A) : Prop :=
  ∃ wa wb, m wa = (Ok a, wb) ∧ reading w wa ∧ reading wb w'.

Lemma seen_between {A} w0 w w' w1 (m : io W A) a :
  reading w0 w → reading w' w1 → seen w w' m a → seen w0 w1 m a.
Proof.
  intros H0 H1 (wa & wb & Hm & Ha & Hb). exists wa, wb. split; [done|]. split; by etrans.
Qed.

Lemma step_keeps {A B} (m : io W A) (f : A → io W B) w b w' :
  keeps reading m → (m ≫= f) w = (Ok b, w') →
  ∃ a wm, m w = (Ok a, wm) ∧ reading w wm ∧ f a wm = (Ok b, w').
Proof.
  intros Hm (a & wm & Ha & H)%io_bind_ok. exists a, wm. specialize (Hm w). by rewrite Ha in Hm.
Qed.

(** [reading w w'] along the worlds of a run. *)
Ltac along := first [ eassumption | reflexivity | etrans; [eassumption|along] ].
Ltac seen_tac := do 2 eexists; split; [eassumption|split; along].

(** *** The evidence *)
Record evidence (args : PrMergeArgs) (settings : MergeSettings) (pr : MergeView)
    (head : option string) (no_checks : bool) (review : option MergeReviewGate)
    (snapshot : option ConvergenceSnapshot) (w w' : W) : Prop := {
  ev_checks : ∃ checks, seen w w' (ensure_required_checks_green host repo (dec (ma_id args))
                                     (from_allow_no_checks no_checks)) checks;
  ev_review : seen w w' (review_gate env repo open_objects args (ms_review_policy settings) pr) review;
  ev_threads : ma_allow_unresolved_threads args = true
    ∨ ∃ threads, seen w w' (compute_github_threads fuel GitHub (mv_url pr) (ma_id args)) threads
        ∧ ∀ t, t ∈ pt_threads threads → thread_blocks t = false;
  ev_tasks : ma_allow_unchecked_tasks args = true ∨ ensure_tasklist_complete (mv_body pr) = Ok tt;
  ev_converged : cp_require (ms_review_policy settings) = true →
    ∃ first s previous, snapshot = Some s
    ∧ seen w w' (converge (ms_review_policy settings) fuel (ma_id args) (mv_url pr) head fuel) first
    ∧ cv_semantic_digest previous = cv_semantic_digest first ∧ cv_head_sha previous = cv_head_sha first
    ∧ seen w w' (recheck_before_merge (ms_review_policy settings) fuel (ma_id args) (mv_url pr) head
                   previous (ma_allow_unresolved_threads args)) s;
}.

Lemma thread_gate_ok args pr snapshot w snapshot' stale w' :
  thread_gate fuel args pr snapshot w = (Ok (snapshot', stale), w') →
  (ma_allow_unresolved_threads args = true
   ∨ ∃ threads, seen w w' (compute_github_threads fuel GitHub (mv_url pr) (ma_id args)) threads
       ∧ ∀ t, t ∈ pt_threads threads → thread_blocks t = false)
  ∧ match snapshot with
    | None => snapshot' = None
    | Some s => ∃ s', snapshot' = Some s' ∧ cv_semantic_digest s' = cv_semantic_digest s
                  ∧ cv_head_sha s' = cv_head_sha s
    end.
Proof.
  unfold thread_gate. intros H. destruct (is_some snapshot || _) eqn:Eb.
  - io_inv H. destruct H as (p & w1 & Hp & H). io_inv H. destruct H as ([] & w2 & Hg & H).
    io_inv H. destruct H as [[= <- _] ->]. split.
    + destruct (ma_allow_unresolved_threads args); [by left|right]. io_inv Hg. destruct Hg as [Hg ->].
      exists p. split; [seen_tac|]. intros t Ht. unfold ensure_payload_resolved in Hg. cbv zeta in Hg.
      case_bool_decide as Hn; [|done]. apply length_zero_iff_nil in Hn.
      destruct (thread_blocks t) eqn:Et; [|done]. assert (Hin : t ∈ List.filter thread_blocks (pt_threads p)).
      { apply list_elem_of_In, filter_In. by rewrite <- list_elem_of_In. }
      rewrite Hn in Hin. by apply not_elem_of_nil in Hin.
    + destruct snapshot as [s|]; [by exists (with_unresolved s (pt_unresolved p))|done].
  - io_inv H. destruct H as [[= <- _] ->]. apply orb_false_iff in Eb as [Es Ea].
    split; [left; by apply negb_false_iff in Ea|]. by destruct snapshot.
Qed.

Lemma evidence_ok args settings pr head no_checks w review snapshot stale w' :
  evidence_gates env host repo open_objects fuel args settings pr head no_checks w
    = (Ok (review, snapshot, stale), w') →
  evidence args settings pr head no_checks review snapshot w w'.
Proof.
  pose proof reading_calls as Calls. pose proof reading_order as Order.
  unfold evidence_gates. cbv zeta. intros H.
  apply step_keeps in H as (checks & w1 & Hchecks & R1 & H); [|by apply keeps_green].
  apply step_keeps in H as (rv & w2 & Hreview & R2 & H); [|apply reading_review_gate].
  apply step_keeps in H as (conv & w3 & Hconv & R3 & H);
    [|keeps_tac; apply reading_converge].
  apply step_keeps in H as ([conv' st] & w4 & Hthreads & R4 & H); [|by apply keeps_thread_gate].
  io_inv H. destruct H as ([] & w5 & Htasks & H).
  assert (Ht : w5 = w4 ∧ (ma_allow_unchecked_tasks args = true
                          ∨ ensure_tasklist_complete (mv_body pr) = Ok tt)).
  { destruct (ma_allow_unchecked_tasks args); io_inv Htasks; destruct Htasks; auto. }
  destruct Ht as [-> Ht].
  apply step_keeps in H as (fin & w6 & Hfin & R6 & H); [|keeps_tac; by apply keeps_recheck].
  io_inv H. destruct H as [[= <- <- <-] ->]. apply thread_gate_ok in Hthreads as [Hth Hsn].
  split; [exists checks; seen_tac|seen_tac| |done|].
  - destruct Hth as [?|(threads & Hs & Hall)]; [by left|right]. exists threads. split; [|done].
    eapply seen_between; [| |exact Hs]; along.
  - intros Hreq. rewrite Hreq in Hconv. io_inv Hconv. destruct Hconv as (s & w7 & Hs & Hconv).
    io_inv Hconv. destruct Hconv as [<- ->]. destruct Hsn as (s' & -> & Hd & Hh).
    io_inv Hfin. destruct Hfin as (s'' & w8 & Hre & Hfin). io_inv Hfin. destruct Hfin as [<- ->].
    exists s, s'', s'. split; [done|]. split; [seen_tac|]. do 2 (split; [done|]). seen_tac.
Qed.

(** *** All gates *)
Record cleared (args : PrMergeArgs) (settings : MergeSettings) (cl : Cleared) (w w' : W) : Prop := {
  cd_clean : ∃ porcelain, git_status_porcelain workdir w = Ok porcelain
               ∧ ∀ line, line ∈ lines porcelain → trim line = EmptyString;
  cd_view : seen w w' (fetch_pr_view GitHub (ma_id args)) (cl_pr cl);
  cd_expected : (∀ head, ma_expected_head_sha args = Some head → mv_head_sha (cl_pr cl) = Some head)
                ∧ (∀ base, ma_expected_base args = Some base → mv_base (cl_pr cl) = base);
  cd_ready : mv_draft (cl_pr cl) = false;
  cd_base : ma_allow_non_default_base args = true
            ∨ mv_base (cl_pr cl) = rv_default_branch (cl_repo cl);
  cd_repo : seen w w' (repo_view_compute GitHub) (cl_repo cl);
  cd_evidence : ∃ head allowed we we' review wn,
    evidence args settings (cl_pr cl) head allowed review (cl_snapshot cl) we we'
    ∧ reading w we ∧ reading we' w'
    ∧ (cp_require (ms_review_policy settings) = true → is_Some (nonempty (mv_head_sha (cl_pr cl))))
    ∧ no_checks_allowance workdir args repo remote (mv_base (cl_pr cl)) wn = (allowed, cl_no_checks cl)
    ∧ match review with
      | None => cl_review cl = None
      | Some gate => ∃ sha gate' wr, mv_head_sha (cl_pr cl) = Some sha ∧ cl_review cl = Some gate'
          ∧ reading we' wr
          ∧ review_recheck env repo open_objects (mv_url (cl_pr cl)) (ma_id args) sha gate wr
            = (Ok gate', w')
      end;
  cd_policy : ∃ we, reading w we
    ∧ seen we w' (read_policy (rv_owner (cl_repo cl)) (rv_name (cl_repo cl)) (mv_base (cl_pr cl))
                    (ma_id args)) (cl_policy cl)
    ∧ enforce_freeze (mp_freezes (cl_policy cl)) (ma_allow_merge_freeze args)
        (ma_allow_merge_freeze_reason args) = Ok (cl_freeze cl)
    ∧ enforce_method_supported (cl_method cl) (cl_repo cl) = Ok tt
    ∧ seen we w' (ensure_clear repo (ma_id args) (mv_base (cl_pr cl)) (ms_hold_labels settings)) tt;
  cd_branch : cl_delete_branch cl = true →
    ms_delete_branch settings = true
    ∧ seen w w' (branch_gate args settings (cl_pr cl) (cl_repo cl)) (cl_cleanup cl)
    ∧ (cl_cleanup cl = None ∨ ma_delete_branch_even_if_stacked args = true);
}.

Lemma check_view_ok args policy pr head :
  check_view args policy pr = Ok head →
  (∀ h, ma_expected_head_sha args = Some h → mv_head_sha pr = Some h)
  ∧ (∀ b, ma_expected_base args = Some b → mv_base pr = b)
  ∧ mv_draft pr = false
  ∧ (cp_require policy = true → is_Some (nonempty (mv_head_sha pr))).
Proof.
  unfold check_view. intros H. apply bind_ok in H as ([] & Hb & H).
  apply bind_ok in H as ([] & Hh & H). apply bind_ok in H as (ch & Hc & H). split_if H.
  split_and!; [| |done|].
  - intros h E. rewrite E in Hh. split_if Hh. by apply negb_decide_false in Hif0.
  - intros b E. rewrite E in Hb. unfold delivery_base_matches in Hb. destruct (_ ==? _) eqn:Eb; [|done]. by apply bool_decide_eq_true in Eb.
  - intros E. rewrite E in Hc. destruct (nonempty (mv_head_sha pr)); [by eexists|done].
Qed.

Lemma apply_policy_ok args rv pr configured w policy freeze method w' :
  apply_merge_policy args rv pr configured w = (Ok (policy, freeze, method), w') →
  read_policy (rv_owner rv) (rv_name rv) (mv_base pr) (ma_id args) w = (Ok policy, w')
  ∧ enforce_freeze (mp_freezes policy) (ma_allow_merge_freeze args)
      (ma_allow_merge_freeze_reason args) = Ok freeze.
Proof.
  unfold apply_merge_policy. intros H. io_inv H. destruct H as (p & w1 & Hp & H).
  io_inv H. destruct H as (f & Hf & H). io_inv H. destruct H as (m & w2 & Hm & H).
  io_inv H. destruct H as [[= -> -> ->] ->].
  assert (Hw : w2 = w1) by (destruct (mp_queue policy); io_inv Hm; by destruct Hm). subst w2. by split.
Qed.

Lemma branch_gate_overridden args settings pr rv w c w' :
  branch_gate args settings pr rv w = (Ok (Some c), w') →
  bc_overridden c = ma_delete_branch_even_if_stacked args.
Proof.
  unfold branch_gate. cbv zeta. intros H. io_if H; [|by io_inv H; destruct H].
  by apply check_overridden in H.
Qed.

Lemma still_ok args pr review w review' w' :
  review_still env repo open_objects args pr review w = (Ok review', w') →
  match review with
  | None => review' = None
  | Some gate => ∃ sha gate', mv_head_sha pr = Some sha ∧ review' = Some gate'
      ∧ review_recheck env repo open_objects (mv_url pr) (ma_id args) sha gate w = (Ok gate', w')
  end.
Proof.
  unfold review_still. intros H. destruct review as [gate|]; [|by io_inv H; destruct H as [<- _]].
  io_inv H. destruct H as (sha & Hs%ok_or_ok & H). io_inv H. destruct H as (gate' & w1 & Hg & H).
  io_inv H. destruct H as [<- ->]. by exists sha, gate'.
Qed.

Lemma worktree_clean_ok porcelain :
  fails (worktree_clean (Ok porcelain)) = Ok tt → ∀ line, line ∈ lines porcelain → trim line = EmptyString.
Proof.
  unfold worktree_clean. cbn. intros H line Hl. destruct (List.filter _ _) eqn:E; [|done].
  apply is_empty_true. destruct (is_empty (trim line)) eqn:Et; [done|].
  assert (Hf : line ∈ List.filter (λ l, negb (is_empty (trim l))) (lines porcelain)); [|rewrite E in Hf; by apply elem_of_nil in Hf].
  apply list_elem_of_In, filter_In. rewrite Et. by split; [apply list_elem_of_In|].
Qed.

Lemma lockdown_ok args settings w cl w' :
  lockdown_gates env host repo open_objects workdir remote fuel args settings w = (Ok cl, w') →
  cleared args settings cl w w'.
Proof.
  pose proof reading_calls as Calls. pose proof reading_order as Order. unfold lockdown_gates.
  intros H. apply io_bind_ok in H as (porcelain & w0 & [= Hgit ->] & H).
  io_inv H. destruct H as ([] & Hclean & H).
  apply step_keeps in H as (pr & w1 & Hview & R1 & H); [|by apply keeps_view].
  io_inv H. destruct H as (head & Hcheck & H).
  apply step_keeps in H as ([] & w2 & _ & R2 & H); [|by apply keeps_clear].
  apply step_keeps in H as (rv & w3 & Hrv & R3 & H); [|by apply keeps_repo_view].
  io_inv H. destruct H as ([] & Hbase & H).
  apply step_keeps in H as ([[p0 f0] m0] & w4 & _ & R4 & H); [|by apply keeps_policy].
  apply io_bind_ok in H as ([allowed reason] & w5 & [= Hno <-] & H).
  io_inv H. destruct H as ([] & _ & H).
  apply step_keeps in H as ([[review snapshot] stale] & w6 & Hev & R6 & H); [|by apply reading_evidence].
  apply step_keeps in H as ([[policy freeze] method] & w7 & Hpol & R7 & H); [|by apply keeps_policy].
  io_inv H. destruct H as ([] & Hmethod & H).
  apply step_keeps in H as ([] & w8 & Hhold & R8 & H); [|by apply keeps_clear].
  apply step_keeps in H as (cleanup & w9 & Hbranch & R9 & H); [|by apply keeps_branch].
  apply step_keeps in H as (still & w10 & Hstill & R10 & H); [|by apply reading_still].
  io_inv H. destruct H as [<- ->]. cbn in Hev, Hno.
  apply check_view_ok in Hcheck as (Hh & Hb & Hd & Hn). apply apply_policy_ok in Hpol as [Hpol Hfz].
  apply still_ok in Hstill. apply evidence_ok in Hev.
  split; cbn; try done.
  - exists porcelain. split; [done|]. by apply worktree_clean_ok.
  - seen_tac.
  - unfold check_base_branch in Hbase. split_if Hbase. apply andb_false_iff in Hif as [Hif|Hif].
    + left. by apply negb_false_iff in Hif.
    + right. by apply negb_decide_false in Hif.
  - seen_tac.
  - exists head, allowed, w4, w6, review, w4. split; [done|]. do 2 (split; [along|]). do 2 (split; [done|]).
    destruct review as [gate|]; [|done]. destruct Hstill as (sha & gate' & Hsha & -> & Hre).
    exists sha, gate', w9. do 2 (split; [done|]). split; [along|done].
  - exists w6. split; [along|]. split; [seen_tac|]. do 2 (split; [done|]). seen_tac.
  - intros [Hdel Hover]%andb_true_iff. split; [done|]. split; [seen_tac|].
    destruct cleanup as [c|]; [right|by left]. cbn in Hover. by rewrite <- (branch_gate_overridden _ _ _ _ _ _ _ Hbranch).
Qed.

(** ** The one write *)
Section writes.
Context (log : W → list BackendCall).

(** [log] is what has been written: every write extends it, and nothing else does. *)
Record writes_logged : Prop := {
  wl_read : ∀ w w', read_step w w' → log w' = log w;
  wl_write : ∀ c w, is_write c = true → log (run_call c w).2 = log w ++ [c];
}.

Context (Log : writes_logged).

Lemma reading_unlogged w w' : reading w w' → log w' = log w.
Proof using Log. induction 1 as [|w1 w2 w3 Hs _ IH]; [done|]. by rewrite IH, (wl_read Log _ _ Hs). Qed.

(** The call a cleared merge may write: the merge of the pull request, which names its head, or
    the enqueue of its node with its head. *)
Definition landing_call (args : PrMergeArgs) (cl : Cleared) (c : BackendCall) : Prop :=
  match mp_queue (cl_policy cl) with
  | None => c = MergePr (ma_id args) (method_as_str (cl_method cl)) (cl_delete_branch cl)
                  (nonempty (mv_head_sha (cl_pr cl)))
  | Some _ => ∃ node head, c = Enqueue node head
      ∧ nonempty (mv_head_sha (cl_pr cl)) = Some head ∧ mp_pr_node_id (cl_policy cl) = Some node
      ∧ mp_in_queue (cl_policy cl) = false ∧ mp_merged (cl_policy cl) = false
  end.

(** [m] writes [c] first and then only reads. *)
Definition writes {A} (c : BackendCall) (m : io W A) : Prop := ∀ w, reading (run_call c w).2 (m w).2.

Lemma writes_call c : writes c (call c).
Proof. intros w. unfold call. by destruct (run_call c w). Qed.

Lemma writes_attempt {A} c (m : io W A) : writes c m → writes c (attempt m).
Proof. intros H w. specialize (H w). unfold attempt. by destruct (m w). Qed.

Lemma writes_bind {A B} c (m : io W A) (f : A → io W B) :
  writes c m → (∀ a, keeps reading (f a)) → writes c (m ≫= f).
Proof.
  intros Hm Hf w. specialize (Hm w). unfold mbind, io_bind. destruct (m w) as [[a|e] w1]; [|done].
  etrans; [exact Hm|apply Hf].
Qed.

Lemma writes_logged_once {A} c (m : io W A) w : is_write c = true → writes c m →
  log (m w).2 = log w ++ [c].
Proof using Log. intros Hc Hm. by rewrite (reading_unlogged _ _ (Hm w)), (wl_write Log _ _ Hc). Qed.

Lemma merge_writes args pr method delete :
  let c := build_live_merge_call (ma_id args) pr method delete in
  writes c (_ ← invoke_merge_with_idempotency_check GitHub (ma_id args) c (mv_head_sha pr);
            fetch_merge_sha GitHub (ma_id args)).
Proof.
  pose proof reading_calls as Calls. pose proof reading_order as Order. intros c.
  apply writes_bind; [|intros []; by apply keeps_merge_sha]. unfold invoke_merge_with_idempotency_check.
  apply writes_bind; [by apply writes_attempt, writes_call|intros outcome]. keeps_tac. by apply keeps_view.
Qed.

Lemma land_writes args cl w r w' :
  land host fuel args cl w = (r, w') →
  (log w' = log w ∧ (is_ok r = true → is_Some (mp_queue (cl_policy cl))
                       ∧ (mp_in_queue (cl_policy cl) = true ∨ mp_merged (cl_policy cl) = true)))
  ∨ ∃ c, landing_call args cl c ∧ log w' = log w ++ [c].
Proof using Log.
  pose proof reading_calls as Calls. pose proof reading_order as Order.
  pose proof reading_sleeps as Sleeps. unfold land, landing_call. cbv zeta.
  destruct (mp_queue (cl_policy cl)) as [q|]; intros H.
  2:{ right. eexists. split; [done|].
      pose proof (writes_logged_once (build_live_merge_call (ma_id args) (cl_pr cl) (cl_method cl)
        (cl_delete_branch cl)) _ w eq_refl (merge_writes args _ _ _)) as Hw. by rewrite H in Hw. }
  apply io_lift_inv in H as [(e & -> & ->)|(head & Hh%ok_or_ok & H)]; [by left|].
  assert (Hrest : keeps reading (await_queue host fuel args cl)).
  { unfold await_queue. keeps_tac; [by apply keeps_wait|by apply keeps_merge_sha]. }
  unfold enqueue_once in H. destruct (mp_in_queue _ || mp_merged _) eqn:Eq.
  { left. split; [|intros _; split; [by eexists|by apply orb_true_iff]].
    apply reading_unlogged. specialize (Hrest w). unfold mbind, io_bind, mret, io_ret in H.
    by rewrite H in Hrest. }
  apply orb_false_iff in Eq as [Eq Em].
  destruct (mp_pr_node_id (cl_policy cl)) as [node|] eqn:En; cbn [ok_or] in H.
  2:{ left. by injection H as <- <-. }
  right. exists (Enqueue node head). split; [by exists node, head|].
  assert (Hw : writes (Enqueue node head) (enqueue node head ≫= λ _, await_queue host fuel args cl)).
  { apply writes_bind; [|done]. apply writes_bind; [apply writes_call|]. intros. keeps_tac. }
  pose proof (writes_logged_once (Enqueue node head) _ w eq_refl Hw) as Hl.
  change ((enqueue node head ≫= λ _, await_queue host fuel args cl) w = (r, w')) in H.
  by rewrite H in Hl.
Qed.

(** What a run of the chain has written. *)
Lemma chain_writes dry_run args settings w r w' :
  run_lockdown_chain env host repo open_objects workdir remote fuel dry_run args settings w = (r, w') →
  (log w' = log w ∧ ∀ payload, r = Ok payload →
     ∃ cl w1, cleared args settings cl w w1 ∧ is_Some (mp_queue (cl_policy cl))
       ∧ (mp_in_queue (cl_policy cl) = true ∨ mp_merged (cl_policy cl) = true))
  ∨ ∃ cl w1 c, cleared args settings cl w w1 ∧ log w1 = log w
      ∧ landing_call args cl c ∧ log w' = log w ++ [c].
Proof using Log.
  unfold run_lockdown_chain. intros H.
  apply io_lift_inv in H as [(e & -> & ->)|(digest & _ & H)]; [by left|].
  destruct dry_run; [left; by injection H as <- <-|].
  apply io_bind_inv in H as [(e & H & ->)|(cl & w1 & Hg & H)].
  { left. split; [|done]. apply reading_unlogged. pose proof (reading_gates args settings w) as Hr.
    by rewrite H in Hr. }
  assert (Hlog : log w1 = log w).
  { apply reading_unlogged. pose proof (reading_gates args settings w) as Hr. by rewrite Hg in Hr. }
  apply lockdown_ok in Hg. unfold mbind, io_bind in H.
  destruct (land host fuel args cl w1) as [res w2] eqn:El. apply land_writes in El.
  assert (Hw : w' = w2 ∧ (∀ payload, r = Ok payload → is_ok res = true)).
  { destruct res; by injection H as <- <-. }
  destruct Hw as [-> Hr], El as [[El Hq]|(c & Hc & El)].
  - left. split; [congruence|]. intros payload E. exists cl, w1. split; [done|]. apply Hq. by apply (Hr payload).
  - right. exists cl, w1, c. rewrite El, Hlog. auto.
Qed.


(** The head the caller attested is the one that is merged: whatever a run writes names it. *)
Theorem attested_head_is_merged dry_run args settings head w r w' :
  ma_expected_head_sha args = Some head → head ≠ EmptyString →
  run_lockdown_chain env host repo open_objects workdir remote fuel dry_run args settings w = (r, w') →
  log w' = log w
  ∨ ∃ c, log w' = log w ++ [c]
      ∧ match c with
        | MergePr id _ _ match_head => id = ma_id args ∧ match_head = Some head
        | Enqueue _ expected => expected = head
        | _ => False
        end.
Proof using Log.
  intros Hh Hne [[Hw _]|(cl & w1 & c & Hcl & _ & Hc & Hw)]%chain_writes; [by left|right].
  exists c. split; [done|]. apply cd_expected in Hcl as [Hcl _]. specialize (Hcl head Hh).
  assert (Hn : nonempty (mv_head_sha (cl_pr cl)) = Some head).
  { rewrite Hcl. cbn. by apply is_empty_false in Hne as ->. }
  unfold landing_call in Hc. destruct (mp_queue (cl_policy cl)).
  - destruct Hc as (node & h & -> & Hc & _). congruence.
  - subst c. by split.
Qed.
End writes.
End merge.

(** ** A call that failed *)
Section invoke.
Context `{JT : !JsonText} {W : Type} `{BE : !Backend W}.

End invoke.

(** ** The waiver of the checks *)
Section waiver.
Context `{SP : !SecretPattern, TT : !TomlText} {W : Type} `{LF : !LocalFiles W}.

(** The two worlds have the same directories, the same [git] and the same global file; the
    files of the checkout may differ. *)
Record same_history (w w' : W) : Prop := {
  sh_canonical : ∀ p, local_canonicalize p w = local_canonicalize p w';
  sh_exists : ∀ p, local_exists p w = local_exists p w';
  sh_git : ∀ dir args, local_git dir args w = local_git dir args w';
  sh_global : local_global_config w = local_global_config w';
  sh_global_file : ∀ p, local_global_config w = Some p → local_file p w = local_file p w';
}.

Lemma toplevel_same start w w' : same_history w w' → find_git_toplevel start w = find_git_toplevel start w'.
Proof.
  intros H. unfold find_git_toplevel. induction (ancestors start) as [|d l IH]; [done|].
  cbn. by rewrite (sh_exists _ _ H), IH.
Qed.

Lemma committed_same dirs top git_ref w w' :
  same_history w w' → load_committed dirs top git_ref w = load_committed dirs top git_ref w'.
Proof.
  intros H. induction dirs as [|d l IH]; [done|]. cbn [load_committed].
  destruct (path_strip_prefix top d); [|done]. unfold git_show. by rewrite (sh_git _ _ H), IH.
Qed.

Lemma global_same w w' : same_history w w' → load_global w = load_global w'.
Proof.
  intros H. unfold load_global. rewrite <- (sh_global _ _ H).
  destruct (local_global_config w) as [p|] eqn:E; [|done]. by rewrite (sh_global_file _ _ H p E).
Qed.

End waiver.

(** ** The theorems at a concrete pull request

    The ledger and the designated review of [GateWitness]; the repository has no configuration
    and no required check but one, which passed.  The backend keeps a log of its writes. *)
Module MergeWitness.
#[export] Existing Instances demo_hasher demo_url demo_secrets demo_time demo_binding.
#[export] Existing Instance GateWitness.serde.
Definition head : string := GateWitness.head.

Definition LogWorld : Type := World * list BackendCall.
#[export] Instance backend : Backend LogWorld := {|
  run_call := λ c w,
    let '(r, comments) := @run_call World (demo_backend head) c w.1 in
    (r, (comments, if is_write c then w.2 ++ [c] else w.2)) |}.
#[export] Instance tests : ReviewReads LogWorld := {| test_integrity_ensure := λ _ _ _ _ w, (Ok tt, w) |}.
#[export] Instance clock : Clock LogWorld := {| clock_now := λ _, 0%N; clock_sleep := λ _ w, w |}.
#[export] Instance wall : WallClock LogWorld := λ _ _, None.
#[export] Instance encode : UrlEncode := λ s, s.
#[export] Instance toml : TomlText := λ _, Ok (TTable []).
#[export] Instance files : LocalFiles LogWorld := {|
  local_canonicalize := λ p _, Some p; local_exists := λ _ _, true; local_file := λ _ _, None;
  local_git := λ _ args _,
    match args with "status" :: _ => Exited true EmptyString EmptyString
                  | _ => Exited false EmptyString EmptyString end;
  local_global_config := λ _, None |}.

Definition commit : string := "repos/o/r/commits/" +:+ head.
Definition null_object (key : string) : JsonValue :=
  JObject [("data", JObject [("repository", JObject [(key, JNull)])])].

#[export] Instance json : JsonText := world_json
  [("reviews", reviews_json head [GateWitness.review]);
   ("threads", threads_json head (connection_json 1 None
      [thread_node_json "T1" true false (connection_json 1 None [comment_json "C1" "done"])]));
   ("protection", protection_json [("ci", 7%N)]);
   ("repos/o/r/rules/branches/main?per_page=100", JArray []);
   (commit +:+ "/check-runs?per_page=100", rows_json "check_runs" [check_run_json "ci" "success" 7]);
   (commit +:+ "/status?per_page=100", rows_json "statuses" []);
   ("repos/o/r/issues/1/labels?per_page=100", JArray [JArray [JObject [("name", JString "bug")]]]);
   (open_pulls "o/r" "topic", JArray [JArray []]);
   ("hold configuration", null_object "object");
   ("merge policy", JObject [("data", JObject [("repository", JObject [
      ("issues", JObject [("nodes", JArray [])]); ("mergeQueue", JNull)])])]);
   ("repository", JObject [("owner", JObject [("login", JString "o")]); ("name", JString "r");
      ("url", JString "u"); ("defaultBranchRef", JObject [("name", JString "main")]);
      ("squashMergeAllowed", JBool true)]);
   ("merge commit", JObject [("mergeCommit", JObject [("oid", JString "m1")])])].

Definition world : LogWorld := (GateWitness.world, []).
Definition merged : LogWorld := (GateWitness.world, [MergePr 1 "squash" true (Some head)]).

Definition args : PrMergeArgs :=
  {| ma_id := 1; ma_expected_head_sha := Some head; ma_expected_base := Some "main";
     ma_method := None; ma_keep_branch := false; ma_delete_branch_even_if_stacked := false;
     ma_allow_non_default_base := false; ma_allow_unresolved_threads := false;
     ma_allow_unresolved_threads_reason := None; ma_review_convergence := Some true;
     ma_allow_no_checks := false; ma_allow_no_checks_reason := None;
     ma_allow_unchecked_tasks := false; ma_allow_unchecked_tasks_reason := None;
     ma_allow_merge_freeze := []; ma_allow_merge_freeze_reason := None;
     ma_queue_timeout := None |}.
Definition settings : MergeSettings :=
  mk_MergeSettings Squash true (mk_ConvergencePolicy true 0 (secs 120) []) ["hold"].

Definition blank : PrMergePayload :=
  mk_PrMergePayload "" 0 "" "" "" false None false None "" "" None None None [] None None.
Definition payload : PrMergePayload :=
  unwrap_or blank (run_lockdown_chain nobody "host" (Some "o/r") (Err "head-unavailable") "/w" "origin"
    9 false args settings world).1.

Lemma payload_ok : mr_merge_sha payload = "m1" ∧ mr_deleted_branch payload = true.
Proof. vm_compute. auto. Qed.
Lemma chain_ok :
  run_lockdown_chain nobody "host" (Some "o/r") (Err "head-unavailable") "/w" "origin" 9 false args
    settings world = (Ok payload, merged).
Proof. vm_compute. reflexivity. Qed.

Lemma logged : writes_logged (W := LogWorld) snd.
Proof.
  assert (Hb : ∀ c (w : LogWorld), (run_call c w).2.2 = if is_write c then w.2 ++ [c] else w.2).
  { by intros [] w. }
  split; [intros ? ? [c w Hc| |]; [by rewrite Hb, Hc|done|done]|]. intros c w Hc. by rewrite Hb, Hc.
Qed.

(** A backend whose merge call fails after it took effect. *)
Definition failing : Backend World := {|
  run_call := λ c w, match c with
                     | MergePr _ _ _ _ => (Err (backend_error "s" "exit 1" None), w)
                     | _ => @run_call World (demo_backend head) c w
                     end |}.
End MergeWitness.

(** The base branch declares that it has no checks; the checkout's own file is the world. *)
Module WaiverWitness.
#[export] Instance toml : TomlText := λ s,
  Ok (TTable (if s ==? "declared"
              then [("checks", TTable [("none", TBoolean true); ("none_reason", TString "no CI")])]
              else [])).
#[export] Instance secrets : SecretPattern := demo_secrets.
#[export] Instance files : LocalFiles string := {|
  local_canonicalize := λ p _, Some p; local_exists := λ _ _, true;
  local_file := λ path own, if path ==? "/w/.forge-cli.toml" then Some (Ok own) else None;
  local_git := λ _ args _,
    match args with
    | "remote" :: _ => Exited true "git@github.com:o/r.git" EmptyString
    | _ => Exited true "declared" EmptyString
    end;
  local_global_config := λ _, None |}.

Lemma histories : same_history "declared" "nothing".
Proof. by split. Qed.
Lemma waived_ok :
  no_checks_allowance "/w" MergeWitness.args (Some "O/R") "origin" "main" "nothing"
  = (true, Some "no CI").
Proof. vm_compute. reflexivity. Qed.
Lemma other_repository_ok :
  no_checks_allowance "/w" MergeWitness.args (Some "fork/r") "origin" "main" "declared" = (false, None).
Proof. vm_compute. reflexivity. Qed.
End WaiverWitness.

Section merge_witness.
Import MergeWitness.


Lemma attested_head_is_merged_witness :
  mr_merge_sha payload = "m1" ∧ merged.2 = [MergePr 1 "squash" true (Some head)]
  ∧ ∃ c, [MergePr 1 "squash" true (Some head)] = [c]
      ∧ match c with
        | MergePr id _ _ match_head => id = 1%N ∧ match_head = Some head
        | Enqueue _ expected => expected = head
        | _ => False
        end.
Proof.
  split; [exact (proj1 payload_ok)|]. split; [reflexivity|].
  destruct (attested_head_is_merged nobody "host" (Some "o/r") (Err "head-unavailable") "/w" "origin" 9
              snd logged false args settings head world (Ok payload) merged eq_refl
              ltac:(discriminate) chain_ok) as [H|H]; [discriminate H|exact H].
Defined.


End merge_witness.

Section waiver_witness.
Import WaiverWitness.

End waiver_witness.
