(* ===== verification/LoopFacts.v ===== *)
(** * Theorems on the review-loop commands

    What a run of [observe] or [extend] may write, on which evidence, and that the sweep
    predicts it. *)
From S2P Require Import Prelude RStr Collections Payload Error Types Validations Markers ReviewLoop Identity Record.
From S2P Require Import Handoff Correction Supersession Acceptance Chain Provider PrView.
From S2P Require Import PrReviews Append LoopInput LoopCommand IoFacts ReviewLoopFacts.
From S2P Require Import ReceiptFacts LoopInputFacts AppendFacts World.
From stdpp Require Import options.

(** ** Approvals *)
Section approvals.
Context `{TP : !TimestampParse}.

(** The comment approves what [marker] names: a maintainer wrote it, strictly after the tip,
    and one of its lines is the marker. *)
Record approved (approval : ApprovalComment) (created : option string) (marker : string) : Prop := {
  ap_maintainer : ac_association approval ∈ ["OWNER"; "MEMBER"; "COLLABORATOR"];
  ap_after_tip : ∃ tip t1 t2, created = Some tip ∧ timestamp_parse tip = Ok t1
    ∧ timestamp_parse (ac_created_at approval) = Ok t2 ∧ (t1 < t2)%Z;
  ap_marker : ∃ line, line ∈ lines (ac_body approval) ∧ trim line = marker;
}.

Lemma maintainer_association_iff association :
  maintainer_association association = true ↔ association ∈ ["OWNER"; "MEMBER"; "COLLABORATOR"].
Proof. unfold maintainer_association. rewrite !orb_true_iff, !bool_decide_eq_true. set_solver. Qed.

Lemma validate_marker_approval_ok approval created marker :
  validate_marker_approval approval created marker = Ok tt → approved approval created marker.
Proof.
  unfold validate_marker_approval, parse_time. intros H. split_if H.
  apply bind_ok in H as (tip & Htip%ok_or_ok & H). apply bind_ok in H as (t1 & H1%map_err_ok & H).
  apply bind_ok in H as (t2 & H2%map_err_ok & H). split_if H. split_if H.
  apply negb_false_iff in Hif, Hif1. apply Z.leb_gt in Hif0.
  split; [by apply maintainer_association_iff| |].
  - by exists tip, t1, t2.
  - apply existsb_true in Hif1 as (line & Hl & Heq%bool_decide_eq_true). by exists line.
Qed.
End approvals.

Section loop_reads.
Context `{HS : !Hasher, LS : !LedgerSerde, JT : !JsonText, UP : !UrlParse,
          SP : !SecretPattern, TP : !TimestampParse, SB : !Serialize SessionBinding,
          ES : !EnvelopeSerde, PE : !PayloadEnv} {W X : Type} `{BE : !Backend W}
  (posted : W → X) (Obs : observes_reads posted).
Context (env : Env).

(** ** Reads *)
Lemma reads_resolve_pr id : reads posted (resolve_pr id).
Proof using Obs. unfold resolve_pr. reads_tac. Qed.

Lemma reads_view_of repository number : reads posted (read_review_loop_state_view repository number).
Proof using Obs. unfold read_review_loop_state_view. apply reads_bind; [by apply reads_snapshot|done]. Qed.

Lemma reads_approval repository pr id : reads posted (read_approval_comment repository pr id).
Proof using Obs. unfold read_approval_comment. reads_tac. Qed.

Lemma reads_map_fail {A} f (m : io W A) : reads posted m → reads posted (map_fail_io f m).
Proof. intros Hm w. specialize (Hm w). unfold map_fail_io. by destruct (m w). Qed.

Lemma reads_try {A} (m : io W A) : reads posted m → reads posted (try_io m).
Proof. intros Hm w. specialize (Hm w). unfold try_io. by destruct (m w). Qed.

Lemma reads_fast_forward pages repository from to total commits :
  reads posted (fast_forward_pages pages repository from to total commits).
Proof using Obs.
  revert total commits. induction pages as [|page pages IH]; intros total commits;
    cbn [fast_forward_pages]; [apply reads_lift|].
  apply reads_bind; [by apply reads_call|intros text]. apply reads_bind; [apply reads_lift|intros value].
  apply reads_bind; [apply reads_lift|intros [[n rows] cs]].
  repeat (match goal with |- reads _ (if ?b then _ else _) => destruct b end;
          first [apply reads_lift|apply reads_ret|idtac]). apply IH.
Qed.

Lemma reads_transition input repository chain args :
  reads posted (input_transition input repository chain args).
Proof using Obs.
  unfold input_transition. destruct (in_acceptance input) as [request|].
  - unfold acceptance_transition. destruct (_ || _); [apply reads_lift|].
    destruct (recorded_acceptance chain); [apply reads_lift|].
    apply reads_bind; [apply reads_lift|intros proposal]. cbv zeta.
    apply reads_bind; [apply reads_lift|intros id]. apply reads_bind; [apply reads_lift|intros first].
    apply reads_bind; [apply reads_map_fail, reads_approval|intros approval].
    apply reads_bind; [apply reads_view_of|intros v]. reads_tac.
  - destruct (in_supersession input) as [request|].
    + destruct (_ || _); [apply reads_lift|]. unfold supersession_transition.
      destruct (_ || _); [apply reads_lift|]. apply reads_bind; [apply reads_lift|intros source].
      destruct (_ || _); [apply reads_lift|].
      apply reads_bind; [apply reads_fast_forward|intros commits; apply reads_lift].
    + destruct (in_correction input); apply reads_lift.
Qed.

Lemma reads_evaluate args : reads posted (evaluate_observe env args).
Proof using Obs.
  unfold evaluate_observe. apply reads_bind; [apply reads_lift|intros input].
  apply reads_bind; [apply reads_lift|intros body]. cbv zeta.
  apply reads_bind; [apply reads_try, reads_resolve_pr|intros pr].
  apply reads_bind; [|intros [[[vs wa] pl] tip]; apply reads_ret].
  destruct pr as [[v repository]|e]; [|apply reads_ret]. unfold evaluate_pr.
  apply reads_bind; [apply reads_lift|intros head]. cbv zeta.
  apply reads_bind; [apply reads_try, reads_view_of|intros [sv|e]]; [|apply reads_ret].
  apply reads_bind; [|intros [[vs wa] pl]; apply reads_ret]. unfold evaluate_chain.
  apply reads_bind; [apply reads_lift|intros writer]. apply reads_bind; [apply reads_lift|intros tip].
  cbv zeta. destruct input as [i|e]; [|apply reads_ret].
  apply reads_bind; [apply reads_try, reads_transition|intros t].
  apply reads_bind; [apply reads_lift|intros [[vs wa] pl]; apply reads_ret].
Qed.

Lemma reads_preflight args : reads posted (run_preflight env args).
Proof using Obs.
  unfold run_preflight. destruct (negb _); [done|]. destruct (_ ==? _); [done|].
  apply reads_bind; [apply reads_evaluate|intros e]. by destruct (negb _).
Qed.

Lemma reads_extended args repository number sv previous :
  reads posted (extended_state args repository number sv previous).
Proof using Obs.
  unfold extended_state. destruct (_ && _); [apply reads_lift|].
  destruct (s_hard_stop previous) as [stop|]; unfold stop_extension, ceiling_extension.
  - destruct (_ || _); [apply reads_lift|]. apply reads_bind; [apply reads_approval|intros a].
    apply reads_bind; [apply reads_lift|intros []; apply reads_lift].
  - apply reads_bind; [apply reads_lift|intros o]. apply reads_bind; [apply reads_lift|intros p].
    destruct (_ || _); [apply reads_lift|]. apply reads_bind; [apply reads_approval|intros a].
    apply reads_bind; [apply reads_lift|intros []; apply reads_lift].
Qed.

End loop_reads.

Section runs.
Context `{HS : !Hasher, LS : !LedgerSerde, JT : !JsonText, UP : !UrlParse,
          SP : !SecretPattern, TP : !TimestampParse, SB : !Serialize SessionBinding,
          ES : !EnvelopeSerde, PE : !PayloadEnv} {W : Type} `{BE : !Backend W}
  (posted : W → list string) (Obs : observes_posts posted).
Context (env : Env) (auth : Authority) (repo : option string).

(** ** Observe *)

(** [body] is the comment of [record], built for a chain ending at [tip] as a writer who may
    append this payload. *)
Definition posts_record (repository : string) (number : N) (head : string)
    (tip : option string) (payload : ReviewStatePayload) (outcome : option string) (body : string) : Prop :=
  ∃ chain record, c_tip_digest chain = tip ∧ has_right env auth repo chain payload
    ∧ build_record repository number head chain payload (assignment_generation_for chain payload)
      = Ok record
    ∧ render_state_comment_body record outcome = Ok body.

Lemma append_posts a w r w' :
  append_review_state_payload env auth repo a w = (r, w') →
  (posted w' = posted w ∧ is_ok r = false)
  ∨ ∃ body, posted w' = posted w ++ [body]
      ∧ posts_record (ap_repository a) (ap_number a) (ap_expected_head a) (ap_expected_tip a)
          (ap_payload a) (ap_visible_outcome a) body.
Proof using Obs.
  intros H. destruct (append_cases posted Obs env auth repo a w r w' H)
    as [?|(before & w1 & record & body & _ & Htip & Hr & Hrec & Hbody & Hp & _)]; [by left|]. right. exists body. split; [done|]. by exists (sn_chain before), record.
Qed.

(** What a transition makes an observation write: the accepted transition, with the outcome,
    or the receipt of the budget stop that refused it, without. *)
Inductive observe_payload (chain : ReviewStateChain) (args : ObserveArgs) (input : ObservationInput)
    (outcome : option string) :
    result ForgeError ReviewLoopTransition → ReviewStatePayload → option string → Prop :=
  | op_accepted t :
      tr_changed (with_interval_change chain t) = true →
      observe_payload chain args input outcome (Ok t)
        (into_payload (with_interval_change chain t)) outcome
  | op_stopped e previous tip stopped :
      stop_budget_field (kind e) ≠ None → latest_review_loop_state chain = Some previous →
      active_stop (Some previous) = None → c_tip_digest chain = Some tip →
      record_review_loop_hard_stop previous (oa_expected_head args) (in_observations input) tip e
        = Ok stopped →
      observe_payload chain args input outcome (Err e) (P_ReviewLoop stopped) None.

Lemma record_stop_posts repository number chain args input outcome e w r w' :
  record_stop env auth repo repository number chain args input e w = (r, w') →
  is_ok r = false
  ∧ (posted w' = posted w ∨ ∃ payload body, posted w' = posted w ++ [body]
       ∧ observe_payload chain args input outcome (Err e) payload None
       ∧ posts_record repository number (oa_expected_head args) (c_tip_digest chain) payload None body).
Proof using Obs.
  unfold record_stop. intros H. destruct (is_none _) eqn:Ef; [injection H as <- <-; split; auto|].
  destruct (active_stop _) eqn:Ea; [injection H as <- <-; split; auto|].
  apply io_lift_inv in H as [(? & -> & ->)|(previous & Hprev%ok_or_ok & H)]; [split; auto|].
  apply io_lift_inv in H as [(? & -> & ->)|(tip & Htip%ok_or_ok & H)]; [split; auto|].
  apply io_lift_inv in H as [(? & -> & ->)|(stopped & Hs & H)]; [split; auto|].
  apply io_lift_inv in H as [(? & -> & ->)|(stop & _ & H)]; [split; auto|].
  apply io_bind_inv in H as [(? & Happ & ->)|(appended & w1 & Happ & H)].
  - split; [done|]. apply append_posts in Happ as [[? _]|(body & Hp & Hb)]; [by left|right].
    exists (P_ReviewLoop stopped), body. split; [done|]. split; [|done].
    rewrite Hprev in Ea. econstructor; try done. by destruct (stop_budget_field _).
  - injection H as <- <-. split; [done|].
    apply append_posts in Happ as [[? _]|(body & Hp & Hb)]; [by left|right].
    exists (P_ReviewLoop stopped), body. split; [done|]. split; [|done].
    rewrite Hprev in Ea. econstructor; try done. by destruct (stop_budget_field _).
Qed.

Lemma commit_posts v repository sv args input outcome t w r w' :
  commit_transition env auth repo v repository sv args outcome t w = (r, w') →
  posted w' = posted w
  ∨ ∃ body, posted w' = posted w ++ [body]
      ∧ observe_payload (sv_chain sv) args input outcome (Ok t)
          (into_payload (with_interval_change (sv_chain sv) t)) outcome
      ∧ posts_record repository (v_number v) (oa_expected_head args) (c_tip_digest (sv_chain sv))
          (into_payload (with_interval_change (sv_chain sv) t)) outcome body.
Proof using Obs.
  unfold commit_transition. cbv zeta. intros H. destruct (negb _) eqn:Ec.
  - apply io_lift_inv in H as [(? & -> & ->)|(posted0 & _ & H)]; [by left|]. injection H as _ <-. by left.
  - apply negb_false_iff in Ec.
    apply io_bind_inv in H as [(? & Happ & ->)|(appended & w1 & Happ & H)];
      [|injection H as _ <-];
      (apply append_posts in Happ as [[? _]|(body & Hp & Hb)]; [by left|]);
      right; exists body; (split; [done|]); (split; [by constructor|done]).
Qed.

(** The circumstances under which a live observation writes. *)
Definition observe_write (args : ObserveArgs) (preflight_tip : option (option string))
    (body : string) : Prop :=
  ∃ input outcome v repository state_view transition payload visible w0 w1 w2,
    (oa_findings args ≫= ObservationInput_parse) = Ok input
    ∧ read_outcome_body args = Ok outcome
    ∧ v_head_sha v = Some (oa_expected_head args)
    ∧ read_review_loop_state_view repository (v_number v) w0 = (Ok state_view, w1)
    ∧ ensure_observation env (sv_chain state_view) (oa_expected_head args) = Ok tt
    ∧ (oa_auto_state args = false → c_tip_digest (sv_chain state_view) = oa_expected_state args)
    ∧ (oa_auto_state args = true → ∀ tip, preflight_tip = Some tip →
         c_tip_digest (sv_chain state_view) = tip)
    ∧ try_io (input_transition input repository (sv_chain state_view) args) w1
      = (Ok transition, w2)
    ∧ observe_payload (sv_chain state_view) args input outcome transition payload visible
    ∧ posts_record repository (v_number v) (oa_expected_head args)
        (c_tip_digest (sv_chain state_view)) payload visible body.

Lemma check_preflight_ok args p tip :
  check_preflight_tip args p tip = Ok tt →
  oa_auto_state args = true → ∀ t, p = Some t → tip = t.
Proof.
  unfold check_preflight_tip. intros H Ha t ->. rewrite Ha in H. split_if H. cbn in Hif.
  by apply negb_decide_false in Hif.
Qed.

Lemma observe_live_posts args p w r w' :
  observe_live env auth repo args p w = (r, w') →
  posted w' = posted w ∨ ∃ body, posted w' = posted w ++ [body] ∧ observe_write args p body.
Proof using Obs.
  unfold observe_live. intros H.
  apply io_lift_inv in H as [(? & -> & ->)|(value & Hval & H)]; [by left|].
  apply io_lift_inv in H as [(? & -> & ->)|(input & Hin & H)]; [by left|].
  apply io_lift_inv in H as [(? & -> & ->)|(outcome & Hout & H)]; [by left|].
  apply (io_reads_inv posted) in H as [(? & -> & ?)|([v repository] & w1 & _ & P1 & H)];
    [by left| |by apply reads_resolve_pr].
  apply io_lift_inv in H as [(? & -> & ->)|([] & Hhead & H)]; [by left|].
  apply (io_reads_inv posted) in H as [(? & -> & ?)|(sv & w2 & Hsv & P2 & H)];
    [left; congruence| |by apply reads_view_of].
  cbv zeta in H. apply io_lift_inv in H as [(? & -> & ->)|([] & Hobs & H)]; [left; congruence|].
  apply io_lift_inv in H as [(? & -> & ->)|([] & Hpre & H)]; [left; congruence|].
  apply io_lift_inv in H as [(? & -> & ->)|([] & Htip & H)]; [left; congruence|].
  apply (io_reads_inv posted) in H as [(? & -> & ?)|(transition & w3 & Htr & P3 & H)];
    [left; congruence| |by apply reads_try, reads_transition].
  assert (Hdone : ∀ payload visible body,
    observe_payload (sv_chain sv) args input outcome transition payload visible →
    posts_record repository (v_number v) (oa_expected_head args) (c_tip_digest (sv_chain sv))
      payload visible body → observe_write args p body).
  { intros payload visible body Hpay Hbody.
    exists input, outcome, v, repository, sv, transition, payload, visible, w1, w2, w3.
    rewrite Hval. do 2 (split; [done|]). unfold ensure_expected_head in Hhead. split_if Hhead.
    unfold ensure_expected_tip, resolved_expected_state in Htip. split_if Htip. bool_facts.
    split; [done|]. split; [done|]. split; [done|]. split; [intros Ha; by rewrite Ha in Hif0|].
    split; [by eapply check_preflight_ok|done]. }
  rewrite <- P1, <- P2, <- P3. destruct transition as [t|e].
  - eapply commit_posts in H as [?|(body & Hp & Hpay & Hb)]; [by left|right]. exists body. eauto.
  - eapply record_stop_posts in H as [_ [?|(payload & body & Hp & Hpay & Hb)]]; [by left|right].
    exists body. eauto.
Qed.


(** ** Extend *)

(** The extension of [previous] that [args] ask for, granted by [approval]. *)
Record extends_budget (args : ExtendArgs) (previous extended : ReviewLoopState)
    (reference : string) : Prop := {
  eb_budget : ∀ g, budget_entry (s_budget extended) g
    = (λ v, v + if ea_budget_field args ==? g then ea_increment args else 0)%N
      <$> budget_entry (s_budget previous) g;
  eb_extensions : s_extensions extended = s_extensions previous ++
    [mk_ReviewLoopExtension (ea_proposal_digest args) reference (ea_budget_field args)
       (ea_increment args)];
  eb_findings : s_findings extended = s_findings previous;
  eb_head : s_head_sha extended = s_head_sha previous;
  eb_round : s_round extended = s_round previous;
  eb_no_progress : s_no_progress_rounds extended = s_no_progress_rounds previous;
}.

Lemma extend_ceiling_ok args previous proposal reference extended :
  cp_budget_field proposal = "max_no_progress_rounds" → cp_increment proposal = 1%N →
  cp_budget_field proposal = ea_budget_field args → cp_increment proposal = ea_increment args →
  cp_proposal_digest proposal = ea_proposal_digest args →
  extend_ceiling previous proposal reference = Ok extended →
  extends_budget args previous extended reference.
Proof.
  unfold extend_ceiling. intros Hf Hi Ef Ei Ep H.
  apply bind_ok in H as (n & [-> _]%ok_or_ok%checked_add_some & [= <-]).
  split; cbn; try done; [|by rewrite Ef, Ei, Ep]. intros g. rewrite <- Ef, <- Ei, Hf, Hi.
  unfold budget_entry. cbn. repeat case_bool_decide; subst; cbn; try congruence; f_equal; lia.
Qed.

Lemma extended_state_ok args repository number sv previous w extended w' :
  extended_state args repository number sv previous w = (Ok extended, w') →
  ∃ approval, (∃ w1 w2, read_approval_comment repository number (ea_approval_comment args) w1
                        = (Ok approval, w2))
    ∧ approved approval (sv_tip_created_at sv) (extension_approval_marker
        (ea_proposal_digest args) (ea_budget_field args) (ea_increment args))
    ∧ extends_budget args previous extended (ac_url approval).
Proof.
  unfold extended_state. intros H. io_if H. clear Hif. destruct (s_hard_stop previous) as [stop|] eqn:Est.
  - unfold stop_extension in H. io_if H. clear Hif. io_inv H. destruct H as (approval & w1 & Ha & H).
    io_inv H. destruct H as ([] & Hv & H). io_inv H. destruct H as [H _].
    exists approval. split; [by exists w, w1|]. split; [by apply validate_marker_approval_ok|].
    apply apply_extension_ok in H as (b & _ & _ & _ & Hb & ->).
    apply extend_budget_ok in Hb as (_ & Hb & _). by split.
  - unfold ceiling_extension in H. io_inv H. destruct H as (o & Ho & H).
    io_inv H. destruct H as (proposal & ->%ok_or_ok & H). io_if H.
    repeat (apply orb_false_iff in Hif as [Hif ?]). bool_facts.
    repeat match goal with Hx : negb _ = false |- _ => apply negb_false_iff in Hx end. bool_facts.
    io_inv H. destruct H as (approval & w1 & Ha & H). io_inv H. destruct H as ([] & Hv & H).
    io_inv H. destruct H as [H _]. exists approval. split; [by exists w, w1|].
    unfold ceiling_proposal in Ho. destruct (_ || _) in Ho; [done|].
    apply bind_ok in Ho as (pd & _ & Ho).
    assert (Hshape : cp_budget_field proposal = "max_no_progress_rounds" ∧ cp_increment proposal = 1%N)
      by (by injection Ho as <-). destruct Hshape as [Hfield Hincr]. clear Ho. split.
    + apply validate_marker_approval_ok. unfold validate_approval in Hv. congruence.
    + by eapply extend_ceiling_ok.
Qed.

Lemma read_approval_targets repository number id w approval w' :
  read_approval_comment repository number id w = (Ok approval, w') →
  ends_with ("/repos/" +:+ repository +:+ "/issues/" +:+ dec number) (ac_issue_url approval) = true.
Proof.
  unfold read_approval_comment. intros H. io_inv H. destruct H as (text & w1 & _ & H).
  io_inv H. destruct H as (value & _ & H). io_inv H. destruct H as (a & _ & H).
  io_inv H. destruct H as ([] & Ht & H). io_inv H. destruct H as [-> _].
  unfold ensure_approval_targets_pr in Ht. split_if Ht. by apply negb_false_iff in Hif.
Qed.


(** ** Acceptance *)

(** A risk is accepted only by an approval: the transition of an acceptance either replays
    the acceptance the ledger already ends with, changing nothing, or was computed after a
    maintainer's comment on the ledger's pull request, written strictly after the current tip
    and carrying the marker of exactly this proposal (the stopped record, the head and the
    attempted findings), was read while the ledger's tip was the tip being accepted. *)
Theorem acceptance_rests_on_an_approval repository chain args request findings w t w' :
  acceptance_transition repository chain args request findings w = (Ok t, w') →
  oa_expected_state args = c_tip_digest chain
  ∧ ((∃ acceptance, recorded_acceptance chain = Some acceptance
        ∧ apply_acceptance chain (oa_expected_head args) (oa_expected_state args) request findings
            (ar_approval_reference acceptance) = Ok t)
     ∨ ∃ first id proposal approval sv,
         head (c_records chain) = Some first
         ∧ aq_approval_comment request = Some id
         ∧ acceptance_proposal_digest request (oa_expected_head args) findings = Ok proposal
         ∧ (∃ w1 w2, read_approval_comment repository (r_pr first) id w1 = (Ok approval, w2))
         ∧ ends_with ("/repos/" +:+ repository +:+ "/issues/" +:+ dec (r_pr first))
             (ac_issue_url approval) = true
         ∧ (∃ w1 w2, read_review_loop_state_view repository (r_pr first) w1 = (Ok sv, w2))
         ∧ c_tip_digest (sv_chain sv) = c_tip_digest chain
         ∧ approved approval (sv_tip_created_at sv) (approval_marker proposal)
         ∧ apply_acceptance chain (oa_expected_head args) (oa_expected_state args) request findings
             (ac_url approval) = Ok t).
Proof.
  unfold acceptance_transition. intros H. io_if H. apply orb_false_iff in Hif as [_ Htip].
  apply negb_decide_false in Htip. split; [done|].
  destruct (recorded_acceptance chain) as [acceptance|]; [left|right].
  { io_inv H. destruct H as [H _]. by exists acceptance. }
  io_inv H. destruct H as (proposal & Hprop & H). cbv zeta in H.
  io_inv H. destruct H as (id & Hid%ok_or_ok & H). io_inv H. destruct H as (first & Hfirst%ok_or_ok & H).
  io_inv H. destruct H as (approval & w1 & Hread & H). io_inv H. destruct H as (sv & w2 & Hsv & H).
  io_inv H. destruct H as ([] & Hview & H). io_inv H. destruct H as ([] & Hval & H).
  io_inv H. destruct H as [H _]. unfold map_fail_io in Hread.
  destruct (read_approval_comment _ _ _ w) as [ra wa] eqn:Era. injection Hread as Hra ->.
  assert (Hra' : ra = Ok approval) by (destruct ra as [|[]]; cbn in Hra; congruence). subst ra.
  exists first, id, proposal, approval, sv. split; [done|].
  split; [apply bind_Some in Hid as (i & Hi & Hid); by destruct (_ <? _)%N; [congruence|]|].
  split; [done|]. split; [by exists w, w1|]. split; [by eapply read_approval_targets|].
  split; [by exists w1, w2|]. unfold ensure_expected_tip in Hview. split_if Hview. bool_facts.
  split; [done|]. split; [|done]. apply validate_marker_approval_ok.
  by destruct (validate_marker_approval _ _ _) as [[]|[]].
Qed.
End runs.

(** ** The theorems at concrete runs

    A first observation of a fresh pull request; and a stopped ledger with the maintainer's
    approval of both the extension and the acceptance of its stop. *)
Module LoopWitness.
#[local] Existing Instance demo_hasher.
#[local] Existing Instance demo_url.
#[local] Existing Instance demo_secrets.
#[local] Existing Instance demo_time.
#[local] Existing Instance demo_binding.
#[export] Existing Instance InputWitness.envelopes.
#[export] Instance plain_env : PayloadEnv := {| env_allow_local_path := None; env_allow_agent_attribution := None |}.

Definition row : JsonValue :=
  JObject [("fingerprint", JString F1); ("disposition", JString "open");
           ("threads", JArray [JString "t2"; JString "t1"; JString "t2"])].

Definition observe (expected_head : string) (expected_state : option string) : ObserveArgs :=
  {| oa_id := 1; oa_expected_head := expected_head; oa_expected_state := expected_state;
     oa_auto_state := false; oa_preflight := true; oa_body := Some "Delivered.";
     oa_body_file := None; oa_findings := Ok (JArray [row]); oa_body_text := Ok "Delivered." |}.

Lemma loop_observes head : @observes_posts World (demo_backend head) (λ w, w).
Proof. apply demo_observes_posts. Qed.

(** The stopped ledger. *)
Definition stop : ReviewLoopHardStop := Witness.stop_of (ReceiptWitness.stopped_at "h4").
Definition blank : ReviewStateRecord := demo_record 0 "h4" (P_ReviewLoop Witness.nothing).
#[local] Instance serde0 : LedgerSerde := demo_serde [].
Definition r0 : ReviewStateRecord :=
  unwrap_or blank (build_record "o/r" 1 "h4" AppendWitness.empty_chain
                     (P_ReviewLoop (ReceiptWitness.stopped_at "h4")) None).
Definition chain : ReviewStateChain :=
  mk_ReviewStateChain [r0] (Some (r_record_digest r0)) [].
Definition extended : ReviewLoopState :=
  unwrap_or Witness.nothing
    (apply_review_loop_extension (ReceiptWitness.stopped_at "h4") (hs_proposal_digest stop)
       "url" (hs_code stop) (hs_budget_field stop) 1).
Definition r1 : ReviewStateRecord :=
  unwrap_or blank (build_record "o/r" 1 "h4" chain (P_ReviewLoop extended) None).

#[export] Instance serde : LedgerSerde := demo_serde [r0; r1].
Definition comment (r : ReviewStateRecord) : string :=
  "Review ledger" +:+ nl +:+ unwrap_or EmptyString (marker r).

Definition request : AcceptanceRequest :=
  mk_AcceptanceRequest (r_record_digest r0) Witness.open1 (Some 7%N).
Definition approval_body : string :=
  extension_approval_marker (hs_proposal_digest stop) (hs_budget_field stop) 1 +:+ nl +:+
  approval_marker (unwrap_or EmptyString
    (acceptance_proposal_digest (JT := demo_json) request "h4" ReceiptWitness.accepted1)).
Definition approval_json : JsonValue :=
  JObject [("html_url", JString "url"); ("issue_url", JString "https://api/repos/o/r/issues/1");
           ("user", JObject [("login", JString "maintainer")]);
           ("author_association", JString "OWNER"); ("created_at", JString "later");
           ("body", JString approval_body)].

#[export] Instance json : JsonText := world_json [("approval", approval_json)].
#[export] Instance backend : Backend World := demo_backend "h4".

Definition extend : ExtendArgs :=
  {| ea_id := 1; ea_expected_head := "h4"; ea_expected_state := r_record_digest r0;
     ea_stop_code := hs_code stop; ea_budget_field := hs_budget_field stop; ea_increment := 1;
     ea_proposal_digest := hs_proposal_digest stop; ea_approval_comment := 7 |}.

Definition accepted : ReviewLoopTransition :=
  unwrap_or (unchanged_transition Witness.nothing)
    (acceptance_transition "o/r" chain (observe "h4" (Some (r_record_digest r0))) request
       ReceiptWitness.accepted1 [comment r0]).1.

Lemma posts : (@observes_posts World backend (λ w, w)).
Proof. apply loop_observes. Qed.
Lemma extend_posts :
  bool_decide ((run_extend nobody demo_authority (Some "o/r") extend [comment r0]).2 = [comment r0]) = false.
Proof. by vm_compute. Qed.
Lemma extend_ok : is_ok (run_extend nobody demo_authority (Some "o/r") extend [comment r0]).1 = true.
Proof. by vm_compute. Qed.
Lemma loop_accepted_ok :
  is_ok (acceptance_transition "o/r" chain (observe "h4" (Some (r_record_digest r0))) request
           ReceiptWitness.accepted1 [comment r0]).1 = true.
Proof. by vm_compute. Qed.
End LoopWitness.

Section loop_witnesses.
#[local] Existing Instance demo_hasher.
#[local] Existing Instance demo_url.
#[local] Existing Instance demo_secrets.
#[local] Existing Instance demo_time.
#[local] Existing Instance demo_binding.
Import LoopWitness.


Lemma acceptance_rests_on_an_approval_witness :
  ∃ approval, ac_association approval ∈ ["OWNER"; "MEMBER"; "COLLABORATOR"]
    ∧ apply_acceptance chain "h4" (Some (r_record_digest r0)) request ReceiptWitness.accepted1
        (ac_url approval) = Ok accepted.
Proof.
  assert (Hnone : recorded_acceptance chain = None) by reflexivity.
  destruct (acceptance_rests_on_an_approval "o/r" chain (observe "h4" (Some (r_record_digest r0)))
              request ReceiptWitness.accepted1 [comment r0] accepted _ (io_unwrap _ _ _ loop_accepted_ok))
    as [_ [(acceptance & H & _)|(first & id & proposal & approval & sv & _ & _ & _ & _ & _ & _ & _ & Ha & H)]].
  - exfalso. rewrite Hnone in H. discriminate.
  - exists approval. exact (conj (ap_maintainer _ _ _ Ha) H).
Defined.
End loop_witnesses.

Section observe_witnesses.
#[local] Existing Instance demo_hasher.
#[local] Existing Instance demo_url.
#[local] Existing Instance demo_secrets.
#[local] Existing Instance demo_time.
#[local] Existing Instance demo_binding.
#[local] Existing Instance LoopWitness.plain_env.
#[local] Existing Instance InputWitness.envelopes.
Import AppendWitness.

Lemma observe_posts :
  bool_decide ((run_observe nobody demo_authority (Some "o/r") false (LoopWitness.observe "h1" None) []).2
               = []) = false.
Proof. by vm_compute. Qed.

End observe_witnesses.
