(* ===== verification/SweepFacts.v ===== *)
(** * The sweep predicts the run

    [observe --dry-run] and [--preflight] evaluate the same rules as the live run, without
    stopping at the first failure and without writing.  When nobody else acts in between, what
    they report is what the run does. *)
From S2P Require Import Prelude RStr Collections Payload Error Types Validations Markers ReviewLoop Identity Record.
From S2P Require Import Handoff Correction Supersession Acceptance Chain Provider PrView.
From S2P Require Import PrReviews Append LoopInput LoopCommand IoFacts ReviewLoopFacts.
From S2P Require Import RecordFacts LoopInputFacts AppendFacts LoopFacts World.
From stdpp Require Import options.

Section sweep.
Context `{HS : !Hasher, LS : !LedgerSerde, JT : !JsonText, UP : !UrlParse,
          SP : !SecretPattern, TP : !TimestampParse, SB : !Serialize SessionBinding,
          ES : !EnvelopeSerde, PE : !PayloadEnv} {W : Type} `{BE : !Backend W}.
(** Reading does not change the world: no other session acts between the calls. *)
Context (Quiet : observes_reads (λ w : W, w)).
Context (env : Env) (auth : Authority) (repo : option string).

Lemma quiet {A} (m : io W A) w r w' : reads (λ w, w) m → m w = (r, w') → w' = w.
Proof. intros Hm H. specialize (Hm w). by rewrite H in Hm. Qed.

(** Steps of a computation whose first part is known. *)
Lemma lift_step {A B} (m : exec A) (f : A → io W B) w a : m = Ok a → (lift m ≫= f) w = f a w.
Proof. by intros ->. Qed.

Lemma io_step {A B} (m : io W A) (f : A → io W B) w a : m w = (Ok a, w) → (m ≫= f) w = f a w.
Proof. intros H. unfold mbind, io_bind. by rewrite H. Qed.

Lemma lift_fails {A B} (m : exec A) (f : A → io W B) w e : m = Err e → (lift m ≫= f) w = (Err e, w).
Proof. by intros ->. Qed.

Lemma lift_lift_world {A B} (m : exec A) (f : A → exec B) (w : W) : ((lift m ≫= λ a, lift (f a)) w).2 = w.
Proof using. by destruct m. Qed.

(** A first part that only reads: it fails and the world is the same, or the rest runs there. *)
Lemma quiet_cases {A B} (m : io W A) (f : A → io W B) w :
  reads (λ w, w) m →
  (∃ e, (m ≫= f) w = (Err e, w)) ∨ ∃ a, m w = (Ok a, w) ∧ (m ≫= f) w = f a w.
Proof.
  intros Hm. specialize (Hm w). unfold mbind, io_bind. destruct (m w) as [[a|e] w'] eqn:E;
    cbn in Hm; unfold unposted in Hm; subst w'; [right; by exists a|left; by exists e].
Qed.

Lemma lift_cases {A B} (m : exec A) (f : A → io W B) w :
  (∃ e, (lift m ≫= f) w = (Err e, w)) ∨ ∃ a, m = Ok a ∧ (lift m ≫= f) w = f a w.
Proof. destruct m as [a|e]; [right; by exists a|left; by exists e]. Qed.

(** [next_step]: the first step of a run fails, which is the left disjunct, or succeeds. *)
Ltac next_step :=
  let e := fresh "e" in let He := fresh "He" in
  let a := fresh "a" in let Ha := fresh "Ha" in let Hgo := fresh "Hgo" in
  lazymatch goal with
  | |- context [(lift ?m ≫= ?f) ?w] =>
      destruct (lift_cases m f w) as [[e He]|(a & Ha & Hgo)];
      [left; exists e; exact He|rewrite Hgo; clear Hgo]
  | |- context [(?m ≫= ?f) ?w] =>
      destruct (quiet_cases m f w) as [[e He]|(a & Ha & Hgo)];
      [|left; exists e; exact He|rewrite Hgo; clear Hgo]
  end.

(** Nobody is assigned: anybody may observe. *)
Lemma unassigned_observation chain head :
  is_assigned env chain = false → ensure_observation env chain head = Ok tt.
Proof using.
  unfold is_assigned, ensure_observation, ensure_writer, require_reviewer, assigned, assignment_digest.
  intros H. apply orb_false_iff in H as [H1 H2].
  destruct (latest chain); [done|]. 
  destruct (AGENT_REVIEWER_SESSION env) as [s|]; cbn in *; [|done]. apply negb_false_iff in H2. rewrite H2. done.
Qed.

(** The point at which a run has a transition, accepted or refused. *)
Record reached (args : ObserveArgs) (w : W) (v : PrView) (repository : string)
    (sv : ReviewLoopStateView) (input : ObservationInput) (outcome : option string)
    (transition : result ForgeError ReviewLoopTransition) : Prop := {
  rc_input : (oa_findings args ≫= ObservationInput_parse) = Ok input;
  rc_outcome : read_outcome_body args = Ok outcome;
  rc_pr : resolve_pr (oa_id args) w = (Ok (v, repository), w);
  rc_head : ensure_expected_head (v_head_sha v) (oa_expected_head args) = Ok tt;
  rc_view : read_review_loop_state_view repository (v_number v) w = (Ok sv, w);
  rc_writer : ensure_observation env (sv_chain sv) (oa_expected_head args) = Ok tt;
  rc_tip : ensure_expected_tip (c_tip_digest (sv_chain sv))
             (resolved_expected_state args (c_tip_digest (sv_chain sv))) = Ok tt;
  rc_transition : try_io (input_transition input repository (sv_chain sv) args) w = (Ok transition, w);
}.

(** What the live run does from there. *)
Definition finish (args : ObserveArgs) (v : PrView) (repository : string)
    (sv : ReviewLoopStateView) (input : ObservationInput) (outcome : option string)
    (transition : result ForgeError ReviewLoopTransition) : io W LoopPayload :=
  match transition with
  | Ok t => commit_transition env auth repo v repository sv args outcome t
  | Err e => record_stop env auth repo repository (v_number v) (sv_chain sv) args input e
  end.

Lemma live_cases args p w :
  (∃ e, observe_live env auth repo args p w = (Err e, w))
  ∨ ∃ v repository sv input outcome transition,
      reached args w v repository sv input outcome transition
      ∧ check_preflight_tip args p (c_tip_digest (sv_chain sv)) = Ok tt
      ∧ observe_live env auth repo args p w
        = finish args v repository sv input outcome transition w.
Proof using Quiet.
  unfold observe_live.
  next_step. next_step. next_step. next_step; [by apply reads_resolve_pr|]. destruct a2 as [v repository].
  next_step. next_step; [by apply reads_view_of|]. cbv zeta. next_step. next_step. next_step.
  next_step; [by apply reads_try, reads_transition|].
  destruct a4, a5, a6, a2. right. exists v, repository, a3, a0, a1, a7.
  split; [split; try done; by rewrite Ha|]. split; [done|]. by destruct a7.
Qed.

(** What the sweep reports when the run gets as far as its transition. *)
Lemma evaluate_reached args w v repository sv input outcome transition ev w' :
  reached args w v repository sv input outcome transition →
  evaluate_observe env args w = (Ok ev, w') →
  ∃ vs, evaluate_transition repository (v_number v) (sv_chain sv) args input outcome transition
          = Ok (vs, oe_would_append ev, oe_planned_comment ev)
    ∧ oe_observed_tip ev = c_tip_digest (sv_chain sv)
    ∧ oe_ok ev = forallb rv_ok vs.
Proof.
  intros [Hin Hout Hpr Hhead Hsv Hwriter Htip Htr] H. unfold evaluate_observe in H.
  assert (Hin' : caught (value ← oa_findings args; ObservationInput_parse value) = Ok (Ok input))
    by (change (caught (oa_findings args ≫= ObservationInput_parse) = Ok (Ok input)); by rewrite Hin).
  rewrite (lift_step _ _ _ _ Hin') in H. clear Hin'.
  rewrite (lift_step _ _ _ (Ok outcome)) in H by by rewrite Hout. cbv zeta in H.
  assert (Hpr' : try_io (resolve_pr (oa_id args)) w = (Ok (Ok (v, repository)), w)) by by apply try_ok.
  rewrite (io_step _ _ _ _ Hpr') in H. clear Hpr'.
  io_inv H. destruct H as ([[[vs wa] pl] tip] & w1 & Hevp & H). io_inv H. destruct H as [<- ->].
  unfold evaluate_pr in Hevp.
  rewrite (lift_step _ _ _ (Ok tt)) in Hevp by by rewrite Hhead. cbv zeta in Hevp.
  assert (Hsv' : try_io (read_review_loop_state_view repository (v_number v)) w = (Ok (Ok sv), w))
    by by apply try_ok.
  rewrite (io_step _ _ _ _ Hsv') in Hevp. clear Hsv'.
  io_inv Hevp. destruct Hevp as ([[vs1 wa1] pl1] & w2 & Hevc & Hevp). io_inv Hevp.
  destruct Hevp as [[= <- <- <- <-] ->]. unfold evaluate_chain in Hevc.
  assert (Hw : ∃ ws, (if is_assigned env (sv_chain sv)
                 then v0 ← caught (ensure_observation env (sv_chain sv) (oa_expected_head args));
                      Ok [from_result "designated_review_writer" v0]
                 else @Ok stop _ []) = Ok ws ∧ forallb rv_ok ws = true).
  { rewrite Hwriter. destruct (is_assigned _ _); by eexists. }
  destruct Hw as (ws & Hws & Hwsok). rewrite (lift_step _ _ _ _ Hws) in Hevc.
  rewrite (lift_step _ _ _ (Ok tt)) in Hevc by by rewrite Htip. cbv zeta in Hevc.
  rewrite (io_step _ _ _ _ Htr) in Hevc. io_inv Hevc. destruct Hevc as ([[vs2 wa2] pl2] & Het & Hevc).
  io_inv Hevc. destruct Hevc as [[= <- <- <-] ->].
  exists vs2. cbn [oe_would_append oe_planned_comment oe_observed_tip oe_ok]. split; [done|].
  split; [done|]. rewrite !forallb_app. cbn [forallb rv_ok from_result andb is_ok]. rewrite !forallb_app, Hwsok.
  cbn. destruct (is_none (oa_body args) && is_none (oa_body_file args)); done.
Qed.

Lemma try_quiet {A} (m : io W A) w r w' :
  reads (λ w, w) m → try_io m w = (Ok r, w') →
  w' = w ∧ match r with Ok a => m w = (Ok a, w) | Err e => m w = (Err (Fail e), w) end.
Proof.
  intros Hm H. pose proof (quiet _ _ _ _ (reads_try _ _ Hm) H) as ->. split; [done|]. by apply try_ok in H.
Qed.

Lemma evaluate_ok_reached args w ev w' :
  evaluate_observe env args w = (Ok ev, w') → oe_ok ev = true →
  ∃ v repository sv input outcome t, reached args w v repository sv input outcome (Ok t).
Proof using Quiet.
  unfold evaluate_observe. intros H Hok. io_inv H. destruct H as (input & Hin%caught_ok & H).
  io_inv H. destruct H as (body & Hbody%caught_ok & H). cbv zeta in H.
  io_inv H. destruct H as (pr & w1 & Hpr & H). apply try_quiet in Hpr as [-> Hpr]; [|by apply reads_resolve_pr].
  io_inv H. destruct H as ([[[vs wa] pl] tip] & w2 & Hevp & H). io_inv H. destruct H as [<- ->].
  cbn [oe_ok] in Hok. rewrite !forallb_app in Hok. bool_facts.
  destruct input as [input|e]; [|cbn in *; discriminate]. 
  destruct body as [outcome|e]; [|cbn in *; discriminate].
  destruct pr as [[v repository]|e]; [|io_inv Hevp; by destruct Hevp as [[= <- <- <- <-] _]].
  unfold evaluate_pr in Hevp. io_inv Hevp. destruct Hevp as (hd & Hhead%caught_ok & Hevp). cbv zeta in Hevp.
  io_inv Hevp. destruct Hevp as (sv & w3 & Hsv & Hevp).
  apply try_quiet in Hsv as [-> Hsv]; [|by apply reads_view_of].
  destruct sv as [sv|e].
  2:{ io_inv Hevp. destruct Hevp as [[= <- <- <- <-] _]. by destruct hd. }
  io_inv Hevp. destruct Hevp as ([[vs1 wa1] pl1] & w3 & Hevc & Hevp). io_inv Hevp.
  destruct Hevp as [[= <- <- <- <-] ->]. cbn [app forallb] in *. bool_facts.
  destruct hd as [[]|e]; [|done]. unfold evaluate_chain in Hevc.
  io_inv Hevc. destruct Hevc as (ws & Hws & Hevc). io_inv Hevc. destruct Hevc as (tp & Htip%caught_ok & Hevc).
  cbv zeta in Hevc. io_inv Hevc. destruct Hevc as (tr & w4 & Htr & Hevc).
  apply try_quiet in Htr as Htr'; [|by apply reads_transition]. destruct Htr' as [-> Htr'].
  io_inv Hevc. destruct Hevc as ([[vs2 wa2] pl2] & Het & Hevc). io_inv Hevc. destruct Hevc as [[= <- <- <-] ->].
  cbn [app forallb] in *. bool_facts. rewrite !forallb_app in *. bool_facts. cbn [forallb] in *. bool_facts.
  destruct tp as [[]|e]; [|done].
  assert (Hwriter : ensure_observation env (sv_chain sv) (oa_expected_head args) = Ok tt).
  { destruct (is_assigned env (sv_chain sv)) eqn:Eas.
    - apply bind_ok in Hws as (v0 & Hv0%caught_ok & [= <-]). by destruct v0 as [[]|].
    - by apply unassigned_observation. }
  destruct tr as [t|e].
  2:{ unfold evaluate_transition in Het. destruct (is_some (stop_budget_field _)).
      - apply bind_ok in Het as (pl0 & _ & [= <- <- <-]). done.
      - by injection Het as <- <- _. }
  exists v, repository, sv, input, outcome, t. split; done.
Qed.

Lemma live_reached args p w v repository sv input outcome transition :
  reached args w v repository sv input outcome transition →
  check_preflight_tip args p (c_tip_digest (sv_chain sv)) = Ok tt →
  observe_live env auth repo args p w = finish args v repository sv input outcome transition w.
Proof using.
  intros [Hin Hout Hpr Hhead Hsv Hwriter Htip Htr] Hpre. unfold observe_live.
  apply bind_ok in Hin as (value & Hvalue & Hin).
  rewrite (lift_step _ _ _ _ Hvalue), (lift_step _ _ _ _ Hin), (lift_step _ _ _ _ Hout),
    (io_step _ _ _ _ Hpr), (lift_step _ _ _ _ Hhead), (io_step _ _ _ _ Hsv). cbv zeta.
  rewrite (lift_step _ _ _ _ Hwriter), (lift_step _ _ _ _ Hpre), (lift_step _ _ _ _ Htip),
    (io_step _ _ _ _ Htr). by destruct transition.
Qed.

Lemma emit_state_appended number url chain appended posted0 inspecting payload :
  emit_state number url chain appended posted0 inspecting = Ok payload → lp_appended payload = appended.
Proof using. unfold emit_state. intros H. apply bind_ok in H as (c & _ & [= <-]). done. Qed.

Lemma append_planned a w res w' chain outcome :
  append_review_state_payload env auth repo a w = (Ok res, w') →
  (∃ w1, read_review_state_snapshot (ap_repository a) (ap_number a) w = (Ok chain, w1)) →
  payload_handoff (ap_payload a) = None → ap_visible_outcome a = outcome →
  ∃ planned, plan_state_comment (ap_repository a) (ap_number a) (ap_expected_head a)
    (sn_chain chain) (ap_payload a) outcome = Ok planned.
Proof using.
  unfold append_review_state_payload. intros H [w0 Hsnap] Hpay <-. io_inv H.
  destruct H as (before & w1 & Hb & H). rewrite Hsnap in Hb. injection Hb as <- <-.
  cbv zeta in H. io_if H. io_inv H. destruct H as ([] & w2 & _ & H).
  io_inv H. destruct H as (record & Hrec & H). io_inv H. destruct H as (m & _ & H).
  io_inv H. destruct H as (body & Hbody & _).
  assert (Hg : assignment_generation_for (sn_chain chain) (ap_payload a)
               = assignment_generation <$> latest (sn_chain chain))
    by (by destruct (ap_payload a)).
  rewrite Hg in Hrec. unfold plan_state_comment. rewrite Hrec. cbn [mbind result_bind].
  rewrite Hbody. cbn [mbind result_bind].
  apply render_ok in Hbody as (m0 & md & rest & _ & -> & _). cbn. by eexists.
Qed.

Lemma into_payload_no_handoff t : payload_handoff (into_payload t) = None.
Proof using. unfold into_payload. by destruct (tr_acceptance t), (tr_supersession t), (tr_correction t). Qed.

Lemma view_snapshot repository number w sv w' :
  read_review_loop_state_view repository number w = (Ok sv, w') →
  ∃ snapshot, read_review_state_snapshot repository number w = (Ok snapshot, w')
    ∧ sv_chain sv = sn_chain snapshot.
Proof using.
  unfold read_review_loop_state_view. intros H. io_inv H. destruct H as (snapshot & w1 & Hs & H).
  io_inv H. destruct H as [<- ->]. by exists snapshot.
Qed.

Lemma record_stop_not_ok repository number chain args input e w payload w' :
  record_stop env auth repo repository number chain args input e w ≠ (Ok payload, w').
Proof using.
  unfold record_stop. intros H. destruct (is_none _); [by rewrite lift_throw in H|].
  destruct (active_stop _); [by rewrite lift_throw in H|].
  io_inv H. destruct H as (? & _ & H). io_inv H. destruct H as (? & _ & H).
  io_inv H. destruct H as (? & _ & H). io_inv H. destruct H as (? & _ & H).
  io_inv H. destruct H as (? & ? & _ & H). by rewrite lift_throw in H.
Qed.

(** C8: The sweep predicts the run: in a world where no one else acts, a sweep of an
    observation that is followed by the live run at the tip it saw is right in three ways.
    If the run succeeds, the sweep reported no failing rule and announced exactly whether the
    run appends; if the run writes anything at all, a stop receipt included, the sweep
    announced an append; and if no rule failed in the sweep, the run gets to commit the very
    transition the sweep evaluated. *)
Theorem sweep_predicts_the_run args p w ev w' :
  evaluate_observe env args w = (Ok ev, w') → p = None ∨ p = Some (oe_observed_tip ev) →
  (∀ payload w2, observe_live env auth repo args p w = (Ok payload, w2) →
     oe_ok ev = true ∧ oe_would_append ev = Some (lp_appended payload))
  ∧ ((observe_live env auth repo args p w).2 ≠ w → oe_would_append ev = Some true)
  ∧ (oe_ok ev = true → ∃ v repository sv input outcome t,
       reached args w v repository sv input outcome (Ok t)
       ∧ oe_would_append ev = Some (tr_changed (with_interval_change (sv_chain sv) t))
       ∧ observe_live env auth repo args p w
         = commit_transition env auth repo v repository sv args outcome t w).
Proof using Quiet.
  intros Hev Hp. split; [|split].
  - intros payload w2 Hlive.
    destruct (live_cases args p w) as [[e He]|(v & repository & sv & input & outcome & tr & Hr & _ & He)];
      rewrite He in Hlive; [done|]. destruct (evaluate_reached _ _ _ _ _ _ _ _ _ _ Hr Hev) as (vs & Het & _ & ->).
    destruct tr as [t|e]; cbn [finish] in Hlive; [|by apply record_stop_not_ok in Hlive].
    unfold commit_transition in Hlive. cbv zeta in Hlive. cbn [evaluate_transition] in Het. cbv zeta in Het.
    destruct (tr_changed (with_interval_change (sv_chain sv) t)) eqn:Ec; cbn [negb] in Hlive.
    + io_inv Hlive. destruct Hlive as (res & w3 & Happ & Hlive). io_inv Hlive. destruct Hlive as [Hlive _].
      rewrite (emit_state_appended _ _ _ _ _ _ _ Hlive).
      destruct (view_snapshot _ _ _ _ _ (rc_view _ _ _ _ _ _ _ _ Hr)) as (snapshot & Hsnap & Hch).
      pose proof (append_planned _ _ _ _ snapshot outcome Happ ltac:(eexists; exact Hsnap)
                    (into_payload_no_handoff _) eq_refl) as [planned Hplan]. cbn in Hplan.
      rewrite <- Hch in Hplan. rewrite Hplan in Het. cbn in Het. by injection Het as <- <- _.
    + io_inv Hlive. destruct Hlive as (posted0 & _ & Hlive). io_inv Hlive. destruct Hlive as [Hlive _].
      rewrite (emit_state_appended _ _ _ _ _ _ _ Hlive). by injection Het as <- <- _.
  - intros Hw. destruct (live_cases args p w) as [[e He]|(v & repository & sv & input & outcome & tr & Hr & _ & He)];
      rewrite He in Hw; [done|]. destruct (evaluate_reached _ _ _ _ _ _ _ _ _ _ Hr Hev) as (vs & Het & _ & _).
    destruct tr as [t|e]; cbn [finish evaluate_transition] in Hw, Het; cbv zeta in Het.
    + unfold commit_transition in Hw. cbv zeta in Hw.
      destruct (tr_changed (with_interval_change (sv_chain sv) t)); cbn [negb] in Hw.
      * apply bind_ok in Het as (pl & _ & Het). by injection Het as <- <- _.
      * destruct Hw. apply lift_lift_world.
    + unfold record_stop in Hw. destruct (stop_budget_field (kind e)); [|done]. cbn [is_none is_some] in *.
      destruct (active_stop _); [done|]. cbn [is_some negb] in Het.
      apply bind_ok in Het as (pl & _ & Het). by injection Het as <- <- _.
  - intros Hok. destruct (evaluate_ok_reached _ _ _ _ Hev Hok) as (v & repository & sv & input & outcome & t & Hr).
    destruct (evaluate_reached _ _ _ _ _ _ _ _ _ _ Hr Hev) as (vs & Het & Htip & _).
    exists v, repository, sv, input, outcome, t. split; [done|]. split.
    + cbn [evaluate_transition] in Het. cbv zeta in Het.
      destruct (tr_changed (with_interval_change (sv_chain sv) t)).
      * apply bind_ok in Het as (pl & _ & Het). by injection Het as <- <- _.
      * by injection Het as <- <- _.
    + rewrite (live_reached _ p _ _ _ _ _ _ _ Hr); [done|]. destruct Hp as [->| ->]; [done|].
      cbn. rewrite Htip, (bool_decide_true (c_tip_digest (sv_chain sv) = _)) by done.
      by rewrite andb_false_r.
Qed.
End sweep.

(** ** At a concrete pull request: the first observation, swept and then run *)
Section sweep_witnesses.
#[local] Existing Instance demo_hasher.
#[local] Existing Instance demo_url.
#[local] Existing Instance demo_secrets.
#[local] Existing Instance demo_time.
#[local] Existing Instance demo_binding.
#[local] Existing Instance LoopWitness.plain_env.
#[local] Existing Instance InputWitness.envelopes.
Import AppendWitness.

Definition blank_evaluation : ObserveEvaluation := mk_ObserveEvaluation false [] None None None.
Definition blank_payload : LoopPayload := mk_LoopPayload 0 "" None None None false false None [] [].

Lemma evaluation_ok : is_ok (evaluate_observe nobody (LoopWitness.observe "h1" None) []).1 = true.
Proof. by vm_compute. Qed.

Lemma live_ok :
  is_ok (observe_live nobody demo_authority (Some "o/r") (LoopWitness.observe "h1" None) None []).1 = true.
Proof. by vm_compute. Qed.

Lemma sweep_predicts_the_run_witness :
  oe_would_append (unwrap_or blank_evaluation
    (evaluate_observe nobody (LoopWitness.observe "h1" None) []).1)
  = Some (lp_appended (unwrap_or blank_payload
      (observe_live nobody demo_authority (Some "o/r") (LoopWitness.observe "h1" None) None []).1)).
Proof.
  exact (proj2 (proj1 (sweep_predicts_the_run (op_reads _ append_observes) nobody demo_authority (Some "o/r")
    (LoopWitness.observe "h1" None) None [] _ _ (io_unwrap blank_evaluation _ _ evaluation_ok)
    (or_introl eq_refl)) _ _ (io_unwrap blank_payload _ _ live_ok))).
Defined.
End sweep_witnesses.
