(* ===== verification/Lifecycle.v ===== *)
(** * The life of a ledger

    What a command writes is what the ledger says next, and the bound that every ledger keeps. *)
From S2P Require Import Prelude RStr Collections Error Types Markers ReviewLoop Identity Record Handoff.
From S2P Require Import Correction Supersession Acceptance Chain Provider PrView PrReviews Append LoopInput.
From S2P Require Import LoopCommand World ReviewLoopFacts ReceiptFacts ChainFacts LedgerFacts.
From S2P Require Import RecordFacts AppendFacts LoopFacts.
From stdpp Require Import options.

(** ** What the loop writes is what the ledger says next

    Every loop state a command may append (an observation, a budget stop, an extension) is
    read back as the latest state of the ledger it was appended to. *)

Section readback.
Context `{HS : !Hasher, LS : !LedgerSerde, JT : !JsonText, UP : !UrlParse,
          SP : !SecretPattern, TP : !TimestampParse, SB : !Serialize SessionBinding}.

(** The states the commands append to a chain for a head, as [run_observe] and [run_extend]
    compute them. *)
Inductive loop_write (chain : ReviewStateChain) (head : string) : ReviewLoopState → Prop :=
  | lw_observed obs t :
      observe_review_loop (latest_review_loop_state chain) head obs = Ok t →
      loop_write chain head (tr_state t)
  | lw_stopped previous obs tip e s :
      latest_review_loop_state chain = Some previous → active_stop (Some previous) = None →
      observe_review_loop (Some previous) head obs = Err (Fail e) →
      record_review_loop_hard_stop previous head obs tip e = Ok s →
      loop_write chain head s
  | lw_extended previous stop proposal reference code field increment s :
      latest_review_loop_state chain = Some previous → s_hard_stop previous = Some stop →
      s_head_sha previous = head ∨ hs_attempted_head_sha stop = head →
      apply_review_loop_extension previous proposal reference code field increment = Ok s →
      loop_write chain head s
  | lw_ceiling previous tip proposal reference s :
      latest_review_loop_state chain = Some previous → s_head_sha previous = head →
      ceiling_proposal previous tip = Ok (Some proposal) →
      extend_ceiling previous proposal reference = Ok s →
      loop_write chain head s.

Lemma latest_state_valid comments repository pr chain s :
  parse_chain comments repository pr = Ok chain → latest_review_loop_state chain = Some s →
  state_valid s.
Proof.
  intros (records & ix & R & P)%parse_chain_parsed Hs. unfold latest_review_loop_state in Hs.
  apply find_map_in in Hs as (r & Hr & Hs). rewrite elem_of_rev in Hr.
  apply list_elem_of_lookup in Hr as [i Hi].
  by destruct (check_record_ok _ (record_checked _ _ _ _ _ _ _ P _ _ Hi)) as (_ & _ & _ & Hv); apply Hv.
Qed.

Lemma active_stop_none p :
  active_stop (Some p) = None → ∀ st, s_hard_stop p = Some st → hs_extension_applied st = true.
Proof. unfold active_stop. cbn. intros H st Hst. rewrite Hst in H. cbn in H. by destruct (hs_extension_applied st). Qed.

(** A state a command writes is well formed and bound to the head it is written for. *)
Lemma loop_write_ok comments repository pr chain head s :
  parse_chain comments repository pr = Ok chain → loop_write chain head s →
  state_valid s ∧ bound_to s head.
Proof.
  intros Hparse [obs t Ht|prev obs tip e s0 Hl Ha Ho Hs|prev stop pd ar code bf n s0 Hl Hst Hb He
                |prev tip cp ar s0 Hl Hh Hcp He].
  - split; [by eapply observe_valid|]. left. apply observe_ok in Ht as (_ & cur & _ & H).
    destruct (latest_review_loop_state chain) as [p|].
    + destruct H as (_ & p' & _ & H). apply observe_resumed_ok in H as [(Hm & _ & ->)|(s1 & Hs1 & ->)]; cbn.
      * unfold moved in Hm. by apply negb_decide_false in Hm.
      * by rewrite (ob_head _ _ _ _ Hs1).
    + by subst t.
  - pose proof Hs as Hs'. apply record_stop_ok in Hs' as (bf & cur & pd & od & Hbf & _ & _ & _ & ->).
    destruct (observe_budget_err prev head obs e) as (Hh & Hv & _); [by apply active_stop_none|done|by eexists|].
    split; [eapply record_stop_valid; [done| |done]; by apply trim_nonempty|]. right. cbn. by eexists.
  - pose proof (latest_state_valid _ _ _ _ _ Hparse Hl) as Hv.
    split; [by eapply apply_extension_valid|]. apply apply_extension_ok in He as (b & _ & _ & _ & _ & ->).
    rewrite Hst. destruct Hb as [Hb|Hb]; [by left|right]. cbn. eexists. split; [done|done].
  - pose proof (latest_state_valid _ _ _ _ _ Hparse Hl) as Hv. unfold extend_ceiling in He.
    apply bind_ok in He as (n & _ & [= <-]). split; [|by left]. destruct Hv. by split.
Qed.

(** C9: The ledger remembers what was written to it: when the writer of the active interval
    appends a loop state a command computed from the ledger (an observation, a budget stop,
    either kind of extension) as the comment it renders, with or without an outcome, reading
    all comments again yields the same records followed by the new one, the state of which is
    now the latest. *)
Theorem loop_writes_are_read_back env comments repository number chain head s r outcome body :
  parse_chain comments repository number = Ok chain → ensure_writer env chain = Ok tt →
  loop_write chain head s →
  build_record repository number head chain (P_ReviewLoop s) (assignment_generation <$> latest chain)
    = Ok r →
  render_state_comment_body r outcome = Ok body → text_round_trips r →
  (∀ c x, c ∈ comments → parse_state_marker c = Ok (Some x) →
     r_record_digest x ≠ r_record_digest r ∧ r_previous_digest x ≠ Some (r_record_digest r)) →
  ∃ chain', parse_chain (comments ++ [body]) repository number = Ok chain'
    ∧ c_records chain' = c_records chain ++ [r]
    ∧ c_tip_digest chain' = Some (r_record_digest r)
    ∧ c_ignored_stale_records chain' = c_ignored_stale_records chain
    ∧ latest_review_loop_state chain' = Some s.
Proof.
  intros Hparse Hwriter Hwrite Hrec Hbody Htext Hfresh.
  destruct (loop_write_ok _ _ _ _ _ _ Hparse Hwrite) as [Hv Hb]. eexists.
  split; [by eapply loop_record_extends|]. do 3 (split; [done|]).
  unfold latest_review_loop_state. cbn [c_records]. rewrite rev_app_distr. cbn.
  apply build_record_ok in Hrec as (_ & _ & _ & _ & _ & _ & -> & _). done.
Qed.
End readback.

(** ** At a concrete ledger: the first observation of an unassigned pull request *)
Section readback_witnesses.
#[local] Existing Instance demo_hasher.
#[local] Existing Instance demo_url.
#[local] Existing Instance demo_secrets.
#[local] Existing Instance demo_time.
#[local] Existing Instance demo_binding.
Import AppendWitness.

Lemma loop_writes_are_read_back_witness :
  ∃ chain, parse_chain [unwrap_or EmptyString (render_state_comment_body genesis None)] "o/r" 1 = Ok chain
    ∧ latest_review_loop_state chain = Some Witness.s1.
Proof.
  assert (Hw : loop_write empty_chain "h1" Witness.s1).
  { apply (lw_observed empty_chain "h1" Witness.open1
             (unwrap_or (unchanged_transition Witness.s1) (observe_review_loop None "h1" Witness.open1))).
    evaluates. }
  assert (Hbody : render_state_comment_body genesis None
                  = Ok (unwrap_or EmptyString (render_state_comment_body genesis None))) by evaluates.
  assert (Hrec : build_record "o/r" 1 "h1" empty_chain (P_ReviewLoop Witness.s1)
                   (assignment_generation <$> latest empty_chain) = Ok genesis) by evaluates.
  assert (Htext : text_round_trips genesis).
  { intros json [= <-]. split; [by vm_compute|]. split; [by vm_compute|evaluates]. }
  assert (Hparse : parse_chain [] "o/r" 1 = Ok empty_chain) by reflexivity.
  assert (Hwriter : ensure_writer nobody empty_chain = Ok tt) by evaluates.
  assert (Hfresh : ∀ c x, c ∈ @nil string → parse_state_marker c = Ok (Some x) →
            r_record_digest x ≠ r_record_digest genesis
            ∧ r_previous_digest x ≠ Some (r_record_digest genesis))
    by (intros c x Hc; exact (False_ind _ (not_elem_of_nil c Hc))).
  destruct (loop_writes_are_read_back nobody [] "o/r" 1 empty_chain "h1" Witness.s1 genesis None
              (unwrap_or EmptyString (render_state_comment_body genesis None))
              Hparse Hwriter Hw Hrec Hbody Htext Hfresh) as (chain & Hc & _ & _ & _ & Hl).
  exists chain. exact (conj Hc Hl).
Defined.
End readback_witnesses.

(** ** The life of a ledger

    Every way a command grows a ledger, as a transition system on chains, and the bound it
    keeps: rounds of repair and reopened findings are limited by the default budget and the
    extensions that were approved, whatever the order of observations, stops, extensions,
    corrections, supersessions, acceptances and handoffs. *)
Section lifecycle.
Context `{HS : !Hasher, LS : !LedgerSerde, JT : !JsonText, UP : !UrlParse}.
Implicit Types (p s : ReviewLoopState).

(** The receipts a command appends: a transition that changes the state of the chain. *)
Inductive receipt_of (chain : ReviewStateChain) : ReviewLoopTransition → Prop :=
  | ro_correction head tip request obs t :
      apply_correction chain head tip request obs = Ok t → receipt_of chain t
  | ro_supersession head tip request obs commits t :
      apply_supersession chain head tip request obs commits = Ok t → receipt_of chain t
  | ro_acceptance head tip request obs reference t :
      apply_acceptance chain head tip request obs reference = Ok t → receipt_of chain t.

(** A chain that commands have grown, one record at a time. *)
Inductive grown : ReviewStateChain → Prop :=
  | gr_empty chain : c_records chain = [] → grown chain
  | gr_other chain chain' r :
      grown chain → payload_state (r_payload r) = None →
      c_records chain' = c_records chain ++ [r] → grown chain'
  | gr_write chain chain' head s r :
      grown chain → loop_write chain head s → r_payload r = P_ReviewLoop s →
      c_records chain' = c_records chain ++ [r] → grown chain'
  | gr_receipt chain chain' t r :
      grown chain → receipt_of chain t → tr_changed t = true → r_payload r = into_payload t →
      c_records chain' = c_records chain ++ [r] → grown chain'.

(** The bound of one state. *)
Record bounded s : Prop := {
  bd_round : (s_round s ≤ max_repair_rounds (s_budget s))%N;
  bd_reopen : ∀ k f, s_findings s !! k = Some f →
    (f_reopen_count f ≤ max_auto_reopens_per_fingerprint (s_budget s))%N;
  bd_budget : ∀ g, budget_entry (s_budget s) g
    = (λ v, v + granted g (s_extensions s))%N <$> budget_entry ReviewLoopBudget_default g;
}.

(** Findings whose reopen counts are those of [p]. *)
Definition reopens_like p s : Prop :=
  ∀ k f, s_findings s !! k = Some f →
    f_reopen_count f = 0%N ∨ ∃ f0, s_findings p !! k = Some f0 ∧ f_reopen_count f = f_reopen_count f0.

Lemma bounded_like p s :
  s_round s = s_round p → s_budget s = s_budget p → s_extensions s = s_extensions p →
  reopens_like p s → bounded p → bounded s.
Proof using.
  intros Hr Hb He Hf [B1 B2 B3]. split; rewrite ?Hr, ?Hb, ?He; [done| |done].
  intros k f Hk. destruct (Hf k f Hk) as [->|(f0 & Hf0 & ->)]; [lia|by eapply B2].
Qed.

Lemma reopens_same p s : s_findings s = s_findings p → reopens_like p s.
Proof using. intros Heq k f Hk. right. exists f. by rewrite <- Heq. Qed.

Lemma observe_bounded prev head obs t :
  observe_review_loop prev head obs = Ok t →
  (∀ p, prev = Some p → bounded p) → bounded (tr_state t).
Proof using.
  intros (Hh & cur & Hc & H)%observe_ok Hprev. destruct prev as [p|].
  - specialize (Hprev p eq_refl). destruct H as (Hv & p' & (-> & _)%resume_stopped_ok & Ho).
    apply observe_resumed_ok in Ho as [(_ & _ & ->)|(s & Hs & ->)]; cbn.
    { eapply bounded_like; [..|exact Hprev]; try done. by apply reopens_same. }
    destruct Hprev as [B1 B2 B3].
    split; rewrite (ob_budget _ _ _ _ Hs), ?(ob_extensions _ _ _ _ Hs); [| |done].
    + rewrite (ob_round _ _ _ _ Hs). apply (ob_round_budget _ _ _ _ Hs).
    + intros k f' Hk. pose proof (merge_findings_lookup _ _ _ _ _ _ (ob_findings _ _ _ _ Hs) k) as Hl.
      cbn in Hl |- *.
      destruct (s_findings p !! k) as [f|] eqn:Ef; destruct (cur !! k) as [o|] eqn:Eo.
      * destruct Hl as (f1 & Hm & Hl). assert (f1 = f') as -> by congruence.
        pose proof (mg_reopen _ _ _ _ _ _ Hm) as Hr. destruct (_ && _); [by destruct Hr|].
        rewrite Hr. by eapply B2.
      * rewrite Hl in Hk. injection Hk as <-. by eapply B2.
      * rewrite Hl in Hk. injection Hk as <-. cbn. lia.
      * by rewrite Hl in Hk.
  - subst t. cbn. split; [cbn; lia| |].
    + intros k f. cbn. rewrite lookup_fmap. intros (o & _ & ->)%fmap_Some_1. cbn. lia.
    + intros g. cbn. destruct (budget_entry _ g); cbn; [f_equal; lia|done].
Qed.

(** A budget raised by an extension that is remembered. *)
Lemma bounded_extended p s field n proposal reference :
  s_round s = s_round p → s_findings s = s_findings p →
  (∀ g, budget_entry (s_budget s) g
        = (λ v, v + if field ==? g then n else 0)%N <$> budget_entry (s_budget p) g) →
  s_extensions s = s_extensions p ++ [mk_ReviewLoopExtension proposal reference field n] →
  bounded p → bounded s.
Proof using.
  intros Hr Hf Hb He [B1 B2 B3]. split.
  - pose proof (Hb "max_repair_rounds") as H. cbn in H. injection H as H. lia.
  - intros k f Hk. rewrite Hf in Hk. specialize (B2 k f Hk).
    pose proof (Hb "max_auto_reopens_per_fingerprint") as H. cbn in H. injection H as H. lia.
  - intros g. rewrite Hb, B3, He, granted_app. cbn [granted x_budget_field x_increment].
    destruct (budget_entry ReviewLoopBudget_default g); cbn; [f_equal; lia|done].
Qed.

Lemma loop_write_bounded chain head s :
  loop_write chain head s →
  (∀ p, latest_review_loop_state chain = Some p → bounded p) → bounded s.
Proof using.
  intros [obs t Ht|p obs tip e s0 Hl _ _ Hs|p st pd ar code bf n s0 Hl _ _ He|p tip cp ar s0 Hl _ Hcp He] Hlatest.
  - by eapply observe_bounded.
  - apply record_stop_fields in Hs as (Hf & _ & Hr & Hb & Hx & _).
    eapply bounded_like; [done..| |by apply Hlatest]. by apply reopens_same.
  - apply apply_extension_ok in He as (b & _ & _ & _ & Hb & ->). apply extend_budget_ok in Hb as (_ & Hb & _).
    eapply bounded_extended; [| |exact Hb| |by apply Hlatest]; done.
  - set (args := {| ea_id := 0; ea_expected_head := head; ea_expected_state := tip; ea_stop_code := "";
                    ea_budget_field := cp_budget_field cp; ea_increment := cp_increment cp;
                    ea_proposal_digest := cp_proposal_digest cp; ea_approval_comment := 0 |}).
    unfold ceiling_proposal in Hcp. destruct (_ || _) in Hcp; [done|].
    apply bind_ok in Hcp as (pd & _ & Hcp). injection Hcp as Hcp.
    destruct (extend_ceiling_ok args p cp ar s0) as [Hb Hx Hf _ Hr _]; try done; try (by rewrite <- Hcp).
    eapply bounded_extended; [| |exact Hb| |by apply Hlatest]; done.
Qed.

(** Corrections, supersessions and acceptances never touch rounds, budgets or extensions, and
    keep the reopen count of every finding. *)
Lemma receipt_bounded chain t :
  receipt_of chain t → tr_changed t = true →
  ∃ p, latest_state (c_records chain) = Some p ∧ (bounded p → bounded (tr_state t)).
Proof using.
  intros [head tip q obs t0 H|head tip q obs commits t0 H|head tip q obs ref t0 H] Hc.
  - apply apply_correction_changed in H as (c & corrected & inv & -> & Hr & _); [|done]. cbn.
    apply restore_ok in Hr as (target & prior & fs & Hctx & _ & _ & Hfs & Hs). cbv zeta in Hs.
    apply context_ok in Hctx as (p & Hl & _ & -> & _). exists p. split; [done|]. intros Hb.
    assert (Hlike : reopens_like p (set_findings p fs)).
    { intros k f Hk. cbn in Hk. right. apply restore_findings_ok in Hfs as [H1 H2]. cbn in H1, H2.
      destruct (decide (k ∈ cr_restored_findings c)) as [Hin|Hin].
      - destruct (H1 k Hin) as (f0 & f' & Hf0 & _ & Hf' & _ & _ & Heq). exists f0.
        split; [done|]. assert (f = f') as -> by congruence. by rewrite Heq.
      - exists f. split; [|done]. by rewrite <- (H2 k Hin). }
    destruct Hs as [->|(tp & e & _ & Hs)].
    + eapply bounded_like; [..|exact Hb]; done.
    + apply record_stop_fields in Hs as (Hf & _ & Hr & Hbu & Hx & _).
      eapply bounded_like; [..|exact Hb]; [by rewrite Hr|by rewrite Hbu|by rewrite Hx|].
      intros k f Hk. rewrite Hf in Hk. by apply (Hlike k f).
  - apply apply_supersession_changed in H as (lt & p & st & cn & od & b & pd & Hl & Hp & _ & _ & _ & _ & _ & _ & _ & _ & ->); [|done].
    exists p. split; [by eapply latest_state_of_record|]. intros Hb. cbn.
    eapply bounded_like; [..|exact Hb]; try done. by apply reopens_same.
  - apply apply_acceptance_changed in H as (lt & p & cur & att & st & pd & ks & Hl & Hp & _ & _ & _ & _ & _ & _ & ->); [|done].
    exists p. split; [by eapply latest_state_of_record|]. intros Hb. cbn.
    eapply bounded_like; [..|exact Hb]; try done. intros k f Hk. cbn in Hk.
    rewrite accept_findings_lookup in Hk. destruct (cur !! k) as [row|]; [|right; by exists f].
    injection Hk as <-. unfold accept_finding. cbn. destruct (s_findings p !! k) as [f0|] eqn:E; [|by left].
    right. by exists f0.
Qed.

Definition all_bounded (chain : ReviewStateChain) : Prop :=
  ∀ r s, r ∈ c_records chain → payload_state (r_payload r) = Some s → bounded s.

Lemma latest_bounded chain :
  all_bounded chain →
  (∀ p, latest_review_loop_state chain = Some p → bounded p)
  ∧ (∀ p, latest_state (c_records chain) = Some p → bounded p).
Proof using.
  intros H. split.
  - intros p Hp. unfold latest_review_loop_state in Hp. apply find_map_in in Hp as (r & Hr & Hp).
    rewrite elem_of_rev in Hr. by eapply H.
  - intros p Hp. apply find_map_in in Hp as (r & Hr & Hp). rewrite elem_of_rev in Hr. by eapply H.
Qed.

Lemma grown_bounded chain : grown chain → all_bounded chain.
Proof using.
  assert (Hsnoc : ∀ chain chain' r, all_bounded chain → c_records chain' = c_records chain ++ [r] →
            (∀ s, payload_state (r_payload r) = Some s → bounded s) → all_bounded chain').
  { intros chain0 chain' r IH Hc Hr x s Hx Hs. rewrite Hc in Hx.
    apply elem_of_app in Hx as [Hx| ->%list_elem_of_singleton]; [by eapply IH|by apply Hr]. }
  induction 1 as [chain H|chain chain' r _ IH Hr Hc|chain chain' head s r _ IH Hw Hr Hc
                 |chain chain' t r _ IH Hrec Ht Hr Hc].
  - intros r s Hin. rewrite H in Hin. by apply not_elem_of_nil in Hin.
  - eapply Hsnoc; [done..|]. intros s. by rewrite Hr.
  - eapply Hsnoc; [done..|]. rewrite Hr. cbn. intros s0 [= <-].
    eapply loop_write_bounded; [done|]. by apply (latest_bounded chain IH).
  - eapply Hsnoc; [done..|]. rewrite Hr. intros s0 Hs0.
    assert (s0 = tr_state t) as ->.
    { unfold into_payload in Hs0. destruct (tr_acceptance t), (tr_supersession t), (tr_correction t); cbn in Hs0; congruence. }
    destruct (receipt_bounded _ _ Hrec Ht) as (p & Hp & Hb). by apply Hb, (latest_bounded chain IH).
Qed.

End lifecycle.

(** ** A ledger that was observed once *)
Section lifecycle_witness.
#[local] Existing Instance demo_hasher.
#[local] Existing Instance demo_json.
#[local] Existing Instance demo_url.
#[local] Instance lifecycle_serde : LedgerSerde := demo_serde [].

End lifecycle_witness.
